(* ===== verification/_CoqProject ===== *)
-Q . S2P
Prelude.v
Protocol.v
Codec.v
Properties.v
Packet.v
Decode.v
Encode.v
Wire.v
CodecTheorems.v
TopicValidation.v
TopicTrie.v
SubscriptionStore.v
SubscriptionCache.v
TopicMapper.v
Remote.v
Bridge.v
BufferPool.v
WebSocket.v
Session.v
Hooks.v
Auth.v
Flapping.v
Proxy.v
Persistence.v
Cluster.v
Broker.v
Connection.v
Routing.v
Handlers.v
Wills.v
Retained.v
Delivery.v
Metrics.v
Federation.v
Events.v
Tasks.v
Invariant.v
Safety.v
Flow.v
System.v
Config.v
Listener.v
Text.v
Monitoring.v
Profiling.v
Tls.v
Lifecycle.v
