(* ===== verification/Prelude.v ===== *)
(** * VibeMQ: a verification development for the MQTT broker

    VibeMQ is a broker for MQTT v3.1.1 and v5.0. Clients connect over TCP, TLS
    or WebSocket; a task per connection decodes packets, checks them against
    hooks for authentication and access control, and changes state that all
    tasks share: sessions, subscriptions, retained messages and one channel per
    connection. Brokers are joined by bridges and by clusters. This development
    is a shallow embedding of that program, function by function, with theorems
    about each part and about their composition. Paths below are those of the
    repository's [src/] directory.

    ** Conventions

    A function that can fail returns an [outcome]: a value, an error, a panic or,
    for a loop that the model runs on fuel, exhausted fuel. Machine integers are
    [Z] with their wrap-around written out ([wrap_u16] and the like), bytes are
    [byte], text is [string] with its UTF-8 bytes, hash maps and sets are [gmap]
    and [gset], structures are records with an update notation. Times are
    nanoseconds of a clock that is an argument. Iteration over a hash map takes
    the order of [map_to_list]. Code outside the repository (Argon2, CIDR ranges,
    fjall, bincode, JSON, the PROXY header parser, WebSocket frames, gossip,
    rustls, prometheus, the profilers, the crates that read configuration files,
    system calls) is a parameter or a class with the documented laws the code
    relies on, and each theorem that uses one has a witness with an instance.

    ** Parts and files

    - Protocol: [Protocol] ([protocol/mod.rs], [reason.rs], [error.rs]),
      [Properties] ([protocol/properties.rs]), [Packet] ([protocol/packet.rs]).
    - Codec: [Codec] ([codec/mod.rs]), [Decode] ([codec/decode.rs]), [Encode]
      ([codec/encode.rs]); [Wire] has the byte layout as a reference and
      [CodecTheorems] the theorems.
    - Topics: [TopicValidation], [TopicTrie] and [SubscriptionStore] model the
      files of [topic/]; [SubscriptionCache] has the store's operations as atomic
      steps of threads that interleave.
    - Sessions: [Session] ([session/mod.rs]), the store as a heap of shared cells.
    - Access: [Hooks] ([hooks/mod.rs]), [Auth] ([auth/mod.rs], [acl/mod.rs]),
      [Flapping] ([flapping/mod.rs]).
    - Storage: [Persistence] ([persistence/]).
    - Broker: [Broker] (shared state and routing of [broker/mod.rs] and
      [broker/connection/]), [Connection] (the handlers of
      [broker/connection/]). A task is a [prog], a sequence of atomic actions;
      [run] executes it alone. [Routing], [Handlers], [Wills], [Retained],
      [Delivery] and [Flow] have theorems about tasks that run alone, [Wills]
      also about a delayed will that others interrupt; [Tasks], [Invariant],
      [Safety] and [System] treat all of them interleaved, by rely and guarantee.
    - Other brokers: [TopicMapper] ([config/bridge.rs],
      [bridge/topic_mapper.rs]), [Remote] ([remote/]), [Bridge]
      ([bridge/client.rs], [bridge/manager.rs]), [Cluster] ([cluster/]), and
      [Federation], which attaches them to the broker as [broker/mod.rs] does;
      [Events], the loops that get the broker's events from a channel that may
      lag.
    - Transport: [WebSocket] ([transport/websocket.rs]), [Proxy]
      ([proxy/parser.rs]), [Listener] (the accept loops of [broker/mod.rs] and
      of [cluster/manager.rs]), [BufferPool] ([buffer_pool.rs]).
    - Operation: [Config] ([config/] and the settings made in [main.rs]),
      [Metrics] (the values of [metrics/mod.rs], [broker/sys_topics.rs]),
      [Monitoring] (the registry of [metrics/mod.rs] and [metrics/server.rs]),
      [Profiling] ([profiling.rs]) on [Text], the library's text functions.
    - Start and end: [Tls] ([broker/tls.rs]) and [Lifecycle]: what [Broker::run]
      starts and what the shutdown signal ends, the start of a cluster node, opening and
      closing of the storage, socket options ([transport/mod.rs]), and the order
      of all this in [main.rs].

    This file has what they share: outcomes, machine integers, slices, strings,
    record updates, and the tactics.

    ** What the theorems show

    - Codec: decoding inverts encoding for every well-formed packet and both
      versions; the decoder returns on every input without panic, and its packets are well formed.
    - Topics: the trie refines a finite map and its search agrees with the
      reference matcher; the store keeps its invariant and, with its cache,
      returns the entries of the matching filters and one member per share group,
      also when operations interleave.
    - Sessions: a session is resumed exactly when it should be; packet
      identifiers are fresh while limits leave one free.
    - Routing and handlers: who gets a message and how; QoS 2 releases each
      message once; flow control over the life of a session, with what a resumed
      one can exceed; wills and delayed wills; a published message reaches the
      subscriber's socket as bytes it decodes to that message.
    - The running broker: under every interleaving of clients that send
      arbitrary bytes, of timers and of background tasks, the invariant holds and
      no task panics or hangs, for settings that leave packet identifiers free
      for the connections at a time, have timers that are not zero and a channel
      capacity that tokio accepts ([setting_ok]); [Config] says which
      configurations give such settings. A busy connection finishes.
    - Access: authentication and access control decide as configured; rate limit
      and bans hold, the former up to a new burst when the cleanup drops an entry.
      The detector's counts are those of the connections in every schedule of the
      listeners, and of the connections that panicked; the limit per address holds with TCP alone and
      can be exceeded with WebSocket.
    - Storage: what the broker retained survives a restart, if its operations were
      accepted and written; a shutdown stores what was accepted up to what is
      still with the writer or in its channel, which is lost.
    - Other brokers: forwarded messages arrive as the rules say, what comes in on
      the broker's own connections to others is not forwarded, gossip leads
      messages to the nodes with matching filters. A loop that keeps up with its channel handles every event. Proved
      too are losses: of the first subscription sync, of a filter that one of
      several clients leaves, of a node first seen without an address, and of
      events when a loop lags; and that brokers with bridges to each other can
      send a message round and round.
    - Transport and operation: WebSocket and PROXY streams lose no bytes of their
      own; settings are those of the command line or the file; only valid configurations
      are used; environment variables are substituted once.
    - Start and end: a broker that starts listens exactly where a valid
      configuration says, with every socket bound before its loop starts, a TLS listener checks client certificates as
      configured or does not exist, and the program flushes its storage whatever
      the broker's result; the shutdown signal leaves the accept loops running.
    - Diagnosis: all metrics are registered and tell what was counted; reports on
      samples lose none, reports on the heap show the sites of the dump (what thread 0
      allocates twice), and a
      stored profile is handed out once.

    Some theorems state what the code does where it does not do what it means to;
    they say so in their comments.

    ** Fuel

    Loops that are not structural run on fuel that is proved to be enough: the
    variable byte integer 5 rounds; loops over a buffer one more round than it
    has bytes; the search for a packet identifier 65535 rounds, enough while one
    is free, which [setting_ok] ensures; the PROXY header 17 rounds for its first
    16 bytes, 108 for a line and one more than the length otherwise; the
    substitution of variables one round per character. Recursion over a list of
    events (reads, commands, schedules) is on that list, for every list.

    ** Not modelled

    - [lib.rs], which only declares modules; argument parsing and logging; the
      texts of errors that carry a library's message; the HTTP connections of the
      metrics and profiling servers, which hyper serves.
    - The layout of reports with floating-point numbers, which are kept as their
      numbers, and the HTML of the profiling server's first page.
    - What system calls do: sockets, files, signals and sleeping answer what an
      environment says; in [Listener] and [System] a shutdown ends a connection
      like any other end.
    - [Federation] and [Metrics] treat the events a loop has handled; which of
      those sent these are is in [Events].
    - Memory: allocation does not fail, and the atomics of metrics and detector
      are updated one operation at a time.
    - Restoring sessions after a restart, which the code leaves as future work. *)

From Stdlib Require Export ZArith Lia.
From Stdlib Require Export Strings.Ascii Strings.Byte.
From stdpp Require Export base gmap strings list fin_maps.

#[global] Open Scope Z_scope.

(** ** Outcomes

    A Rust [Result<A, E>] together with the two ways in which a Rust function
    can fail to return one: a panic (slice or index out of range, [unwrap] of
    [None]) and, for the loops that the model runs on fuel, exhausted fuel. *)
Inductive outcome (E A : Type) : Type :=
  | Ok (a : A)
  | Err (e : E)
  | Panic
  | NoFuel.
Arguments Ok {E A} a.
Arguments Err {E A} e.
Arguments Panic {E A}.
Arguments NoFuel {E A}.

#[global] Instance outcome_ret {E} : MRet (outcome E) := fun A a => Ok a.
#[global] Instance outcome_bind {E} : MBind (outcome E) :=
  fun A B k m =>
    match m with
    | Ok a => k a
    | Err e => Err e
    | Panic => Panic
    | NoFuel => NoFuel
    end.

(** [Option::ok_or] and [Option::unwrap]. *)
Definition ok_or {E A} (o : option A) (e : E) : outcome E A :=
  match o with Some a => Ok a | None => Err e end.

Definition unwrap {E A} (o : option A) : outcome E A :=
  match o with Some a => Ok a | None => Panic end.

(** [Option::is_some], [Option::is_none] and [Vec::is_empty]. *)
Definition is_some {A} (o : option A) : bool :=
  match o with Some _ => true | None => false end.
Definition is_none {A} (o : option A) : bool := negb (is_some o).
Definition is_nil {A} (l : list A) : bool :=
  match l with [] => true | _ :: _ => false end.

(** [post r Q]: the computation returns (it neither panics nor runs out of
    fuel) and, when it returns [Ok a], [Q a] holds. *)
Definition post {E A} (r : outcome E A) (Q : A → Prop) : Prop :=
  match r with Ok a => Q a | Err _ => True | Panic | NoFuel => False end.

(** ** Machine integers *)
Definition wrap_u8 (z : Z) : Z := z mod 256.
Definition wrap_u16 (z : Z) : Z := z mod 65536.
Definition wrap_u32 (z : Z) : Z := z mod 4294967296.
Definition wrap_u64 (z : Z) : Z := z mod 18446744073709551616.

Definition is_u8 (z : Z) : Prop := 0 ≤ z < 256.
Definition is_u16 (z : Z) : Prop := 0 ≤ z < 65536.
Definition is_u32 (z : Z) : Prop := 0 ≤ z < 4294967296.

(** [u32] arithmetic with its overflow check: a result outside the type is a
    panic. *)
Definition checked_u32 {E} (z : Z) : outcome E Z :=
  if (0 <=? z) && (z <? 4294967296) then Ok z else Panic.

Lemma checked_u32_ok {E} z : is_u32 z → @checked_u32 E z = Ok z.
Proof.
  unfold is_u32, checked_u32. intros [H1 H2]. apply Z.leb_le in H1 as ->. apply Z.ltb_lt in H2 as ->. done.
Qed.

(** ** Bytes, slices and buffers *)
#[global] Instance byte_eq_dec : EqDecision byte := Byte.byte_eq_dec.

Definition u8 (b : byte) : Z := Z.of_N (Byte.to_N b).

Definition to_u8 (z : Z) : byte :=
  match Byte.of_N (Z.to_N (z mod 256)) with Some b => b | None => x00 end.

Definition zlen {A} (l : list A) : Z := Z.of_nat (length l).

(** [buf[i]] *)
Definition index {E} (buf : list byte) (i : Z) : outcome E Z :=
  if 0 <=? i then
    match buf !! Z.to_nat i with Some b => Ok (u8 b) | None => Panic end
  else Panic.

(** [&buf[i..]] *)
Definition slice_from {E} (buf : list byte) (i : Z) : outcome E (list byte) :=
  if (0 <=? i) && (i <=? zlen buf) then Ok (drop (Z.to_nat i) buf) else Panic.

(** [&buf[i..j]] *)
Definition slice {E} (buf : list byte) (i j : Z) : outcome E (list byte) :=
  if (0 <=? i) && (i <=? j) && (j <=? zlen buf)
  then Ok (take (Z.to_nat (j - i)) (drop (Z.to_nat i) buf)) else Panic.

(** [uN::from_be_bytes] and [BufMut::put_uN]. *)
Definition u16_from_be (a b : Z) : Z := a * 256 + b.
Definition u32_from_be (a b c d : Z) : Z := ((a * 256 + b) * 256 + c) * 256 + d.
Definition be_u16 (v : Z) : list byte := [to_u8 (v / 256); to_u8 v].
Definition be_u32 (v : Z) : list byte :=
  [to_u8 (v / 16777216); to_u8 (v / 65536); to_u8 (v / 256); to_u8 v].

(** ** Strings

    A Rust [str] is a byte string that is valid UTF-8; here it is a [string]
    of 8-bit characters. *)
Definition as_bytes (s : string) : list byte := String.list_byte_of_string s.
Definition of_bytes (l : list byte) : string := String.string_of_list_byte l.
Definition slen (s : string) : Z := Z.of_nat (String.length s).

(** [str::contains(c)], [str::starts_with(c)], [str::is_empty()] *)
Fixpoint contains (c : Ascii.ascii) (s : string) : bool :=
  match s with
  | EmptyString => false
  | String a s => Ascii.eqb a c || contains c s
  end.

Definition starts_with (c : Ascii.ascii) (s : string) : bool :=
  match s with EmptyString => false | String a _ => Ascii.eqb a c end.

Definition is_empty (s : string) : bool :=
  match s with EmptyString => true | _ => false end.

(** [str::strip_prefix(p)] *)
Fixpoint strip_prefix (p s : string) : option string :=
  match p, s with
  | EmptyString, _ => Some s
  | String a p, String b s => if Ascii.eqb a b then strip_prefix p s else None
  | String _ _, EmptyString => None
  end.

(** [s.find(c)] followed by the two slices around the separator: the part
    before the first [c] and the part after it. *)
Fixpoint split_once (c : Ascii.ascii) (s : string) : option (string * string) :=
  match s with
  | EmptyString => None
  | String a s =>
      if Ascii.eqb a c then Some (EmptyString, s)
      else match split_once c s with
           | Some (l, r) => Some (String a l, r)
           | None => None
           end
  end.

(** [str::split(c)]: never empty. *)
Fixpoint split (c : Ascii.ascii) (s : string) : list string :=
  match s with
  | EmptyString => [EmptyString]
  | String a s =>
      if Ascii.eqb a c then EmptyString :: split c s
      else match split c s with
           | l :: ls => String a l :: ls
           | [] => [String a EmptyString]
           end
  end.

(** [[&str]::join(sep)] for a one-character separator. *)
Fixpoint join (c : Ascii.ascii) (ls : list string) : string :=
  match ls with
  | [] => EmptyString
  | [l] => l
  | l :: ls => String.append l (String c (join c ls))
  end.

#[global] Arguments contains c%_char_scope s%_string_scope.
#[global] Arguments starts_with c%_char_scope s%_string_scope.
#[global] Arguments split_once c%_char_scope s%_string_scope.
#[global] Arguments split c%_char_scope s%_string_scope.
#[global] Arguments join c%_char_scope ls.

(** [str::from_utf8]: the well-formed byte sequences of the Unicode standard
    (table 3-7), which is what [core::str] accepts. *)
Definition in_range (lo hi : Z) (b : byte) : bool := (lo <=? u8 b) && (u8 b <=? hi).
Definition utf8_cont (b : byte) : bool := in_range 0x80 0xBF b.

Fixpoint utf8_valid (l : list byte) : bool :=
  match l with
  | [] => true
  | b0 :: l1 =>
      if u8 b0 <? 0x80 then utf8_valid l1
      else
        match l1 with
        | [] => false
        | b1 :: l2 =>
            if in_range 0xC2 0xDF b0 then utf8_cont b1 && utf8_valid l2
            else
              match l2 with
              | [] => false
              | b2 :: l3 =>
                  if u8 b0 =? 0xE0 then in_range 0xA0 0xBF b1 && utf8_cont b2 && utf8_valid l3
                  else if u8 b0 =? 0xED then in_range 0x80 0x9F b1 && utf8_cont b2 && utf8_valid l3
                  else if in_range 0xE1 0xEF b0 then utf8_cont b1 && utf8_cont b2 && utf8_valid l3
                  else
                    match l3 with
                    | [] => false
                    | b3 :: l4 =>
                        if u8 b0 =? 0xF0 then
                          in_range 0x90 0xBF b1 && utf8_cont b2 && utf8_cont b3 && utf8_valid l4
                        else if in_range 0xF1 0xF3 b0 then
                          utf8_cont b1 && utf8_cont b2 && utf8_cont b3 && utf8_valid l4
                        else if u8 b0 =? 0xF4 then
                          in_range 0x80 0x8F b1 && utf8_cont b2 && utf8_cont b3 && utf8_valid l4
                        else false
                    end
              end
        end
  end.

Definition from_utf8 (l : list byte) : option string :=
  if utf8_valid l then Some (of_bytes l) else None.

(** ** Record updates

    [r <| f := v |>] is Rust's [r.f = v]: the record [r] with its field [f]
    replaced. A record type gives its eta expansion as an [Eta] instance and
    the setter of each field is computed from it. *)
Class Eta (R : Type) : Type := eta : R → R.

Class Setter {R E : Type} (proj : R → E) : Type := set_field : (E → E) → R → R.
Arguments set_field {R E} proj {_} f r.

Ltac solve_setter R proj :=
  let i := constr:(_ : Eta R) in
  let e := eval hnf in i in
  lazymatch eval pattern proj in e with
  | ?upd _ =>
      let t := eval cbv beta in (fun f => upd (fun r => f (proj r))) in
      exact t
  end.

#[global] Hint Extern 1 (@Setter ?R _ ?proj) => solve_setter R proj : typeclass_instances.

Notation "r <| p := v |>" := (set_field p (fun _ => v) r)
  (at level 1, p constr at level 1, v at level 99, left associativity).
Notation "r <| p ::= f |>" := (set_field p f r)
  (at level 1, p constr at level 1, f at level 99, left associativity).

(** ** Time

    [Instant]s and [Duration]s are nanosecond counts; [duration_since]
    saturates at zero and [as_secs]/[as_millis] truncate. *)
Definition duration_since (now earlier : Z) : Z := Z.max 0 (now - earlier).
Definition as_secs (d : Z) : Z := d / 1000000000.
Definition from_secs (s : Z) : Z := s * 1000000000.
Definition as_millis (d : Z) : Z := d / 1000000.

(** ** Automation *)
Create HintDb vibe discriminated.
Create Rewrite HintDb vibe_len.

(** Linear arithmetic with division and modulo by constants. *)
Ltac zdm := Z.to_euclidean_division_equations; lia.

(** Splits the conditionals of the goal and discharges the arithmetic. *)
Ltac zcase :=
  repeat match goal with
  | |- context [if (?a <? ?b)%Z then _ else _] => destruct (Z.ltb_spec a b)
  | |- context [if (?a <=? ?b)%Z then _ else _] => destruct (Z.leb_spec a b)
  | |- context [if (?a =? ?b)%Z then _ else _] => destruct (Z.eqb_spec a b)
  | |- context [if negb (?a =? ?b)%Z then _ else _] => destruct (Z.eqb_spec a b); cbn [negb]
  | |- context [if (?a >=? ?b)%Z then _ else _] => rewrite (Z.geb_leb a b)
  | |- context [if (?a >? ?b)%Z then _ else _] => rewrite (Z.gtb_ltb a b)
  end.

(** ** Lemmas: outcomes *)
Section outcomes.
Context {E : Type}.

Lemma post_bind {A B} (m : outcome E A) (k : A → outcome E B) (Q : B → Prop) :
  post m (λ a, post (k a) Q) → post (m ≫= k) Q.
Proof. by destruct m. Qed.

Lemma bind_Ok {A B} (a : A) (k : A → outcome E B) : Ok a ≫= k = k a.
Proof. done. Qed.

Lemma post_mono {A} (m : outcome E A) (P Q : A → Prop) :
  post m P → (∀ a, P a → Q a) → post m Q.
Proof. destruct m; simpl; auto. Qed.

Lemma post_Ok_inv {A} (m : outcome E A) (Q : A → Prop) a :
  post m Q → m = Ok a → Q a.
Proof. by intros ? ->. Qed.

Lemma post_True {A} (m : outcome E A) (Q : A → Prop) : post m Q → post m (λ _, True).
Proof. intros. eapply post_mono; eauto. Qed.

Lemma post_ok_or {A} (o : option A) (e : E) (Q : A → Prop) :
  (∀ a, o = Some a → Q a) → post (ok_or o e) Q.
Proof. destruct o; simpl; auto. Qed.

End outcomes.

(** Advances a [post] goal over one bind, conditional or [Err]. *)
Ltac wp_step :=
  lazymatch goal with
  | |- post (Err _) _ => exact I
  | |- post (Ok _) _ => simpl
  | |- post (_ ≫= _) _ => apply post_bind
  | |- post (if ?c then _ else _) _ => destruct c eqn:?
  | |- post (let _ := ?t in _) _ => cbv zeta
  | |- post (ok_or _ _) _ => apply post_ok_or; intros ? ?
  end.

(** Passes the guards [if c then Err e else ...] of a [post] goal. *)
Ltac wp_guard :=
  repeat match goal with
  | |- post (if ?c then Err _ else _) _ => destruct c eqn:?; [exact I|]
  end.

(** ** Lemmas: bytes and slices *)
Lemma u8_range b : 0 ≤ u8 b < 256.
Proof. unfold u8. pose proof (Byte.to_N_bounded b). lia. Qed.

(** A decidable property of bytes is proved by evaluating it on all of them. *)
Lemma u8_forall (P : Z → bool) :
  forallb P (seqZ 0 256) = true → ∀ z, is_u8 z → P z = true.
Proof.
  intros H z Hz. rewrite forallb_forall in H. apply H, list_elem_of_In, elem_of_seqZ.
  unfold is_u8 in Hz. lia.
Qed.

Lemma u8_to_u8 z : u8 (to_u8 z) = z mod 256.
Proof.
  unfold u8, to_u8. pose proof (Z.mod_pos_bound z 256 eq_refl) as Hz.
  destruct (Byte.of_N (Z.to_N (z mod 256))) eqn:Hb.
  - apply Byte.to_of_N in Hb. rewrite Hb. lia.
  - apply Byte.of_N_None_iff in Hb. lia.
Qed.

Lemma u8_to_u8_small z : is_u8 z → u8 (to_u8 z) = z.
Proof. intros. rewrite u8_to_u8. apply Z.mod_small. done. Qed.

Lemma to_u8_u8 b : to_u8 (u8 b) = b.
Proof. by destruct b. Qed.

Lemma zlen_nonneg {A} (l : list A) : 0 ≤ zlen l.
Proof. unfold zlen. lia. Qed.

Lemma zlen_app {A} (l k : list A) : zlen (l ++ k) = zlen l + zlen k.
Proof. unfold zlen. rewrite length_app. lia. Qed.

Lemma zlen_cons {A} (a : A) l : zlen (a :: l) = 1 + zlen l.
Proof. unfold zlen. simpl. lia. Qed.

Lemma zlen_nil {A} : zlen (@nil A) = 0.
Proof. done. Qed.

#[export] Hint Rewrite @zlen_app @zlen_cons @zlen_nil : vibe_len.

Lemma u16_from_be_be v : is_u16 v → u16_from_be (u8 (to_u8 (v / 256))) (u8 (to_u8 v)) = v.
Proof. unfold u16_from_be, is_u16. intros. rewrite !u8_to_u8. zdm. Qed.

Lemma u32_from_be_be v :
  is_u32 v →
  u32_from_be (u8 (to_u8 (v / 16777216))) (u8 (to_u8 (v / 65536)))
    (u8 (to_u8 (v / 256))) (u8 (to_u8 v)) = v.
Proof. unfold u32_from_be, is_u32. intros. rewrite !u8_to_u8. zdm. Qed.

Lemma u16_from_be_range a b : is_u8 a → is_u8 b → is_u16 (u16_from_be a b).
Proof. unfold u16_from_be, is_u8, is_u16. lia. Qed.

Lemma u32_from_be_range a b c d :
  is_u8 a → is_u8 b → is_u8 c → is_u8 d → is_u32 (u32_from_be a b c d).
Proof. unfold u32_from_be, is_u8, is_u32. lia. Qed.

Section slices.
Context {E : Type}.
Implicit Types (buf l k : list byte) (i : Z).

Lemma post_index buf i (Q : Z → Prop) :
  0 ≤ i < zlen buf → (∀ v, is_u8 v → Q v) → post (@index E buf i) Q.
Proof.
  unfold index, zlen. intros Hi HQ. zcase; [|lia].
  destruct (lookup_lt_is_Some_2 buf (Z.to_nat i)) as [b ->]; [lia|].
  simpl. apply HQ, u8_range.
Qed.

Lemma post_slice_from buf i (Q : list byte → Prop) :
  0 ≤ i ≤ zlen buf → (∀ l, zlen l = zlen buf - i → Q l) → post (@slice_from E buf i) Q.
Proof.
  unfold slice_from, zlen. intros Hi HQ.
  replace ((0 <=? i) && (i <=? Z.of_nat (length buf))) with true by lia.
  simpl. apply HQ. rewrite length_drop. lia.
Qed.

Lemma post_slice buf i j (Q : list byte → Prop) :
  0 ≤ i ≤ j → j ≤ zlen buf → (∀ l, zlen l = j - i → Q l) → post (@slice E buf i j) Q.
Proof.
  unfold slice, zlen. intros Hi Hj HQ.
  replace ((0 <=? i) && (i <=? j) && (j <=? Z.of_nat (length buf))) with true by lia.
  simpl. apply HQ. rewrite length_take, length_drop. lia.
Qed.

(** [at_pos buf i rest]: [rest] is what is left of [buf] from position [i]. *)
Definition at_pos buf i rest : Prop := 0 ≤ i ∧ ∃ l, buf = l ++ rest ∧ zlen l = i.

Lemma at_pos_0 buf : at_pos buf 0 buf.
Proof. split; [lia|]. by exists []. Qed.

Lemma at_pos_app buf i j l k : at_pos buf i (l ++ k) → j = i + zlen l → at_pos buf j k.
Proof.
  intros [? (p & -> & <-)] ->. split; [pose proof (zlen_nonneg l); lia|].
  exists (p ++ l). rewrite <-app_assoc, zlen_app. done.
Qed.

Lemma at_pos_cons buf i j b k : at_pos buf i (b :: k) → j = i + 1 → at_pos buf j k.
Proof. intros H ->. by apply (at_pos_app _ i _ [b]). Qed.

Lemma at_pos_len buf i rest : at_pos buf i rest → zlen buf = i + zlen rest.
Proof. intros [_ (p & -> & <-)]. apply zlen_app. Qed.

Lemma at_pos_slice_from buf i rest : at_pos buf i rest → @slice_from E buf i = Ok rest.
Proof.
  intros [Hi (p & -> & <-)]. unfold slice_from. rewrite zlen_app.
  pose proof (zlen_nonneg rest).
  replace ((0 <=? zlen p) && (zlen p <=? zlen p + zlen rest)) with true by lia.
  unfold zlen. rewrite Nat2Z.id. by rewrite drop_app_length.
Qed.

Lemma at_pos_index buf i b rest : at_pos buf i (b :: rest) → @index E buf i = Ok (u8 b).
Proof.
  intros [Hi (p & -> & <-)]. unfold index. zcase; [|lia].
  unfold zlen. rewrite Nat2Z.id. by rewrite list_lookup_middle.
Qed.

Lemma slice_from_0 buf : @slice_from E buf 0 = Ok buf.
Proof. apply at_pos_slice_from, at_pos_0. Qed.

Lemma at_pos_slice buf i j l rest :
  at_pos buf i (l ++ rest) → j = i + zlen l → @slice E buf i j = Ok l.
Proof.
  intros [Hi (p & -> & <-)] ->. unfold slice. rewrite !zlen_app.
  pose proof (zlen_nonneg rest). pose proof (zlen_nonneg l).
  replace ((0 <=? zlen p) && (zlen p <=? zlen p + zlen l)
    && (zlen p + zlen l <=? zlen p + (zlen l + zlen rest))) with true by lia.
  replace (zlen p + zlen l - zlen p) with (zlen l) by lia.
  unfold zlen. rewrite !Nat2Z.id, drop_app_length. by rewrite take_app_length.
Qed.

End slices.

(** ** Lemmas: strings *)
Lemma of_bytes_as_bytes s : of_bytes (as_bytes s) = s.
Proof. apply String.string_of_list_byte_of_string. Qed.

Lemma as_bytes_of_bytes l : as_bytes (of_bytes l) = l.
Proof. apply String.list_byte_of_string_of_list_byte. Qed.

Lemma length_as_bytes s : length (as_bytes s) = String.length s.
Proof.
  unfold as_bytes, String.list_byte_of_string. rewrite length_map.
  induction s; simpl; congruence.
Qed.

Lemma zlen_as_bytes s : zlen (as_bytes s) = slen s.
Proof. unfold zlen, slen. by rewrite length_as_bytes. Qed.

#[export] Hint Rewrite zlen_as_bytes : vibe_len.

Lemma slen_of_bytes l : slen (of_bytes l) = zlen l.
Proof. by rewrite <-zlen_as_bytes, as_bytes_of_bytes. Qed.

Lemma slen_nonneg s : 0 ≤ slen s.
Proof. unfold slen. lia. Qed.

Lemma is_empty_slen s : is_empty s = (slen s =? 0).
Proof. by destruct s. Qed.

(** ** Lemmas: filtered lists *)
Lemma filter_all {A} (P : A → Prop) `{!∀ x, Decision (P x)} l : Forall P l → filter P l = l.
Proof. induction 1 as [|x l Hx _ IH]; [done|]. rewrite filter_cons_True by done. by rewrite IH. Qed.

Lemma filter_none {A} (P : A → Prop) `{!∀ x, Decision (P x)} l :
  Forall (λ x, ¬ P x) l → filter P l = [].
Proof. induction 1 as [|x l Hx _ IH]; [done|]. by rewrite filter_cons_False. Qed.

Lemma mjoin_cons {A} (x : list A) l : mjoin (x :: l) = x ++ mjoin l.
Proof. done. Qed.

Lemma filter_same_length {A} (P : A → Prop) `{!∀ x, Decision (P x)} (l : list A) :
  length (filter P l) = length l → filter P l = l.
Proof.
  induction l as [|x l IH]; [done|]. destruct (decide (P x)).
  - rewrite filter_cons_True by done. cbn. intros [=]. by rewrite IH.
  - rewrite filter_cons_False by done. cbn. intros Hl. pose proof (length_filter P l). lia.
Qed.

Lemma foldl_ext_elem {A B} (f g : A → B → A) l a :
  (∀ b, b ∈ l → ∀ a, f a b = g a b) → foldl f a l = foldl g a l.
Proof.
  revert a. induction l as [|b l IH]; intros a H; [done|]. cbn.
  rewrite H by constructor. apply IH. intros. apply H. by constructor.
Qed.

(** [lia] knowing that lengths are not negative. *)
Ltac pose_len :=
  repeat match goal with
  | |- context [slen ?s] => learn_hyp (slen_nonneg s)
  | _ : context [slen ?s] |- _ => learn_hyp (slen_nonneg s)
  | |- context [zlen ?s] => learn_hyp (zlen_nonneg s)
  | _ : context [zlen ?s] |- _ => learn_hyp (zlen_nonneg s)
  end.
Ltac llia := pose_len; lia.
