(* ===== verification/Protocol.v ===== *)
(** * Protocol types

    The enumerations of [protocol/mod.rs], [protocol/reason.rs] and
    [protocol/error.rs], with their byte encodings. *)

From S2P Require Import Prelude.

(** ** Errors ([protocol/error.rs]) *)
Module DE.

Inductive DecodeError : Type :=
  | InsufficientData
  | InvalidPacketType (t : Z)
  | InvalidRemainingLength
  | RemainingLengthTooLarge
  | InvalidProtocolName
  | InvalidProtocolVersion (v : Z)
  | InvalidQoS (q : Z)
  | InvalidUtf8
  | StringTooLong
  | InvalidPropertyId (id : Z)
  | DuplicateProperty (id : Z)
  | InvalidFlags
  | MalformedPacket (msg : string)
  | PacketTooLarge
  | InvalidReasonCode (r : Z)
  | InvalidSubscriptionOptions.

End DE.
Abbreviation DecodeError := DE.DecodeError.

Module EE.

Inductive EncodeError : Type :=
  | BufferTooSmall
  | PacketTooLarge
  | StringTooLong
  | InvalidTopicName
  | TooManySubscriptions.

End EE.
Abbreviation EncodeError := EE.EncodeError.

Module PE.

Inductive ProtocolError : Type :=
  | Decode (e : DecodeError)
  | Encode (e : EncodeError)
  | ConnectionRefused (code : Z)
  | ProtocolViolation (msg : string)
  | SessionExpired
  | NotAuthorized
  | QuotaExceeded
  | KeepAliveTimeout
  | ImplementationError (msg : string).

End PE.
Abbreviation ProtocolError := PE.ProtocolError.

(** ** Protocol version, QoS and retain handling ([protocol/mod.rs]) *)
Inductive ProtocolVersion : Type := V311 | V5.

Definition ProtocolVersion_as_u8 (v : ProtocolVersion) : Z :=
  match v with V311 => 4 | V5 => 5 end.

Definition ProtocolVersion_from_u8 (v : Z) : option ProtocolVersion :=
  match v with
  | 4 => Some V311
  | 5 => Some V5
  | _ => None
  end.

Inductive QoS : Type := AtMostOnce | AtLeastOnce | ExactlyOnce.

Definition QoS_as_u8 (q : QoS) : Z :=
  match q with AtMostOnce => 0 | AtLeastOnce => 1 | ExactlyOnce => 2 end.

Definition QoS_from_u8 (v : Z) : option QoS :=
  match v with
  | 0 => Some AtMostOnce
  | 1 => Some AtLeastOnce
  | 2 => Some ExactlyOnce
  | _ => None
  end.

Definition QoS_min (self other : QoS) : QoS :=
  if QoS_as_u8 self <? QoS_as_u8 other then self else other.

Inductive RetainHandling : Type := SendAtSubscribe | SendAtSubscribeIfNew | DoNotSend.

Definition RetainHandling_as_u8 (r : RetainHandling) : Z :=
  match r with SendAtSubscribe => 0 | SendAtSubscribeIfNew => 1 | DoNotSend => 2 end.

Definition RetainHandling_from_u8 (v : Z) : option RetainHandling :=
  match v with
  | 0 => Some SendAtSubscribe
  | 1 => Some SendAtSubscribeIfNew
  | 2 => Some DoNotSend
  | _ => None
  end.

(** ** Subscription options *)
Record SubscriptionOptions : Type := MkSubscriptionOptions {
  so_qos : QoS;
  so_no_local : bool;
  so_retain_as_published : bool;
  so_retain_handling : RetainHandling;
}.

Definition SubscriptionOptions_default : SubscriptionOptions :=
  MkSubscriptionOptions AtMostOnce false false SendAtSubscribe.

(** [b as u8] for a [bool]. *)
Definition bool_as_u8 (b : bool) : Z := if b then 1 else 0.

Definition SubscriptionOptions_from_byte (byte : Z) : option SubscriptionOptions :=
  qos ← QoS_from_u8 (Z.land byte 0x03);
  let no_local := negb (Z.land byte 0x04 =? 0) in
  let retain_as_published := negb (Z.land byte 0x08 =? 0) in
  retain_handling ← RetainHandling_from_u8 (Z.land (Z.shiftr byte 4) 0x03);
  if negb (Z.land byte 0xC0 =? 0) then None
  else Some (MkSubscriptionOptions qos no_local retain_as_published retain_handling).

Definition SubscriptionOptions_to_byte (o : SubscriptionOptions) : Z :=
  Z.lor (Z.lor (Z.lor (QoS_as_u8 (so_qos o))
    (Z.shiftl (bool_as_u8 (so_no_local o)) 2))
    (Z.shiftl (bool_as_u8 (so_retain_as_published o)) 3))
    (Z.shiftl (RetainHandling_as_u8 (so_retain_handling o)) 4).

(** ** Reason codes ([protocol/reason.rs]) *)
Module RC.

Inductive ReasonCode : Type :=
  | Success
  | GrantedQoS1
  | GrantedQoS2
  | DisconnectWithWill
  | NoMatchingSubscribers
  | NoSubscriptionExisted
  | ContinueAuthentication
  | ReAuthenticate
  | UnspecifiedError
  | MalformedPacket
  | ProtocolError
  | ImplementationError
  | UnsupportedProtocolVersion
  | ClientIdNotValid
  | BadUserNameOrPassword
  | NotAuthorized
  | ServerUnavailable
  | ServerBusy
  | Banned
  | ServerShuttingDown
  | BadAuthenticationMethod
  | KeepAliveTimeout
  | SessionTakenOver
  | TopicFilterInvalid
  | TopicNameInvalid
  | PacketIdInUse
  | PacketIdNotFound
  | ReceiveMaxExceeded
  | TopicAliasInvalid
  | PacketTooLarge
  | MessageRateTooHigh
  | QuotaExceeded
  | AdministrativeAction
  | PayloadFormatInvalid
  | RetainNotSupported
  | QoSNotSupported
  | UseAnotherServer
  | ServerMoved
  | SharedSubsNotSupported
  | ConnectionRateExceeded
  | MaximumConnectTime
  | SubIdNotSupported
  | WildcardSubsNotSupported.

End RC.
Abbreviation ReasonCode := RC.ReasonCode.

Definition ReasonCode_as_u8 (r : ReasonCode) : Z :=
  match r with
  | RC.Success => 0x00
  | RC.GrantedQoS1 => 0x01
  | RC.GrantedQoS2 => 0x02
  | RC.DisconnectWithWill => 0x04
  | RC.NoMatchingSubscribers => 0x10
  | RC.NoSubscriptionExisted => 0x11
  | RC.ContinueAuthentication => 0x18
  | RC.ReAuthenticate => 0x19
  | RC.UnspecifiedError => 0x80
  | RC.MalformedPacket => 0x81
  | RC.ProtocolError => 0x82
  | RC.ImplementationError => 0x83
  | RC.UnsupportedProtocolVersion => 0x84
  | RC.ClientIdNotValid => 0x85
  | RC.BadUserNameOrPassword => 0x86
  | RC.NotAuthorized => 0x87
  | RC.ServerUnavailable => 0x88
  | RC.ServerBusy => 0x89
  | RC.Banned => 0x8A
  | RC.ServerShuttingDown => 0x8B
  | RC.BadAuthenticationMethod => 0x8C
  | RC.KeepAliveTimeout => 0x8D
  | RC.SessionTakenOver => 0x8E
  | RC.TopicFilterInvalid => 0x8F
  | RC.TopicNameInvalid => 0x90
  | RC.PacketIdInUse => 0x91
  | RC.PacketIdNotFound => 0x92
  | RC.ReceiveMaxExceeded => 0x93
  | RC.TopicAliasInvalid => 0x94
  | RC.PacketTooLarge => 0x95
  | RC.MessageRateTooHigh => 0x96
  | RC.QuotaExceeded => 0x97
  | RC.AdministrativeAction => 0x98
  | RC.PayloadFormatInvalid => 0x99
  | RC.RetainNotSupported => 0x9A
  | RC.QoSNotSupported => 0x9B
  | RC.UseAnotherServer => 0x9C
  | RC.ServerMoved => 0x9D
  | RC.SharedSubsNotSupported => 0x9E
  | RC.ConnectionRateExceeded => 0x9F
  | RC.MaximumConnectTime => 0xA0
  | RC.SubIdNotSupported => 0xA1
  | RC.WildcardSubsNotSupported => 0xA2
  end.

Definition ReasonCode_from_u8 (v : Z) : option ReasonCode :=
  match v with
  | 0x00 => Some RC.Success
  | 0x01 => Some RC.GrantedQoS1
  | 0x02 => Some RC.GrantedQoS2
  | 0x04 => Some RC.DisconnectWithWill
  | 0x10 => Some RC.NoMatchingSubscribers
  | 0x11 => Some RC.NoSubscriptionExisted
  | 0x18 => Some RC.ContinueAuthentication
  | 0x19 => Some RC.ReAuthenticate
  | 0x80 => Some RC.UnspecifiedError
  | 0x81 => Some RC.MalformedPacket
  | 0x82 => Some RC.ProtocolError
  | 0x83 => Some RC.ImplementationError
  | 0x84 => Some RC.UnsupportedProtocolVersion
  | 0x85 => Some RC.ClientIdNotValid
  | 0x86 => Some RC.BadUserNameOrPassword
  | 0x87 => Some RC.NotAuthorized
  | 0x88 => Some RC.ServerUnavailable
  | 0x89 => Some RC.ServerBusy
  | 0x8A => Some RC.Banned
  | 0x8B => Some RC.ServerShuttingDown
  | 0x8C => Some RC.BadAuthenticationMethod
  | 0x8D => Some RC.KeepAliveTimeout
  | 0x8E => Some RC.SessionTakenOver
  | 0x8F => Some RC.TopicFilterInvalid
  | 0x90 => Some RC.TopicNameInvalid
  | 0x91 => Some RC.PacketIdInUse
  | 0x92 => Some RC.PacketIdNotFound
  | 0x93 => Some RC.ReceiveMaxExceeded
  | 0x94 => Some RC.TopicAliasInvalid
  | 0x95 => Some RC.PacketTooLarge
  | 0x96 => Some RC.MessageRateTooHigh
  | 0x97 => Some RC.QuotaExceeded
  | 0x98 => Some RC.AdministrativeAction
  | 0x99 => Some RC.PayloadFormatInvalid
  | 0x9A => Some RC.RetainNotSupported
  | 0x9B => Some RC.QoSNotSupported
  | 0x9C => Some RC.UseAnotherServer
  | 0x9D => Some RC.ServerMoved
  | 0x9E => Some RC.SharedSubsNotSupported
  | 0x9F => Some RC.ConnectionRateExceeded
  | 0xA0 => Some RC.MaximumConnectTime
  | 0xA1 => Some RC.SubIdNotSupported
  | 0xA2 => Some RC.WildcardSubsNotSupported
  | _ => None
  end.

Definition is_success (r : ReasonCode) : bool := ReasonCode_as_u8 r <? 0x80.

Definition is_error (r : ReasonCode) : bool := ReasonCode_as_u8 r >=? 0x80.

Definition to_v3_connack_code (r : ReasonCode) : Z :=
  match r with
  | RC.Success => 0x00
  | RC.UnsupportedProtocolVersion => 0x01
  | RC.ClientIdNotValid => 0x02
  | RC.ServerUnavailable => 0x03
  | RC.BadUserNameOrPassword => 0x04
  | RC.NotAuthorized => 0x05
  | _ => 0x05
  end.

Definition from_v3_connack_code (code : Z) : ReasonCode :=
  match code with
  | 0x00 => RC.Success
  | 0x01 => RC.UnsupportedProtocolVersion
  | 0x02 => RC.ClientIdNotValid
  | 0x03 => RC.ServerUnavailable
  | 0x04 => RC.BadUserNameOrPassword
  | 0x05 => RC.NotAuthorized
  | _ => RC.UnspecifiedError
  end.

(** ** Decidable equality *)
#[global] Instance DecodeError_eq_dec : EqDecision DecodeError.
Proof. solve_decision. Defined.
#[global] Instance EncodeError_eq_dec : EqDecision EncodeError.
Proof. solve_decision. Defined.
#[global] Instance ProtocolError_eq_dec : EqDecision ProtocolError.
Proof. solve_decision. Defined.
#[global] Instance ProtocolVersion_eq_dec : EqDecision ProtocolVersion.
Proof. solve_decision. Defined.
#[global] Instance QoS_eq_dec : EqDecision QoS.
Proof. solve_decision. Defined.
#[global] Instance RetainHandling_eq_dec : EqDecision RetainHandling.
Proof. solve_decision. Defined.
#[global] Instance SubscriptionOptions_eq_dec : EqDecision SubscriptionOptions.
Proof. solve_decision. Defined.

#[global] Instance ReasonCode_eq_dec : EqDecision ReasonCode.
Proof.
  intros a b. refine (cast_if (decide (ReasonCode_as_u8 a = ReasonCode_as_u8 b))); abstract (destruct a, b; done).
Defined.

(** ** Byte encodings are inverse to each other *)
Lemma QoS_from_as q : QoS_from_u8 (QoS_as_u8 q) = Some q.
Proof. by destruct q. Qed.

Lemma QoS_as_range q : 0 ≤ QoS_as_u8 q ≤ 2.
Proof. destruct q; simpl; lia. Qed.

Lemma QoS_as_inj a b : QoS_as_u8 a = QoS_as_u8 b → a = b.
Proof. by destruct a, b. Qed.

Lemma QoS_min_as a b : QoS_as_u8 (QoS_min a b) = Z.min (QoS_as_u8 a) (QoS_as_u8 b).
Proof. by destruct a, b. Qed.

Lemma ReasonCode_from_as r : ReasonCode_from_u8 (ReasonCode_as_u8 r) = Some r.
Proof. by destruct r. Qed.

Lemma ReasonCode_as_range r : is_u8 (ReasonCode_as_u8 r).
Proof. unfold is_u8. destruct r; simpl; lia. Qed.

Lemma SubscriptionOptions_byte_range o : 0 ≤ SubscriptionOptions_to_byte o < 64.
Proof. destruct o as [[] [] [] []]; vm_compute; split; congruence. Qed.

Lemma SubscriptionOptions_from_to o :
  SubscriptionOptions_from_byte (SubscriptionOptions_to_byte o) = Some o.
Proof. by destruct o as [[] [] [] []]. Qed.
