(* ===== verification/Codec.v ===== *)
(** * Codec primitives

    The readers and writers of [codec/mod.rs]: variable byte integers, big
    endian integers, strings and binary data. Readers take a slice and return
    the value with the number of bytes consumed; writers append to a buffer. *)

From S2P Require Import Prelude Protocol.

Definition MAX_REMAINING_LENGTH : Z := 268435455.

(** ** Readers *)

(** The loop of [read_variable_int]; [pos] is at most 4, so five rounds are
    enough. The [u32] operations panic on overflow. *)
Fixpoint read_variable_int_loop (fuel : nat) (buf : list byte)
    (multiplier value pos : Z) : outcome DecodeError (Z * Z) :=
  match fuel with
  | O => NoFuel
  | S fuel =>
      if pos >=? zlen buf then Err DE.InsufficientData
      else if pos >=? 4 then Err DE.InvalidRemainingLength
      else
        byte ← index buf pos;
        digit ← checked_u32 (Z.land byte 0x7F * multiplier);
        value ← checked_u32 (value + digit);
        let pos := pos + 1 in
        if Z.land byte 0x80 =? 0 then Ok (value, pos)
        else
          multiplier ← checked_u32 (multiplier * 128);
          read_variable_int_loop fuel buf multiplier value pos
  end.

Definition read_variable_int (buf : list byte) : outcome DecodeError (Z * Z) :=
  read_variable_int_loop 5 buf 1 0 0.

Definition variable_int_len (value : Z) : Z :=
  if value <? 128 then 1
  else if value <? 16384 then 2
  else if value <? 2097152 then 3
  else 4.

Definition read_u16 (buf : list byte) : outcome DecodeError Z :=
  if zlen buf <? 2 then Err DE.InsufficientData
  else a ← index buf 0; b ← index buf 1; Ok (u16_from_be a b).

Definition read_u32 (buf : list byte) : outcome DecodeError Z :=
  if zlen buf <? 4 then Err DE.InsufficientData
  else
    a ← index buf 0; b ← index buf 1; c ← index buf 2; d ← index buf 3;
    Ok (u32_from_be a b c d).

Definition read_string (buf : list byte) : outcome DecodeError (string * Z) :=
  if zlen buf <? 2 then Err DE.InsufficientData
  else
    a ← index buf 0; b ← index buf 1;
    let len := u16_from_be a b in
    let total_len := 2 + len in
    if zlen buf <? total_len then Err DE.InsufficientData
    else
      data ← slice buf 2 total_len;
      s ← ok_or (from_utf8 data) DE.InvalidUtf8;
      if contains Ascii.zero s
      then Err (DE.MalformedPacket "string contains null character")
      else Ok (s, total_len).

Definition read_binary (buf : list byte) : outcome DecodeError (list byte * Z) :=
  if zlen buf <? 2 then Err DE.InsufficientData
  else
    a ← index buf 0; b ← index buf 1;
    let len := u16_from_be a b in
    let total_len := 2 + len in
    if zlen buf <? total_len then Err DE.InsufficientData
    else data ← slice buf 2 total_len; Ok (data, total_len).

(** ** Writers

    A writer maps the buffer to the buffer it leaves behind and its result;
    what was written before an error stays in the buffer. *)
Definition writer (A : Type) : Type := list byte → list byte * outcome EncodeError A.

#[global] Instance writer_ret : MRet writer := fun A a buf => (buf, Ok a).
#[global] Instance writer_bind : MBind writer :=
  fun A B k m buf =>
    match m buf with
    | (buf, Ok a) => k a buf
    | (buf, Err e) => (buf, Err e)
    | (buf, Panic) => (buf, Panic)
    | (buf, NoFuel) => (buf, NoFuel)
    end.

Definition wfail {A} (e : EncodeError) : writer A := fun buf => (buf, Err e).

(** [buf.put_slice(l)], [put_u8], [put_u16], [put_u32] *)
Definition put_slice (l : list byte) : writer unit := fun buf => (buf ++ l, Ok tt).
Definition put_u8 (v : Z) : writer unit := put_slice [to_u8 v].
Definition put_u16 (v : Z) : writer unit := put_slice (be_u16 v).
Definition put_u32 (v : Z) : writer unit := put_slice (be_u32 v).

(** [if let Some(v) = o { k(v) }] and [for x in l { k(x) }] *)
Definition if_some {A} (o : option A) (k : A → writer unit) : writer unit :=
  match o with Some a => k a | None => mret tt end.

Fixpoint for_each {A} (l : list A) (k : A → writer unit) : writer unit :=
  match l with
  | [] => mret tt
  | a :: l => k a;; for_each l k
  end.

(** The loop of [write_variable_int]; a [u32] is divided by 128 at most five
    times before it is zero. *)
Fixpoint write_variable_int_loop (fuel : nat) (value count : Z) : writer Z :=
  match fuel with
  | O => fun buf => (buf, NoFuel)
  | S fuel =>
      let byte := value mod 128 in
      let value := value / 128 in
      let byte := if value >? 0 then Z.lor byte 0x80 else byte in
      put_u8 byte;;
      let count := count + 1 in
      if value =? 0 then mret count
      else write_variable_int_loop fuel value count
  end.

(** The parameter is a [u32]. *)
Definition write_variable_int (value : Z) : writer Z :=
  let value := wrap_u32 value in
  if value >? MAX_REMAINING_LENGTH then wfail EE.PacketTooLarge
  else write_variable_int_loop 5 value 0.

Definition write_string (s : string) : writer unit :=
  let len := slen s in
  if len >? 65535 then wfail EE.StringTooLong
  else put_u16 len;; put_slice (as_bytes s).

Definition write_binary (data : list byte) : writer unit :=
  let len := zlen data in
  if len >? 65535 then wfail EE.StringTooLong
  else put_u16 len;; put_slice data.

(** ** What the writers append *)

(** [emits w bs a]: [w] succeeds with [a] and appends exactly [bs]. *)
Definition emits {A} (w : writer A) (bs : list byte) (a : A) : Prop :=
  ∀ buf, w buf = (buf ++ bs, Ok a).

Fixpoint var_int_bytes_loop (fuel : nat) (value : Z) : list byte :=
  match fuel with
  | O => []
  | S fuel =>
      if value / 128 =? 0 then [to_u8 (value mod 128)]
      else to_u8 (value mod 128 + 128) :: var_int_bytes_loop fuel (value / 128)
  end.

(** The encoding of a variable byte integer, of a string and of binary data. *)
Definition var_int_bytes (value : Z) : list byte := var_int_bytes_loop 4 value.
Definition string_bytes (s : string) : list byte := be_u16 (slen s) ++ as_bytes s.
Definition binary_bytes (d : list byte) : list byte := be_u16 (zlen d) ++ d.

(** The strings that may appear in a packet: UTF-8, without U+0000 and short
    enough for a 16-bit length. *)
Definition mqtt_string (s : string) : bool :=
  utf8_valid (as_bytes s) && negb (contains Ascii.zero s) && (slen s <=? 65535).

Definition mqtt_binary (d : list byte) : bool := zlen d <=? 65535.

Definition is_var_int (v : Z) : Prop := 0 ≤ v ≤ MAX_REMAINING_LENGTH.

(** ** Lemmas: writers *)
Lemma emits_bind {A B} (w : writer A) (k : A → writer B) bs1 bs2 a b :
  emits w bs1 a → emits (k a) bs2 b → emits (w ≫= k) (bs1 ++ bs2) b.
Proof.
  intros H1 H2 buf. unfold mbind, writer_bind. rewrite H1, H2. by rewrite app_assoc.
Qed.

Lemma emits_ret {A} (a : A) : emits (mret a) [] a.
Proof. intros buf. by rewrite app_nil_r. Qed.

Lemma emits_put_slice l : emits (put_slice l) l tt.
Proof. done. Qed.

Lemma emits_put_u8 v : emits (put_u8 v) [to_u8 v] tt.
Proof. done. Qed.

Lemma emits_put_u16 v : emits (put_u16 v) (be_u16 v) tt.
Proof. done. Qed.

Lemma emits_put_u32 v : emits (put_u32 v) (be_u32 v) tt.
Proof. done. Qed.

Lemma emits_for_each {A} (l : list A) (k : A → writer unit) (f : A → list byte) :
  (∀ a, a ∈ l → emits (k a) (f a) tt) → emits (for_each l k) (l ≫= f) tt.
Proof.
  induction l as [|a l IH]; intros Hk; simpl; [apply emits_ret|].
  eapply emits_bind; [apply Hk; constructor|]. apply IH. intros. apply Hk. by constructor.
Qed.

Lemma emits_if_some {A} (o : option A) (k : A → writer unit) (f : A → list byte) :
  (∀ a, o = Some a → emits (k a) (f a) tt) → emits (if_some o k) (from_option f [] o) tt.
Proof. destruct o; simpl; intros Hk; [by apply Hk|apply emits_ret]. Qed.

Lemma emits_write_string s : slen s ≤ 65535 → emits (write_string s) (string_bytes s) tt.
Proof.
  intros Hs. unfold write_string. rewrite Z.gtb_ltb. zcase; [lia|].
  apply (emits_bind _ _ _ _ tt); done.
Qed.

Lemma emits_write_binary d : zlen d ≤ 65535 → emits (write_binary d) (binary_bytes d) tt.
Proof.
  intros Hs. unfold write_binary. rewrite Z.gtb_ltb. zcase; [lia|].
  apply (emits_bind _ _ _ _ tt); done.
Qed.

#[export] Hint Resolve emits_ret emits_put_slice emits_put_u8 emits_put_u16 emits_put_u32
  emits_write_string emits_write_binary : vibe.

Lemma land_127_lt b : Z.land b 0x7F = b mod 128.
Proof. apply (Z.land_ones b 7). lia. Qed.

Lemma lor_128 b : 0 ≤ b < 128 → Z.lor b 0x80 = b + 128.
Proof.
  intros Hb.
  assert (H := u8_forall (λ b, implb (b <? 128) (Z.lor b 0x80 =? b + 128)) eq_refl b).
  unfold is_u8 in H. specialize (H ltac:(lia)). apply Z.eqb_eq.
  by destruct (Z.ltb_spec b 128); [|lia].
Qed.

Lemma land_128 b : is_u8 b → (Z.land b 0x80 =? 0) = (b <? 128).
Proof.
  intros Hb. apply eqb_prop.
  exact (u8_forall (λ b, Bool.eqb (Z.land b 0x80 =? 0) (b <? 128)) eq_refl b Hb).
Qed.

Lemma emits_write_variable_int_loop n fuel value count :
  (n ≤ fuel)%nat → 0 ≤ value < 128 ^ Z.of_nat n → (0 < n)%nat →
  emits (write_variable_int_loop fuel value count) (var_int_bytes_loop n value)
    (count + zlen (var_int_bytes_loop n value)).
Proof.
  revert fuel value count.
  induction n as [|n IH]; intros [|fuel] value count Hn Hv Hpos; try lia. simpl.
  rewrite Z.gtb_ltb.
  destruct (Z.eqb_spec (value / 128) 0) as [Hz|Hz].
  - destruct (Z.ltb_spec 0 (value / 128)); [lia|].
    change [to_u8 (value mod 128)] with ([to_u8 (value mod 128)] ++ []).
    eapply emits_bind; [apply emits_put_u8|apply emits_ret].
  - destruct (Z.ltb_spec 0 (value / 128)); [|zdm].
    rewrite lor_128 by zdm. rewrite zlen_cons, Z.add_assoc.
    apply (emits_bind _ _ [_] _ tt); [apply emits_put_u8|].
    apply IH; [lia| |destruct n; [simpl in Hv; zdm|lia]].
    rewrite Nat2Z.inj_succ, Z.pow_succ_r in Hv by lia. zdm.
Qed.

Lemma emits_write_variable_int v :
  is_var_int v → emits (write_variable_int v) (var_int_bytes v) (zlen (var_int_bytes v)).
Proof.
  unfold is_var_int, MAX_REMAINING_LENGTH. intros Hv. unfold write_variable_int, MAX_REMAINING_LENGTH.
  replace (wrap_u32 v) with v by (unfold wrap_u32; zdm). cbv zeta. rewrite Z.gtb_ltb. zcase; [lia|]. apply (emits_write_variable_int_loop 4); lia.
Qed.

Lemma zlen_var_int_bytes v : is_var_int v → zlen (var_int_bytes v) = variable_int_len v.
Proof.
  unfold is_var_int, MAX_REMAINING_LENGTH, variable_int_len, var_int_bytes. intros.
  simpl. zcase; try (exfalso; zdm); try done.
Qed.

Lemma var_int_bytes_small n : 0 ≤ n < 128 → var_int_bytes n = [to_u8 n].
Proof.
  intros. unfold var_int_bytes. cbn [var_int_bytes_loop]. replace (n / 128) with 0 by zdm.
  cbn. by rewrite Z.mod_small by lia.
Qed.

Lemma variable_int_len_range v : 1 ≤ variable_int_len v ≤ 4.
Proof. unfold variable_int_len. zcase; lia. Qed.

Lemma zlen_be_u16 v : zlen (be_u16 v) = 2.
Proof. done. Qed.

Lemma zlen_be_u32 v : zlen (be_u32 v) = 4.
Proof. done. Qed.

Lemma zlen_string_bytes s : zlen (string_bytes s) = 2 + slen s.
Proof. unfold string_bytes. by autorewrite with vibe_len. Qed.

Lemma zlen_binary_bytes s : zlen (binary_bytes s) = 2 + zlen s.
Proof. unfold binary_bytes. by autorewrite with vibe_len. Qed.

#[export] Hint Rewrite zlen_be_u16 zlen_be_u32 zlen_string_bytes zlen_binary_bytes : vibe_len.

(** ** Lemmas: readers return, within the buffer *)
Section reader_posts.
Implicit Types (buf : list byte).

Lemma post_read_variable_int_loop fuel buf mult value pos :
  (5 ≤ fuel + Z.to_nat pos)%nat → 0 ≤ pos ≤ 4 → mult = 128 ^ pos → 0 ≤ value < mult →
  post (read_variable_int_loop fuel buf mult value pos)
    (λ '(v, n), is_var_int v ∧ pos < n ≤ 4 ∧ n ≤ zlen buf).
Proof.
  unfold is_var_int, MAX_REMAINING_LENGTH.
  revert mult value pos. induction fuel as [|fuel IH]; intros mult value pos Hf Hp -> Hv; [lia|].
  simpl. rewrite !Z.geb_leb. zcase; try exact I.
  assert (Hc : pos = 0 ∨ pos = 1 ∨ pos = 2 ∨ pos = 3) by lia.
  apply post_bind, post_index; [lia|]. intros b Hb. unfold is_u8 in Hb.
  rewrite land_127_lt, land_128 by done. cbv zeta.
  rewrite (checked_u32_ok (_ mod _ * _)) by (unfold is_u32; destruct Hc as [->|[->|[->| ->]]]; simpl in *; zdm).
  rewrite bind_Ok, (checked_u32_ok (value + _)), bind_Ok
    by (unfold is_u32; destruct Hc as [->|[->|[->| ->]]]; simpl in *; zdm). zcase.
  - simpl. destruct Hc as [->|[->|[->| ->]]]; simpl in *; zdm.
  - assert (Hm : 128 ^ pos * 128 = 128 ^ (pos + 1)) by (rewrite Z.pow_add_r by lia; done).
    rewrite Hm, checked_u32_ok by (destruct Hc as [->|[->|[->| ->]]]; done). eapply post_mono; [apply IH; [lia|lia|done|]|].
    + rewrite Z.pow_add_r by lia. destruct Hc as [->|[->|[->| ->]]]; simpl in *; zdm.
    + intros [v n]. lia.
Qed.

Lemma post_read_variable_int buf :
  post (read_variable_int buf) (λ '(v, n), is_var_int v ∧ 1 ≤ n ≤ 4 ∧ n ≤ zlen buf).
Proof.
  eapply post_mono; [apply post_read_variable_int_loop; simpl; lia|]. intros [v n] (? & ? & ?). split_and!; auto; lia.
Qed.

Lemma from_utf8_Some l s : from_utf8 l = Some s → utf8_valid (as_bytes s) = true ∧ l = as_bytes s.
Proof.
  unfold from_utf8. destruct (utf8_valid l) eqn:?; intros [= <-]. by rewrite as_bytes_of_bytes.
Qed.

Lemma post_read_string buf :
  post (read_string buf) (λ '(s, n), mqtt_string s = true ∧ n = 2 + slen s ∧ n ≤ zlen buf).
Proof.
  unfold read_string, mqtt_string. zcase; [exact I|].
  apply post_bind, post_index; [lia|]. intros a Ha.
  apply post_bind, post_index; [lia|]. intros b Hb.
  pose proof (u16_from_be_range a b Ha Hb) as Hl. unfold is_u16 in Hl. cbv zeta.
  zcase; [exact I|]. apply post_bind, post_slice; [lia|lia|]. intros l Hlen.
  apply post_bind, post_ok_or. intros s [Hs ->]%from_utf8_Some.
  destruct (contains Ascii.zero s) eqn:Hc; [exact I|].
  rewrite zlen_as_bytes in Hlen. simpl. rewrite Hs, Hc. simpl. lia.
Qed.

Lemma post_read_binary buf :
  post (read_binary buf) (λ '(d, n), mqtt_binary d = true ∧ n = 2 + zlen d ∧ n ≤ zlen buf).
Proof.
  unfold read_binary, mqtt_binary. zcase; [exact I|].
  apply post_bind, post_index; [lia|]. intros a Ha.
  apply post_bind, post_index; [lia|]. intros b Hb.
  pose proof (u16_from_be_range a b Ha Hb) as Hl. unfold is_u16 in Hl. cbv zeta.
  zcase; [exact I|]. apply post_bind, post_slice; [lia|lia|]. intros l Hlen.
  simpl. lia.
Qed.

End reader_posts.

(** ** Lemmas: readers invert writers *)
Lemma read_variable_int_loop_bytes n fuel buf mult acc pos value rest :
  (n ≤ fuel)%nat → (0 < n)%nat → 0 ≤ value < 128 ^ Z.of_nat n →
  at_pos buf pos (var_int_bytes_loop n value ++ rest) →
  mult = 128 ^ pos → 0 ≤ acc < mult → pos + Z.of_nat n ≤ 4 →
  read_variable_int_loop fuel buf mult acc pos =
    Ok (acc + value * mult, pos + zlen (var_int_bytes_loop n value)).
Proof.
  revert fuel mult acc pos value.
  induction n as [|n IH]; intros [|fuel] mult acc pos value Hf Hn Hv Hat Hm Hacc Hpos; try lia.
  pose proof (at_pos_len _ _ _ Hat) as Hlen. destruct Hat as [Hp0 Hat'].
  assert (Hat : at_pos buf pos (var_int_bytes_loop (S n) value ++ rest)) by done. clear Hat'.
  rewrite Nat2Z.inj_succ, Z.pow_succ_r in Hv by lia.
  assert (Hc : pos = 0 ∨ pos = 1 ∨ pos = 2 ∨ pos = 3) by lia.
  assert (Hpw : 128 ^ pos * 128 ^ Z.of_nat n ≤ 128 ^ 3).
  { rewrite <-Z.pow_add_r by lia. apply Z.pow_le_mono_r; lia. }
  change (128 ^ 3) with 2097152 in Hpw.
  assert (Hmod : 0 ≤ value mod 128 < 128) by zdm.
  simpl in *. rewrite !Z.geb_leb.
  destruct (Z.leb_spec (zlen buf) pos) as [Hle|_].
  { exfalso. pose proof (zlen_nonneg rest).
    destruct (value / 128 =? 0); rewrite zlen_app, ?zlen_cons in Hlen;
      pose proof (zlen_nonneg (var_int_bytes_loop n (value / 128))); rewrite ?zlen_nil in Hlen; lia. }
  destruct (Z.leb_spec 4 pos); [lia|].
  destruct (Z.eqb_spec (value / 128) 0) as [Hz|Hz].
  - rewrite (at_pos_index _ _ _ _ Hat). simpl.
    rewrite u8_to_u8_small by (unfold is_u8; lia).
    rewrite land_127_lt, land_128 by (unfold is_u8; lia). zcase; [|lia].
    rewrite Z.mod_mod by lia. replace (value mod 128) with value by zdm.
    rewrite (checked_u32_ok (_ * mult))
      by (unfold is_u32; destruct Hc as [->|[->|[->| ->]]]; simpl in *; subst; zdm).
    cbn [mbind outcome_bind]. rewrite checked_u32_ok; [done|unfold is_u32].
    destruct Hc as [->|[->|[->| ->]]]; simpl in *; subst; zdm.
  - rewrite (at_pos_index _ _ _ _ Hat). simpl.
    rewrite u8_to_u8_small by (unfold is_u8; lia).
    rewrite land_127_lt, land_128 by (unfold is_u8; lia). zcase; [lia|].
    replace ((value mod 128 + 128) mod 128) with (value mod 128) by zdm.
    assert (Hm' : mult * 128 = 128 ^ (pos + 1)) by (subst; rewrite Z.pow_add_r by lia; done).
    rewrite Hm', (checked_u32_ok (128 ^ (pos + 1))) by (destruct Hc as [->|[->|[->| ->]]]; done).
    rewrite (checked_u32_ok (_ * mult))
      by (unfold is_u32; destruct Hc as [->|[->|[->| ->]]]; simpl in *; subst; lia).
    cbn [mbind outcome_bind]. rewrite (checked_u32_ok (acc + _))
      by (unfold is_u32; destruct Hc as [->|[->|[->| ->]]]; simpl in *; subst; lia).
    cbn [mbind outcome_bind]. rewrite (IH fuel _ _ _ (value / 128)).
    + f_equal. f_equal; [|rewrite zlen_cons; lia]. rewrite Z.pow_add_r by lia. subst mult.
      rewrite (Z.div_mod value 128) at 3 by lia. ring.
    + lia.
    + destruct n; [simpl in Hv; zdm|lia].
    + zdm.
    + eapply at_pos_cons; [exact Hat|done].
    + done.
    + rewrite Z.pow_add_r by lia. subst mult. change (128 ^ 1) with 128.
      pose proof (Z.pow_pos_nonneg 128 pos). nia.
    + lia.
Qed.

Lemma read_variable_int_bytes v rest :
  is_var_int v → read_variable_int (var_int_bytes v ++ rest) = Ok (v, variable_int_len v).
Proof.
  intros Hv. pose proof (zlen_var_int_bytes v Hv) as Hl.
  unfold is_var_int, MAX_REMAINING_LENGTH in Hv. unfold read_variable_int, var_int_bytes in *.
  rewrite (read_variable_int_loop_bytes 4 5 _ _ _ _ v rest); [|lia|lia|lia|apply at_pos_0|done|lia|lia].
  rewrite Hl. f_equal. f_equal; lia.
Qed.

Lemma index_0 {E} b l : @index E (b :: l) 0 = Ok (u8 b).
Proof. done. Qed.

Lemma index_1 {E} a b l : @index E (a :: b :: l) 1 = Ok (u8 b).
Proof. done. Qed.

Lemma mqtt_string_spec s :
  mqtt_string s = true →
  utf8_valid (as_bytes s) = true ∧ contains Ascii.zero s = false ∧ slen s ≤ 65535.
Proof.
  unfold mqtt_string. rewrite !andb_true_iff, negb_true_iff, Z.leb_le. intros [[? ?] ?]; auto.
Qed.

Lemma read_string_bytes s rest :
  mqtt_string s = true → read_string (string_bytes s ++ rest) = Ok (s, 2 + slen s).
Proof.
  intros (Hu & Hz & Hs)%mqtt_string_spec. pose proof (slen_nonneg s). pose proof (zlen_nonneg rest).
  unfold read_string. rewrite zlen_app, zlen_string_bytes. zcase; [lia|].
  unfold string_bytes at 1 2, be_u16. simpl app. rewrite index_0, index_1. simpl.
  rewrite u16_from_be_be by (unfold is_u16; lia). zcase; [lia|].
  rewrite (at_pos_slice _ 2 _ (as_bytes s) rest).
  - simpl. unfold from_utf8. rewrite Hu. simpl. rewrite of_bytes_as_bytes, Hz. done.
  - by apply (at_pos_app _ 0 2 (be_u16 (slen s))); [apply at_pos_0|].
  - rewrite zlen_as_bytes. lia.
Qed.

Lemma read_binary_bytes d rest :
  mqtt_binary d = true → read_binary (binary_bytes d ++ rest) = Ok (d, 2 + zlen d).
Proof.
  unfold mqtt_binary. intros Hd. pose proof (zlen_nonneg d). pose proof (zlen_nonneg rest).
  unfold read_binary. rewrite zlen_app, zlen_binary_bytes. zcase; [lia|].
  unfold binary_bytes at 1 2, be_u16. simpl app. rewrite index_0, index_1. simpl.
  rewrite u16_from_be_be by (unfold is_u16; lia). zcase; [lia|].
  rewrite (at_pos_slice _ 2 _ d rest); [done| |lia].
  by apply (at_pos_app _ 0 2 (be_u16 (zlen d))); [apply at_pos_0|].
Qed.
