(* ===== verification/Properties.v ===== *)
(** * MQTT v5.0 properties

    The property identifiers, single properties and the property collection of
    [protocol/properties.rs] with its decoder and encoder. *)

From S2P Require Import Prelude Protocol Codec.

(** ** Identifiers *)
Module PID.

Inductive PropertyId : Type :=
  | PayloadFormatIndicator
  | MessageExpiryInterval
  | ContentType
  | ResponseTopic
  | CorrelationData
  | SubscriptionIdentifier
  | SessionExpiryInterval
  | AssignedClientIdentifier
  | ServerKeepAlive
  | AuthenticationMethod
  | AuthenticationData
  | RequestProblemInformation
  | WillDelayInterval
  | RequestResponseInformation
  | ResponseInformation
  | ServerReference
  | ReasonString
  | ReceiveMaximum
  | TopicAliasMaximum
  | TopicAlias
  | MaximumQoS
  | RetainAvailable
  | UserProperty
  | MaximumPacketSize
  | WildcardSubscriptionAvailable
  | SubscriptionIdentifierAvailable
  | SharedSubscriptionAvailable.

End PID.
Abbreviation PropertyId := PID.PropertyId.

Definition PropertyId_as_u8 (p : PropertyId) : Z :=
  match p with
  | PID.PayloadFormatIndicator => 0x01
  | PID.MessageExpiryInterval => 0x02
  | PID.ContentType => 0x03
  | PID.ResponseTopic => 0x08
  | PID.CorrelationData => 0x09
  | PID.SubscriptionIdentifier => 0x0B
  | PID.SessionExpiryInterval => 0x11
  | PID.AssignedClientIdentifier => 0x12
  | PID.ServerKeepAlive => 0x13
  | PID.AuthenticationMethod => 0x15
  | PID.AuthenticationData => 0x16
  | PID.RequestProblemInformation => 0x17
  | PID.WillDelayInterval => 0x18
  | PID.RequestResponseInformation => 0x19
  | PID.ResponseInformation => 0x1A
  | PID.ServerReference => 0x1C
  | PID.ReasonString => 0x1F
  | PID.ReceiveMaximum => 0x21
  | PID.TopicAliasMaximum => 0x22
  | PID.TopicAlias => 0x23
  | PID.MaximumQoS => 0x24
  | PID.RetainAvailable => 0x25
  | PID.UserProperty => 0x26
  | PID.MaximumPacketSize => 0x27
  | PID.WildcardSubscriptionAvailable => 0x28
  | PID.SubscriptionIdentifierAvailable => 0x29
  | PID.SharedSubscriptionAvailable => 0x2A
  end.

Definition PropertyId_from_u8 (v : Z) : option PropertyId :=
  match v with
  | 0x01 => Some PID.PayloadFormatIndicator
  | 0x02 => Some PID.MessageExpiryInterval
  | 0x03 => Some PID.ContentType
  | 0x08 => Some PID.ResponseTopic
  | 0x09 => Some PID.CorrelationData
  | 0x0B => Some PID.SubscriptionIdentifier
  | 0x11 => Some PID.SessionExpiryInterval
  | 0x12 => Some PID.AssignedClientIdentifier
  | 0x13 => Some PID.ServerKeepAlive
  | 0x15 => Some PID.AuthenticationMethod
  | 0x16 => Some PID.AuthenticationData
  | 0x17 => Some PID.RequestProblemInformation
  | 0x18 => Some PID.WillDelayInterval
  | 0x19 => Some PID.RequestResponseInformation
  | 0x1A => Some PID.ResponseInformation
  | 0x1C => Some PID.ServerReference
  | 0x1F => Some PID.ReasonString
  | 0x21 => Some PID.ReceiveMaximum
  | 0x22 => Some PID.TopicAliasMaximum
  | 0x23 => Some PID.TopicAlias
  | 0x24 => Some PID.MaximumQoS
  | 0x25 => Some PID.RetainAvailable
  | 0x26 => Some PID.UserProperty
  | 0x27 => Some PID.MaximumPacketSize
  | 0x28 => Some PID.WildcardSubscriptionAvailable
  | 0x29 => Some PID.SubscriptionIdentifierAvailable
  | 0x2A => Some PID.SharedSubscriptionAvailable
  | _ => None
  end.

(** ** Single properties *)
Module PV.

Inductive Property : Type :=
  | PayloadFormatIndicator (v : Z)
  | MessageExpiryInterval (v : Z)
  | ContentType (s : string)
  | ResponseTopic (s : string)
  | CorrelationData (d : list byte)
  | SubscriptionIdentifier (v : Z)
  | SessionExpiryInterval (v : Z)
  | AssignedClientIdentifier (s : string)
  | ServerKeepAlive (v : Z)
  | AuthenticationMethod (s : string)
  | AuthenticationData (d : list byte)
  | RequestProblemInformation (v : Z)
  | WillDelayInterval (v : Z)
  | RequestResponseInformation (v : Z)
  | ResponseInformation (s : string)
  | ServerReference (s : string)
  | ReasonString (s : string)
  | ReceiveMaximum (v : Z)
  | TopicAliasMaximum (v : Z)
  | TopicAlias (v : Z)
  | MaximumQoS (v : Z)
  | RetainAvailable (v : Z)
  | UserProperty (k v : string)
  | MaximumPacketSize (v : Z)
  | WildcardSubscriptionAvailable (v : Z)
  | SubscriptionIdentifierAvailable (v : Z)
  | SharedSubscriptionAvailable (v : Z).

End PV.
Abbreviation Property := PV.Property.

Definition Property_id (p : Property) : PropertyId :=
  match p with
  | PV.PayloadFormatIndicator _ => PID.PayloadFormatIndicator
  | PV.MessageExpiryInterval _ => PID.MessageExpiryInterval
  | PV.ContentType _ => PID.ContentType
  | PV.ResponseTopic _ => PID.ResponseTopic
  | PV.CorrelationData _ => PID.CorrelationData
  | PV.SubscriptionIdentifier _ => PID.SubscriptionIdentifier
  | PV.SessionExpiryInterval _ => PID.SessionExpiryInterval
  | PV.AssignedClientIdentifier _ => PID.AssignedClientIdentifier
  | PV.ServerKeepAlive _ => PID.ServerKeepAlive
  | PV.AuthenticationMethod _ => PID.AuthenticationMethod
  | PV.AuthenticationData _ => PID.AuthenticationData
  | PV.RequestProblemInformation _ => PID.RequestProblemInformation
  | PV.WillDelayInterval _ => PID.WillDelayInterval
  | PV.RequestResponseInformation _ => PID.RequestResponseInformation
  | PV.ResponseInformation _ => PID.ResponseInformation
  | PV.ServerReference _ => PID.ServerReference
  | PV.ReasonString _ => PID.ReasonString
  | PV.ReceiveMaximum _ => PID.ReceiveMaximum
  | PV.TopicAliasMaximum _ => PID.TopicAliasMaximum
  | PV.TopicAlias _ => PID.TopicAlias
  | PV.MaximumQoS _ => PID.MaximumQoS
  | PV.RetainAvailable _ => PID.RetainAvailable
  | PV.UserProperty _ _ => PID.UserProperty
  | PV.MaximumPacketSize _ => PID.MaximumPacketSize
  | PV.WildcardSubscriptionAvailable _ => PID.WildcardSubscriptionAvailable
  | PV.SubscriptionIdentifierAvailable _ => PID.SubscriptionIdentifierAvailable
  | PV.SharedSubscriptionAvailable _ => PID.SharedSubscriptionAvailable
  end.

Definition Property_encoded_size (p : Property) : Z :=
  1 + match p with
    | PV.PayloadFormatIndicator _ => 1
    | PV.MessageExpiryInterval _ => 4
    | PV.ContentType s => 2 + slen s
    | PV.ResponseTopic s => 2 + slen s
    | PV.CorrelationData d => 2 + zlen d
    | PV.SubscriptionIdentifier v => variable_int_len v
    | PV.SessionExpiryInterval _ => 4
    | PV.AssignedClientIdentifier s => 2 + slen s
    | PV.ServerKeepAlive _ => 2
    | PV.AuthenticationMethod s => 2 + slen s
    | PV.AuthenticationData d => 2 + zlen d
    | PV.RequestProblemInformation _ => 1
    | PV.WillDelayInterval _ => 4
    | PV.RequestResponseInformation _ => 1
    | PV.ResponseInformation s => 2 + slen s
    | PV.ServerReference s => 2 + slen s
    | PV.ReasonString s => 2 + slen s
    | PV.ReceiveMaximum _ => 2
    | PV.TopicAliasMaximum _ => 2
    | PV.TopicAlias _ => 2
    | PV.MaximumQoS _ => 1
    | PV.RetainAvailable _ => 1
    | PV.UserProperty k v => 4 + slen k + slen v
    | PV.MaximumPacketSize _ => 4
    | PV.WildcardSubscriptionAvailable _ => 1
    | PV.SubscriptionIdentifierAvailable _ => 1
    | PV.SharedSubscriptionAvailable _ => 1
    end.

(** ** The property collection *)
Record Properties : Type := MkProperties {
  payload_format_indicator : option Z;
  message_expiry_interval : option Z;
  content_type : option string;
  response_topic : option string;
  correlation_data : option (list byte);
  subscription_identifiers : list Z;
  session_expiry_interval : option Z;
  assigned_client_identifier : option string;
  server_keep_alive : option Z;
  authentication_method : option string;
  authentication_data : option (list byte);
  request_problem_information : option Z;
  will_delay_interval : option Z;
  request_response_information : option Z;
  response_information : option string;
  server_reference : option string;
  reason_string : option string;
  receive_maximum : option Z;
  topic_alias_maximum : option Z;
  topic_alias : option Z;
  maximum_qos : option Z;
  retain_available : option Z;
  user_properties : list (string * string);
  maximum_packet_size : option Z;
  wildcard_subscription_available : option Z;
  subscription_identifier_available : option Z;
  shared_subscription_available : option Z;
}.

#[global] Instance Properties_eta : Eta Properties := fun p =>
  MkProperties (payload_format_indicator p)
    (message_expiry_interval p)
    (content_type p)
    (response_topic p)
    (correlation_data p)
    (subscription_identifiers p)
    (session_expiry_interval p)
    (assigned_client_identifier p)
    (server_keep_alive p)
    (authentication_method p)
    (authentication_data p)
    (request_problem_information p)
    (will_delay_interval p)
    (request_response_information p)
    (response_information p)
    (server_reference p)
    (reason_string p)
    (receive_maximum p)
    (topic_alias_maximum p)
    (topic_alias p)
    (maximum_qos p)
    (retain_available p)
    (user_properties p)
    (maximum_packet_size p)
    (wildcard_subscription_available p)
    (subscription_identifier_available p)
    (shared_subscription_available p).

#[global] Instance Properties_eq_dec : EqDecision Properties.
Proof. solve_decision. Defined.

(** [Properties::default()] and [Properties::new()] *)
Definition Properties_default : Properties :=
  MkProperties None None None None None [] None None None None None None None None None None None None None None None None [] None None None None.

Definition Properties_is_empty (p : Properties) : bool :=
  is_none (payload_format_indicator p)
  && is_none (message_expiry_interval p)
  && is_none (content_type p)
  && is_none (response_topic p)
  && is_none (correlation_data p)
  && is_nil (subscription_identifiers p)
  && is_none (session_expiry_interval p)
  && is_none (assigned_client_identifier p)
  && is_none (server_keep_alive p)
  && is_none (authentication_method p)
  && is_none (authentication_data p)
  && is_none (request_problem_information p)
  && is_none (will_delay_interval p)
  && is_none (request_response_information p)
  && is_none (response_information p)
  && is_none (server_reference p)
  && is_none (reason_string p)
  && is_none (receive_maximum p)
  && is_none (topic_alias_maximum p)
  && is_none (topic_alias p)
  && is_none (maximum_qos p)
  && is_none (retain_available p)
  && is_nil (user_properties p)
  && is_none (maximum_packet_size p)
  && is_none (wildcard_subscription_available p)
  && is_none (subscription_identifier_available p)
  && is_none (shared_subscription_available p).

(** [for x in l { size += f(x) }] *)
Fixpoint sum_size {A} (f : A → Z) (l : list A) : Z :=
  match l with [] => 0 | a :: l => f a + sum_size f l end.

(** The length of the encoded properties without the length prefix. *)
Definition Properties_encoded_size (p : Properties) : Z :=
  (if is_some (payload_format_indicator p) then 2 else 0)
  + (if is_some (message_expiry_interval p) then 5 else 0)
  + from_option (fun s => 1 + 2 + slen s) 0 (content_type p)
  + from_option (fun s => 1 + 2 + slen s) 0 (response_topic p)
  + from_option (fun d => 1 + 2 + zlen d) 0 (correlation_data p)
  + sum_size (fun id => 1 + variable_int_len id) (subscription_identifiers p)
  + (if is_some (session_expiry_interval p) then 5 else 0)
  + from_option (fun s => 1 + 2 + slen s) 0 (assigned_client_identifier p)
  + (if is_some (server_keep_alive p) then 3 else 0)
  + from_option (fun s => 1 + 2 + slen s) 0 (authentication_method p)
  + from_option (fun d => 1 + 2 + zlen d) 0 (authentication_data p)
  + (if is_some (request_problem_information p) then 2 else 0)
  + (if is_some (will_delay_interval p) then 5 else 0)
  + (if is_some (request_response_information p) then 2 else 0)
  + from_option (fun s => 1 + 2 + slen s) 0 (response_information p)
  + from_option (fun s => 1 + 2 + slen s) 0 (server_reference p)
  + from_option (fun s => 1 + 2 + slen s) 0 (reason_string p)
  + (if is_some (receive_maximum p) then 3 else 0)
  + (if is_some (topic_alias_maximum p) then 3 else 0)
  + (if is_some (topic_alias p) then 3 else 0)
  + (if is_some (maximum_qos p) then 2 else 0)
  + (if is_some (retain_available p) then 2 else 0)
  + sum_size (fun '(k, v) => 1 + 2 + slen k + 2 + slen v) (user_properties p)
  + (if is_some (maximum_packet_size p) then 5 else 0)
  + (if is_some (wildcard_subscription_available p) then 2 else 0)
  + (if is_some (subscription_identifier_available p) then 2 else 0)
  + (if is_some (shared_subscription_available p) then 2 else 0).

(** ** Decoding *)

(** [if field.is_some() { return Err(DuplicateProperty(prop_id as u8)) }] *)
Definition no_dup {A} (field : option A) (prop_id : PropertyId) : outcome DecodeError unit :=
  if is_some field then Err (DE.DuplicateProperty (PropertyId_as_u8 prop_id)) else Ok tt.

(** The fixed-width values of a property: the bounds check against [end], then
    the bytes. *)
Definition prop_u8 (buf : list byte) (pos end_ : Z) : outcome DecodeError Z :=
  if pos >=? end_ then Err DE.InsufficientData else index buf pos.

Definition prop_u16 (buf : list byte) (pos end_ : Z) : outcome DecodeError Z :=
  if pos + 2 >? end_ then Err DE.InsufficientData
  else a ← index buf pos; b ← index buf (pos + 1); Ok (u16_from_be a b).

Definition prop_u32 (buf : list byte) (pos end_ : Z) : outcome DecodeError Z :=
  if pos + 4 >? end_ then Err DE.InsufficientData
  else
    a ← index buf pos; b ← index buf (pos + 1);
    c ← index buf (pos + 2); d ← index buf (pos + 3);
    Ok (u32_from_be a b c d).

(** [if val == 0 { return Err(MalformedPacket(msg)) }] *)
Definition non_zero (val : Z) (msg : string) : outcome DecodeError unit :=
  if val =? 0 then Err (DE.MalformedPacket msg) else Ok tt.

(** The [match prop_id] of the decoding loop: the properties and the position
    after one property. *)
Definition decode_property (prop_id : PropertyId) (buf : list byte)
    (props : Properties) (pos end_ : Z) : outcome DecodeError (Properties * Z) :=
  match prop_id with
  | PID.PayloadFormatIndicator =>
      no_dup (payload_format_indicator props) prop_id;;
      val ← prop_u8 buf pos end_;
      Ok (props <| payload_format_indicator := Some val |>, pos + 1)
  | PID.MessageExpiryInterval =>
      no_dup (message_expiry_interval props) prop_id;;
      val ← prop_u32 buf pos end_;
      Ok (props <| message_expiry_interval := Some val |>, pos + 4)
  | PID.ContentType =>
      no_dup (content_type props) prop_id;;
      s ← slice_from buf pos; '(s, len) ← read_string s;
      Ok (props <| content_type := Some s |>, pos + len)
  | PID.ResponseTopic =>
      no_dup (response_topic props) prop_id;;
      s ← slice_from buf pos; '(s, len) ← read_string s;
      Ok (props <| response_topic := Some s |>, pos + len)
  | PID.CorrelationData =>
      no_dup (correlation_data props) prop_id;;
      s ← slice_from buf pos; '(data, len) ← read_binary s;
      Ok (props <| correlation_data := Some data |>, pos + len)
  | PID.SubscriptionIdentifier =>
      s ← slice_from buf pos; '(val, len) ← read_variable_int s;
      non_zero val "subscription identifier cannot be 0";;
      Ok (props <| subscription_identifiers ::= (fun l => l ++ [val]) |>, pos + len)
  | PID.SessionExpiryInterval =>
      no_dup (session_expiry_interval props) prop_id;;
      val ← prop_u32 buf pos end_;
      Ok (props <| session_expiry_interval := Some val |>, pos + 4)
  | PID.AssignedClientIdentifier =>
      no_dup (assigned_client_identifier props) prop_id;;
      s ← slice_from buf pos; '(s, len) ← read_string s;
      Ok (props <| assigned_client_identifier := Some s |>, pos + len)
  | PID.ServerKeepAlive =>
      no_dup (server_keep_alive props) prop_id;;
      val ← prop_u16 buf pos end_;
      Ok (props <| server_keep_alive := Some val |>, pos + 2)
  | PID.AuthenticationMethod =>
      no_dup (authentication_method props) prop_id;;
      s ← slice_from buf pos; '(s, len) ← read_string s;
      Ok (props <| authentication_method := Some s |>, pos + len)
  | PID.AuthenticationData =>
      no_dup (authentication_data props) prop_id;;
      s ← slice_from buf pos; '(data, len) ← read_binary s;
      Ok (props <| authentication_data := Some data |>, pos + len)
  | PID.RequestProblemInformation =>
      no_dup (request_problem_information props) prop_id;;
      val ← prop_u8 buf pos end_;
      Ok (props <| request_problem_information := Some val |>, pos + 1)
  | PID.WillDelayInterval =>
      no_dup (will_delay_interval props) prop_id;;
      val ← prop_u32 buf pos end_;
      Ok (props <| will_delay_interval := Some val |>, pos + 4)
  | PID.RequestResponseInformation =>
      no_dup (request_response_information props) prop_id;;
      val ← prop_u8 buf pos end_;
      Ok (props <| request_response_information := Some val |>, pos + 1)
  | PID.ResponseInformation =>
      no_dup (response_information props) prop_id;;
      s ← slice_from buf pos; '(s, len) ← read_string s;
      Ok (props <| response_information := Some s |>, pos + len)
  | PID.ServerReference =>
      no_dup (server_reference props) prop_id;;
      s ← slice_from buf pos; '(s, len) ← read_string s;
      Ok (props <| server_reference := Some s |>, pos + len)
  | PID.ReasonString =>
      no_dup (reason_string props) prop_id;;
      s ← slice_from buf pos; '(s, len) ← read_string s;
      Ok (props <| reason_string := Some s |>, pos + len)
  | PID.ReceiveMaximum =>
      no_dup (receive_maximum props) prop_id;;
      val ← prop_u16 buf pos end_;
      non_zero val "receive maximum cannot be 0";;
      Ok (props <| receive_maximum := Some val |>, pos + 2)
  | PID.TopicAliasMaximum =>
      no_dup (topic_alias_maximum props) prop_id;;
      val ← prop_u16 buf pos end_;
      Ok (props <| topic_alias_maximum := Some val |>, pos + 2)
  | PID.TopicAlias =>
      no_dup (topic_alias props) prop_id;;
      val ← prop_u16 buf pos end_;
      non_zero val "topic alias cannot be 0";;
      Ok (props <| topic_alias := Some val |>, pos + 2)
  | PID.MaximumQoS =>
      no_dup (maximum_qos props) prop_id;;
      val ← prop_u8 buf pos end_;
      Ok (props <| maximum_qos := Some val |>, pos + 1)
  | PID.RetainAvailable =>
      no_dup (retain_available props) prop_id;;
      val ← prop_u8 buf pos end_;
      Ok (props <| retain_available := Some val |>, pos + 1)
  | PID.UserProperty =>
      s ← slice_from buf pos; '(key, key_len) ← read_string s;
      let pos := pos + key_len in
      s ← slice_from buf pos; '(val, val_len) ← read_string s;
      let pos := pos + val_len in
      Ok (props <| user_properties ::= (fun l => l ++ [(key, val)]) |>, pos)
  | PID.MaximumPacketSize =>
      no_dup (maximum_packet_size props) prop_id;;
      val ← prop_u32 buf pos end_;
      non_zero val "maximum packet size cannot be 0";;
      Ok (props <| maximum_packet_size := Some val |>, pos + 4)
  | PID.WildcardSubscriptionAvailable =>
      no_dup (wildcard_subscription_available props) prop_id;;
      val ← prop_u8 buf pos end_;
      Ok (props <| wildcard_subscription_available := Some val |>, pos + 1)
  | PID.SubscriptionIdentifierAvailable =>
      no_dup (subscription_identifier_available props) prop_id;;
      val ← prop_u8 buf pos end_;
      Ok (props <| subscription_identifier_available := Some val |>, pos + 1)
  | PID.SharedSubscriptionAvailable =>
      no_dup (shared_subscription_available props) prop_id;;
      val ← prop_u8 buf pos end_;
      Ok (props <| shared_subscription_available := Some val |>, pos + 1)
  end.

(** The [while pos < end] loop. Every round consumes at least the identifier,
    so [S (length buf)] rounds are enough. *)
Fixpoint decode_properties_loop (fuel : nat) (buf : list byte) (end_ : Z)
    (props : Properties) (pos : Z) : outcome DecodeError Properties :=
  match fuel with
  | O => NoFuel
  | S fuel =>
      if pos <? end_ then
        s ← slice_from buf pos;
        '(prop_id, id_len) ← read_variable_int s;
        let pos := pos + id_len in
        prop_id ← ok_or (PropertyId_from_u8 (wrap_u8 prop_id))
                        (DE.InvalidPropertyId (wrap_u8 prop_id));
        '(props, pos) ← decode_property prop_id buf props pos end_;
        decode_properties_loop fuel buf end_ props pos
      else Ok props
  end.

Definition Properties_decode (buf : list byte) : outcome DecodeError (Properties * Z) :=
  if zlen buf =? 0 then Err DE.InsufficientData
  else
    '(prop_len, len_bytes) ← read_variable_int buf;
    if zlen buf <? len_bytes + prop_len then Err DE.InsufficientData
    else
      let end_ := len_bytes + prop_len in
      props ← decode_properties_loop (S (length buf)) buf end_ Properties_default len_bytes;
      Ok (props, end_).

(** ** Encoding *)
Definition Properties_encode (p : Properties) : writer unit :=
  let size := Properties_encoded_size p in
  write_variable_int (wrap_u32 size);;
  if_some (payload_format_indicator p) (fun v => put_u8 (PropertyId_as_u8 PID.PayloadFormatIndicator);; put_u8 v);;
  if_some (message_expiry_interval p) (fun v => put_u8 (PropertyId_as_u8 PID.MessageExpiryInterval);; put_u32 v);;
  if_some (content_type p) (fun v => put_u8 (PropertyId_as_u8 PID.ContentType);; write_string v);;
  if_some (response_topic p) (fun v => put_u8 (PropertyId_as_u8 PID.ResponseTopic);; write_string v);;
  if_some (correlation_data p) (fun v => put_u8 (PropertyId_as_u8 PID.CorrelationData);; write_binary v);;
  for_each (subscription_identifiers p) (fun id => put_u8 (PropertyId_as_u8 PID.SubscriptionIdentifier);; write_variable_int id;; mret tt);;
  if_some (session_expiry_interval p) (fun v => put_u8 (PropertyId_as_u8 PID.SessionExpiryInterval);; put_u32 v);;
  if_some (assigned_client_identifier p) (fun v => put_u8 (PropertyId_as_u8 PID.AssignedClientIdentifier);; write_string v);;
  if_some (server_keep_alive p) (fun v => put_u8 (PropertyId_as_u8 PID.ServerKeepAlive);; put_u16 v);;
  if_some (authentication_method p) (fun v => put_u8 (PropertyId_as_u8 PID.AuthenticationMethod);; write_string v);;
  if_some (authentication_data p) (fun v => put_u8 (PropertyId_as_u8 PID.AuthenticationData);; write_binary v);;
  if_some (request_problem_information p) (fun v => put_u8 (PropertyId_as_u8 PID.RequestProblemInformation);; put_u8 v);;
  if_some (will_delay_interval p) (fun v => put_u8 (PropertyId_as_u8 PID.WillDelayInterval);; put_u32 v);;
  if_some (request_response_information p) (fun v => put_u8 (PropertyId_as_u8 PID.RequestResponseInformation);; put_u8 v);;
  if_some (response_information p) (fun v => put_u8 (PropertyId_as_u8 PID.ResponseInformation);; write_string v);;
  if_some (server_reference p) (fun v => put_u8 (PropertyId_as_u8 PID.ServerReference);; write_string v);;
  if_some (reason_string p) (fun v => put_u8 (PropertyId_as_u8 PID.ReasonString);; write_string v);;
  if_some (receive_maximum p) (fun v => put_u8 (PropertyId_as_u8 PID.ReceiveMaximum);; put_u16 v);;
  if_some (topic_alias_maximum p) (fun v => put_u8 (PropertyId_as_u8 PID.TopicAliasMaximum);; put_u16 v);;
  if_some (topic_alias p) (fun v => put_u8 (PropertyId_as_u8 PID.TopicAlias);; put_u16 v);;
  if_some (maximum_qos p) (fun v => put_u8 (PropertyId_as_u8 PID.MaximumQoS);; put_u8 v);;
  if_some (retain_available p) (fun v => put_u8 (PropertyId_as_u8 PID.RetainAvailable);; put_u8 v);;
  for_each (user_properties p) (fun '(k, v) => put_u8 (PropertyId_as_u8 PID.UserProperty);; write_string k;; write_string v);;
  if_some (maximum_packet_size p) (fun v => put_u8 (PropertyId_as_u8 PID.MaximumPacketSize);; put_u32 v);;
  if_some (wildcard_subscription_available p) (fun v => put_u8 (PropertyId_as_u8 PID.WildcardSubscriptionAvailable);; put_u8 v);;
  if_some (subscription_identifier_available p) (fun v => put_u8 (PropertyId_as_u8 PID.SubscriptionIdentifierAvailable);; put_u8 v);;
  if_some (shared_subscription_available p) (fun v => put_u8 (PropertyId_as_u8 PID.SharedSubscriptionAvailable);; put_u8 v).

(** ** The properties of a collection, in encoding order *)
Definition opt_item {A} (C : A → Property) (o : option A) : list Property :=
  match o with Some a => [C a] | None => [] end.

Definition props_items (p : Properties) : list Property :=
  opt_item PV.PayloadFormatIndicator (payload_format_indicator p) ++
  opt_item PV.MessageExpiryInterval (message_expiry_interval p) ++
  opt_item PV.ContentType (content_type p) ++
  opt_item PV.ResponseTopic (response_topic p) ++
  opt_item PV.CorrelationData (correlation_data p) ++
  (PV.SubscriptionIdentifier <$> subscription_identifiers p) ++
  opt_item PV.SessionExpiryInterval (session_expiry_interval p) ++
  opt_item PV.AssignedClientIdentifier (assigned_client_identifier p) ++
  opt_item PV.ServerKeepAlive (server_keep_alive p) ++
  opt_item PV.AuthenticationMethod (authentication_method p) ++
  opt_item PV.AuthenticationData (authentication_data p) ++
  opt_item PV.RequestProblemInformation (request_problem_information p) ++
  opt_item PV.WillDelayInterval (will_delay_interval p) ++
  opt_item PV.RequestResponseInformation (request_response_information p) ++
  opt_item PV.ResponseInformation (response_information p) ++
  opt_item PV.ServerReference (server_reference p) ++
  opt_item PV.ReasonString (reason_string p) ++
  opt_item PV.ReceiveMaximum (receive_maximum p) ++
  opt_item PV.TopicAliasMaximum (topic_alias_maximum p) ++
  opt_item PV.TopicAlias (topic_alias p) ++
  opt_item PV.MaximumQoS (maximum_qos p) ++
  opt_item PV.RetainAvailable (retain_available p) ++
  ((fun '(k, v) => PV.UserProperty k v) <$> user_properties p) ++
  opt_item PV.MaximumPacketSize (maximum_packet_size p) ++
  opt_item PV.WildcardSubscriptionAvailable (wildcard_subscription_available p) ++
  opt_item PV.SubscriptionIdentifierAvailable (subscription_identifier_available p) ++
  opt_item PV.SharedSubscriptionAvailable (shared_subscription_available p).

(** Recording one more property; [None] when it may not be repeated. *)
Definition set_once {A} (o : option A) (p : Properties) : option Properties :=
  if is_some o then None else Some p.

Definition add_item (p : Properties) (it : Property) : option Properties :=
  match it with
  | PV.PayloadFormatIndicator v => set_once (payload_format_indicator p) (p <| payload_format_indicator := Some v |>)
  | PV.MessageExpiryInterval v => set_once (message_expiry_interval p) (p <| message_expiry_interval := Some v |>)
  | PV.ContentType v => set_once (content_type p) (p <| content_type := Some v |>)
  | PV.ResponseTopic v => set_once (response_topic p) (p <| response_topic := Some v |>)
  | PV.CorrelationData v => set_once (correlation_data p) (p <| correlation_data := Some v |>)
  | PV.SubscriptionIdentifier v => Some (p <| subscription_identifiers ::= (fun l => l ++ [v]) |>)
  | PV.SessionExpiryInterval v => set_once (session_expiry_interval p) (p <| session_expiry_interval := Some v |>)
  | PV.AssignedClientIdentifier v => set_once (assigned_client_identifier p) (p <| assigned_client_identifier := Some v |>)
  | PV.ServerKeepAlive v => set_once (server_keep_alive p) (p <| server_keep_alive := Some v |>)
  | PV.AuthenticationMethod v => set_once (authentication_method p) (p <| authentication_method := Some v |>)
  | PV.AuthenticationData v => set_once (authentication_data p) (p <| authentication_data := Some v |>)
  | PV.RequestProblemInformation v => set_once (request_problem_information p) (p <| request_problem_information := Some v |>)
  | PV.WillDelayInterval v => set_once (will_delay_interval p) (p <| will_delay_interval := Some v |>)
  | PV.RequestResponseInformation v => set_once (request_response_information p) (p <| request_response_information := Some v |>)
  | PV.ResponseInformation v => set_once (response_information p) (p <| response_information := Some v |>)
  | PV.ServerReference v => set_once (server_reference p) (p <| server_reference := Some v |>)
  | PV.ReasonString v => set_once (reason_string p) (p <| reason_string := Some v |>)
  | PV.ReceiveMaximum v => set_once (receive_maximum p) (p <| receive_maximum := Some v |>)
  | PV.TopicAliasMaximum v => set_once (topic_alias_maximum p) (p <| topic_alias_maximum := Some v |>)
  | PV.TopicAlias v => set_once (topic_alias p) (p <| topic_alias := Some v |>)
  | PV.MaximumQoS v => set_once (maximum_qos p) (p <| maximum_qos := Some v |>)
  | PV.RetainAvailable v => set_once (retain_available p) (p <| retain_available := Some v |>)
  | PV.UserProperty k v => Some (p <| user_properties ::= (fun l => l ++ [(k, v)]) |>)
  | PV.MaximumPacketSize v => set_once (maximum_packet_size p) (p <| maximum_packet_size := Some v |>)
  | PV.WildcardSubscriptionAvailable v => set_once (wildcard_subscription_available p) (p <| wildcard_subscription_available := Some v |>)
  | PV.SubscriptionIdentifierAvailable v => set_once (subscription_identifier_available p) (p <| subscription_identifier_available := Some v |>)
  | PV.SharedSubscriptionAvailable v => set_once (shared_subscription_available p) (p <| shared_subscription_available := Some v |>)
  end.

Fixpoint add_items (p : Properties) (l : list Property) : option Properties :=
  match l with
  | [] => Some p
  | it :: l => p ← add_item p it; add_items p l
  end.

(** The value of a property on the wire. *)
Definition item_value (it : Property) : list byte :=
  match it with
  | PV.PayloadFormatIndicator v => [to_u8 v]
  | PV.MessageExpiryInterval v => be_u32 v
  | PV.ContentType v => string_bytes v
  | PV.ResponseTopic v => string_bytes v
  | PV.CorrelationData v => binary_bytes v
  | PV.SubscriptionIdentifier v => var_int_bytes v
  | PV.SessionExpiryInterval v => be_u32 v
  | PV.AssignedClientIdentifier v => string_bytes v
  | PV.ServerKeepAlive v => be_u16 v
  | PV.AuthenticationMethod v => string_bytes v
  | PV.AuthenticationData v => binary_bytes v
  | PV.RequestProblemInformation v => [to_u8 v]
  | PV.WillDelayInterval v => be_u32 v
  | PV.RequestResponseInformation v => [to_u8 v]
  | PV.ResponseInformation v => string_bytes v
  | PV.ServerReference v => string_bytes v
  | PV.ReasonString v => string_bytes v
  | PV.ReceiveMaximum v => be_u16 v
  | PV.TopicAliasMaximum v => be_u16 v
  | PV.TopicAlias v => be_u16 v
  | PV.MaximumQoS v => [to_u8 v]
  | PV.RetainAvailable v => [to_u8 v]
  | PV.UserProperty k v => string_bytes k ++ string_bytes v
  | PV.MaximumPacketSize v => be_u32 v
  | PV.WildcardSubscriptionAvailable v => [to_u8 v]
  | PV.SubscriptionIdentifierAvailable v => [to_u8 v]
  | PV.SharedSubscriptionAvailable v => [to_u8 v]
  end.

Definition item_bytes (it : Property) : list byte :=
  to_u8 (PropertyId_as_u8 (Property_id it)) :: item_value it.

(** The values the protocol allows for a property. *)
Definition wf_item (it : Property) : Prop :=
  match it with
  | PV.PayloadFormatIndicator v => is_u8 v
  | PV.MessageExpiryInterval v => is_u32 v
  | PV.ContentType v => mqtt_string v = true
  | PV.ResponseTopic v => mqtt_string v = true
  | PV.CorrelationData v => mqtt_binary v = true
  | PV.SubscriptionIdentifier v => is_var_int v ∧ v ≠ 0
  | PV.SessionExpiryInterval v => is_u32 v
  | PV.AssignedClientIdentifier v => mqtt_string v = true
  | PV.ServerKeepAlive v => is_u16 v
  | PV.AuthenticationMethod v => mqtt_string v = true
  | PV.AuthenticationData v => mqtt_binary v = true
  | PV.RequestProblemInformation v => is_u8 v
  | PV.WillDelayInterval v => is_u32 v
  | PV.RequestResponseInformation v => is_u8 v
  | PV.ResponseInformation v => mqtt_string v = true
  | PV.ServerReference v => mqtt_string v = true
  | PV.ReasonString v => mqtt_string v = true
  | PV.ReceiveMaximum v => is_u16 v ∧ v ≠ 0
  | PV.TopicAliasMaximum v => is_u16 v
  | PV.TopicAlias v => is_u16 v ∧ v ≠ 0
  | PV.MaximumQoS v => is_u8 v
  | PV.RetainAvailable v => is_u8 v
  | PV.UserProperty k v => mqtt_string k = true ∧ mqtt_string v = true
  | PV.MaximumPacketSize v => is_u32 v ∧ v ≠ 0
  | PV.WildcardSubscriptionAvailable v => is_u8 v
  | PV.SubscriptionIdentifierAvailable v => is_u8 v
  | PV.SharedSubscriptionAvailable v => is_u8 v
  end.

Definition wf_props (p : Properties) : Prop := Forall wf_item (props_items p).

(** ** Lemmas: identifiers and sizes *)
Lemma PropertyId_from_as p : PropertyId_from_u8 (PropertyId_as_u8 p) = Some p.
Proof. by destruct p. Qed.

Lemma PropertyId_as_range p : 0 < PropertyId_as_u8 p < 128.
Proof. destruct p; simpl; lia. Qed.

Lemma read_property_id p rest :
  read_variable_int (to_u8 (PropertyId_as_u8 p) :: rest) = Ok (PropertyId_as_u8 p, 1).
Proof.
  pose proof (PropertyId_as_range p) as Hp.
  change (to_u8 (PropertyId_as_u8 p) :: rest) with ([to_u8 (PropertyId_as_u8 p)] ++ rest).
  replace [to_u8 (PropertyId_as_u8 p)] with (var_int_bytes (PropertyId_as_u8 p)).
  - rewrite read_variable_int_bytes by (unfold is_var_int, MAX_REMAINING_LENGTH; lia).
    unfold variable_int_len. zcase; try lia. done.
  - apply var_int_bytes_small. lia.
Qed.

Lemma zlen_item_bytes it : wf_item it → zlen (item_bytes it) = Property_encoded_size it.
Proof.
  unfold item_bytes, Property_encoded_size. intros Hw.
  destruct it; simpl in *; autorewrite with vibe_len; try lia.
  destruct Hw. by rewrite zlen_var_int_bytes.
Qed.

Lemma Property_encoded_size_pos it : 0 < Property_encoded_size it.
Proof.
  unfold Property_encoded_size.
  destruct it; try lia;
    repeat match goal with
    | |- context [slen ?s] => pose proof (slen_nonneg s); generalize dependent (slen s); intros
    | |- context [zlen ?s] => pose proof (zlen_nonneg s); generalize dependent (zlen s); intros
    end; try lia.
  pose proof (variable_int_len_range v). lia.
Qed.

Lemma sum_size_app {A} (f : A → Z) l k : sum_size f (l ++ k) = sum_size f l + sum_size f k.
Proof. induction l; simpl; lia. Qed.

Lemma sum_size_opt_item {A} (C : A → Property) o :
  sum_size Property_encoded_size (opt_item C o) =
  from_option (λ a, Property_encoded_size (C a)) 0 o.
Proof. destruct o; simpl; lia. Qed.

Lemma sum_size_fmap {A B} (f : B → Z) (g : A → B) l :
  sum_size f (g <$> l) = sum_size (λ a, f (g a)) l.
Proof. induction l as [|a l IH]; [done|]. rewrite fmap_cons. simpl. by rewrite IH. Qed.

Lemma sum_size_ext {A} (f g : A → Z) l : (∀ a, f a = g a) → sum_size f l = sum_size g l.
Proof. intros H. induction l; simpl; congruence. Qed.

(** [encoded_size] of the collection is the sum over its properties. *)
Lemma Properties_encoded_size_items p :
  Properties_encoded_size p = sum_size Property_encoded_size (props_items p).
Proof.
  unfold Properties_encoded_size, props_items.
  rewrite !sum_size_app, !sum_size_opt_item, !sum_size_fmap.
  rewrite (sum_size_ext (λ '(k, v), _) (λ a, Property_encoded_size (let '(k, v) := a in PV.UserProperty k v)))
    by (intros [k v]; unfold Property_encoded_size; lia).
  rewrite (sum_size_ext (λ id, 1 + variable_int_len id) (λ a, Property_encoded_size (PV.SubscriptionIdentifier a)))
    by done.
  rewrite <-!Z.add_assoc.
  repeat first
    [ apply (f_equal2 Z.add)
    | reflexivity
    | match goal with
      | |- context [is_some ?o] => by destruct o
      | |- context [from_option _ _ ?o] => destruct o; cbn [from_option]; unfold Property_encoded_size; lia
      end ].
Qed.

Lemma zlen_items l :
  Forall wf_item l → zlen (l ≫= item_bytes) = sum_size Property_encoded_size l.
Proof.
  induction 1 as [|it l Hw _ IH]; [done|].
  rewrite bind_cons, zlen_app, IH, zlen_item_bytes by done. done.
Qed.

(** ** Lemmas: the decoder returns well-formed properties *)
Lemma post_no_dup {A} (o : option A) id (Q : unit → Prop) :
  (is_some o = false → Q tt) → post (no_dup o id) Q.
Proof. unfold no_dup. destruct (is_some o); simpl; auto. Qed.

Lemma post_non_zero v msg (Q : unit → Prop) : (v ≠ 0 → Q tt) → post (non_zero v msg) Q.
Proof. unfold non_zero. zcase; simpl; auto. Qed.

Lemma post_prop_u8 buf pos end_ (Q : Z → Prop) :
  0 ≤ pos → end_ ≤ zlen buf → (∀ v, is_u8 v → pos + 1 ≤ zlen buf → Q v) →
  post (prop_u8 buf pos end_) Q.
Proof.
  intros. unfold prop_u8. rewrite Z.geb_leb. zcase; [exact I|].
  apply post_index; [lia|]. intros. apply H1; [done|lia].
Qed.

Lemma post_prop_u16 buf pos end_ (Q : Z → Prop) :
  0 ≤ pos → end_ ≤ zlen buf → (∀ v, is_u16 v → pos + 2 ≤ zlen buf → Q v) →
  post (prop_u16 buf pos end_) Q.
Proof.
  intros. unfold prop_u16. rewrite Z.gtb_ltb. zcase; [exact I|].
  apply post_bind, post_index; [lia|]. intros.
  apply post_bind, post_index; [lia|]. intros.
  apply H1; [by apply u16_from_be_range|lia].
Qed.

Lemma post_prop_u32 buf pos end_ (Q : Z → Prop) :
  0 ≤ pos → end_ ≤ zlen buf → (∀ v, is_u32 v → pos + 4 ≤ zlen buf → Q v) →
  post (prop_u32 buf pos end_) Q.
Proof.
  intros. unfold prop_u32. rewrite Z.gtb_ltb. zcase; [exact I|].
  apply post_bind, post_index; [lia|]. intros.
  apply post_bind, post_index; [lia|]. intros.
  apply post_bind, post_index; [lia|]. intros.
  apply post_bind, post_index; [lia|]. intros.
  apply H1; [by apply u32_from_be_range|lia].
Qed.

Lemma post_string_at {B} buf pos (k : string * Z → outcome DecodeError B) (Q : B → Prop) :
  0 ≤ pos ≤ zlen buf →
  (∀ s, mqtt_string s = true → pos + (2 + slen s) ≤ zlen buf → post (k (s, 2 + slen s)) Q) →
  post (l ← slice_from buf pos; read_string l ≫= k) Q.
Proof.
  intros Hp HQ. apply post_bind, post_slice_from; [done|]. intros l Hl.
  apply post_bind. eapply post_mono; [apply post_read_string|]. intros [s n] (? & -> & ?). apply HQ; [done|lia].
Qed.

Lemma post_binary_at {B} buf pos (k : list byte * Z → outcome DecodeError B) (Q : B → Prop) :
  0 ≤ pos ≤ zlen buf →
  (∀ s, mqtt_binary s = true → pos + (2 + zlen s) ≤ zlen buf → post (k (s, 2 + zlen s)) Q) →
  post (l ← slice_from buf pos; read_binary l ≫= k) Q.
Proof.
  intros Hp HQ. apply post_bind, post_slice_from; [done|]. intros l Hl.
  apply post_bind. eapply post_mono; [apply post_read_binary|]. intros [s n] (? & -> & ?). apply HQ; [done|lia].
Qed.

Lemma post_var_int_at {B} buf pos (k : Z * Z → outcome DecodeError B) (Q : B → Prop) :
  0 ≤ pos ≤ zlen buf →
  (∀ v n, is_var_int v → 1 ≤ n → pos + n ≤ zlen buf → post (k (v, n)) Q) →
  post (l ← slice_from buf pos; read_variable_int l ≫= k) Q.
Proof.
  intros Hp HQ. apply post_bind, post_slice_from; [done|]. intros l Hl.
  apply post_bind. eapply post_mono; [apply post_read_variable_int|]. intros [s n] (? & ? & ?). apply HQ; lia || done.
Qed.

Lemma set_once_Some {A} (o : option A) p p' :
  set_once o p = Some p' → is_some o = false ∧ p' = p.
Proof. unfold set_once. destruct (is_some o); naive_solver. Qed.

(** Splits [Forall P (l1 ++ l2 ++ ...)] into its parts. *)
Ltac forall_app_in H :=
  repeat match type of H with
  | Forall _ (_ ++ _) => let H1 := fresh in apply Forall_app in H; destruct H as [H1 H]
  end.
Ltac forall_app :=
  repeat match goal with |- Forall _ (_ ++ _) => apply Forall_app; split end.

Lemma add_item_wf p it p' : add_item p it = Some p' → wf_item it → wf_props p → wf_props p'.
Proof.
  unfold wf_props, props_items. intros Ha Hi Hp. forall_app_in Hp.
  destruct it; cbn [add_item] in Ha; try (apply set_once_Some in Ha; destruct Ha as [_ ->]);
    try injection Ha as <-; forall_app; try assumption; cbn -[wf_item];
    rewrite ?fmap_app; forall_app; try assumption; exact (Forall_cons_2 _ _ _ Hi (Forall_nil_2 _)).
Qed.

(** One round of the loop records one well-formed property and stays inside
    the buffer. *)
Definition step_spec (buf : list byte) (props : Properties) (pos : Z) : Properties * Z → Prop :=
  λ '(props', pos'), ∃ it, wf_item it ∧ add_item props it = Some props' ∧ pos ≤ pos' ≤ zlen buf.

Ltac post_property :=
  repeat match goal with
  | |- post (no_dup _ _ ≫= _) _ => apply post_bind, post_no_dup; intros ?
  | |- post (non_zero _ _ ≫= _) _ => apply post_bind, post_non_zero; intros ?
  | |- post (prop_u8 _ _ _ ≫= _) _ => apply post_bind, post_prop_u8; [lia|lia|]; intros ? ? ?
  | |- post (prop_u16 _ _ _ ≫= _) _ => apply post_bind, post_prop_u16; [lia|lia|]; intros ? ? ?
  | |- post (prop_u32 _ _ _ ≫= _) _ => apply post_bind, post_prop_u32; [lia|lia|]; intros ? ? ?
  | |- post (slice_from _ _ ≫= λ l, read_string l ≫= _) _ =>
      apply post_string_at; [llia|]; intros ? ? ?; cbv beta iota zeta
  | |- post (slice_from _ _ ≫= λ l, read_binary l ≫= _) _ =>
      apply post_binary_at; [llia|]; intros ? ? ?; cbv beta iota zeta
  | |- post (slice_from _ _ ≫= λ l, read_variable_int l ≫= _) _ =>
      apply post_var_int_at; [llia|]; intros ? ? ? ? ?; cbv beta iota zeta
  end.

Ltac item_step :=
  split_and!;
  [ | simpl; unfold set_once;
      repeat match goal with H : is_some _ = false |- _ => rewrite H end; reflexivity
    | llia | llia ];
  [simpl; auto].

(** The property that the branch has read. *)
Ltac find_item :=
  first
    [ eexists (PV.PayloadFormatIndicator _); item_step
    | eexists (PV.MessageExpiryInterval _); item_step
    | eexists (PV.ContentType _); item_step
    | eexists (PV.ResponseTopic _); item_step
    | eexists (PV.CorrelationData _); item_step
    | eexists (PV.SubscriptionIdentifier _); item_step
    | eexists (PV.SessionExpiryInterval _); item_step
    | eexists (PV.AssignedClientIdentifier _); item_step
    | eexists (PV.ServerKeepAlive _); item_step
    | eexists (PV.AuthenticationMethod _); item_step
    | eexists (PV.AuthenticationData _); item_step
    | eexists (PV.RequestProblemInformation _); item_step
    | eexists (PV.WillDelayInterval _); item_step
    | eexists (PV.RequestResponseInformation _); item_step
    | eexists (PV.ResponseInformation _); item_step
    | eexists (PV.ServerReference _); item_step
    | eexists (PV.ReasonString _); item_step
    | eexists (PV.ReceiveMaximum _); item_step
    | eexists (PV.TopicAliasMaximum _); item_step
    | eexists (PV.TopicAlias _); item_step
    | eexists (PV.MaximumQoS _); item_step
    | eexists (PV.RetainAvailable _); item_step
    | eexists (PV.UserProperty _ _); item_step
    | eexists (PV.MaximumPacketSize _); item_step
    | eexists (PV.WildcardSubscriptionAvailable _); item_step
    | eexists (PV.SubscriptionIdentifierAvailable _); item_step
    | eexists (PV.SharedSubscriptionAvailable _); item_step ].

Lemma post_decode_property id buf props pos end_ :
  0 ≤ pos ≤ zlen buf → end_ ≤ zlen buf →
  post (decode_property id buf props pos end_) (step_spec buf props pos).
Proof.
  intros Hp He. unfold decode_property.
  destruct id; post_property; unfold step_spec; simpl.
  all: find_item.
Qed.

Lemma wf_props_default : wf_props Properties_default.
Proof. constructor. Qed.

Lemma post_decode_properties_loop fuel buf end_ props pos :
  wf_props props → 0 ≤ pos ≤ zlen buf → end_ ≤ zlen buf →
  zlen buf < pos + Z.of_nat fuel →
  post (decode_properties_loop fuel buf end_ props pos) wf_props.
Proof.
  revert props pos. induction fuel as [|fuel IH]; intros props pos Hw Hp He Hf; [lia|].
  simpl. destruct (Z.ltb_spec pos end_); [|done].
  apply post_var_int_at; [done|]. intros v n Hv Hn Hl. cbv beta iota zeta.
  apply post_bind, post_ok_or. intros id _. apply post_bind.
  eapply post_mono; [apply post_decode_property; lia|].
  intros [props' pos'] (it & Hwi & Ha & Hpos). apply IH; [|lia..].
  by eapply add_item_wf.
Qed.

Lemma post_Properties_decode buf :
  post (Properties_decode buf) (λ '(p, n), wf_props p ∧ 1 ≤ n ≤ zlen buf).
Proof.
  unfold Properties_decode. zcase; [exact I|].
  apply post_bind. eapply post_mono; [apply post_read_variable_int|].
  intros [v k] ([? ?] & ? & ?). zcase; [exact I|]. apply post_bind.
  eapply post_mono; [apply post_decode_properties_loop; [apply wf_props_default|lia|lia|unfold zlen; lia]|].
  intros p Hp. simpl. split; [done|lia].
Qed.

(** ** Lemmas: decoding inverts encoding *)

Lemma emits_item_opt {A} (C : A → Property) (o : option A) id (w : A → writer unit) :
  (∀ a, o = Some a → Property_id (C a) = id ∧ emits (w a) (item_value (C a)) tt) →
  emits (if_some o (λ v, put_u8 (PropertyId_as_u8 id);; w v)) (opt_item C o ≫= item_bytes) tt.
Proof.
  intros H. destruct o as [a|]; simpl; [|apply emits_ret].
  destruct (H a eq_refl) as [<- Hw]. rewrite app_nil_r. unfold item_bytes.
  by apply (emits_bind _ _ [_] _ tt); [apply emits_put_u8|].
Qed.

Lemma emits_bind_list {A} (l k : list A) (f : A → list byte) (w w' : writer unit) :
  emits w (l ≫= f) tt → emits w' (k ≫= f) tt → emits (w;; w') ((l ++ k) ≫= f) tt.
Proof. intros. rewrite bind_app. by eapply emits_bind. Qed.

Lemma emits_for_each_items {A} (C : A → Property) (l : list A) (k : A → writer unit) :
  (∀ a, a ∈ l → emits (k a) (item_bytes (C a)) tt) →
  emits (for_each l k) ((C <$> l) ≫= item_bytes) tt.
Proof.
  intros. replace ((C <$> l) ≫= item_bytes) with (l ≫= λ a, item_bytes (C a)).
  - by apply emits_for_each.
  - clear. induction l; [done|]. rewrite fmap_cons, !bind_cons. by f_equal.
Qed.

(** The bytes of a property collection: the length prefix, then its properties. *)
Definition props_bytes (p : Properties) : list byte :=
  var_int_bytes (Properties_encoded_size p) ++ (props_items p ≫= item_bytes).

Lemma mqtt_string_len s : mqtt_string s = true → slen s ≤ 65535.
Proof. intros (_ & _ & ?)%mqtt_string_spec. done. Qed.

Lemma mqtt_binary_len d : mqtt_binary d = true → zlen d ≤ 65535.
Proof. unfold mqtt_binary. lia. Qed.

#[export] Hint Resolve mqtt_string_len mqtt_binary_len : vibe.

Lemma Forall_opt_item {A} (C : A → Property) (o : option A) a :
  Forall wf_item (opt_item C o) → o = Some a → wf_item (C a).
Proof. intros H ->. by inversion H. Qed.

Lemma emits_Properties_encode p :
  wf_props p → is_var_int (Properties_encoded_size p) →
  emits (Properties_encode p) (props_bytes p) tt.
Proof.
  intros Hw Hs. unfold Properties_encode, props_bytes. cbv zeta.
  replace (wrap_u32 (Properties_encoded_size p)) with (Properties_encoded_size p).
  2:{ unfold wrap_u32. rewrite Z.mod_small; [done|].
      unfold is_var_int, MAX_REMAINING_LENGTH in Hs. lia. }
  eapply emits_bind; [by apply emits_write_variable_int|].
  unfold wf_props, props_items in *. forall_app_in Hw.
  repeat first
    [ apply emits_bind_list
    | apply emits_item_opt; intros a Ha;
      match goal with H : Forall wf_item (opt_item ?C ?o) |- _ =>
        match type of Ha with o = _ => pose proof (Forall_opt_item C o a H Ha) as Hi end end;
      simpl in Hi; split; [done|by eauto with vibe] ].
  - apply emits_for_each_items. intros a Ha.
    match goal with H : Forall wf_item (PV.SubscriptionIdentifier <$> _) |- _ =>
      rewrite Forall_fmap, Forall_forall in H; destruct (H a Ha) as [Hv _] end.
    apply (emits_bind _ _ [_] _ tt); [apply emits_put_u8|]. simpl.
    rewrite <-(app_nil_r (var_int_bytes a)).
    eapply emits_bind; [by apply emits_write_variable_int|apply emits_ret].
  - apply emits_for_each_items. intros [k v] Ha.
    match goal with H : Forall wf_item (_ <$> user_properties _) |- _ =>
      rewrite Forall_fmap, Forall_forall in H; destruct (H _ Ha) as [Hk Hv] end.
    apply (emits_bind _ _ [_] _ tt); [apply emits_put_u8|].
    apply (emits_bind _ _ _ _ tt); eauto with vibe.
Qed.

Lemma no_dup_None {A} (o : option A) id : is_some o = false → no_dup o id = Ok tt.
Proof. unfold no_dup. by intros ->. Qed.

Lemma non_zero_ok v msg : v ≠ 0 → non_zero v msg = Ok tt.
Proof. unfold non_zero. by zcase. Qed.

Section at_pos_reads.
Context (buf : list byte) (pos end_ : Z) (rest : list byte).

Lemma prop_u8_at v :
  is_u8 v → at_pos buf pos ([to_u8 v] ++ rest) → pos + 1 ≤ end_ → prop_u8 buf pos end_ = Ok v.
Proof.
  intros Hv Hat ?. unfold prop_u8. rewrite Z.geb_leb. zcase; [lia|].
  by rewrite (at_pos_index _ _ _ _ Hat), u8_to_u8_small.
Qed.

Lemma prop_u16_at v :
  is_u16 v → at_pos buf pos (be_u16 v ++ rest) → pos + 2 ≤ end_ → prop_u16 buf pos end_ = Ok v.
Proof.
  intros Hv Ht ?. unfold prop_u16. rewrite Z.gtb_ltb. zcase; [lia|]. unfold be_u16 in Ht. simpl in Ht.
  rewrite (at_pos_index _ _ _ _ Ht). simpl.
  pose proof (at_pos_cons _ _ _ _ _ Ht eq_refl) as Hu. rewrite (at_pos_index _ _ _ _ Hu). simpl.
  by rewrite u16_from_be_be.
Qed.

Lemma prop_u32_at v :
  is_u32 v → at_pos buf pos (be_u32 v ++ rest) → pos + 4 ≤ end_ → prop_u32 buf pos end_ = Ok v.
Proof.
  intros Hv Ht ?. unfold prop_u32. rewrite Z.gtb_ltb. zcase; [lia|]. unfold be_u32 in Ht. simpl in Ht.
  rewrite (at_pos_index _ _ _ _ Ht). simpl.
  pose proof (at_pos_cons _ _ _ _ _ Ht eq_refl) as Hu. rewrite (at_pos_index _ _ _ _ Hu). simpl.
  apply (at_pos_cons _ _ (pos + 2)) in Hu; [|lia]. rewrite (at_pos_index _ _ _ _ Hu). simpl.
  apply (at_pos_cons _ _ (pos + 3)) in Hu; [|lia]. rewrite (at_pos_index _ _ _ _ Hu). simpl.
  by rewrite u32_from_be_be.
Qed.

Lemma string_at {B} s (k : string * Z → outcome DecodeError B) :
  mqtt_string s = true → at_pos buf pos (string_bytes s ++ rest) →
  (l ← slice_from buf pos; read_string l ≫= k) = k (s, 2 + slen s).
Proof.
  intros Hs Hat. rewrite (at_pos_slice_from _ _ _ Hat), bind_Ok. by rewrite read_string_bytes.
Qed.

Lemma binary_at {B} s (k : list byte * Z → outcome DecodeError B) :
  mqtt_binary s = true → at_pos buf pos (binary_bytes s ++ rest) →
  (l ← slice_from buf pos; read_binary l ≫= k) = k (s, 2 + zlen s).
Proof.
  intros Hs Hat. rewrite (at_pos_slice_from _ _ _ Hat), bind_Ok. by rewrite read_binary_bytes.
Qed.

Lemma var_int_at {B} v (k : Z * Z → outcome DecodeError B) :
  is_var_int v → at_pos buf pos (var_int_bytes v ++ rest) →
  (l ← slice_from buf pos; read_variable_int l ≫= k) = k (v, variable_int_len v).
Proof.
  intros Hs Hat. rewrite (at_pos_slice_from _ _ _ Hat), bind_Ok. by rewrite read_variable_int_bytes.
Qed.

End at_pos_reads.

(** One round of the loop on an encoded property. *)
Lemma decode_property_item it buf props props' pos end_ rest :
  wf_item it → add_item props it = Some props' →
  at_pos buf pos (item_value it ++ rest) → pos + zlen (item_value it) ≤ end_ →
  decode_property (Property_id it) buf props pos end_ = Ok (props', pos + zlen (item_value it)).
Proof.
  intros Hw Ha Hat Hl.
  destruct it; cbn [wf_item add_item item_value] in *; unfold decode_property, Property_id;
    try (apply set_once_Some in Ha; destruct Ha as [Hd ->]; rewrite (no_dup_None _ _ Hd);
         rewrite ?bind_Ok);
    autorewrite with vibe_len in Hl.
  all: try (erewrite string_at by eassumption; by autorewrite with vibe_len).
  all: try (erewrite binary_at by eassumption; by autorewrite with vibe_len).
  all: try (erewrite prop_u8_at by (eassumption || lia); done).
  all: try (erewrite prop_u16_at by (eassumption || lia); done).
  all: try (erewrite prop_u32_at by (eassumption || lia); done).
  all: try (destruct Hw as [? ?]; erewrite prop_u16_at by (eassumption || lia); rewrite ?bind_Ok;
       rewrite non_zero_ok by done; done).
  all: try (destruct Hw as [? ?]; erewrite prop_u32_at by (eassumption || lia); rewrite ?bind_Ok;
       rewrite non_zero_ok by done; done).
  - destruct Hw as [Hw Hnz]. injection Ha as <-. erewrite var_int_at by eassumption.
    rewrite non_zero_ok by done. rewrite ?bind_Ok. by rewrite zlen_var_int_bytes.
  - destruct Hw as [Hk Hv]. injection Ha as <-. rewrite <-app_assoc in Hat.
    rewrite (string_at _ _ _ k _ Hk Hat). cbv beta iota zeta.
    erewrite (string_at _ _ _ v); [|done|eapply at_pos_app; [exact Hat|by autorewrite with vibe_len]].
    cbv beta iota zeta. autorewrite with vibe_len. do 2 f_equal. lia.
Qed.

Lemma decode_properties_loop_items items fuel buf end_ props props' pos rest :
  Forall wf_item items → add_items props items = Some props' →
  at_pos buf pos ((items ≫= item_bytes) ++ rest) → end_ = pos + zlen (items ≫= item_bytes) →
  (length items < fuel)%nat →
  decode_properties_loop fuel buf end_ props pos = Ok props'.
Proof.
  intros Hw. revert fuel props pos.
  induction Hw as [|it items Hi Hw IH]; intros [|fuel] props pos Ha Hat He Hf; simpl in Hf; try lia.
  - simpl in *. rewrite zlen_nil in He. zcase; [lia|]. congruence.
  - simpl in Ha. destruct (add_item props it) as [p1|] eqn:Hp1; [|done]. simpl in Ha.
    rewrite bind_cons in Hat, He. rewrite <-app_assoc in Hat. rewrite zlen_app in He.
    simpl. unfold item_bytes at 1 in Hat. unfold item_bytes at 1 in He. rewrite zlen_cons in He. cbn [app] in Hat.
    pose proof (zlen_nonneg (item_value it)). pose proof (zlen_nonneg (items ≫= item_bytes)).
    zcase; [|lia]. rewrite (at_pos_slice_from _ _ _ Hat). rewrite ?bind_Ok.
    rewrite read_property_id. rewrite ?bind_Ok.
    pose proof (PropertyId_as_range (Property_id it)).
    unfold wrap_u8. rewrite Z.mod_small by lia. rewrite PropertyId_from_as. cbn [ok_or]. rewrite ?bind_Ok.
    apply (at_pos_cons _ _ (pos + 1)) in Hat; [|done].
    rewrite (decode_property_item it buf props p1 _ _ _ Hi Hp1 Hat) by lia. rewrite ?bind_Ok.
    apply IH; [done| |lia|lia]. by eapply at_pos_app.
Qed.

(** Recording the items of a collection rebuilds it. *)
Lemma add_items_opt {A} (C : A → Property) (f : Properties → option A)
    (upd : option A → Properties → Properties) p o l :
  (∀ q a, add_item q (C a) = set_once (f q) (upd (Some a) q)) →
  f p = None → upd None p = p →
  add_items p (opt_item C o ++ l) = add_items (upd o p) l.
Proof.
  intros Hadd Hf Hu. destruct o as [a|]; simpl; [|by rewrite Hu].
  by rewrite Hadd, Hf.
Qed.

Lemma add_items_subids p ids l :
  add_items p ((PV.SubscriptionIdentifier <$> ids) ++ l) =
  add_items (p <| subscription_identifiers ::= (λ k, k ++ ids) |>) l.
Proof.
  revert p. induction ids as [|v ids IH]; intros p; simpl.
  - f_equal. destruct p; unfold set_field; simpl. by rewrite app_nil_r.
  - rewrite IH. f_equal. destruct p; unfold set_field; simpl. by rewrite <-app_assoc.
Qed.

Lemma add_items_users p us l :
  add_items p (((λ '(k, v), PV.UserProperty k v) <$> us) ++ l) =
  add_items (p <| user_properties ::= (λ k, k ++ us) |>) l.
Proof.
  revert p. induction us as [|[k v] us IH]; intros p; simpl.
  - f_equal. destruct p; unfold set_field; simpl. by rewrite app_nil_r.
  - rewrite IH. f_equal. destruct p; unfold set_field; simpl. by rewrite <-app_assoc.
Qed.

Ltac add_opt C f :=
  rewrite (add_items_opt C f (λ o q, q <| f := o |>)) by done; unfold set_field; simpl.

Lemma add_items_props_items p : add_items Properties_default (props_items p) = Some p.
Proof.
  unfold props_items. rewrite <-(app_nil_r (opt_item PV.SharedSubscriptionAvailable _)).
  add_opt PV.PayloadFormatIndicator payload_format_indicator.
  add_opt PV.MessageExpiryInterval message_expiry_interval.
  add_opt PV.ContentType content_type.
  add_opt PV.ResponseTopic response_topic.
  add_opt PV.CorrelationData correlation_data.
  rewrite add_items_subids. unfold set_field; simpl.
  add_opt PV.SessionExpiryInterval session_expiry_interval.
  add_opt PV.AssignedClientIdentifier assigned_client_identifier.
  add_opt PV.ServerKeepAlive server_keep_alive.
  add_opt PV.AuthenticationMethod authentication_method.
  add_opt PV.AuthenticationData authentication_data.
  add_opt PV.RequestProblemInformation request_problem_information.
  add_opt PV.WillDelayInterval will_delay_interval.
  add_opt PV.RequestResponseInformation request_response_information.
  add_opt PV.ResponseInformation response_information.
  add_opt PV.ServerReference server_reference.
  add_opt PV.ReasonString reason_string.
  add_opt PV.ReceiveMaximum receive_maximum.
  add_opt PV.TopicAliasMaximum topic_alias_maximum.
  add_opt PV.TopicAlias topic_alias.
  add_opt PV.MaximumQoS maximum_qos.
  add_opt PV.RetainAvailable retain_available.
  rewrite add_items_users. unfold set_field; simpl.
  add_opt PV.MaximumPacketSize maximum_packet_size.
  add_opt PV.WildcardSubscriptionAvailable wildcard_subscription_available.
  add_opt PV.SubscriptionIdentifierAvailable subscription_identifier_available.
  add_opt PV.SharedSubscriptionAvailable shared_subscription_available.
  by destruct p.
Qed.

Lemma length_items_bytes items : (length items ≤ length (items ≫= item_bytes))%nat.
Proof.
  induction items as [|it items IH]; [done|]. rewrite bind_cons, length_app. simpl. lia.
Qed.

Lemma zlen_props_bytes p :
  wf_props p → is_var_int (Properties_encoded_size p) →
  zlen (props_bytes p) = variable_int_len (Properties_encoded_size p) + Properties_encoded_size p.
Proof.
  intros Hw Hs. unfold props_bytes. rewrite zlen_app, zlen_var_int_bytes by done.
  by rewrite zlen_items, <-Properties_encoded_size_items.
Qed.

Lemma Properties_decode_bytes p rest :
  wf_props p → is_var_int (Properties_encoded_size p) →
  Properties_decode (props_bytes p ++ rest) = Ok (p, zlen (props_bytes p)).
Proof.
  intros Hw Hs. pose proof (zlen_props_bytes p Hw Hs) as Hl.
  pose proof (variable_int_len_range (Properties_encoded_size p)).
  assert (Hs0 : 0 ≤ Properties_encoded_size p) by apply Hs.
  assert (Hr : read_variable_int (props_bytes p ++ rest)
    = Ok (Properties_encoded_size p, variable_int_len (Properties_encoded_size p))).
  { unfold props_bytes. rewrite <-app_assoc. by apply read_variable_int_bytes. }
  unfold Properties_decode. rewrite zlen_app, Hl, Hr. pose proof (zlen_nonneg rest).
  destruct (Z.eqb_spec (variable_int_len (Properties_encoded_size p)
    + Properties_encoded_size p + zlen rest) 0); [lia|].
  rewrite bind_Ok. cbv beta iota.
  destruct (Z.ltb_spec (variable_int_len (Properties_encoded_size p)
    + Properties_encoded_size p + zlen rest)
    (variable_int_len (Properties_encoded_size p) + Properties_encoded_size p)); [lia|].
  cbv zeta.
  rewrite (decode_properties_loop_items (props_items p) _ _ _ _ p _ rest).
  - by rewrite bind_Ok.
  - done.
  - apply add_items_props_items.
  - apply (at_pos_app _ 0 _ (var_int_bytes (Properties_encoded_size p))).
    + unfold props_bytes. rewrite <-app_assoc. apply at_pos_0.
    + rewrite zlen_var_int_bytes by assumption. symmetry. apply Z.add_0_l.
  - by rewrite zlen_items, <-Properties_encoded_size_items.
  - unfold props_bytes. rewrite !length_app. pose proof (length_items_bytes (props_items p)). lia.
Qed.

Lemma Properties_is_empty_default p : Properties_is_empty p = true ↔ p = Properties_default.
Proof.
  split; [|by intros ->]. unfold Properties_is_empty, is_none. rewrite !andb_true_iff.
  intros H. destruct_and!. destruct p; simpl in *.
  repeat match goal with
  | H : negb (is_some ?o) = true |- _ => destruct o; [done|]; clear H
  | H : is_nil ?l = true |- _ => destruct l; [|done]; clear H
  end. done.
Qed.

Lemma Properties_encoded_size_nonneg p : 0 ≤ Properties_encoded_size p.
Proof.
  rewrite Properties_encoded_size_items. induction (props_items p) as [|it l IH]; simpl; [done|].
  pose proof (Property_encoded_size_pos it). lia.
Qed.

Lemma Properties_encoded_size_0 p : Properties_encoded_size p = 0 → p = Properties_default.
Proof.
  rewrite Properties_encoded_size_items. intros H.
  assert (Hn : props_items p = []).
  { destruct (props_items p) as [|it l]; [done|]. simpl in H.
    pose proof (Property_encoded_size_pos it).
    assert (0 ≤ sum_size Property_encoded_size l); [|lia].
    clear. induction l as [|it l IH]; simpl; [done|]. pose proof (Property_encoded_size_pos it). lia. }
  pose proof (add_items_props_items p) as Ha. rewrite Hn in Ha. simpl in Ha. congruence.
Qed.
