(* ===== verification/Packet.v ===== *)
(** * MQTT packets

    The packet structures of [protocol/packet.rs]. *)

From S2P Require Import Prelude Protocol Codec Properties.

Record Will : Type := MkWill {
  will_topic : string;
  will_payload : list byte;
  will_qos : QoS;
  will_retain : bool;
  will_properties : Properties;
}.

Record Connect : Type := MkConnect {
  conn_protocol_version : ProtocolVersion;
  conn_client_id : string;
  conn_clean_start : bool;
  conn_keep_alive : Z;
  conn_username : option string;
  conn_password : option (list byte);
  conn_will : option Will;
  conn_properties : Properties;
}.

Record ConnAck : Type := MkConnAck {
  connack_session_present : bool;
  connack_reason_code : ReasonCode;
  connack_properties : Properties;
}.

Record Publish : Type := MkPublish {
  pub_dup : bool;
  pub_qos : QoS;
  pub_retain : bool;
  pub_topic : string;
  pub_packet_id : option Z;
  pub_payload : list byte;
  pub_properties : Properties;
}.

Record PubAck : Type := MkPubAck {
  puback_packet_id : Z;
  puback_reason_code : ReasonCode;
  puback_properties : Properties;
}.

Record PubRec : Type := MkPubRec {
  pubrec_packet_id : Z;
  pubrec_reason_code : ReasonCode;
  pubrec_properties : Properties;
}.

Record PubRel : Type := MkPubRel {
  pubrel_packet_id : Z;
  pubrel_reason_code : ReasonCode;
  pubrel_properties : Properties;
}.

Record PubComp : Type := MkPubComp {
  pubcomp_packet_id : Z;
  pubcomp_reason_code : ReasonCode;
  pubcomp_properties : Properties;
}.

(** The [new] constructors of the acknowledgements. *)
Definition PubAck_new (packet_id : Z) : PubAck :=
  MkPubAck packet_id RC.Success Properties_default.
Definition PubRec_new (packet_id : Z) : PubRec :=
  MkPubRec packet_id RC.Success Properties_default.
Definition PubRel_new (packet_id : Z) : PubRel :=
  MkPubRel packet_id RC.Success Properties_default.
Definition PubComp_new (packet_id : Z) : PubComp :=
  MkPubComp packet_id RC.Success Properties_default.

Record Subscription : Type := MkSubscription {
  sub_filter : string;
  sub_options : SubscriptionOptions;
}.

Record Subscribe : Type := MkSubscribe {
  subscribe_packet_id : Z;
  subscribe_subscriptions : list Subscription;
  subscribe_properties : Properties;
}.

Record SubAck : Type := MkSubAck {
  suback_packet_id : Z;
  suback_reason_codes : list ReasonCode;
  suback_properties : Properties;
}.

Record Unsubscribe : Type := MkUnsubscribe {
  unsubscribe_packet_id : Z;
  unsubscribe_filters : list string;
  unsubscribe_properties : Properties;
}.

Record UnsubAck : Type := MkUnsubAck {
  unsuback_packet_id : Z;
  unsuback_reason_codes : list ReasonCode;
  unsuback_properties : Properties;
}.

Record Disconnect : Type := MkDisconnect {
  disconnect_reason_code : ReasonCode;
  disconnect_properties : Properties;
}.

Record Auth : Type := MkAuth {
  auth_reason_code : ReasonCode;
  auth_properties : Properties;
}.

Definition Disconnect_default : Disconnect := MkDisconnect RC.Success Properties_default.
Definition Auth_default : Auth := MkAuth RC.Success Properties_default.

Module P.

Inductive Packet : Type :=
  | Connect (p : Connect)
  | ConnAck (p : ConnAck)
  | Publish (p : Publish)
  | PubAck (p : PubAck)
  | PubRec (p : PubRec)
  | PubRel (p : PubRel)
  | PubComp (p : PubComp)
  | Subscribe (p : Subscribe)
  | SubAck (p : SubAck)
  | Unsubscribe (p : Unsubscribe)
  | UnsubAck (p : UnsubAck)
  | PingReq
  | PingResp
  | Disconnect (p : Disconnect)
  | Auth (p : Auth).

End P.
Abbreviation Packet := P.Packet.

Definition packet_type (p : Packet) : Z :=
  match p with
  | P.Connect _ => 1
  | P.ConnAck _ => 2
  | P.Publish _ => 3
  | P.PubAck _ => 4
  | P.PubRec _ => 5
  | P.PubRel _ => 6
  | P.PubComp _ => 7
  | P.Subscribe _ => 8
  | P.SubAck _ => 9
  | P.Unsubscribe _ => 10
  | P.UnsubAck _ => 11
  | P.PingReq => 12
  | P.PingResp => 13
  | P.Disconnect _ => 14
  | P.Auth _ => 15
  end.

#[global] Instance Publish_eta : Eta Publish := fun p =>
  MkPublish (pub_dup p) (pub_qos p) (pub_retain p) (pub_topic p) (pub_packet_id p)
    (pub_payload p) (pub_properties p).

#[global] Instance Publish_eq_dec : EqDecision Publish.
Proof. solve_decision. Defined.

(** ** Well-formed packets

    What the wire format can represent for protocol version [v]: field widths,
    string contents, packet identifiers, and nothing in the fields the version
    does not transmit. [PP] is what is asked of MQTT v5.0 properties. *)
Section wf.
Context (PP : Properties → Prop).

Definition wf_props_v (v : ProtocolVersion) (p : Properties) : Prop :=
  match v with
  | V5 => PP p
  | V311 => p = Properties_default
  end.

Definition wf_will (v : ProtocolVersion) (w : Will) : Prop :=
  mqtt_string (will_topic w) = true ∧ mqtt_binary (will_payload w) = true ∧
  wf_props_v v (will_properties w).

Definition wf_connect (c : Connect) : Prop :=
  mqtt_string (conn_client_id c) = true ∧
  is_u16 (conn_keep_alive c) ∧
  (∀ u, conn_username c = Some u → mqtt_string u = true) ∧
  (∀ p, conn_password c = Some p → mqtt_binary p = true ∧ conn_username c ≠ None) ∧
  (∀ w, conn_will c = Some w → wf_will (conn_protocol_version c) w) ∧
  wf_props_v (conn_protocol_version c) (conn_properties c).

Definition wf_connack (v : ProtocolVersion) (c : ConnAck) : Prop :=
  wf_props_v v (connack_properties c).

Definition wf_publish (v : ProtocolVersion) (p : Publish) : Prop :=
  (pub_qos p = AtMostOnce → pub_dup p = false) ∧
  mqtt_string (pub_topic p) = true ∧
  contains "+" (pub_topic p) = false ∧ contains "#" (pub_topic p) = false ∧
  match pub_packet_id p with
  | Some id => pub_qos p ≠ AtMostOnce ∧ is_u16 id ∧ id ≠ 0
  | None => pub_qos p = AtMostOnce
  end ∧
  wf_props_v v (pub_properties p).

(** The four acknowledgements of a PUBLISH. *)
Definition wf_ack (v : ProtocolVersion) (packet_id : Z) (r : ReasonCode) (p : Properties) : Prop :=
  is_u16 packet_id ∧ wf_props_v v p ∧ (v = V311 → r = RC.Success).

Definition wf_subscription (v : ProtocolVersion) (s : Subscription) : Prop :=
  mqtt_string (sub_filter s) = true ∧ sub_filter s ≠ EmptyString ∧
  (v = V311 →
   sub_options s = MkSubscriptionOptions (so_qos (sub_options s)) false false SendAtSubscribe).

Definition wf_subscribe (v : ProtocolVersion) (s : Subscribe) : Prop :=
  is_u16 (subscribe_packet_id s) ∧ subscribe_packet_id s ≠ 0 ∧
  subscribe_subscriptions s ≠ [] ∧
  Forall (wf_subscription v) (subscribe_subscriptions s) ∧
  wf_props_v v (subscribe_properties s).

Definition v3_suback_code (r : ReasonCode) : bool :=
  match r with
  | RC.Success | RC.GrantedQoS1 | RC.GrantedQoS2 | RC.UnspecifiedError => true
  | _ => false
  end.

Definition wf_suback (v : ProtocolVersion) (s : SubAck) : Prop :=
  is_u16 (suback_packet_id s) ∧
  (v = V311 → suback_reason_codes s ≠ [] ∧ forallb v3_suback_code (suback_reason_codes s) = true) ∧
  wf_props_v v (suback_properties s).

Definition wf_unsubscribe (v : ProtocolVersion) (s : Unsubscribe) : Prop :=
  is_u16 (unsubscribe_packet_id s) ∧ unsubscribe_packet_id s ≠ 0 ∧
  unsubscribe_filters s ≠ [] ∧
  Forall (λ f, mqtt_string f = true ∧ f ≠ EmptyString) (unsubscribe_filters s) ∧
  wf_props_v v (unsubscribe_properties s).

Definition wf_unsuback (v : ProtocolVersion) (s : UnsubAck) : Prop :=
  is_u16 (unsuback_packet_id s) ∧
  (v = V311 → unsuback_reason_codes s = []) ∧
  wf_props_v v (unsuback_properties s).

Definition wf_disconnect (v : ProtocolVersion) (d : Disconnect) : Prop :=
  wf_props_v v (disconnect_properties d) ∧ (v = V311 → disconnect_reason_code d = RC.Success).

Definition wf_packet (v : ProtocolVersion) (p : Packet) : Prop :=
  match p with
  | P.Connect c => wf_connect c
  | P.ConnAck c => wf_connack v c
  | P.Publish p => wf_publish v p
  | P.PubAck a => wf_ack v (puback_packet_id a) (puback_reason_code a) (puback_properties a)
  | P.PubRec a => wf_ack v (pubrec_packet_id a) (pubrec_reason_code a) (pubrec_properties a)
  | P.PubRel a => wf_ack v (pubrel_packet_id a) (pubrel_reason_code a) (pubrel_properties a)
  | P.PubComp a => wf_ack v (pubcomp_packet_id a) (pubcomp_reason_code a) (pubcomp_properties a)
  | P.Subscribe s => wf_subscribe v s
  | P.SubAck s => wf_suback v s
  | P.Unsubscribe s => wf_unsubscribe v s
  | P.UnsubAck s => wf_unsuback v s
  | P.PingReq | P.PingResp => True
  | P.Disconnect d => wf_disconnect v d
  | P.Auth a => v = V5 ∧ wf_props_v v (auth_properties a)
  end.

End wf.

(** Packets as the decoder returns them. *)
Definition wf_decoded (v : ProtocolVersion) (p : Packet) : Prop := wf_packet wf_props v p.

(** Packets that the encoder transmits without loss: the property section is
    short enough for its length prefix, and a v3.1.1 CONNACK carries one of the
    six return codes. *)
Definition encodable_props (p : Properties) : Prop :=
  wf_props p ∧ is_var_int (Properties_encoded_size p).

Definition encodable (v : ProtocolVersion) (p : Packet) : Prop :=
  wf_packet encodable_props v p ∧
  match v, p with
  | V311, P.ConnAck c =>
      from_v3_connack_code (to_v3_connack_code (connack_reason_code c)) = connack_reason_code c
  | _, _ => True
  end.
