(* ===== verification/Decode.v ===== *)
(** * Packet decoder

    [codec/decode.rs]: the decoder state, the fixed header and one decoding
    function per packet type. A packet is decoded from a buffer that may hold
    less or more than one packet. *)

From S2P Require Import Prelude Protocol Codec Properties Packet.

Record Decoder : Type := MkDecoder {
  max_packet_size : Z;
  protocol_version : option ProtocolVersion;
}.

#[global] Instance Decoder_eta : Eta Decoder := fun d =>
  MkDecoder (max_packet_size d) (protocol_version d).

Definition Decoder_new : Decoder := MkDecoder MAX_REMAINING_LENGTH None.

Definition with_max_packet_size (d : Decoder) (size : Z) : Decoder :=
  d <| max_packet_size := Z.min size MAX_REMAINING_LENGTH |>.

Definition Decoder_set_protocol_version (d : Decoder) (v : ProtocolVersion) : Decoder :=
  d <| protocol_version := Some v |>.

Definition version_is (o : option ProtocolVersion) (v : ProtocolVersion) : bool :=
  bool_decide (o = Some v).

(** [u16::from_be_bytes([payload[pos], payload[pos + 1]])] *)
Definition u16_at (payload : list byte) (pos : Z) : outcome DecodeError Z :=
  a ← index payload pos; b ← index payload (pos + 1); Ok (u16_from_be a b).

(** [let (props, len) = Properties::decode(&payload[pos..])?; pos += len;] *)
Definition props_at (payload : list byte) (pos : Z) : outcome DecodeError (Properties * Z) :=
  s ← slice_from payload pos;
  '(props, len) ← Properties_decode s;
  Ok (props, pos + len).

(** ** CONNECT *)

(** Up to the protocol version, which is recorded in the decoder: the version
    and the position after it. *)
Definition decode_connect_version (payload : list byte) : outcome DecodeError (ProtocolVersion * Z) :=
  let pos := 0 in
  s ← slice_from payload pos;
  '(protocol_name, len) ← read_string s;
  let pos := pos + len in
  if negb (String.eqb protocol_name "MQTT") && negb (String.eqb protocol_name "MQIsdp")
  then Err DE.InvalidProtocolName
  else if pos >=? zlen payload then Err DE.InsufficientData
  else
    version_byte ← index payload pos;
    let pos := pos + 1 in
    match version_byte with
    | 3 | 4 => Ok (V311, pos)
    | 5 => Ok (V5, pos)
    | _ => Err (DE.InvalidProtocolVersion version_byte)
    end.

(** The will message, when the will flag is set. *)
Definition decode_connect_will (v : ProtocolVersion) (payload : list byte) (pos will_qos : Z)
    (will_retain : bool) : outcome DecodeError (Will * Z) :=
  '(will_properties, pos) ←
    (if bool_decide (v = V5) then props_at payload pos else Ok (Properties_default, pos));
  s ← slice_from payload pos;
  '(will_topic, len) ← read_string s;
  let pos := pos + len in
  s ← slice_from payload pos;
  '(will_payload, len) ← read_binary s;
  let pos := pos + len in
  qos ← unwrap (QoS_from_u8 will_qos);
  Ok (MkWill will_topic will_payload qos will_retain will_properties, pos).

(** From the connect flags on. *)
Definition decode_connect_body (protocol_version : ProtocolVersion) (payload : list byte)
    (pos : Z) : outcome DecodeError Packet :=
  if pos >=? zlen payload then Err DE.InsufficientData
  else
    connect_flags ← index payload pos;
    let pos := pos + 1 in
    if negb (Z.land connect_flags 0x01 =? 0) then Err DE.InvalidFlags
    else
      let clean_start := negb (Z.land connect_flags 0x02 =? 0) in
      let will_flag := negb (Z.land connect_flags 0x04 =? 0) in
      let will_qos := Z.land (Z.shiftr connect_flags 3) 0x03 in
      let will_retain := negb (Z.land connect_flags 0x20 =? 0) in
      let password_flag := negb (Z.land connect_flags 0x40 =? 0) in
      let username_flag := negb (Z.land connect_flags 0x80 =? 0) in
      if negb username_flag && password_flag then Err DE.InvalidFlags
      else if will_qos >? 2 then Err (DE.InvalidQoS will_qos)
      else if negb will_flag && (negb (will_qos =? 0) || will_retain) then Err DE.InvalidFlags
      else if pos + 2 >? zlen payload then Err DE.InsufficientData
      else
        keep_alive ← u16_at payload pos;
        let pos := pos + 2 in
        '(properties, pos) ←
          (if bool_decide (protocol_version = V5) then props_at payload pos
           else Ok (Properties_default, pos));
        s ← slice_from payload pos;
        '(client_id, len) ← read_string s;
        let pos := pos + len in
        '(will, pos) ←
          (if will_flag then
             '(w, pos) ← decode_connect_will protocol_version payload pos will_qos will_retain;
             Ok (Some w, pos)
           else Ok (None, pos));
        '(username, pos) ←
          (if username_flag then
             s ← slice_from payload pos;
             '(u, len) ← read_string s;
             Ok (Some u, pos + len)
           else Ok (None, pos));
        password ←
          (if password_flag then
             s ← slice_from payload pos;
             '(data, _) ← read_binary s;
             Ok (Some data)
           else Ok None);
        Ok (P.Connect (MkConnect protocol_version client_id clean_start keep_alive
              username password will properties)).

Definition decode_connect (d : Decoder) (payload : list byte) : Decoder * outcome DecodeError Packet :=
  match decode_connect_version payload with
  | Ok (v, pos) => (d <| protocol_version := Some v |>, decode_connect_body v payload pos)
  | Err e => (d, Err e)
  | Panic => (d, Panic)
  | NoFuel => (d, NoFuel)
  end.

(** ** CONNACK *)
Definition decode_connack (d : Decoder) (flags : Z) (payload : list byte) : outcome DecodeError Packet :=
  if negb (flags =? 0) then Err DE.InvalidFlags
  else if zlen payload <? 2 then Err DE.InsufficientData
  else
    acknowledge_flags ← index payload 0;
    if negb (Z.land acknowledge_flags 0xFE =? 0) then Err DE.InvalidFlags
    else
      let session_present := negb (Z.land acknowledge_flags 0x01 =? 0) in
      reason_byte ← index payload 1;
      '(reason_code, properties) ←
        match protocol_version d with
        | Some V5 | None =>
            reason_code ← ok_or (ReasonCode_from_u8 reason_byte) (DE.InvalidReasonCode reason_byte);
            properties ←
              (if zlen payload >? 2 then '(props, _) ← props_at payload 2; Ok props
               else Ok Properties_default);
            Ok (reason_code, properties)
        | Some V311 => Ok (from_v3_connack_code reason_byte, Properties_default)
        end;
      Ok (P.ConnAck (MkConnAck session_present reason_code properties)).

(** ** PUBLISH *)
Definition decode_publish (d : Decoder) (flags : Z) (payload : list byte) : outcome DecodeError Packet :=
  let dup := negb (Z.land flags 0x08 =? 0) in
  let qos_bits := Z.land (Z.shiftr flags 1) 0x03 in
  let retain := negb (Z.land flags 0x01 =? 0) in
  qos ← ok_or (QoS_from_u8 qos_bits) (DE.InvalidQoS qos_bits);
  if bool_decide (qos = AtMostOnce) && dup
  then Err (DE.MalformedPacket "DUP must be 0 for QoS 0")
  else
    let pos := 0 in
    s ← slice_from payload pos;
    '(topic, len) ← read_string s;
    let pos := pos + len in
    if contains "+" topic || contains "#" topic
    then Err (DE.MalformedPacket "topic contains wildcard")
    else
      '(packet_id, pos) ←
        (if negb (bool_decide (qos = AtMostOnce)) then
           if pos + 2 >? zlen payload then Err DE.InsufficientData
           else
             id ← u16_at payload pos;
             if id =? 0 then Err (DE.MalformedPacket "packet id cannot be 0")
             else Ok (Some id, pos + 2)
         else Ok (None, pos));
      '(properties, pos) ←
        match protocol_version d with
        | Some V5 => props_at payload pos
        | _ => Ok (Properties_default, pos)
        end;
      message_payload ← slice_from payload pos;
      Ok (P.Publish (MkPublish dup qos retain topic packet_id message_payload properties)).

(** ** PUBACK, PUBREC, PUBREL, PUBCOMP

    The four functions have the same text up to the flags they expect and the
    packet they build. *)
Definition decode_ack (d : Decoder) (expected flags : Z) (payload : list byte)
    (mk : Z → ReasonCode → Properties → Packet) : outcome DecodeError Packet :=
  if negb (flags =? expected) then Err DE.InvalidFlags
  else if zlen payload <? 2 then Err DE.InsufficientData
  else
    packet_id ← u16_at payload 0;
    '(reason_code, properties) ←
      match protocol_version d with
      | Some V5 =>
          if zlen payload >? 2 then
            r ← index payload 2;
            reason_code ← ok_or (ReasonCode_from_u8 r) (DE.InvalidReasonCode r);
            properties ←
              (if zlen payload >? 3 then '(props, _) ← props_at payload 3; Ok props
               else Ok Properties_default);
            Ok (reason_code, properties)
          else Ok (RC.Success, Properties_default)
      | _ => Ok (RC.Success, Properties_default)
      end;
    Ok (mk packet_id reason_code properties).

Definition decode_puback (d : Decoder) (flags : Z) (payload : list byte) : outcome DecodeError Packet :=
  decode_ack d 0 flags payload (fun i r p => P.PubAck (MkPubAck i r p)).

Definition decode_pubrec (d : Decoder) (flags : Z) (payload : list byte) : outcome DecodeError Packet :=
  decode_ack d 0 flags payload (fun i r p => P.PubRec (MkPubRec i r p)).

Definition decode_pubrel (d : Decoder) (flags : Z) (payload : list byte) : outcome DecodeError Packet :=
  decode_ack d 0x02 flags payload (fun i r p => P.PubRel (MkPubRel i r p)).

Definition decode_pubcomp (d : Decoder) (flags : Z) (payload : list byte) : outcome DecodeError Packet :=
  decode_ack d 0 flags payload (fun i r p => P.PubComp (MkPubComp i r p)).

(** ** SUBSCRIBE *)

(** The options byte of one subscription. *)
Definition decode_options (d : Decoder) (options_byte : Z) : outcome DecodeError SubscriptionOptions :=
  match protocol_version d with
  | Some V5 => ok_or (SubscriptionOptions_from_byte options_byte) DE.InvalidSubscriptionOptions
  | _ =>
      qos ← ok_or (QoS_from_u8 (Z.land options_byte 0x03)) (DE.InvalidQoS (Z.land options_byte 0x03));
      Ok (MkSubscriptionOptions qos false false SendAtSubscribe)
  end.

(** The [while pos < payload.len()] loop; every round consumes three bytes or
    more. *)
Fixpoint decode_subscriptions (fuel : nat) (d : Decoder) (payload : list byte)
    (subscriptions : list Subscription) (pos : Z) : outcome DecodeError (list Subscription) :=
  match fuel with
  | O => NoFuel
  | S fuel =>
      if pos <? zlen payload then
        s ← slice_from payload pos;
        '(filter, len) ← read_string s;
        let pos := pos + len in
        if is_empty filter then Err (DE.MalformedPacket "topic filter cannot be empty")
        else if pos >=? zlen payload then Err DE.InsufficientData
        else
          options_byte ← index payload pos;
          let pos := pos + 1 in
          options ← decode_options d options_byte;
          decode_subscriptions fuel d payload (subscriptions ++ [MkSubscription filter options]) pos
      else Ok subscriptions
  end.

Definition decode_subscribe (d : Decoder) (flags : Z) (payload : list byte) : outcome DecodeError Packet :=
  if negb (flags =? 0x02) then Err DE.InvalidFlags
  else if zlen payload <? 2 then Err DE.InsufficientData
  else
    packet_id ← u16_at payload 0;
    if packet_id =? 0 then Err (DE.MalformedPacket "packet id cannot be 0")
    else
      let pos := 2 in
      '(properties, pos) ←
        match protocol_version d with
        | Some V5 => props_at payload pos
        | _ => Ok (Properties_default, pos)
        end;
      subscriptions ← decode_subscriptions (S (length payload)) d payload [] pos;
      if is_nil subscriptions
      then Err (DE.MalformedPacket "SUBSCRIBE must have at least one topic")
      else Ok (P.Subscribe (MkSubscribe packet_id subscriptions properties)).

(** ** SUBACK *)
Definition decode_suback_code (d : Decoder) (code : Z) : outcome DecodeError ReasonCode :=
  match protocol_version d with
  | Some V5 => ok_or (ReasonCode_from_u8 code) (DE.InvalidReasonCode code)
  | _ =>
      match code with
      | 0x00 => Ok RC.Success
      | 0x01 => Ok RC.GrantedQoS1
      | 0x02 => Ok RC.GrantedQoS2
      | 0x80 => Ok RC.UnspecifiedError
      | _ => Err (DE.InvalidReasonCode code)
      end
  end.

(** The loops over the reason codes of SUBACK and UNSUBACK. *)
Fixpoint decode_codes (fuel : nat) (decode_code : Z → outcome DecodeError ReasonCode)
    (payload : list byte) (reason_codes : list ReasonCode) (pos : Z)
    : outcome DecodeError (list ReasonCode) :=
  match fuel with
  | O => NoFuel
  | S fuel =>
      if pos <? zlen payload then
        code ← index payload pos;
        reason_code ← decode_code code;
        decode_codes fuel decode_code payload (reason_codes ++ [reason_code]) (pos + 1)
      else Ok reason_codes
  end.

Definition decode_suback (d : Decoder) (flags : Z) (payload : list byte) : outcome DecodeError Packet :=
  if negb (flags =? 0) then Err DE.InvalidFlags
  else if zlen payload <? 3 then Err DE.InsufficientData
  else
    packet_id ← u16_at payload 0;
    let pos := 2 in
    '(properties, pos) ←
      match protocol_version d with
      | Some V5 => props_at payload pos
      | _ => Ok (Properties_default, pos)
      end;
    reason_codes ← decode_codes (S (length payload)) (decode_suback_code d) payload [] pos;
    Ok (P.SubAck (MkSubAck packet_id reason_codes properties)).

(** ** UNSUBSCRIBE *)
Fixpoint decode_filters (fuel : nat) (payload : list byte) (filters : list string) (pos : Z)
    : outcome DecodeError (list string) :=
  match fuel with
  | O => NoFuel
  | S fuel =>
      if pos <? zlen payload then
        s ← slice_from payload pos;
        '(filter, len) ← read_string s;
        let pos := pos + len in
        if is_empty filter then Err (DE.MalformedPacket "topic filter cannot be empty")
        else decode_filters fuel payload (filters ++ [filter]) pos
      else Ok filters
  end.

Definition decode_unsubscribe (d : Decoder) (flags : Z) (payload : list byte) : outcome DecodeError Packet :=
  if negb (flags =? 0x02) then Err DE.InvalidFlags
  else if zlen payload <? 2 then Err DE.InsufficientData
  else
    packet_id ← u16_at payload 0;
    if packet_id =? 0 then Err (DE.MalformedPacket "packet id cannot be 0")
    else
      let pos := 2 in
      '(properties, pos) ←
        match protocol_version d with
        | Some V5 => props_at payload pos
        | _ => Ok (Properties_default, pos)
        end;
      filters ← decode_filters (S (length payload)) payload [] pos;
      if is_nil filters
      then Err (DE.MalformedPacket "UNSUBSCRIBE must have at least one topic")
      else Ok (P.Unsubscribe (MkUnsubscribe packet_id filters properties)).

(** ** UNSUBACK *)
Definition decode_unsuback (d : Decoder) (flags : Z) (payload : list byte) : outcome DecodeError Packet :=
  if negb (flags =? 0) then Err DE.InvalidFlags
  else if zlen payload <? 2 then Err DE.InsufficientData
  else
    packet_id ← u16_at payload 0;
    '(properties, reason_codes) ←
      match protocol_version d with
      | Some V5 =>
          '(props, pos) ← props_at payload 2;
          codes ← decode_codes (S (length payload))
            (fun code => ok_or (ReasonCode_from_u8 code) (DE.InvalidReasonCode code)) payload [] pos;
          Ok (props, codes)
      | _ => Ok (Properties_default, [])
      end;
    Ok (P.UnsubAck (MkUnsubAck packet_id reason_codes properties)).

(** ** DISCONNECT and AUTH *)
Definition decode_disconnect (d : Decoder) (flags : Z) (payload : list byte) : outcome DecodeError Packet :=
  if negb (flags =? 0) then Err DE.InvalidFlags
  else
    match protocol_version d with
    | Some V5 =>
        if is_nil payload then Ok (P.Disconnect Disconnect_default)
        else
          r ← index payload 0;
          reason_code ← ok_or (ReasonCode_from_u8 r) (DE.InvalidReasonCode r);
          properties ←
            (if zlen payload >? 1 then '(props, _) ← props_at payload 1; Ok props
             else Ok Properties_default);
          Ok (P.Disconnect (MkDisconnect reason_code properties))
    | _ =>
        if negb (is_nil payload)
        then Err (DE.MalformedPacket "v3.1.1 DISCONNECT has no payload")
        else Ok (P.Disconnect Disconnect_default)
    end.

Definition decode_auth (d : Decoder) (flags : Z) (payload : list byte) : outcome DecodeError Packet :=
  if negb (flags =? 0) then Err DE.InvalidFlags
  else if negb (version_is (protocol_version d) V5) then Err (DE.InvalidPacketType 15)
  else if is_nil payload then Ok (P.Auth Auth_default)
  else
    r ← index payload 0;
    reason_code ← ok_or (ReasonCode_from_u8 r) (DE.InvalidReasonCode r);
    properties ←
      (if zlen payload >? 1 then '(props, _) ← props_at payload 1; Ok props
       else Ok Properties_default);
    Ok (P.Auth (MkAuth reason_code properties)).

(** ** The packet *)

(** The [match packet_type] of [decode]. *)
Definition decode_payload (d : Decoder) (packet_type flags : Z) (payload : list byte)
    : Decoder * outcome DecodeError Packet :=
  match packet_type with
  | 1 => decode_connect d payload
  | 2 => (d, decode_connack d flags payload)
  | 3 => (d, decode_publish d flags payload)
  | 4 => (d, decode_puback d flags payload)
  | 5 => (d, decode_pubrec d flags payload)
  | 6 => (d, decode_pubrel d flags payload)
  | 7 => (d, decode_pubcomp d flags payload)
  | 8 => (d, decode_subscribe d flags payload)
  | 9 => (d, decode_suback d flags payload)
  | 10 => (d, decode_unsubscribe d flags payload)
  | 11 => (d, decode_unsuback d flags payload)
  | 12 => (d, if negb (flags =? 0) then Err DE.InvalidFlags else Ok P.PingReq)
  | 13 => (d, if negb (flags =? 0) then Err DE.InvalidFlags else Ok P.PingResp)
  | 14 => (d, decode_disconnect d flags payload)
  | 15 => (d, decode_auth d flags payload)
  | _ => (d, Err (DE.InvalidPacketType packet_type))
  end.

(** What the fixed header says: the packet is not complete yet ([None]), or
    its type, its flags, its payload and its total length. *)
Definition decode_header (d : Decoder) (buf : list byte)
    : outcome DecodeError (option (Z * Z * list byte * Z)) :=
  if zlen buf <? 2 then Ok None
  else
    first_byte ← index buf 0;
    let packet_type := Z.shiftr first_byte 4 in
    let flags := Z.land first_byte 0x0F in
    s ← slice_from buf 1;
    match read_variable_int s with
    | Ok (remaining_length, len_bytes) =>
        let total_len := 1 + len_bytes + remaining_length in
        if remaining_length >? max_packet_size d then Err DE.PacketTooLarge
        else if zlen buf <? total_len then Ok None
        else
          let payload_start := 1 + len_bytes in
          payload ← slice buf payload_start total_len;
          Ok (Some (packet_type, flags, payload, total_len))
    | Err DE.InsufficientData => Ok None
    | Err e => Err e
    | Panic => Panic
    | NoFuel => NoFuel
    end.

Definition decode (d : Decoder) (buf : list byte)
    : Decoder * outcome DecodeError (option (Packet * Z)) :=
  match decode_header d buf with
  | Ok None => (d, Ok None)
  | Ok (Some (packet_type, flags, payload, total_len)) =>
      let '(d, r) := decode_payload d packet_type flags payload in
      (d, packet ← r; Ok (Some (packet, total_len)))
  | Err e => (d, Err e)
  | Panic => (d, Panic)
  | NoFuel => (d, NoFuel)
  end.

(** ** Lemmas: every decoding function returns, and returns well-formed packets *)
Section decode_posts.
Implicit Types (payload buf : list byte) (d : Decoder).

(** The version a packet other than CONNECT is read in: before the CONNECT it
    is read as v3.1.1, but for the CONNACK, which is read as v5.0. *)
Definition version_of d : ProtocolVersion := default V311 (protocol_version d).

Definition read_version d (p : Packet) : ProtocolVersion :=
  match protocol_version d, p with
  | None, P.ConnAck _ => V5
  | _, _ => version_of d
  end.

(** What is promised of a packet decoded by [d]; the fields of a CONNECT are
    those of the version it carries. *)
Definition decoded_ok d (p : Packet) : Prop := wf_decoded (read_version d p) p.

Lemma decoded_ok_other d p :
  (∀ c, p ≠ P.ConnAck c) → wf_decoded (version_of d) p → decoded_ok d p.
Proof. unfold decoded_ok, read_version. intros Hp. destruct (protocol_version d), p; naive_solver. Qed.

(** The decoder that a packet leaves: CONNECT sets the version. *)
Definition decoder_after d (p : Packet) : Decoder :=
  match p with P.Connect c => d <| protocol_version := Some (conn_protocol_version c) |> | _ => d end.

Lemma post_u16_at {B} payload pos (k : Z → outcome DecodeError B) Q :
  0 ≤ pos → pos + 2 ≤ zlen payload → (∀ v, is_u16 v → post (k v) Q) →
  post (u16_at payload pos ≫= k) Q.
Proof.
  intros Hp Hl HQ. unfold u16_at.
  apply post_bind, post_bind, post_index; [lia|]. intros a Ha.
  apply post_bind, post_index; [lia|]. intros b Hb. apply HQ. by apply u16_from_be_range.
Qed.

Lemma post_props_at {B} payload pos (k : Properties * Z → outcome DecodeError B) Q :
  0 ≤ pos ≤ zlen payload →
  (∀ p n, wf_props p → pos < n ≤ zlen payload → post (k (p, n)) Q) →
  post (props_at payload pos ≫= k) Q.
Proof.
  intros Hp HQ. unfold props_at.
  apply post_bind, post_bind, post_slice_from; [done|]. intros l Hl. apply post_bind.
  eapply post_mono; [apply post_Properties_decode|]. intros [p n] [? ?]. simpl. apply HQ; [done|lia].
Qed.

(** The properties section: present for v5.0 only. *)
Lemma post_props_v {B} d payload pos (k : Properties * Z → outcome DecodeError B) Q :
  0 ≤ pos ≤ zlen payload →
  (∀ p n, wf_props_v wf_props (version_of d) p → pos ≤ n ≤ zlen payload → post (k (p, n)) Q) →
  post (match protocol_version d with
        | Some V5 => props_at payload pos
        | _ => Ok (Properties_default, pos)
        end ≫= k) Q.
Proof.
  unfold version_of. intros Hp HQ. destruct (protocol_version d) as [[]|]; rewrite ?bind_Ok.
  - apply HQ; [done|lia].
  - apply post_props_at; [done|]. intros p n ? ?. apply HQ; [done|lia].
  - apply HQ; [done|lia].
Qed.

Lemma post_tail_props {B} payload pos (k : Properties → outcome DecodeError B) Q :
  0 ≤ pos ≤ zlen payload → (∀ p, wf_props p → post (k p) Q) →
  post ((if zlen payload >? pos then '(props, _) ← props_at payload pos; Ok props
         else Ok Properties_default) ≫= k) Q.
Proof.
  intros Hp HQ. rewrite Z.gtb_ltb. zcase.
  - apply post_bind, post_props_at; [lia|]. intros. by apply HQ.
  - rewrite bind_Ok. apply HQ, wf_props_default.
Qed.

Lemma post_decode_connack d flags payload :
  post (decode_connack d flags payload) (decoded_ok d).
Proof.
  unfold decode_connack, decoded_ok, read_version, version_of. wp_guard.
  apply post_bind, post_index; [lia|]. intros af _. wp_guard.
  apply post_bind, post_index; [lia|]. intros r _. apply post_bind.
  destruct (protocol_version d) as [[]|] eqn:Hv; simpl; [done|..].
  - apply post_bind, post_ok_or. intros rc _. by apply post_tail_props; [lia|].
  - apply post_bind, post_ok_or. intros rc _. by apply post_tail_props; [lia|].
Qed.

Lemma post_decode_publish d flags payload :
  post (decode_publish d flags payload) (decoded_ok d).
Proof.
  unfold decode_publish. cbv zeta. apply post_bind, post_ok_or. intros q _.
  destruct (bool_decide (q = AtMostOnce) && negb (Z.land flags 8 =? 0)) eqn:Hdup; [exact I|].
  apply post_string_at; [pose_len; lia|]. intros t Ht Hl. cbv beta iota.
  destruct (contains "+" t || contains "#" t) eqn:Hc; [exact I|]. apply orb_false_iff in Hc as [Hc1 Hc2].
  assert (Hd : q = AtMostOnce → negb (Z.land flags 8 =? 0) = false).
  { intros ->. done. }
  destruct (bool_decide_reflect (q = AtMostOnce)) as [Hq|Hq]; simpl negb; cbn iota.
  - rewrite bind_Ok. apply post_props_v; [llia|]. intros p n Hp Hn.
    apply post_bind, post_slice_from; [llia|]. intros l _. apply decoded_ok_other; [done|]. by split_and!.
  - rewrite Z.gtb_ltb. apply post_bind. wp_guard. apply post_u16_at; [llia|lia|].
    intros id Hid. wp_guard. simpl. apply post_props_v; [llia|]. intros p m Hp Hm.
    apply post_bind, post_slice_from; [llia|]. intros l _. apply decoded_ok_other; [done|].
    simpl. unfold wf_publish; simpl. split_and!; auto; (apply Hid || lia).
Qed.

Lemma post_decode_ack d e flags payload mk :
  (∀ i r p, wf_ack wf_props (version_of d) i r p → decoded_ok d (mk i r p)) →
  post (decode_ack d e flags payload mk) (decoded_ok d).
Proof.
  unfold version_of. intros Hmk. unfold decode_ack. wp_guard.
  apply post_u16_at; [lia|lia|]. intros i Hi. apply post_bind.
  destruct (protocol_version d) as [[]|] eqn:Hv; simpl.
  - by apply Hmk.
  - wp_step.
    + apply post_bind, post_index; [lia|]. intros r _.
      apply post_bind, post_ok_or. intros rc _. apply post_tail_props; [lia|].
      intros p Hp. by apply Hmk.
    + apply Hmk. split_and!; try done; apply wf_props_default.
  - by apply Hmk.
Qed.

Lemma post_decode_options d b (Q : SubscriptionOptions → Prop) :
  (∀ o, (version_of d = V311 → o = MkSubscriptionOptions (so_qos o) false false SendAtSubscribe) → Q o) →
  post (decode_options d b) Q.
Proof.
  unfold version_of. intros HQ. unfold decode_options. destruct (protocol_version d) as [[]|].
  - apply post_bind, post_ok_or. intros q _. by apply HQ.
  - apply post_ok_or. intros o _. by apply HQ.
  - apply post_bind, post_ok_or. intros q _. by apply HQ.
Qed.

Definition subs_ok d (l : list Subscription) : Prop := Forall (wf_subscription (version_of d)) l.

Lemma post_decode_subscriptions fuel d payload l pos :
  subs_ok d l → 0 ≤ pos ≤ zlen payload → zlen payload < pos + Z.of_nat fuel →
  post (decode_subscriptions fuel d payload l pos) (subs_ok d).
Proof.
  revert l pos. induction fuel as [|fuel IH]; intros l pos Hl Hp Hf; [lia|].
  simpl. zcase; [|done]. apply post_string_at; [lia|]. intros f Hfs Hn. cbv beta iota zeta.
  destruct (is_empty f) eqn:He; [exact I|]. rewrite Z.geb_leb. wp_guard.
  apply post_bind, post_index; [llia|]. intros b _.
  apply post_bind, post_decode_options. intros o Ho. apply IH; [|llia..].
  apply Forall_app. split; [done|]. apply Forall_singleton. by split_and!; simpl; [|destruct f|].
Qed.

Lemma post_decode_subscribe d flags payload :
  post (decode_subscribe d flags payload) (decoded_ok d).
Proof.
  unfold decode_subscribe. wp_guard.
  apply post_u16_at; [lia|lia|]. intros i Hi. wp_guard. cbv zeta.
  apply post_props_v; [lia|]. intros p n Hp Hn. apply post_bind.
  eapply post_mono; [apply post_decode_subscriptions; [constructor|lia|unfold zlen; lia]|].
  intros l Hl. destruct (is_nil l) eqn:Hnil; [exact I|]. apply decoded_ok_other; [done|].
  split_and!; simpl; auto; first [apply Hi | lia | by destruct l].
Qed.

Lemma post_decode_codes fuel (dc : Z → outcome DecodeError ReasonCode) payload l pos (P : ReasonCode → Prop) :
  (∀ c, post (dc c) P) → Forall P l → 0 ≤ pos ≤ zlen payload → zlen payload < pos + Z.of_nat fuel →
  post (decode_codes fuel dc payload l pos) (λ l', Forall P l' ∧ zlen l' = zlen l + (zlen payload - pos)).
Proof.
  intros Hdc. revert l pos. induction fuel as [|fuel IH]; intros l pos Hl Hp Hf; [lia|].
  simpl. zcase; [|simpl; split; [done|lia]]. apply post_bind, post_index; [lia|]. intros c _.
  apply post_bind. eapply post_mono; [apply Hdc|]. intros r Hr.
  eapply post_mono; [apply IH; [|lia..]|].
  - apply Forall_app. split; [done|]. by apply Forall_singleton.
  - intros l'. simpl. rewrite zlen_app, zlen_cons, zlen_nil. intros [? ?]. split; [done|lia].
Qed.

Lemma post_decode_suback d flags payload :
  post (decode_suback d flags payload) (decoded_ok d).
Proof.
  unfold decode_suback. wp_guard.
  apply post_u16_at; [lia|lia|]. intros i Hi. cbv zeta.
  set (P := λ r, version_of d = V311 → v3_suback_code r = true).
  assert (Hc : ∀ c, post (decode_suback_code d c) P).
  { intros c. unfold decode_suback_code, P, version_of. destruct (protocol_version d) as [[]|].
    - repeat case_match; done.
    - apply post_ok_or. done.
    - repeat case_match; done. }
  assert (Hgo : ∀ p n, wf_props_v wf_props (version_of d) p →
    2 ≤ n ≤ zlen payload → (version_of d = V311 → n = 2) →
    post (reason_codes ← decode_codes (S (length payload)) (decode_suback_code d) payload [] n;
          Ok (P.SubAck (MkSubAck i reason_codes p))) (decoded_ok d)).
  { intros p n Hp Hn Hn2. apply post_bind.
    eapply post_mono; [apply (post_decode_codes _ _ _ _ _ P); [done|constructor|lia|unfold zlen; lia]|].
    intros l [Hl Hlen]. apply decoded_ok_other; [done|]. split_and!; simpl; [done| |done].
    intros Hv. split.
    - intros ->. rewrite Hn2 in Hlen by done. rewrite zlen_nil in Hlen. lia.
    - apply forallb_forall. intros x Hx%list_elem_of_In. rewrite Forall_forall in Hl. by apply Hl. }
  unfold version_of in Hgo. destruct (protocol_version d) as [[]|] eqn:Hv; rewrite ?bind_Ok.
  - apply Hgo; [done|lia|done].
  - apply post_props_at; [lia|]. intros p n ? ?. apply Hgo; [done|lia|done].
  - apply Hgo; [done|lia|done].
Qed.

Definition filters_ok (l : list string) : Prop :=
  Forall (λ f, mqtt_string f = true ∧ f ≠ EmptyString) l.

Lemma post_decode_filters fuel payload l pos :
  filters_ok l → 0 ≤ pos ≤ zlen payload → zlen payload < pos + Z.of_nat fuel →
  post (decode_filters fuel payload l pos) filters_ok.
Proof.
  revert l pos. induction fuel as [|fuel IH]; intros l pos Hl Hp Hf; [lia|].
  simpl. zcase; [|done]. apply post_string_at; [lia|]. intros f Hfs Hn. cbv beta iota zeta.
  destruct (is_empty f) eqn:He; [exact I|]. apply IH; [|llia..].
  apply Forall_app. split; [done|]. apply Forall_singleton. by destruct f.
Qed.

Lemma post_decode_unsubscribe d flags payload :
  post (decode_unsubscribe d flags payload) (decoded_ok d).
Proof.
  unfold decode_unsubscribe. wp_guard.
  apply post_u16_at; [lia|lia|]. intros i Hi. wp_guard. cbv zeta.
  apply post_props_v; [lia|]. intros p n Hp Hn. apply post_bind.
  eapply post_mono; [apply post_decode_filters; [constructor|lia|unfold zlen; lia]|].
  intros l Hl. destruct (is_nil l) eqn:Hnil; [exact I|]. apply decoded_ok_other; [done|].
  split_and!; simpl; auto; first [apply Hi | lia | by destruct l].
Qed.

Lemma post_decode_unsuback d flags payload :
  post (decode_unsuback d flags payload) (decoded_ok d).
Proof.
  unfold decode_unsuback, decoded_ok, read_version, version_of. wp_guard.
  apply post_u16_at; [lia|lia|]. intros i Hi. apply post_bind.
  destruct (protocol_version d) as [[]|] eqn:Hv.
  - simpl. by split_and!.
  - apply post_props_at; [lia|]. intros p n Hp Hn. apply post_bind.
    eapply post_mono; [apply (post_decode_codes _ _ _ _ _ (λ _, True)); [|constructor|lia|unfold zlen; lia]|].
    { intros c. by apply post_ok_or. }
    intros l _. by split_and!.
  - simpl. by split_and!.
Qed.

Lemma post_decode_disconnect d flags payload :
  post (decode_disconnect d flags payload) (decoded_ok d).
Proof.
  unfold decode_disconnect, decoded_ok, read_version, version_of. wp_guard.
  destruct (protocol_version d) as [[]|] eqn:Hv.
  - destruct payload; simpl; [|exact I]. by split.
  - destruct payload as [|b payload]; [split; [apply wf_props_default|done]|]. cbn [is_nil].
    apply post_bind, post_index; [rewrite zlen_cons; llia|]. intros r _.
    apply post_bind, post_ok_or. intros rc _.
    apply post_tail_props; [rewrite zlen_cons; llia|]. intros p Hp. by split.
  - destruct payload; simpl; [|exact I]. by split.
Qed.

Lemma post_decode_auth d flags payload :
  post (decode_auth d flags payload) (decoded_ok d).
Proof.
  unfold decode_auth, version_is, decoded_ok, read_version, version_of. wp_guard.
  destruct (bool_decide_reflect (protocol_version d = Some V5)) as [->|]; [|done].
  destruct payload as [|b payload].
  - split; [done|apply wf_props_default].
  - cbn [is_nil]. apply post_bind, post_index; [rewrite zlen_cons; llia|]. intros r _.
    apply post_bind, post_ok_or. intros rc _.
    apply post_tail_props; [rewrite zlen_cons; llia|].
    intros p Hp. by split.
Qed.

Lemma post_decode_connect_version payload :
  post (decode_connect_version payload) (λ '(_, pos), 0 ≤ pos ≤ zlen payload).
Proof.
  unfold decode_connect_version. cbv zeta.
  apply post_string_at; [llia|]. intros s Hs Hl. cbv beta iota. wp_guard.
  apply post_bind, post_index; [llia|]. intros b _.
  repeat case_match; simpl; try exact I; llia.
Qed.

(** The properties section of CONNECT, whose version is in the packet. *)
Lemma post_props_connect {B} v payload pos (k : Properties * Z → outcome DecodeError B) Q :
  0 ≤ pos ≤ zlen payload →
  (∀ p n, wf_props_v wf_props v p → pos ≤ n ≤ zlen payload → post (k (p, n)) Q) →
  post ((if bool_decide (v = V5) then props_at payload pos else Ok (Properties_default, pos)) ≫= k) Q.
Proof.
  intros Hp HQ. destruct v; cbn.
  - apply HQ; [done|lia].
  - apply post_props_at; [done|]. intros p n ? ?. apply HQ; [done|lia].
Qed.

Lemma will_qos_some q : 0 ≤ q ≤ 2 → ∃ r, QoS_from_u8 q = Some r.
Proof.
  intros Hq. assert (q = 0 ∨ q = 1 ∨ q = 2) as [->|[->| ->]] by lia; eauto.
Qed.

Lemma post_decode_connect_will {B} v payload pos q r (k : Will * Z → outcome DecodeError B) Q :
  0 ≤ pos ≤ zlen payload → 0 ≤ q ≤ 2 →
  (∀ w n, wf_will wf_props v w → pos ≤ n ≤ zlen payload → post (k (w, n)) Q) →
  post (decode_connect_will v payload pos q r ≫= k) Q.
Proof.
  intros Hp Hq HQ. destruct (will_qos_some q Hq) as [qos Hqos].
  apply post_bind. unfold decode_connect_will.
  apply post_props_connect; [done|]. intros p n Hwp Hn. cbv beta iota.
  apply post_string_at; [lia|]. intros t Ht Hl. cbv beta iota zeta.
  apply post_binary_at; [llia|]. intros b Hb Hl2. cbv beta iota zeta.
  rewrite Hqos. simpl. apply HQ; [by split_and!|llia].
Qed.

Lemma post_decode_connect_body v payload pos :
  0 ≤ pos ≤ zlen payload →
  post (decode_connect_body v payload pos) (λ p, ∃ c, p = P.Connect c ∧ conn_protocol_version c = v ∧ wf_connect wf_props c).
Proof.
  intros Hp. unfold decode_connect_body. wp_guard.
  apply post_bind, post_index; [lia|]. intros flags Hflags. cbv zeta.
  set (q := Z.land (Z.shiftr flags 3) 3) in *.
  assert (Hq0 : 0 ≤ q) by (apply Z.land_nonneg; lia). wp_guard.
  apply post_u16_at; [lia|lia|]. intros ka Hka.
  apply post_props_connect; [lia|]. intros props n1 Hprops Hn1. cbv beta iota.
  apply post_string_at; [lia|]. intros cid Hcid Hl. cbv beta iota zeta.
  set (Qw := λ '(w, n), (∀ w', w = Some w' → wf_will wf_props v w') ∧ 0 ≤ n ≤ zlen payload).
  apply post_bind. apply (post_mono _ Qw).
  { destruct (negb (Z.land flags 4 =? 0)).
    - apply post_decode_connect_will; [llia|lia|]. intros w n Hw Hn. simpl.
      split; [by intros ? [= <-]|llia].
    - simpl. split; [done|llia]. }
  intros [w n2] [Hw Hn2]. cbv beta iota. apply post_bind.
  destruct (negb (Z.land flags 128 =? 0)) eqn:Hu; simpl in Heqb1.
  - apply post_string_at; [lia|]. intros u Hus Hl2. cbv beta iota. simpl. apply post_bind.
    destruct (negb (Z.land flags 64 =? 0)).
    + apply post_binary_at; [llia|]. intros pw Hpw _. simpl. eexists. split; [done|]. split; [done|].
      split_and!; simpl; auto; [by intros ? [= <-]|by intros ? [= <-]].
    + simpl. eexists. split; [done|]. split; [done|]. split_and!; simpl; auto; [by intros ? [= <-]|done].
  - rewrite Heqb1. simpl. eexists. split; [done|]. split; [done|]. split_and!; simpl; auto; done.
Qed.

Lemma post_decode_connect d payload :
  post (decode_connect d payload).2 (λ p, decoded_ok d p ∧ (decode_connect d payload).1 = decoder_after d p).
Proof.
  unfold decode_connect. pose proof (post_decode_connect_version payload) as Hver.
  destruct (decode_connect_version payload) as [[v pos]| | |]; simpl in *; try done.
  eapply post_mono; [by apply post_decode_connect_body|].
  intros pk (c & -> & <- & Hc). split; [|done]. unfold decoded_ok, read_version.
  by destruct (protocol_version d).
Qed.

(** What a decoder returns, if it returns a packet. *)
Definition returns {E A} (r : outcome E A) (Q : A → Prop) : Prop := match r with Ok a => Q a | _ => True end.

Lemma returns_bind {E A B} (m : outcome E A) (k : A → outcome E B) Q : (∀ a, returns (k a) Q) → returns (m ≫= k) Q.
Proof. by destruct m; cbn. Qed.

Ltac solve_returns := repeat first [exact I | apply returns_bind; intros ? | case_match | progress (cbn [returns])].

(** Packets other than CONNECT leave the decoder as it is. *)
Lemma decode_payload_after d t flags payload :
  t ≠ 1 → (decode_payload d t flags payload).1 = d ∧
          returns (decode_payload d t flags payload).2 (λ p, decoder_after d p = d).
Proof.
  intros Ht. unfold decode_payload.
  repeat case_match; try done; split; try done; cbn [snd]; try exact I;
    unfold decode_connack, decode_publish, decode_puback, decode_pubrec, decode_pubrel, decode_pubcomp,
      decode_ack, decode_subscribe, decode_suback, decode_unsubscribe, decode_unsuback, decode_disconnect, decode_auth;
    cbv zeta; by solve_returns.
Qed.

Lemma post_decode_payload d t flags payload :
  post (decode_payload d t flags payload).2
    (λ p, decoded_ok d p ∧ (decode_payload d t flags payload).1 = decoder_after d p).
Proof.
  destruct (decide (t = 1)) as [->|Ht]; [apply post_decode_connect|].
  destruct (decode_payload_after d t flags payload Ht) as [-> Hafter].
  enough (Hok : post (decode_payload d t flags payload).2 (decoded_ok d)).
  { destruct (decode_payload d t flags payload).2; done. }
  clear Hafter. unfold decode_payload. repeat case_match; simpl; try exact I; try done;
    eauto using post_decode_connack, post_decode_publish, post_decode_subscribe, post_decode_suback,
      post_decode_unsubscribe, post_decode_unsuback, post_decode_disconnect, post_decode_auth;
    try (by apply post_decode_ack; intros; apply decoded_ok_other); by apply decoded_ok_other.
Qed.

Lemma post_decode_header d buf :
  post (decode_header d buf) (λ r, match r with
    | None => True
    | Some (_, _, payload, n) => 2 ≤ n ≤ zlen buf ∧ zlen payload ≤ max_packet_size d
    end).
Proof.
  unfold decode_header. destruct (zlen buf <? 2) eqn:?; [exact I|].
  apply post_bind, post_index; [lia|]. intros b _. cbv zeta.
  apply post_bind, post_slice_from; [lia|]. intros l Hl.
  pose proof (post_read_variable_int l) as Hr. unfold is_var_int in Hr.
  destruct (read_variable_int l) as [[v n]|[]| |]; simpl in Hr; try exact I; try done.
  destruct (v >? max_packet_size d) eqn:?; [exact I|].
  destruct (zlen buf <? 1 + n + v) eqn:?; [exact I|].
  apply post_bind, post_slice; [lia|lia|]. intros p Hp. simpl. lia.
Qed.

Lemma post_decode d buf :
  post (decode d buf).2 (λ r, match r with
    | None => (decode d buf).1 = d
    | Some (p, n) => 2 ≤ n ≤ zlen buf ∧ decoded_ok d p ∧ (decode d buf).1 = decoder_after d p
    end).
Proof.
  unfold decode. pose proof (post_decode_header d buf) as Hh.
  destruct (decode_header d buf) as [[[[[t flags] payload] n]|]| | |]; simpl in *; try done.
  pose proof (post_decode_payload d t flags payload) as Hp.
  destruct (decode_payload d t flags payload) as [d' [p| | |]]; simpl in *; try done.
  by destruct Hh, Hp.
Qed.

End decode_posts.
