(* ===== verification/Encode.v ===== *)
(** * Packet encoder

    [codec/encode.rs]: one encoding function per packet type, each writing the
    fixed header with the remaining length it has computed and then the body. *)

From S2P Require Import Prelude Protocol Codec Properties Packet.

Record Encoder : Type := MkEncoder {
  enc_protocol_version : ProtocolVersion;
}.

Definition Encoder_new (v : ProtocolVersion) : Encoder := MkEncoder v.

Definition is_v5 (e : Encoder) : bool := bool_decide (enc_protocol_version e = V5).

(** [variable_int_len(len as u32) + len] for the properties of a v5.0 packet. *)
Definition props_section_len (p : Properties) : Z :=
  let len := Properties_encoded_size p in variable_int_len (wrap_u32 len) + len.

(** ** CONNECT *)
Definition connect_remaining_length (packet : Connect) : Z :=
  let v5 := bool_decide (conn_protocol_version packet = V5) in
  let remaining_length := 6 + 1 + 1 + 2 in
  let remaining_length :=
    remaining_length + (if v5 then props_section_len (conn_properties packet) else 0) in
  let remaining_length := remaining_length + (2 + slen (conn_client_id packet)) in
  let remaining_length :=
    match conn_will packet with
    | Some will =>
        remaining_length + (if v5 then props_section_len (will_properties will) else 0)
        + (2 + slen (will_topic will)) + (2 + zlen (will_payload will))
    | None => remaining_length
    end in
  let remaining_length :=
    match conn_username packet with
    | Some username => remaining_length + (2 + slen username)
    | None => remaining_length
    end in
  match conn_password packet with
  | Some password => remaining_length + (2 + zlen password)
  | None => remaining_length
  end.

Definition connect_flags (packet : Connect) : Z :=
  let connect_flags := 0 in
  let connect_flags :=
    if conn_clean_start packet then Z.lor connect_flags 0x02 else connect_flags in
  let connect_flags :=
    match conn_will packet with
    | Some will =>
        let connect_flags := Z.lor connect_flags 0x04 in
        let connect_flags := Z.lor connect_flags (Z.shiftl (QoS_as_u8 (will_qos will)) 3) in
        if will_retain will then Z.lor connect_flags 0x20 else connect_flags
    | None => connect_flags
    end in
  let connect_flags :=
    if is_some (conn_password packet) then Z.lor connect_flags 0x40 else connect_flags in
  if is_some (conn_username packet) then Z.lor connect_flags 0x80 else connect_flags.

Definition encode_connect (packet : Connect) : writer unit :=
  let v5 := bool_decide (conn_protocol_version packet = V5) in
  put_u8 0x10;;
  write_variable_int (wrap_u32 (connect_remaining_length packet));;
  write_string "MQTT";;
  put_u8 (ProtocolVersion_as_u8 (conn_protocol_version packet));;
  put_u8 (connect_flags packet);;
  put_u16 (conn_keep_alive packet);;
  (if v5 then Properties_encode (conn_properties packet) else mret tt);;
  write_string (conn_client_id packet);;
  if_some (conn_will packet) (fun will =>
    (if v5 then Properties_encode (will_properties will) else mret tt);;
    write_string (will_topic will);;
    write_binary (will_payload will));;
  if_some (conn_username packet) write_string;;
  if_some (conn_password packet) write_binary.

(** ** CONNACK *)
Definition encode_connack (e : Encoder) (packet : ConnAck) : writer unit :=
  let remaining_length :=
    2 + (if is_v5 e then props_section_len (connack_properties packet) else 0) in
  put_u8 0x20;;
  write_variable_int (wrap_u32 remaining_length);;
  put_u8 (if connack_session_present packet then 0x01 else 0x00);;
  if is_v5 e then
    put_u8 (ReasonCode_as_u8 (connack_reason_code packet));;
    Properties_encode (connack_properties packet)
  else put_u8 (to_v3_connack_code (connack_reason_code packet)).

(** ** PUBLISH *)
Definition publish_remaining_length (e : Encoder) (packet : Publish) : Z :=
  let remaining_length := 2 + slen (pub_topic packet) in
  let remaining_length :=
    if negb (bool_decide (pub_qos packet = AtMostOnce)) then remaining_length + 2
    else remaining_length in
  let remaining_length :=
    if is_v5 e then remaining_length + props_section_len (pub_properties packet)
    else remaining_length in
  remaining_length + zlen (pub_payload packet).

Definition publish_first_byte (packet : Publish) : Z :=
  let first_byte := 0x30 in
  let first_byte := if pub_dup packet then Z.lor first_byte 0x08 else first_byte in
  let first_byte := Z.lor first_byte (Z.shiftl (QoS_as_u8 (pub_qos packet)) 1) in
  if pub_retain packet then Z.lor first_byte 0x01 else first_byte.

Definition encode_publish (e : Encoder) (packet : Publish) : writer unit :=
  put_u8 (publish_first_byte packet);;
  write_variable_int (wrap_u32 (publish_remaining_length e packet));;
  write_string (pub_topic packet);;
  if_some (pub_packet_id packet) put_u16;;
  (if is_v5 e then Properties_encode (pub_properties packet) else mret tt);;
  put_slice (pub_payload packet).

(** ** PUBACK, PUBREC, PUBREL, PUBCOMP

    The four functions have the same text up to the first byte. *)
Definition encode_ack (e : Encoder) (first_byte packet_id : Z) (reason_code : ReasonCode)
    (properties : Properties) : writer unit :=
  if is_v5 e then
    let has_reason :=
      negb (bool_decide (reason_code = RC.Success)) || negb (Properties_is_empty properties) in
    if has_reason then
      let props_len := Properties_encoded_size properties in
      let has_props := props_len >? 0 in
      let remaining_length :=
        if has_props then 2 + 1 + props_section_len properties else 2 + 1 in
      put_u8 first_byte;;
      write_variable_int (wrap_u32 remaining_length);;
      put_u16 packet_id;;
      put_u8 (ReasonCode_as_u8 reason_code);;
      if has_props then Properties_encode properties else mret tt
    else put_u8 first_byte;; put_u8 0x02;; put_u16 packet_id
  else put_u8 first_byte;; put_u8 0x02;; put_u16 packet_id.

Definition encode_puback (e : Encoder) (packet : PubAck) : writer unit :=
  encode_ack e 0x40 (puback_packet_id packet) (puback_reason_code packet) (puback_properties packet).

Definition encode_pubrec (e : Encoder) (packet : PubRec) : writer unit :=
  encode_ack e 0x50 (pubrec_packet_id packet) (pubrec_reason_code packet) (pubrec_properties packet).

Definition encode_pubrel (e : Encoder) (packet : PubRel) : writer unit :=
  encode_ack e 0x62 (pubrel_packet_id packet) (pubrel_reason_code packet) (pubrel_properties packet).

Definition encode_pubcomp (e : Encoder) (packet : PubComp) : writer unit :=
  encode_ack e 0x70 (pubcomp_packet_id packet) (pubcomp_reason_code packet) (pubcomp_properties packet).

(** ** SUBSCRIBE and SUBACK *)
Definition encode_subscribe (e : Encoder) (packet : Subscribe) : writer unit :=
  let remaining_length :=
    2 + (if is_v5 e then props_section_len (subscribe_properties packet) else 0)
    + sum_size (fun sub => 2 + slen (sub_filter sub) + 1) (subscribe_subscriptions packet) in
  put_u8 0x82;;
  write_variable_int (wrap_u32 remaining_length);;
  put_u16 (subscribe_packet_id packet);;
  (if is_v5 e then Properties_encode (subscribe_properties packet) else mret tt);;
  for_each (subscribe_subscriptions packet) (fun sub =>
    write_string (sub_filter sub);;
    if is_v5 e then put_u8 (SubscriptionOptions_to_byte (sub_options sub))
    else put_u8 (QoS_as_u8 (so_qos (sub_options sub)))).

Definition suback_v3_code (code : ReasonCode) : Z :=
  match code with
  | RC.Success => 0x00
  | RC.GrantedQoS1 => 0x01
  | RC.GrantedQoS2 => 0x02
  | _ => 0x80
  end.

Definition encode_suback (e : Encoder) (packet : SubAck) : writer unit :=
  let remaining_length :=
    2 + (if is_v5 e then props_section_len (suback_properties packet) else 0)
    + zlen (suback_reason_codes packet) in
  put_u8 0x90;;
  write_variable_int (wrap_u32 remaining_length);;
  put_u16 (suback_packet_id packet);;
  (if is_v5 e then Properties_encode (suback_properties packet) else mret tt);;
  for_each (suback_reason_codes packet) (fun code =>
    if is_v5 e then put_u8 (ReasonCode_as_u8 code) else put_u8 (suback_v3_code code)).

(** ** UNSUBSCRIBE and UNSUBACK *)
Definition encode_unsubscribe (e : Encoder) (packet : Unsubscribe) : writer unit :=
  let remaining_length :=
    2 + (if is_v5 e then props_section_len (unsubscribe_properties packet) else 0)
    + sum_size (fun filter => 2 + slen filter) (unsubscribe_filters packet) in
  put_u8 0xA2;;
  write_variable_int (wrap_u32 remaining_length);;
  put_u16 (unsubscribe_packet_id packet);;
  (if is_v5 e then Properties_encode (unsubscribe_properties packet) else mret tt);;
  for_each (unsubscribe_filters packet) write_string.

Definition encode_unsuback (e : Encoder) (packet : UnsubAck) : writer unit :=
  if is_v5 e then
    let remaining_length :=
      2 + props_section_len (unsuback_properties packet) + zlen (unsuback_reason_codes packet) in
    put_u8 0xB0;;
    write_variable_int (wrap_u32 remaining_length);;
    put_u16 (unsuback_packet_id packet);;
    Properties_encode (unsuback_properties packet);;
    for_each (unsuback_reason_codes packet) (fun code => put_u8 (ReasonCode_as_u8 code))
  else put_u8 0xB0;; put_u8 0x02;; put_u16 (unsuback_packet_id packet).

(** ** DISCONNECT and AUTH *)

(** The common body of the two v5.0 encoders. *)
Definition encode_reason (first_byte : Z) (reason_code : ReasonCode) (properties : Properties)
    : writer unit :=
  let has_reason :=
    negb (bool_decide (reason_code = RC.Success)) || negb (Properties_is_empty properties) in
  if has_reason then
    let props_len := Properties_encoded_size properties in
    let has_props := props_len >? 0 in
    let remaining_length := if has_props then 1 + props_section_len properties else 1 in
    put_u8 first_byte;;
    write_variable_int (wrap_u32 remaining_length);;
    put_u8 (ReasonCode_as_u8 reason_code);;
    if has_props then Properties_encode properties else mret tt
  else put_u8 first_byte;; put_u8 0x00.

Definition encode_disconnect (e : Encoder) (packet : Disconnect) : writer unit :=
  if is_v5 e then
    encode_reason 0xE0 (disconnect_reason_code packet) (disconnect_properties packet)
  else put_u8 0xE0;; put_u8 0x00.

Definition encode_auth (e : Encoder) (packet : Auth) : writer unit :=
  if negb (is_v5 e) then wfail EE.PacketTooLarge
  else encode_reason 0xF0 (auth_reason_code packet) (auth_properties packet).

(** ** The packet *)
Definition encode (e : Encoder) (packet : Packet) : writer unit :=
  match packet with
  | P.Connect p => encode_connect p
  | P.ConnAck p => encode_connack e p
  | P.Publish p => encode_publish e p
  | P.PubAck p => encode_puback e p
  | P.PubRec p => encode_pubrec e p
  | P.PubRel p => encode_pubrel e p
  | P.PubComp p => encode_pubcomp e p
  | P.Subscribe p => encode_subscribe e p
  | P.SubAck p => encode_suback e p
  | P.Unsubscribe p => encode_unsubscribe e p
  | P.UnsubAck p => encode_unsuback e p
  | P.PingReq => put_u8 0xC0;; put_u8 0x00
  | P.PingResp => put_u8 0xD0;; put_u8 0x00
  | P.Disconnect p => encode_disconnect e p
  | P.Auth p => encode_auth e p
  end.
