(* ===== verification/Wire.v ===== *)
(** * The wire format and the codec round trip

    The byte layout of every packet as a reference definition ([packet_bytes]),
    the theorem that the encoder appends exactly these bytes and the theorem
    that the decoder reads the packet back from them. *)

From S2P Require Import Prelude Protocol Codec Properties Packet Decode Encode.

(** ** Reference layout *)
Definition opt_bytes {A} (f : A → list byte) (o : option A) : list byte := from_option f [] o.

(** The properties section: present for v5.0 only. *)
Definition section_bytes (v : ProtocolVersion) (p : Properties) : list byte :=
  match v with V5 => props_bytes p | V311 => [] end.

Definition connect_body (c : Connect) : list byte :=
  string_bytes "MQTT" ++
  [to_u8 (ProtocolVersion_as_u8 (conn_protocol_version c))] ++
  [to_u8 (connect_flags c)] ++
  be_u16 (conn_keep_alive c) ++
  section_bytes (conn_protocol_version c) (conn_properties c) ++
  string_bytes (conn_client_id c) ++
  opt_bytes (λ w, section_bytes (conn_protocol_version c) (will_properties w) ++
    string_bytes (will_topic w) ++ binary_bytes (will_payload w)) (conn_will c) ++
  opt_bytes string_bytes (conn_username c) ++
  opt_bytes binary_bytes (conn_password c).

Definition connack_body (v : ProtocolVersion) (c : ConnAck) : list byte :=
  [to_u8 (bool_as_u8 (connack_session_present c))] ++
  [to_u8 (match v with
          | V5 => ReasonCode_as_u8 (connack_reason_code c)
          | V311 => to_v3_connack_code (connack_reason_code c)
          end)] ++
  section_bytes v (connack_properties c).

Definition publish_body (v : ProtocolVersion) (p : Publish) : list byte :=
  string_bytes (pub_topic p) ++ opt_bytes be_u16 (pub_packet_id p) ++
  section_bytes v (pub_properties p) ++ pub_payload p.

(** The reason code and the properties that a v5.0 packet may omit. *)
Definition reason_bytes (r : ReasonCode) (p : Properties) : list byte :=
  if bool_decide (r = RC.Success) && Properties_is_empty p then []
  else
    [to_u8 (ReasonCode_as_u8 r)] ++
    (if Properties_is_empty p then [] else props_bytes p).

Definition ack_body (v : ProtocolVersion) (id : Z) (r : ReasonCode) (p : Properties) : list byte :=
  be_u16 id ++ match v with V5 => reason_bytes r p | V311 => [] end.

Definition subscription_bytes (v : ProtocolVersion) (s : Subscription) : list byte :=
  string_bytes (sub_filter s) ++
  [to_u8 (match v with
          | V5 => SubscriptionOptions_to_byte (sub_options s)
          | V311 => QoS_as_u8 (so_qos (sub_options s))
          end)].

Definition subscribe_body (v : ProtocolVersion) (s : Subscribe) : list byte :=
  be_u16 (subscribe_packet_id s) ++ section_bytes v (subscribe_properties s) ++
  (subscribe_subscriptions s ≫= subscription_bytes v).

Definition suback_code_byte (v : ProtocolVersion) (r : ReasonCode) : list byte :=
  [to_u8 (match v with V5 => ReasonCode_as_u8 r | V311 => suback_v3_code r end)].

Definition suback_body (v : ProtocolVersion) (s : SubAck) : list byte :=
  be_u16 (suback_packet_id s) ++ section_bytes v (suback_properties s) ++
  (suback_reason_codes s ≫= suback_code_byte v).

Definition unsubscribe_body (v : ProtocolVersion) (s : Unsubscribe) : list byte :=
  be_u16 (unsubscribe_packet_id s) ++ section_bytes v (unsubscribe_properties s) ++
  (unsubscribe_filters s ≫= string_bytes).

Definition unsuback_body (v : ProtocolVersion) (s : UnsubAck) : list byte :=
  be_u16 (unsuback_packet_id s) ++
  match v with
  | V5 => props_bytes (unsuback_properties s) ++ (unsuback_reason_codes s ≫= suback_code_byte V5)
  | V311 => []
  end.

Definition disconnect_body (v : ProtocolVersion) (d : Disconnect) : list byte :=
  match v with
  | V5 => reason_bytes (disconnect_reason_code d) (disconnect_properties d)
  | V311 => []
  end.

(** The flags of the fixed header. *)
Definition packet_flags (p : Packet) : Z :=
  match p with
  | P.Publish p => publish_first_byte p - 0x30
  | P.PubRel _ | P.Subscribe _ | P.Unsubscribe _ => 0x02
  | _ => 0
  end.

Definition packet_body (v : ProtocolVersion) (p : Packet) : list byte :=
  match p with
  | P.Connect c => connect_body c
  | P.ConnAck c => connack_body v c
  | P.Publish p => publish_body v p
  | P.PubAck a => ack_body v (puback_packet_id a) (puback_reason_code a) (puback_properties a)
  | P.PubRec a => ack_body v (pubrec_packet_id a) (pubrec_reason_code a) (pubrec_properties a)
  | P.PubRel a => ack_body v (pubrel_packet_id a) (pubrel_reason_code a) (pubrel_properties a)
  | P.PubComp a => ack_body v (pubcomp_packet_id a) (pubcomp_reason_code a) (pubcomp_properties a)
  | P.Subscribe s => subscribe_body v s
  | P.SubAck s => suback_body v s
  | P.Unsubscribe s => unsubscribe_body v s
  | P.UnsubAck s => unsuback_body v s
  | P.PingReq | P.PingResp => []
  | P.Disconnect d => disconnect_body v d
  | P.Auth a => reason_bytes (auth_reason_code a) (auth_properties a)
  end.

Definition packet_bytes (v : ProtocolVersion) (p : Packet) : list byte :=
  to_u8 (packet_type p * 16 + packet_flags p)
  :: var_int_bytes (zlen (packet_body v p)) ++ packet_body v p.

(** The decoder after the packet: CONNECT fixes its protocol version. *)
Definition decoder_after (d : Decoder) (p : Packet) : Decoder :=
  match p with
  | P.Connect c => d <| protocol_version := Some (conn_protocol_version c) |>
  | _ => d
  end.

Lemma props_section_len_v5 p :
  encodable_props p → props_section_len p = zlen (props_bytes p).
Proof.
  intros [Hw Hs]. rewrite zlen_props_bytes by assumption.
  unfold is_var_int, MAX_REMAINING_LENGTH in Hs.
  unfold props_section_len, wrap_u32. cbv zeta. rewrite Z.mod_small; [reflexivity|lia].
Qed.

#[local] Opaque Properties_encode Properties_encoded_size Properties_decode props_bytes
  props_section_len variable_int_len var_int_bytes.

(** ** The encoder appends the reference layout *)
Section encoder.

(** [hdr fb body]: header and body; a writer that writes the first byte, the
    length and then the body appends them. *)
Lemma emits_packet fb n body (w : writer unit) :
  n = zlen body → is_var_int (zlen body) → emits w body tt →
  emits (put_u8 fb;; write_variable_int (wrap_u32 n);; w)
    (to_u8 fb :: var_int_bytes (zlen body) ++ body) tt.
Proof.
  intros -> Hl Hw. apply (emits_bind _ _ [_] _ tt); [apply emits_put_u8|].
  unfold wrap_u32. rewrite Z.mod_small by (unfold is_var_int, MAX_REMAINING_LENGTH in Hl; lia).
  eapply emits_bind; [by apply emits_write_variable_int|done].
Qed.

(** The short form: a literal length byte. *)
Lemma emits_short fb n body (w : writer unit) :
  zlen body = n → 0 ≤ n < 128 → emits w body tt →
  emits (put_u8 fb;; put_u8 n;; w) (to_u8 fb :: var_int_bytes (zlen body) ++ body) tt.
Proof.
  intros -> Hn Hw. apply (emits_bind _ _ [_] _ tt); [apply emits_put_u8|].
  rewrite var_int_bytes_small by done. eapply emits_bind; [apply emits_put_u8|done].
Qed.

Lemma emits_empty fb :
  emits (put_u8 fb;; put_u8 0) (to_u8 fb :: var_int_bytes (zlen (@nil byte)) ++ []) tt.
Proof.
  change (zlen (@nil byte)) with 0. rewrite var_int_bytes_small by lia.
  apply (emits_bind _ _ [_] _ tt); apply emits_put_u8.
Qed.

Lemma emits_section v p :
  wf_props_v encodable_props v p →
  emits (if bool_decide (v = V5) then Properties_encode p else mret tt) (section_bytes v p) tt.
Proof.
  destruct v; [intros; apply emits_ret|].
  change (encodable_props p → emits (Properties_encode p) (props_bytes p) tt).
  intros [? ?]. by apply emits_Properties_encode.
Qed.

Lemma zlen_section v p :
  wf_props_v encodable_props v p →
  (if bool_decide (v = V5) then props_section_len p else 0) = zlen (section_bytes v p).
Proof. destruct v; [done|]. apply props_section_len_v5. Qed.

Lemma zlen_bind_sum {A} (f : A → list byte) (g : A → Z) l :
  (∀ a, a ∈ l → zlen (f a) = g a) → zlen (l ≫= f) = sum_size g l.
Proof.
  induction l as [|a l IH]; intros H; [done|]. rewrite bind_cons, zlen_app. simpl.
  rewrite H by constructor. rewrite IH; [done|]. intros. apply H. by constructor.
Qed.

Lemma sum_size_1 {A} (l : list A) : sum_size (λ _, 1) l = zlen l.
Proof. induction l; simpl; rewrite ?zlen_cons; [done|lia]. Qed.

Lemma emits_connect c :
  wf_connect encodable_props c → is_var_int (zlen (connect_body c)) →
  emits (encode_connect c) (packet_bytes V5 (P.Connect c)) tt.
Proof.
  intros (Hid & Hka & Hu & Hp & Hw & Hprops) Hl. unfold encode_connect, packet_bytes.
  cbn [packet_body]. cbv zeta. apply emits_packet.
  - unfold connect_remaining_length, connect_body, opt_bytes. cbv zeta.
    rewrite !zlen_app, !zlen_section by done. autorewrite with vibe_len.
    destruct (conn_will c) as [w|] eqn:Hcw; cbn [from_option].
    + rewrite zlen_section by apply (Hw w eq_refl).
      destruct (conn_username c), (conn_password c); cbn [from_option];
        autorewrite with vibe_len; cbn [slen String.length]; unfold slen; simpl String.length; lia.
    + destruct (conn_username c), (conn_password c); cbn [from_option];
        autorewrite with vibe_len; unfold slen; simpl String.length; lia.
  - done.
  - unfold connect_body.
    repeat (eapply emits_bind; [|]); eauto using emits_section with vibe.
    + apply emits_if_some. intros w Hcw. destruct (Hw w Hcw) as (? & ? & ?).
      repeat (eapply emits_bind; [|]); eauto using emits_section with vibe.
    + apply emits_if_some. intros u ?. eauto with vibe.
    + apply emits_if_some. intros u Hpw. destruct (Hp u Hpw). eauto with vibe.
Qed.

Lemma emits_connack e c :
  wf_connack encodable_props (enc_protocol_version e) c →
  is_var_int (zlen (connack_body (enc_protocol_version e) c)) →
  emits (encode_connack e c) (packet_bytes (enc_protocol_version e) (P.ConnAck c)) tt.
Proof.
  intros Hp Hl. unfold encode_connack, packet_bytes, is_v5. cbn [packet_body]. cbv zeta.
  apply emits_packet.
  - unfold connack_body. rewrite !zlen_app, zlen_section by done. autorewrite with vibe_len. lia.
  - done.
  - unfold connack_body. apply (emits_bind _ _ _ _ tt).
    { by destruct (connack_session_present c). }
    destruct (enc_protocol_version e) eqn:He; simpl.
    + apply emits_put_u8.
    + apply (emits_bind _ _ [_] _ tt); [apply emits_put_u8|].
      by apply (emits_section V5).
Qed.

Lemma emits_publish e p :
  wf_publish encodable_props (enc_protocol_version e) p →
  is_var_int (zlen (publish_body (enc_protocol_version e) p)) →
  emits (encode_publish e p) (packet_bytes (enc_protocol_version e) (P.Publish p)) tt.
Proof.
  intros (Hd & Ht & _ & _ & Hid & Hp) Hl.
  unfold encode_publish, packet_bytes. cbn [packet_body].
  replace (packet_type (P.Publish p) * 16 + packet_flags (P.Publish p)) with (publish_first_byte p)
    by (simpl packet_type; unfold packet_flags; lia).
  apply emits_packet.
  - unfold publish_remaining_length, publish_body, is_v5, opt_bytes. cbv zeta.
    rewrite !zlen_app, <-zlen_section by done. autorewrite with vibe_len.
    destruct (pub_packet_id p) as [id|]; cbn [from_option].
    + destruct Hid as [Hq _]. rewrite (bool_decide_false (pub_qos p = _)) by done. cbn [negb].
      rewrite zlen_be_u16. case_bool_decide; lia.
    + rewrite (bool_decide_true (pub_qos p = _)) by done. cbn [negb].
      rewrite zlen_nil. case_bool_decide; lia.
  - done.
  - unfold publish_body, is_v5.
    repeat (eapply emits_bind; [|]); eauto using emits_section with vibe.
    apply emits_if_some. intros. apply emits_put_u16.
Qed.

Lemma Properties_size_empty p :
  encodable_props p → (Properties_encoded_size p >? 0) = negb (Properties_is_empty p).
Proof.
  intros _. pose proof (Properties_encoded_size_nonneg p).
  destruct (Properties_is_empty p) eqn:He.
  - apply Properties_is_empty_default in He as ->. reflexivity.
  - rewrite Z.gtb_ltb. apply Z.ltb_lt.
    destruct (Z.eq_dec (Properties_encoded_size p) 0) as [H0|]; [|lia].
    apply Properties_encoded_size_0 in H0. subst. done.
Qed.

Lemma emits_ack e fb id r p :
  wf_ack encodable_props (enc_protocol_version e) id r p →
  is_var_int (zlen (ack_body (enc_protocol_version e) id r p)) →
  emits (encode_ack e fb id r p)
    (to_u8 fb :: var_int_bytes (zlen (ack_body (enc_protocol_version e) id r p))
     ++ ack_body (enc_protocol_version e) id r p) tt.
Proof.
  intros (Hid & Hp & _) Hl. unfold encode_ack, is_v5, ack_body, reason_bytes in *.
  destruct (enc_protocol_version e).
  - apply (emits_short fb 2); [done|lia|]. apply emits_put_u16.
  - rewrite bool_decide_true by done. cbv zeta. rewrite Properties_size_empty by done.
    rewrite <-negb_andb. destruct (bool_decide (r = RC.Success) && Properties_is_empty p) eqn:Hr.
    + cbn [negb]. apply (emits_short fb 2); [done|lia|]. rewrite app_nil_r. apply emits_put_u16.
    + cbn [negb] in *. destruct (Properties_is_empty p); cbn [negb] in *.
      * apply emits_packet; [done|done|].
        repeat (eapply emits_bind; [|]); eauto with vibe.
      * apply emits_packet; [|done|].
        -- rewrite !zlen_app, props_section_len_v5 by done. autorewrite with vibe_len. lia.
        -- repeat (eapply emits_bind; [|]); eauto with vibe. by apply (emits_section V5).
Qed.

Lemma emits_reason fb r p :
  encodable_props p → is_var_int (zlen (reason_bytes r p)) →
  emits (encode_reason fb r p)
    (to_u8 fb :: var_int_bytes (zlen (reason_bytes r p)) ++ reason_bytes r p) tt.
Proof.
  intros Hp Hl. unfold encode_reason, reason_bytes in *.
  cbv zeta. rewrite Properties_size_empty by done.
  rewrite <-negb_andb. destruct (bool_decide (r = RC.Success) && Properties_is_empty p) eqn:Hr.
  - apply emits_empty.
  - cbn [negb] in *. destruct (Properties_is_empty p); cbn [negb] in *.
    + apply emits_packet; [done|done|].
      repeat (eapply emits_bind; [|]); eauto with vibe.
    + apply emits_packet; [|done|].
      * rewrite !zlen_app, props_section_len_v5 by done. autorewrite with vibe_len. lia.
      * repeat (eapply emits_bind; [|]); eauto with vibe. by apply (emits_section V5).
Qed.

Lemma emits_subscribe e s :
  wf_subscribe encodable_props (enc_protocol_version e) s →
  is_var_int (zlen (subscribe_body (enc_protocol_version e) s)) →
  emits (encode_subscribe e s) (packet_bytes (enc_protocol_version e) (P.Subscribe s)) tt.
Proof.
  intros (_ & _ & _ & Hs & Hp) Hl. rewrite Forall_forall in Hs.
  unfold encode_subscribe, packet_bytes, is_v5. cbn [packet_body]. cbv zeta. apply emits_packet.
  - unfold subscribe_body. rewrite !zlen_app, zlen_section by done.
    rewrite (zlen_bind_sum _ (λ sub, 2 + slen (sub_filter sub) + 1)).
    + rewrite zlen_be_u16. lia.
    + intros sub _. unfold subscription_bytes. by autorewrite with vibe_len.
  - done.
  - unfold subscribe_body.
    repeat (eapply emits_bind; [|]); eauto using emits_section with vibe.
    apply emits_for_each. intros sub Hsub. destruct (Hs sub Hsub) as (Hf & _ & _).
    unfold subscription_bytes. eapply emits_bind; [by eauto with vibe|].
    destruct (enc_protocol_version e); apply emits_put_u8.
Qed.

Lemma emits_suback e s :
  wf_suback encodable_props (enc_protocol_version e) s →
  is_var_int (zlen (suback_body (enc_protocol_version e) s)) →
  emits (encode_suback e s) (packet_bytes (enc_protocol_version e) (P.SubAck s)) tt.
Proof.
  intros (_ & _ & Hp) Hl.
  unfold encode_suback, packet_bytes, is_v5. cbn [packet_body]. cbv zeta. apply emits_packet.
  - unfold suback_body. rewrite !zlen_app, zlen_section by done.
    rewrite (zlen_bind_sum _ (λ _, 1)) by done. rewrite zlen_be_u16, sum_size_1. lia.
  - done.
  - unfold suback_body.
    repeat (eapply emits_bind; [|]); eauto using emits_section with vibe.
    apply emits_for_each. intros r _. unfold suback_code_byte.
    destruct (enc_protocol_version e); apply emits_put_u8.
Qed.

Lemma emits_unsubscribe e s :
  wf_unsubscribe encodable_props (enc_protocol_version e) s →
  is_var_int (zlen (unsubscribe_body (enc_protocol_version e) s)) →
  emits (encode_unsubscribe e s) (packet_bytes (enc_protocol_version e) (P.Unsubscribe s)) tt.
Proof.
  intros (_ & _ & _ & Hs & Hp) Hl. rewrite Forall_forall in Hs.
  unfold encode_unsubscribe, packet_bytes, is_v5. cbn [packet_body]. cbv zeta. apply emits_packet.
  - unfold unsubscribe_body. rewrite !zlen_app, zlen_section by done.
    rewrite (zlen_bind_sum _ (λ f, 2 + slen f)).
    + rewrite zlen_be_u16. lia.
    + intros f _. by autorewrite with vibe_len.
  - done.
  - unfold unsubscribe_body.
    repeat (eapply emits_bind; [|]); eauto using emits_section with vibe.
    apply emits_for_each. intros f Hf. destruct (Hs f Hf) as [? _]. eauto with vibe.
Qed.

Lemma emits_unsuback e s :
  wf_unsuback encodable_props (enc_protocol_version e) s →
  is_var_int (zlen (unsuback_body (enc_protocol_version e) s)) →
  emits (encode_unsuback e s) (packet_bytes (enc_protocol_version e) (P.UnsubAck s)) tt.
Proof.
  intros (_ & _ & Hp) Hl. unfold encode_unsuback, packet_bytes, is_v5, unsuback_body in *.
  cbn [packet_body]. unfold unsuback_body. destruct (enc_protocol_version e).
  - apply (emits_short _ 2); [done|lia|]. rewrite app_nil_r. apply emits_put_u16.
  - rewrite bool_decide_true by done. cbv zeta. apply emits_packet.
    + rewrite !zlen_app, props_section_len_v5 by done.
      rewrite (zlen_bind_sum _ (λ _, 1)) by done. rewrite zlen_be_u16, sum_size_1. lia.
    + done.
    + eapply emits_bind; [apply emits_put_u16|].
      eapply emits_bind; [by apply (emits_section V5)|].
      apply emits_for_each. intros. apply emits_put_u8.
Qed.

(** The encoder appends the reference layout of the packet. *)
Lemma emits_encode e p :
  encodable (enc_protocol_version e) p →
  is_var_int (zlen (packet_body (enc_protocol_version e) p)) →
  emits (encode e p) (packet_bytes (enc_protocol_version e) p) tt.
Proof.
  intros [Hw _] Hl.
  destruct p; cbn [wf_packet] in Hw; cbn [encode].
  - by apply emits_connect.
  - by apply emits_connack.
  - by apply emits_publish.
  - by apply emits_ack.
  - by apply emits_ack.
  - by apply emits_ack.
  - by apply emits_ack.
  - by apply emits_subscribe.
  - by apply emits_suback.
  - by apply emits_unsubscribe.
  - by apply emits_unsuback.
  - apply emits_empty.
  - apply emits_empty.
  - destruct Hw as [Hp _]. unfold encode_disconnect, packet_bytes, is_v5 in *.
    cbn [packet_body] in *. unfold disconnect_body in *.
    destruct (enc_protocol_version e); [apply emits_empty|]. by apply emits_reason.
  - destruct Hw as [Hv Hp]. unfold encode_auth, is_v5. rewrite Hv, bool_decide_true by done.
    rewrite Hv in Hp. by apply emits_reason.
Qed.

End encoder.

(** ** The decoder reads the reference layout *)
Section decoder.
Context (d : Decoder) (v : ProtocolVersion) (Hv : protocol_version d = Some v).
Implicit Types (payload rest : list byte).

Lemma u16_at_bytes payload pos n rest :
  is_u16 n → at_pos payload pos (be_u16 n ++ rest) → u16_at payload pos = Ok n.
Proof.
  intros Hn H0. unfold u16_at. unfold be_u16 in H0. cbn [app] in H0.
  rewrite (at_pos_index _ _ _ _ H0), bind_Ok.
  pose proof (at_pos_cons _ _ _ _ _ H0 eq_refl) as H1.
  rewrite (at_pos_index _ _ _ _ H1), bind_Ok. by rewrite u16_from_be_be.
Qed.

Lemma props_at_bytes payload pos p rest :
  encodable_props p → at_pos payload pos (props_bytes p ++ rest) →
  props_at payload pos = Ok (p, pos + zlen (props_bytes p)).
Proof.
  intros [Hw Hs] Hat. unfold props_at. rewrite (at_pos_slice_from _ _ _ Hat), bind_Ok.
  by rewrite Properties_decode_bytes.
Qed.

Lemma section_at payload pos p rest :
  wf_props_v encodable_props v p → at_pos payload pos (section_bytes v p ++ rest) →
  match protocol_version d with
  | Some V5 => props_at payload pos
  | _ => Ok (Properties_default, pos)
  end = Ok (p, pos + zlen (section_bytes v p)).
Proof.
  intros Hp Hat. rewrite Hv. destruct v.
  - cbn in Hp. subst. cbn [section_bytes]. by rewrite zlen_nil, Z.add_0_r.
  - eapply props_at_bytes; done.
Qed.

Lemma section_connect_at w payload pos p rest :
  wf_props_v encodable_props w p → at_pos payload pos (section_bytes w p ++ rest) →
  (if bool_decide (w = V5) then props_at payload pos else Ok (Properties_default, pos))
  = Ok (p, pos + zlen (section_bytes w p)).
Proof.
  intros Hp Hat. destruct w.
  - cbn in Hp. subst. cbn [section_bytes]. by rewrite zlen_nil, Z.add_0_r.
  - eapply props_at_bytes; done.
Qed.

Lemma read_string_at {B} payload pos s rest (k : string * Z → outcome DecodeError B) :
  mqtt_string s = true → at_pos payload pos (string_bytes s ++ rest) →
  (l ← slice_from payload pos; read_string l ≫= k) = k (s, zlen (string_bytes s)).
Proof. intros. rewrite zlen_string_bytes. by eapply string_at. Qed.

Lemma read_binary_at {B} payload pos s rest (k : list byte * Z → outcome DecodeError B) :
  mqtt_binary s = true → at_pos payload pos (binary_bytes s ++ rest) →
  (l ← slice_from payload pos; read_binary l ≫= k) = k (s, zlen (binary_bytes s)).
Proof. intros. rewrite zlen_binary_bytes. by eapply binary_at. Qed.

Lemma at_pos_next payload pos l rest :
  at_pos payload pos (l ++ rest) → at_pos payload (pos + zlen l) rest.
Proof. intros H. by eapply at_pos_app. Qed.

Lemma tail_props_at payload pos p :
  encodable_props p → at_pos payload pos (props_bytes p) →
  (if zlen payload >? pos then '(props, _) ← props_at payload pos; Ok props
   else Ok Properties_default) = Ok p.
Proof.
  intros Hp Hat. pose proof (at_pos_len _ _ _ Hat) as Hl.
  destruct (Hp) as [Hw Hs]. pose proof (zlen_props_bytes p Hw Hs).
  pose proof (variable_int_len_range (Properties_encoded_size p)).
  pose proof (Properties_encoded_size_nonneg p).
  rewrite Z.gtb_ltb. destruct (Z.ltb_spec pos (zlen payload)); [|lia].
  rewrite <-(app_nil_r (props_bytes p)) in Hat. by rewrite (props_at_bytes _ _ _ _ Hp Hat).
Qed.

Lemma tail_props_none payload pos :
  at_pos payload pos [] →
  (if zlen payload >? pos then '(props, _) ← props_at payload pos; Ok props
   else Ok Properties_default) = Ok Properties_default.
Proof.
  intros Hl%at_pos_len. rewrite zlen_nil in Hl. rewrite Z.gtb_ltb.
  destruct (Z.ltb_spec pos (zlen payload)); [lia|done].
Qed.

Lemma decode_connack_bytes c :
  wf_connack encodable_props v c →
  (v = V311 → from_v3_connack_code (to_v3_connack_code (connack_reason_code c)) = connack_reason_code c) →
  decode_connack d 0 (connack_body v c) = Ok (P.ConnAck c).
Proof.
  intros Hp Hv3. unfold decode_connack. cbn [negb Z.eqb].
  set (payload := connack_body v c).
  assert (H0 : at_pos payload 0 (connack_body v c)) by apply at_pos_0.
  pose proof (at_pos_len _ _ _ H0) as Hlen. unfold connack_body in H0, Hlen.
  rewrite !zlen_app in Hlen. cbn [app] in H0.
  pose proof (at_pos_cons _ 0 1 _ _ H0 eq_refl) as H1.
  pose proof (at_pos_cons _ 1 2 _ _ H1 eq_refl) as H2.
  destruct (Z.ltb_spec (zlen payload) 2); [autorewrite with vibe_len in Hlen; llia|].
  rewrite (at_pos_index _ _ _ _ H0), bind_Ok.
  rewrite u8_to_u8_small by (by destruct (connack_session_present c)).
  replace (Z.land (bool_as_u8 (connack_session_present c)) 254) with 0
    by (by destruct (connack_session_present c)). cbn [negb Z.eqb].
  rewrite (at_pos_index _ _ _ _ H1), bind_Ok. rewrite Hv.
  destruct v; cbn [wf_connack wf_props_v] in Hp.
  - rewrite u8_to_u8_small by (by destruct (connack_reason_code c)). rewrite bind_Ok, Hv3 by done.
    unfold wf_connack in Hp. cbn in Hp. destruct c as [[] r p]; cbn in *; by subst.
  - rewrite u8_to_u8_small by apply ReasonCode_as_range. rewrite ReasonCode_from_as. cbn [ok_or].
    rewrite bind_Ok, (tail_props_at _ _ _ Hp H2), !bind_Ok. by destruct c as [[] r p].
Qed.

Lemma publish_flags_bits p :
  let flags := packet_flags (P.Publish p) in
  negb (Z.land flags 0x08 =? 0) = pub_dup p ∧
  Z.land (Z.shiftr flags 1) 0x03 = QoS_as_u8 (pub_qos p) ∧
  negb (Z.land flags 0x01 =? 0) = pub_retain p.
Proof.
  cbn [packet_flags]. unfold publish_first_byte.
  by destruct (pub_dup p), (pub_qos p), (pub_retain p).
Qed.

Lemma decode_publish_bytes p :
  wf_publish encodable_props v p →
  decode_publish d (packet_flags (P.Publish p)) (publish_body v p) = Ok (P.Publish p).
Proof.
  intros (Hd & Ht & Hc1 & Hc2 & Hid & Hp). unfold decode_publish. cbv zeta.
  destruct (publish_flags_bits p) as (-> & -> & ->). rewrite QoS_from_as. cbn [ok_or].
  rewrite bind_Ok.
  replace (bool_decide (pub_qos p = AtMostOnce) && pub_dup p) with false
    by (case_bool_decide as Hq; [by rewrite (Hd Hq)|done]).
  set (payload := publish_body v p).
  assert (H0 : at_pos payload 0 (publish_body v p)) by apply at_pos_0.
  unfold publish_body in H0. clearbody payload.
  rewrite (read_string_at _ _ _ _ _ Ht H0). cbv beta iota. rewrite Hc1, Hc2. cbn [orb].
  apply at_pos_next in H0. pose proof (at_pos_len _ _ _ H0) as Hlen. rewrite !zlen_app in Hlen.
  assert (Hpid : (if negb (bool_decide (pub_qos p = AtMostOnce)) then
       if 0 + zlen (string_bytes (pub_topic p)) + 2 >? zlen payload then Err DE.InsufficientData
       else id ← u16_at payload (0 + zlen (string_bytes (pub_topic p)));
            if id =? 0 then Err (DE.MalformedPacket "packet id cannot be 0")
            else Ok (Some id, 0 + zlen (string_bytes (pub_topic p)) + 2)
     else Ok (None, 0 + zlen (string_bytes (pub_topic p))))
    = Ok (pub_packet_id p, 0 + zlen (string_bytes (pub_topic p)) + zlen (opt_bytes be_u16 (pub_packet_id p)))).
  { destruct (pub_packet_id p) as [id|]; cbn [opt_bytes from_option] in *.
    - destruct Hid as (Hq & Hi & Hnz). rewrite bool_decide_false by done. cbn [negb].
      rewrite zlen_be_u16 in *. rewrite Z.gtb_ltb. destruct (Z.ltb_spec (zlen payload) (0 + zlen (string_bytes (pub_topic p)) + 2)); [llia|].
      rewrite (u16_at_bytes _ _ _ _ Hi H0), bind_Ok.
      destruct (Z.eqb_spec id 0); [done|]. done.
    - rewrite bool_decide_true by done. cbn [negb]. change (zlen (@nil byte)) with 0.
      by rewrite Z.add_0_r. }
  rewrite Hpid, bind_Ok. apply at_pos_next in H0.
  rewrite (section_at _ _ _ _ Hp H0), bind_Ok. apply at_pos_next in H0.
  rewrite (at_pos_slice_from _ _ _ H0), bind_Ok. by destruct p.
Qed.

(** The optional reason code and properties of a v5.0 packet at [pos]. *)
Lemma reason_at payload pos r p :
  encodable_props p → at_pos payload pos (reason_bytes r p) →
  (if zlen payload >? pos then
     b ← index payload pos;
     reason_code ← ok_or (ReasonCode_from_u8 b) (DE.InvalidReasonCode b);
     properties ←
       (if zlen payload >? pos + 1 then '(props, _) ← props_at payload (pos + 1); Ok props
        else Ok Properties_default);
     Ok (reason_code, properties)
   else Ok (RC.Success, Properties_default)) = Ok (r, p).
Proof.
  intros Hp Hat. pose proof (at_pos_len _ _ _ Hat) as Hlen. rewrite Z.gtb_ltb.
  unfold reason_bytes in *.
  destruct (bool_decide (r = RC.Success) && Properties_is_empty p) eqn:Hr.
  - rewrite zlen_nil in Hlen. destruct (Z.ltb_spec pos (zlen payload)); [lia|].
    apply andb_true_iff in Hr as [Hr He]. apply bool_decide_eq_true in Hr.
    apply Properties_is_empty_default in He. by subst.
  - cbn [app] in *. rewrite zlen_cons in Hlen.
    destruct (Z.ltb_spec pos (zlen payload)); [|llia].
    rewrite (at_pos_index _ _ _ _ Hat), bind_Ok.
    rewrite u8_to_u8_small by apply ReasonCode_as_range. rewrite ReasonCode_from_as. cbn [ok_or].
    rewrite bind_Ok. apply (at_pos_cons _ _ (pos + 1)) in Hat; [|done].
    destruct (Properties_is_empty p) eqn:He.
    + rewrite (tail_props_none _ _ Hat), bind_Ok.
      apply Properties_is_empty_default in He. by subst.
    + by rewrite (tail_props_at _ _ _ Hp Hat), bind_Ok.
Qed.

Lemma decode_ack_bytes fl id r p mk :
  wf_ack encodable_props v id r p →
  decode_ack d fl fl (ack_body v id r p) mk = Ok (mk id r p).
Proof.
  intros (Hid & Hp & Hr). unfold decode_ack. rewrite Z.eqb_refl. cbn [negb].
  set (payload := ack_body v id r p).
  assert (H0 : at_pos payload 0 (ack_body v id r p)) by apply at_pos_0.
  unfold ack_body in H0. clearbody payload.
  pose proof (at_pos_len _ _ _ H0) as Hlen. rewrite zlen_app, zlen_be_u16 in Hlen.
  destruct (Z.ltb_spec (zlen payload) 2); [llia|].
  rewrite (u16_at_bytes _ _ _ _ Hid H0), bind_Ok. rewrite Hv.
  apply at_pos_next in H0. destruct v.
  - cbn in Hp. subst p. by rewrite Hr.
  - rewrite zlen_be_u16, Z.add_0_l in H0.
    pose proof (reason_at _ _ _ _ Hp H0) as E. change (2 + 1) with 3 in E.
    by rewrite E, bind_Ok.
Qed.

(** DISCONNECT and AUTH: the body is nothing but the reason. *)
Lemma reason_body (mk : ReasonCode → Properties → Packet) r p :
  encodable_props p →
  (if is_nil (reason_bytes r p) then Ok (mk RC.Success Properties_default)
   else
     b ← index (reason_bytes r p) 0;
     reason_code ← ok_or (ReasonCode_from_u8 b) (DE.InvalidReasonCode b);
     properties ←
       (if zlen (reason_bytes r p) >? 1
        then '(props, _) ← props_at (reason_bytes r p) 1; Ok props
        else Ok Properties_default);
     Ok (mk reason_code properties)) = Ok (mk r p).
Proof.
  intros Hp. pose proof (reason_at _ _ _ _ Hp (at_pos_0 (reason_bytes r p))) as E.
  change (0 + 1) with 1 in E. destruct (reason_bytes r p) as [|b l]; cbn [is_nil].
  - cbn in E. by injection E as <- <-.
  - rewrite Z.gtb_ltb in E. destruct (Z.ltb_spec 0 (zlen (b :: l))) as [_|Hle];
      [|rewrite zlen_cons in Hle; llia].
    rewrite index_0, bind_Ok in E. rewrite index_0, bind_Ok.
    destruct (ok_or (ReasonCode_from_u8 (u8 b)) (DE.InvalidReasonCode (u8 b))); try done.
    rewrite bind_Ok in E. rewrite bind_Ok.
    destruct (if zlen (b :: l) >? 1 then _ else _); try done.
    cbn in E. injection E as -> ->. done.
Qed.

Lemma decode_disconnect_bytes x :
  wf_disconnect encodable_props v x →
  decode_disconnect d 0 (disconnect_body v x) = Ok (P.Disconnect x).
Proof.
  intros (Hp & Hr). unfold decode_disconnect. cbn [negb Z.eqb]. rewrite Hv.
  destruct x as [r p]. cbn [disconnect_properties disconnect_reason_code] in *.
  destruct v; cbn [disconnect_body disconnect_properties disconnect_reason_code].
  - cbn in Hp. subst p. by rewrite Hr.
  - exact (reason_body (λ r p, P.Disconnect (MkDisconnect r p)) r p Hp).
Qed.

Lemma decode_auth_bytes x :
  v = V5 → encodable_props (auth_properties x) →
  decode_auth d 0 (reason_bytes (auth_reason_code x) (auth_properties x)) = Ok (P.Auth x).
Proof.
  intros Hv5 Hp. unfold decode_auth, version_is. cbn [negb Z.eqb].
  rewrite bool_decide_true by congruence. destruct x as [r p].
  exact (reason_body (λ r p, P.Auth (MkAuth r p)) r p Hp).
Qed.

Lemma decode_options_bytes o :
  (v = V311 → o = MkSubscriptionOptions (so_qos o) false false SendAtSubscribe) →
  decode_options d (u8 (to_u8 (match v with
    | V5 => SubscriptionOptions_to_byte o | V311 => QoS_as_u8 (so_qos o) end))) = Ok o.
Proof.
  intros Ho. unfold decode_options. rewrite Hv. destruct v.
  - rewrite u8_to_u8_small by (pose proof (QoS_as_range (so_qos o)); unfold is_u8; lia).
    replace (Z.land (QoS_as_u8 (so_qos o)) 3) with (QoS_as_u8 (so_qos o)) by (by destruct (so_qos o)).
    rewrite QoS_from_as. cbn [ok_or]. rewrite bind_Ok. by rewrite <-Ho.
  - rewrite u8_to_u8_small by (pose proof (SubscriptionOptions_byte_range o); unfold is_u8; lia).
    by rewrite SubscriptionOptions_from_to.
Qed.

Lemma is_empty_false s : s ≠ EmptyString → is_empty s = false.
Proof. by destruct s. Qed.

Lemma decode_subscriptions_bytes fuel payload subs acc pos :
  Forall (wf_subscription v) subs →
  at_pos payload pos (subs ≫= subscription_bytes v) → (length subs < fuel)%nat →
  decode_subscriptions fuel d payload acc pos = Ok (acc ++ subs).
Proof.
  intros Hw. revert fuel acc pos.
  induction Hw as [|s subs Hs Hw IH]; intros [|fuel] acc pos Hat Hf; cbn [length] in Hf; try lia.
  - apply at_pos_len in Hat. change (zlen ([] ≫= subscription_bytes v)) with 0 in Hat.
    cbn [decode_subscriptions]. destruct (Z.ltb_spec pos (zlen payload)); [lia|].
    by rewrite app_nil_r.
  - destruct Hs as (Hstr & Hne & Ho). rewrite bind_cons in Hat.
    unfold subscription_bytes at 1 in Hat. rewrite <-app_assoc in Hat.
    pose proof (at_pos_len _ _ _ Hat) as Hlen. rewrite !zlen_app, zlen_cons, zlen_nil in Hlen.
    pose proof (zlen_nonneg (string_bytes (sub_filter s))).
    pose proof (zlen_nonneg (subs ≫= subscription_bytes v)).
    cbn [decode_subscriptions]. destruct (Z.ltb_spec pos (zlen payload)); [|lia].
    rewrite (read_string_at _ _ _ _ _ Hstr Hat). cbv beta iota zeta.
    rewrite is_empty_false by done. rewrite Z.geb_leb.
    destruct (Z.leb_spec (zlen payload) (pos + zlen (string_bytes (sub_filter s)))); [lia|].
    apply at_pos_next in Hat. cbn [app] in Hat.
    rewrite (at_pos_index _ _ _ _ Hat), bind_Ok, decode_options_bytes, bind_Ok by done.
    apply (at_pos_cons _ _ (pos + zlen (string_bytes (sub_filter s)) + 1)) in Hat; [|done].
    rewrite (IH _ _ _ Hat) by lia. rewrite <-app_assoc. by destruct s.
Qed.

Lemma length_bind_ge {A} (f : A → list byte) l :
  (∀ a, (0 < length (f a))%nat) → (length l ≤ length (l ≫= f))%nat.
Proof.
  intros Hf. induction l as [|a l IH]; [done|]. rewrite bind_cons, length_app. cbn [length].
  pose proof (Hf a). lia.
Qed.

Lemma length_string_bytes s : (0 < length (string_bytes s))%nat.
Proof. unfold string_bytes, be_u16. cbn [app length]. lia. Qed.

Lemma decode_subscribe_bytes s :
  wf_subscribe encodable_props v s →
  decode_subscribe d 0x02 (subscribe_body v s) = Ok (P.Subscribe s).
Proof.
  intros (Hid & Hnz & Hne & Hs & Hp). unfold decode_subscribe. rewrite Z.eqb_refl. cbn [negb].
  assert (Hfuel : (length (subscribe_subscriptions s) < S (length (subscribe_body v s)))%nat).
  { unfold subscribe_body. rewrite !length_app.
    pose proof (length_bind_ge (subscription_bytes v) (subscribe_subscriptions s)) as Hb.
    ospecialize (Hb _); [|lia]. intros a. unfold subscription_bytes. rewrite length_app.
    pose proof (length_string_bytes (sub_filter a)). lia. }
  set (payload := subscribe_body v s) in *.
  assert (H0 : at_pos payload 0 (subscribe_body v s)) by apply at_pos_0.
  unfold subscribe_body in H0. clearbody payload.
  pose proof (at_pos_len _ _ _ H0) as Hlen. rewrite zlen_app, zlen_be_u16 in Hlen.
  destruct (Z.ltb_spec (zlen payload) 2); [llia|].
  rewrite (u16_at_bytes _ _ _ _ Hid H0), bind_Ok. destruct (Z.eqb_spec (subscribe_packet_id s) 0); [done|].
  cbv zeta. apply at_pos_next in H0. rewrite zlen_be_u16, Z.add_0_l in H0.
  rewrite (section_at _ _ _ _ Hp H0), bind_Ok. apply at_pos_next in H0.
  rewrite (decode_subscriptions_bytes _ _ _ _ _ Hs H0 Hfuel), bind_Ok. cbn [app].
  by destruct s as [i [|] p].
Qed.

Lemma decode_codes_bytes fuel dc (f : ReasonCode → list byte) payload codes acc pos :
  (∀ r, r ∈ codes → ∃ b, f r = [b] ∧ dc (u8 b) = Ok r) →
  at_pos payload pos (codes ≫= f) → (length codes < fuel)%nat →
  decode_codes fuel dc payload acc pos = Ok (acc ++ codes).
Proof.
  revert fuel acc pos.
  induction codes as [|r codes IH]; intros [|fuel] acc pos Hdc Hat Hf; cbn [length] in Hf; try lia.
  - apply at_pos_len in Hat. change (zlen ([] ≫= f)) with 0 in Hat.
    cbn [decode_codes]. destruct (Z.ltb_spec pos (zlen payload)); [lia|]. by rewrite app_nil_r.
  - destruct (Hdc r) as (b & Hb & Hr); [constructor|]. rewrite bind_cons, Hb in Hat. cbn [app] in Hat.
    pose proof (at_pos_len _ _ _ Hat) as Hlen. rewrite zlen_cons in Hlen.
    pose proof (zlen_nonneg (codes ≫= f)).
    cbn [decode_codes]. destruct (Z.ltb_spec pos (zlen payload)); [|lia].
    rewrite (at_pos_index _ _ _ _ Hat), bind_Ok, Hr, bind_Ok.
    apply (at_pos_cons _ _ (pos + 1)) in Hat; [|done].
    rewrite IH; [by rewrite <-app_assoc| |done|lia]. intros. apply Hdc. by constructor.
Qed.

Lemma suback_code_read r :
  (v = V311 → v3_suback_code r = true) →
  ∃ b, suback_code_byte v r = [b] ∧ decode_suback_code d (u8 b) = Ok r.
Proof.
  intros Hr. eexists. split; [done|]. unfold decode_suback_code. rewrite Hv. destruct v.
  - rewrite u8_to_u8_small by (by destruct r). specialize (Hr eq_refl). by destruct r.
  - rewrite u8_to_u8_small by apply ReasonCode_as_range. by rewrite ReasonCode_from_as.
Qed.

Lemma decode_suback_bytes s :
  wf_suback encodable_props v s →
  decode_suback d 0 (suback_body v s) = Ok (P.SubAck s).
Proof.
  intros (Hid & Hc & Hp). unfold decode_suback. cbn [negb Z.eqb].
  assert (Hfuel : (length (suback_reason_codes s) < S (length (suback_body v s)))%nat).
  { unfold suback_body. rewrite !length_app.
    pose proof (length_bind_ge (suback_code_byte v) (suback_reason_codes s)) as Hb.
    ospecialize (Hb _); [|lia]. intros a. cbn. lia. }
  set (payload := suback_body v s) in *.
  assert (H0 : at_pos payload 0 (suback_body v s)) by apply at_pos_0.
  unfold suback_body in H0. clearbody payload.
  pose proof (at_pos_len _ _ _ H0) as Hlen. rewrite !zlen_app, zlen_be_u16 in Hlen.
  assert (Hlen3 : 3 ≤ zlen payload).
  { rewrite Hlen. pose proof (zlen_nonneg (suback_reason_codes s ≫= suback_code_byte v)). destruct v.
    - destruct (Hc eq_refl) as [Hne _]. destruct (suback_reason_codes s); [done|].
      rewrite bind_cons, zlen_app. cbn [suback_code_byte]. unfold suback_code_byte at 1.
      rewrite zlen_cons. llia.
    - cbn [section_bytes]. destruct Hp as [Hw Hs]. rewrite zlen_props_bytes by done.
      pose proof (variable_int_len_range (Properties_encoded_size (suback_properties s))).
      pose proof (Properties_encoded_size_nonneg (suback_properties s)). lia. }
  destruct (Z.ltb_spec (zlen payload) 3); [lia|].
  rewrite (u16_at_bytes _ _ _ _ Hid H0), bind_Ok.
  cbv zeta. apply at_pos_next in H0. rewrite zlen_be_u16, Z.add_0_l in H0.
  rewrite (section_at _ _ _ _ Hp H0), bind_Ok. apply at_pos_next in H0.
  rewrite (decode_codes_bytes _ _ (suback_code_byte v) _ (suback_reason_codes s)); [|intros r Hr|done|done].
  - rewrite bind_Ok. cbn [app]. by destruct s.
  - apply suback_code_read. intros H3. destruct (Hc H3) as [_ Hall].
    rewrite forallb_forall in Hall. by apply Hall, list_elem_of_In.
Qed.

Lemma decode_filters_bytes fuel payload fs acc pos :
  filters_ok fs → at_pos payload pos (fs ≫= string_bytes) → (length fs < fuel)%nat →
  decode_filters fuel payload acc pos = Ok (acc ++ fs).
Proof.
  intros Hw. revert fuel acc pos.
  induction Hw as [|f fs [Hf Hne] Hw IH]; intros [|fuel] acc pos Hat Hfu; cbn [length] in Hfu; try lia.
  - apply at_pos_len in Hat. change (zlen ([] ≫= string_bytes)) with 0 in Hat.
    cbn [decode_filters]. destruct (Z.ltb_spec pos (zlen payload)); [lia|]. by rewrite app_nil_r.
  - rewrite bind_cons in Hat. pose proof (at_pos_len _ _ _ Hat) as Hlen.
    rewrite zlen_app, zlen_string_bytes in Hlen. pose proof (zlen_nonneg (fs ≫= string_bytes)).
    cbn [decode_filters]. destruct (Z.ltb_spec pos (zlen payload)); [|llia].
    rewrite (read_string_at _ _ _ _ _ Hf Hat). cbv beta iota zeta.
    rewrite is_empty_false by done. apply at_pos_next in Hat.
    rewrite (IH _ _ _ Hat) by lia. by rewrite <-app_assoc.
Qed.

Lemma decode_unsubscribe_bytes s :
  wf_unsubscribe encodable_props v s →
  decode_unsubscribe d 0x02 (unsubscribe_body v s) = Ok (P.Unsubscribe s).
Proof.
  intros (Hid & Hnz & Hne & Hs & Hp). unfold decode_unsubscribe. rewrite Z.eqb_refl. cbn [negb].
  assert (Hfuel : (length (unsubscribe_filters s) < S (length (unsubscribe_body v s)))%nat).
  { unfold unsubscribe_body. rewrite !length_app.
    pose proof (length_bind_ge string_bytes (unsubscribe_filters s) length_string_bytes). lia. }
  set (payload := unsubscribe_body v s) in *.
  assert (H0 : at_pos payload 0 (unsubscribe_body v s)) by apply at_pos_0.
  unfold unsubscribe_body in H0. clearbody payload.
  pose proof (at_pos_len _ _ _ H0) as Hlen. rewrite zlen_app, zlen_be_u16 in Hlen.
  destruct (Z.ltb_spec (zlen payload) 2); [llia|].
  rewrite (u16_at_bytes _ _ _ _ Hid H0), bind_Ok. destruct (Z.eqb_spec (unsubscribe_packet_id s) 0); [done|].
  cbv zeta. apply at_pos_next in H0. rewrite zlen_be_u16, Z.add_0_l in H0.
  rewrite (section_at _ _ _ _ Hp H0), bind_Ok. apply at_pos_next in H0.
  rewrite (decode_filters_bytes _ _ _ _ _ Hs H0 Hfuel), bind_Ok. cbn [app].
  by destruct s as [i [|] p].
Qed.

Lemma decode_unsuback_bytes s :
  wf_unsuback encodable_props v s →
  decode_unsuback d 0 (unsuback_body v s) = Ok (P.UnsubAck s).
Proof.
  intros (Hid & Hc & Hp). unfold decode_unsuback. cbn [negb Z.eqb].
  assert (Hfuel : v = V5 → (length (unsuback_reason_codes s) < S (length (unsuback_body v s)))%nat).
  { intros E. unfold unsuback_body. rewrite E, !length_app.
    pose proof (length_bind_ge (suback_code_byte V5) (unsuback_reason_codes s)) as Hb.
    ospecialize (Hb _); [|lia]. intros a. cbn. lia. }
  set (payload := unsuback_body v s) in *.
  assert (H0 : at_pos payload 0 (unsuback_body v s)) by apply at_pos_0.
  unfold unsuback_body in H0. clearbody payload.
  pose proof (at_pos_len _ _ _ H0) as Hlen. rewrite zlen_app, zlen_be_u16 in Hlen.
  destruct (Z.ltb_spec (zlen payload) 2); [llia|].
  rewrite (u16_at_bytes _ _ _ _ Hid H0), bind_Ok. rewrite Hv.
  apply at_pos_next in H0. rewrite zlen_be_u16, Z.add_0_l in H0. destruct v.
  - cbn in Hp. destruct s; cbn in *. rewrite Hc by done. by subst.
  - rewrite (props_at_bytes _ _ _ _ Hp H0), bind_Ok. apply at_pos_next in H0.
    rewrite (decode_codes_bytes _ _ (suback_code_byte V5) _ (unsuback_reason_codes s));
      [|intros r _|done|by apply Hfuel].
    + rewrite bind_Ok. cbn [app]. by destruct s.
    + eexists. split; [done|]. rewrite u8_to_u8_small by apply ReasonCode_as_range.
      by rewrite ReasonCode_from_as.
Qed.

(** *** CONNECT *)
Lemma connect_flags_bits c :
  (is_some (conn_password c) = true → is_some (conn_username c) = true) →
  let f := connect_flags c in
  is_u8 f ∧ Z.land f 0x01 = 0 ∧
  negb (Z.land f 0x02 =? 0) = conn_clean_start c ∧
  negb (Z.land f 0x04 =? 0) = is_some (conn_will c) ∧
  Z.land (Z.shiftr f 3) 0x03 = from_option (λ w, QoS_as_u8 (will_qos w)) 0 (conn_will c) ∧
  negb (Z.land f 0x20 =? 0) = from_option will_retain false (conn_will c) ∧
  negb (Z.land f 0x40 =? 0) = is_some (conn_password c) ∧
  negb (Z.land f 0x80 =? 0) = is_some (conn_username c).
Proof.
  unfold connect_flags. intros Hpu.
  destruct (conn_clean_start c), (conn_will c) as [[wt wp [] [] wpr]|],
    (is_some (conn_password c)), (is_some (conn_username c)); try (by specialize (Hpu eq_refl));
    vm_compute; repeat split; congruence.
Qed.

Lemma decode_connect_version_bytes c rest :
  wf_connect encodable_props c →
  decode_connect_version (string_bytes "MQTT" ++
    [to_u8 (ProtocolVersion_as_u8 (conn_protocol_version c))] ++ rest)
  = Ok (conn_protocol_version c, 7).
Proof.
  intros _. unfold decode_connect_version. cbv zeta.
  set (payload := _ ++ _ ++ rest).
  assert (H0 : at_pos payload 0 (string_bytes "MQTT" ++
    [to_u8 (ProtocolVersion_as_u8 (conn_protocol_version c))] ++ rest)) by apply at_pos_0.
  clearbody payload. rewrite (read_string_at _ _ "MQTT" _ _ eq_refl H0). cbv beta iota.
  cbn [String.eqb Ascii.eqb Bool.eqb negb andb].
  apply at_pos_next in H0. change (0 + zlen (string_bytes "MQTT")) with 6 in *.
  pose proof (at_pos_len _ _ _ H0) as Hlen. cbn [app] in H0, Hlen. rewrite zlen_cons in Hlen.
  rewrite Z.geb_leb. destruct (Z.leb_spec (zlen payload) 6); [llia|].
  rewrite (at_pos_index _ _ _ _ H0), bind_Ok. by destruct (conn_protocol_version c).
Qed.

Lemma decode_will_bytes w will payload pos rest :
  wf_will encodable_props w will →
  at_pos payload pos ((section_bytes w (will_properties will) ++
    string_bytes (will_topic will) ++ binary_bytes (will_payload will)) ++ rest) →
  decode_connect_will w payload pos (QoS_as_u8 (will_qos will)) (will_retain will)
  = Ok (will, pos + zlen (section_bytes w (will_properties will) ++
      string_bytes (will_topic will) ++ binary_bytes (will_payload will))).
Proof.
  intros (Ht & Hb & Hp) Hat. unfold decode_connect_will. rewrite <-!app_assoc in Hat.
  rewrite (section_connect_at _ _ _ _ _ Hp Hat), bind_Ok. apply at_pos_next in Hat.
  rewrite (read_string_at _ _ _ _ _ Ht Hat). cbv beta iota zeta. apply at_pos_next in Hat.
  rewrite (read_binary_at _ _ _ _ _ Hb Hat). cbv beta iota zeta.
  rewrite QoS_from_as. cbn [unwrap]. rewrite bind_Ok, !zlen_app.
  destruct will; cbn. do 2 f_equal. lia.
Qed.

Lemma connect_will_at c payload pos rest :
  (∀ w, conn_will c = Some w → wf_will encodable_props (conn_protocol_version c) w) →
  at_pos payload pos (opt_bytes (λ w, section_bytes (conn_protocol_version c) (will_properties w) ++
      string_bytes (will_topic w) ++ binary_bytes (will_payload w)) (conn_will c) ++ rest) →
  (if is_some (conn_will c) then
     '(w, pos) ← decode_connect_will (conn_protocol_version c) payload pos
        (from_option (λ w, QoS_as_u8 (will_qos w)) 0 (conn_will c))
        (from_option will_retain false (conn_will c));
     Ok (Some w, pos)
   else Ok (None, pos))
  = Ok (conn_will c, pos + zlen (opt_bytes (λ w,
      section_bytes (conn_protocol_version c) (will_properties w) ++
      string_bytes (will_topic w) ++ binary_bytes (will_payload w)) (conn_will c))).
Proof.
  intros Hw Hat. unfold opt_bytes in *. destruct (conn_will c) as [w|]; cbn [from_option is_some] in *.
  - by rewrite (decode_will_bytes _ _ _ _ _ (Hw w eq_refl) Hat), bind_Ok.
  - by rewrite zlen_nil, Z.add_0_r.
Qed.

Lemma connect_username_at c payload pos rest :
  (∀ u, conn_username c = Some u → mqtt_string u = true) →
  at_pos payload pos (opt_bytes string_bytes (conn_username c) ++ rest) →
  (if is_some (conn_username c) then
     s ← slice_from payload pos; '(u, len) ← read_string s; Ok (Some u, pos + len)
   else Ok (None, pos))
  = Ok (conn_username c, pos + zlen (opt_bytes string_bytes (conn_username c))).
Proof.
  intros Hu Hat. unfold opt_bytes in *. destruct (conn_username c) as [u|]; cbn [from_option is_some] in *.
  - by rewrite (read_string_at _ _ _ _ _ (Hu u eq_refl) Hat).
  - by rewrite zlen_nil, Z.add_0_r.
Qed.

Lemma decode_connect_body_bytes c payload :
  wf_connect encodable_props c →
  at_pos payload 7 ([to_u8 (connect_flags c)] ++ be_u16 (conn_keep_alive c) ++
    section_bytes (conn_protocol_version c) (conn_properties c) ++
    string_bytes (conn_client_id c) ++
    opt_bytes (λ w, section_bytes (conn_protocol_version c) (will_properties w) ++
      string_bytes (will_topic w) ++ binary_bytes (will_payload w)) (conn_will c) ++
    opt_bytes string_bytes (conn_username c) ++
    opt_bytes binary_bytes (conn_password c)) →
  decode_connect_body (conn_protocol_version c) payload 7 = Ok (P.Connect c).
Proof.
  intros (Hid & Hka & Hu & Hpw & Hw & Hprops) Hat.
  destruct (connect_flags_bits c) as (Hf & H1 & H2 & H4 & H3 & H20 & H40 & H80).
  { destruct (conn_password c) as [pw|]; [|done]. destruct (Hpw pw eq_refl) as [_ Hne].
    by destruct (conn_username c). }
  unfold decode_connect_body. pose proof (at_pos_len _ _ _ Hat) as Hlen.
  rewrite !zlen_app, zlen_cons, zlen_be_u16 in Hlen.
  rewrite Z.geb_leb. destruct (Z.leb_spec (zlen payload) 7); [llia|]. cbn [app] in Hat.
  rewrite (at_pos_index _ _ _ _ Hat), bind_Ok. rewrite u8_to_u8_small by done.
  rewrite H1. cbn [Z.eqb negb]. cbv zeta. rewrite H2, H4, H3, H20, H40, H80.
  replace (negb (is_some (conn_username c)) && is_some (conn_password c)) with false.
  2:{ destruct (conn_password c) as [pw|]; [|by rewrite andb_false_r].
      destruct (Hpw pw eq_refl) as [_ Hne]. by destruct (conn_username c). }
  replace (from_option (λ w, QoS_as_u8 (will_qos w)) 0 (conn_will c) >? 2) with false
    by (destruct (conn_will c) as [[? ? [] ? ?]|]; done).
  replace (negb (is_some (conn_will c)) &&
    (negb (from_option (λ w, QoS_as_u8 (will_qos w)) 0 (conn_will c) =? 0)
     || from_option will_retain false (conn_will c))) with false by (by destruct (conn_will c)).
  rewrite Z.gtb_ltb. destruct (Z.ltb_spec (zlen payload) (7 + 1 + 2)); [llia|].
  apply (at_pos_cons _ _ (7 + 1)) in Hat; [|done].
  rewrite (u16_at_bytes _ _ _ _ Hka Hat), bind_Ok. apply at_pos_next in Hat.
  rewrite zlen_be_u16 in Hat.
  rewrite (section_connect_at _ _ _ _ _ Hprops Hat), bind_Ok. apply at_pos_next in Hat.
  rewrite (read_string_at _ _ _ _ _ Hid Hat). cbv beta iota zeta. apply at_pos_next in Hat.
  set (pos := 7 + 1 + 2 + _ + _) in *. clearbody pos.
  rewrite (connect_will_at c payload pos _ Hw Hat), bind_Ok. apply at_pos_next in Hat.
  rewrite (connect_username_at c payload _ _ Hu Hat), bind_Ok. apply at_pos_next in Hat.
  destruct (conn_password c) as [pw|] eqn:Hpw'; cbn [is_some].
  - destruct (Hpw pw eq_refl) as [Hb _]. unfold opt_bytes in Hat. cbn [from_option] in Hat.
    rewrite <-(app_nil_r (binary_bytes pw)) in Hat.
    rewrite (read_binary_at _ _ _ _ _ Hb Hat). rewrite bind_Ok. rewrite <-Hpw'. by destruct c.
  - rewrite bind_Ok. rewrite <-Hpw'. by destruct c.
Qed.

(** *** Every packet *)
Lemma decode_payload_bytes p :
  encodable v p →
  decode_payload d (packet_type p) (packet_flags p) (packet_body v p) = (decoder_after d p, Ok p).
Proof.
  intros [Hw H3]. destruct p; cbn [wf_packet packet_type packet_flags packet_body decoder_after] in *;
    cbn [decode_payload].
  - unfold decode_connect, connect_body.
    rewrite decode_connect_version_bytes by done. f_equal.
    apply decode_connect_body_bytes; [done|].
    apply (at_pos_app _ 0 7 (string_bytes "MQTT" ++ [to_u8 (ProtocolVersion_as_u8 (conn_protocol_version p))]));
      [|done]. rewrite <-app_assoc. apply at_pos_0.
  - rewrite decode_connack_bytes; [done|done|]. intros ->. done.
  - pose proof (decode_publish_bytes p Hw) as E. cbn [packet_flags] in E. by rewrite E.
  - unfold decode_puback. rewrite decode_ack_bytes by done. by destruct p.
  - unfold decode_pubrec. rewrite decode_ack_bytes by done. by destruct p.
  - unfold decode_pubrel. rewrite decode_ack_bytes by done. by destruct p.
  - unfold decode_pubcomp. rewrite decode_ack_bytes by done. by destruct p.
  - by rewrite decode_subscribe_bytes.
  - by rewrite decode_suback_bytes.
  - by rewrite decode_unsubscribe_bytes.
  - by rewrite decode_unsuback_bytes.
  - done.
  - done.
  - by rewrite decode_disconnect_bytes.
  - destruct Hw as [Hv5 Hp]. rewrite decode_auth_bytes; [done|done|]. by rewrite Hv5 in Hp.
Qed.

Lemma packet_flags_range p : 0 ≤ packet_flags p < 16.
Proof.
  destruct p as [|p|p| | | | | | | | | | | |]; cbn [packet_flags]; try lia.
  unfold publish_first_byte. destruct (pub_dup p), (pub_qos p), (pub_retain p); vm_compute; split; congruence.
Qed.

Lemma packet_type_range p : 1 ≤ packet_type p ≤ 15.
Proof. destruct p; cbn; lia. Qed.

Lemma first_byte_split t f :
  0 ≤ t < 16 → 0 ≤ f < 16 →
  Z.shiftr (u8 (to_u8 (t * 16 + f))) 4 = t ∧ Z.land (u8 (to_u8 (t * 16 + f))) 0x0F = f.
Proof.
  intros. rewrite u8_to_u8_small by (unfold is_u8; lia).
  rewrite Z.shiftr_div_pow2 by lia. rewrite (Z.land_ones _ 4) by lia.
  change (2 ^ 4) with 16. zdm.
Qed.

Lemma decode_header_bytes p rest :
  zlen (packet_body v p) ≤ max_packet_size d → is_var_int (zlen (packet_body v p)) →
  decode_header d (packet_bytes v p ++ rest) =
    Ok (Some (packet_type p, packet_flags p, packet_body v p, zlen (packet_bytes v p))).
Proof.
  intros Hm Hl. unfold decode_header.
  set (buf := packet_bytes v p ++ rest).
  assert (H0 : at_pos buf 0 (packet_bytes v p ++ rest)) by apply at_pos_0. clearbody buf.
  unfold packet_bytes in H0. cbn [app] in H0. rewrite <-app_assoc in H0.
  pose proof (at_pos_len _ _ _ H0) as Hlen. rewrite zlen_cons, !zlen_app, zlen_var_int_bytes in Hlen by done.
  pose proof (variable_int_len_range (zlen (packet_body v p))). pose proof (zlen_nonneg rest).
  pose proof (zlen_nonneg (packet_body v p)).
  destruct (Z.ltb_spec (zlen buf) 2); [lia|].
  rewrite (at_pos_index _ _ _ _ H0), bind_Ok. cbv zeta.
  pose proof (packet_type_range p).
  destruct (first_byte_split (packet_type p) (packet_flags p)) as [-> ->];
    [lia|apply packet_flags_range|].
  pose proof (at_pos_cons _ 0 1 _ _ H0 eq_refl) as H1'.
  rewrite (at_pos_slice_from _ _ _ H1'), bind_Ok, read_variable_int_bytes by done.
  rewrite Z.gtb_ltb. destruct (Z.ltb_spec (max_packet_size d) (zlen (packet_body v p))); [lia|].
  destruct (Z.ltb_spec (zlen buf)
    (1 + variable_int_len (zlen (packet_body v p)) + zlen (packet_body v p))); [lia|].
  rewrite (at_pos_slice _ _ _ (packet_body v p) rest); [|by apply (at_pos_app _ 1 _ (var_int_bytes (zlen (packet_body v p)))); [|rewrite zlen_var_int_bytes]|done].
  rewrite bind_Ok. do 3 f_equal. unfold packet_bytes.
  rewrite zlen_cons, zlen_app, zlen_var_int_bytes by done. lia.
Qed.

Lemma decode_packet_bytes p rest :
  encodable v p → zlen (packet_body v p) ≤ max_packet_size d → is_var_int (zlen (packet_body v p)) →
  decode d (packet_bytes v p ++ rest) = (decoder_after d p, Ok (Some (p, zlen (packet_bytes v p)))).
Proof.
  intros Hp Hm Hl. unfold decode. rewrite decode_header_bytes by done.
  by rewrite decode_payload_bytes.
Qed.

End decoder.
