(* ===== verification/CodecTheorems.v ===== *)
(** * Theorems about the codec

    Round trips, totality of the decoder on every input, framing (partial and
    concatenated packets) and the byte encodings of the enumerations. *)

From S2P Require Import Prelude Protocol Codec Properties Packet Decode Encode Wire.

(** ** Lemmas: the encoder returns *)

(** A writer that returns. *)
Definition wsafe {A} (w : writer A) : Prop := ∀ buf, post (w buf).2 (λ _, True).

Lemma wsafe_ret {A} (a : A) : wsafe (mret a).
Proof. done. Qed.

Lemma wsafe_fail {A} e : wsafe (@wfail A e).
Proof. done. Qed.

Lemma wsafe_put l : wsafe (put_slice l).
Proof. done. Qed.

Lemma wsafe_bind {A B} (m : writer A) (k : A → writer B) : wsafe m → (∀ a, wsafe (k a)) → wsafe (m ≫= k).
Proof.
  intros Hm Hk buf. specialize (Hm buf). unfold mbind, writer_bind.
  destruct (m buf) as [buf' [a| | |]]; cbn in *; try done. apply Hk.
Qed.

Lemma wsafe_if_some {A} (o : option A) k : (∀ a, wsafe (k a)) → wsafe (if_some o k).
Proof. intros Hk. destruct o; [apply Hk|apply wsafe_ret]. Qed.

Lemma wsafe_for_each {A} (l : list A) k : (∀ a, wsafe (k a)) → wsafe (for_each l k).
Proof. intros Hk. induction l; [apply wsafe_ret|]. cbn. by apply wsafe_bind. Qed.

Lemma wsafe_variable_int v : wsafe (write_variable_int v).
Proof.
  intros buf. unfold write_variable_int. cbv zeta. rewrite Z.gtb_ltb.
  destruct (Z.ltb_spec MAX_REMAINING_LENGTH (wrap_u32 v)) as [|Hv]; [done|].
  assert (0 ≤ wrap_u32 v) by (unfold wrap_u32; zdm). unfold MAX_REMAINING_LENGTH in Hv.
  rewrite (emits_write_variable_int_loop 4) by lia. done.
Qed.

Create HintDb wsafe.
#[export] Hint Resolve wsafe_ret wsafe_fail wsafe_put wsafe_variable_int : wsafe.

Ltac solve_wsafe := intros; unfold put_u8, put_u16, put_u32;
  repeat first [solve [auto with wsafe nocore] | apply wsafe_bind; [|intros ?] | apply wsafe_if_some; intros ?
               | apply wsafe_for_each; intros ? | case_match].

Lemma wsafe_string s : wsafe (write_string s).
Proof. unfold write_string. solve_wsafe. Qed.

Lemma wsafe_binary l : wsafe (write_binary l).
Proof. unfold write_binary. solve_wsafe. Qed.

#[export] Hint Resolve wsafe_string wsafe_binary : wsafe.

Lemma wsafe_properties p : wsafe (Properties_encode p).
Proof. unfold Properties_encode. cbv zeta. solve_wsafe. Qed.

#[export] Hint Resolve wsafe_properties : wsafe.

(** The encoder returns for every packet. *)
Lemma encode_safe e p : wsafe (encode e p).
Proof.
  destruct p; cbn [encode]; unfold encode_connect, encode_connack, encode_publish, encode_puback, encode_pubrec,
    encode_pubrel, encode_pubcomp, encode_ack, encode_subscribe, encode_suback, encode_unsubscribe,
    encode_unsuback, encode_disconnect, encode_auth, encode_reason; cbv zeta; solve_wsafe.
Qed.

(** ** Lemmas: more input does not change a decision *)
Section stability.
Implicit Types (buf rest : list byte) (d : Decoder).

Lemma index_app {E} buf rest i :
  0 ≤ i < zlen buf → @index E (buf ++ rest) i = index buf i.
Proof.
  intros Hi. unfold index, zlen in *. rewrite lookup_app_l by lia. done.
Qed.

Lemma read_variable_int_loop_app fuel buf rest mult value pos :
  0 ≤ pos →
  read_variable_int_loop fuel buf mult value pos ≠ Err DE.InsufficientData →
  read_variable_int_loop fuel (buf ++ rest) mult value pos =
  read_variable_int_loop fuel buf mult value pos.
Proof.
  revert mult value pos. induction fuel as [|fuel IH]; intros mult value pos Hp Hr; [done|].
  cbn [read_variable_int_loop] in *. rewrite !Z.geb_leb, zlen_app in *.
  pose proof (zlen_nonneg rest).
  destruct (Z.leb_spec (zlen buf) pos); [done|].
  destruct (Z.leb_spec (zlen buf + zlen rest) pos); [lia|].
  destruct (4 <=? pos); [done|].
  rewrite index_app by lia. destruct (index buf pos) as [b| | |]; try done.
  rewrite !bind_Ok in *. cbv zeta in *.
  destruct (checked_u32 (Z.land b 127 * mult)) as [digit| | |]; try done. rewrite !bind_Ok in *.
  destruct (checked_u32 (value + digit)) as [value'| | |]; try done. rewrite !bind_Ok in *.
  destruct (Z.land b 128 =? 0); [done|].
  destruct (checked_u32 (mult * 128)) as [mult'| | |]; try done. rewrite !bind_Ok in *.
  apply IH; [lia|done].
Qed.

Lemma read_variable_int_app buf rest :
  read_variable_int buf ≠ Err DE.InsufficientData →
  read_variable_int (buf ++ rest) = read_variable_int buf.
Proof. apply read_variable_int_loop_app. done. Qed.

Lemma slice_from_app {E} buf rest i :
  0 ≤ i ≤ zlen buf → ∃ l, @slice_from E buf i = Ok l ∧ @slice_from E (buf ++ rest) i = Ok (l ++ rest).
Proof.
  intros Hi. unfold slice_from. rewrite zlen_app. pose proof (zlen_nonneg rest).
  replace ((0 <=? i) && (i <=? zlen buf)) with true by lia.
  replace ((0 <=? i) && (i <=? zlen buf + zlen rest)) with true by lia.
  eexists. split; [done|]. rewrite drop_app_le; [done|]. unfold zlen in Hi. lia.
Qed.

Lemma slice_app {E} buf rest i j :
  0 ≤ i ≤ j → j ≤ zlen buf → @slice E (buf ++ rest) i j = slice buf i j.
Proof.
  intros Hi Hj. unfold slice. rewrite zlen_app. pose proof (zlen_nonneg rest).
  replace ((0 <=? i) && (i <=? j) && (j <=? zlen buf)) with true by lia.
  replace ((0 <=? i) && (i <=? j) && (j <=? zlen buf + zlen rest)) with true by lia.
  unfold zlen in Hj. rewrite drop_app_le by lia. rewrite take_app_le; [done|].
  rewrite length_drop. lia.
Qed.

Lemma decode_header_app d buf rest :
  decode_header d buf ≠ Ok None → decode_header d (buf ++ rest) = decode_header d buf.
Proof.
  unfold decode_header. rewrite zlen_app. pose proof (zlen_nonneg rest).
  destruct (Z.ltb_spec (zlen buf) 2); [done|]. destruct (Z.ltb_spec (zlen buf + zlen rest) 2); [lia|].
  rewrite index_app by lia. intros Hr. destruct (index buf 0) as [b| | |]; try done.
  rewrite !bind_Ok in *. cbv zeta in *.
  destruct (@slice_from_app DecodeError buf rest 1) as (l & Hl & Hl'); [lia|].
  rewrite Hl, Hl', !bind_Ok in *.
  pose proof (post_read_variable_int l) as Hpost. unfold is_var_int in Hpost.
  rewrite read_variable_int_app by (by destruct (read_variable_int l) as [|[]| |]).
  destruct (read_variable_int l) as [[v n]|[]| |]; cbn in Hpost; try done.
  destruct (v >? max_packet_size d); [done|].
  destruct (Z.ltb_spec (zlen buf) (1 + n + v)); [done|].
  destruct (Z.ltb_spec (zlen buf + zlen rest) (1 + n + v)); [lia|].
  by rewrite slice_app by lia.
Qed.

Lemma decode_app d buf rest :
  (decode d buf).2 ≠ Ok None → decode d (buf ++ rest) = decode d buf.
Proof.
  unfold decode. intros Hr. rewrite decode_header_app; [done|].
  by destruct (decode_header d buf) as [[]| | |].
Qed.

Lemma decode_None_state d buf : (decode d buf).2 = Ok None → (decode d buf).1 = d.
Proof.
  unfold decode. destruct (decode_header d buf) as [[[[[t f] pl] n]|]| | |]; try done.
  destruct (decode_payload d t f pl) as [d' [| | |]]; done.
Qed.

End stability.

(** ** Packets *)

(** C1. Round trip of the codec: for every packet that the wire format of its
    protocol version can represent, [encode] succeeds and [decode], given the
    bytes followed by anything, returns that packet and the exact number of
    bytes; the decoder only changes by remembering the version of a CONNECT. *)
Theorem decode_encode v d e p buf rest :
  encodable v p → protocol_version d = Some v → enc_protocol_version e = v →
  zlen (packet_body v p) ≤ max_packet_size d → max_packet_size d ≤ MAX_REMAINING_LENGTH →
  ∃ bs, encode e p buf = (buf ++ bs, Ok tt) ∧
    decode d (bs ++ rest) = (decoder_after d p, Ok (Some (p, zlen bs))).
Proof.
  intros Hp Hd <- Hl Hm. exists (packet_bytes (enc_protocol_version e) p).
  assert (is_var_int (zlen (packet_body (enc_protocol_version e) p))).
  { unfold is_var_int. llia. }
  split; [by apply emits_encode|]. by apply decode_packet_bytes.
Qed.

Definition sample_publish : Publish :=
  MkPublish true ExactlyOnce true "a/b" (Some 7) [x68; x69]
    (Properties_default <| message_expiry_interval := Some 30 |>
       <| user_properties := [("k", "v")] |>).

Lemma decode_encode_witness :
  ∃ bs, encode (MkEncoder V5) (P.Publish sample_publish) [] = ([] ++ bs, Ok tt) ∧
    decode (MkDecoder MAX_REMAINING_LENGTH (Some V5)) (bs ++ [xc0; x00]) =
      (MkDecoder MAX_REMAINING_LENGTH (Some V5), Ok (Some (P.Publish sample_publish, zlen bs))).
Proof.
  apply (decode_encode V5 (MkDecoder MAX_REMAINING_LENGTH (Some V5)) (MkEncoder V5)
    (P.Publish sample_publish) [] [xc0; x00]).
  - split; [|exact I]. cbn [wf_packet]. unfold wf_publish.
    refine (conj _ (conj _ (conj _ (conj _ (conj (conj _ (conj _ _)) _))))); try reflexivity;
      try discriminate; [vm_compute; split; congruence|].
    split; [|vm_compute; split; congruence].
    change (Forall wf_item [PV.MessageExpiryInterval 30; PV.UserProperty "k" "v"]).
    repeat apply Forall_cons_2; [vm_compute; split; congruence|split; reflexivity|apply Forall_nil_2].
  - reflexivity.
  - reflexivity.
  - vm_compute. congruence.
  - vm_compute. congruence.
Defined.

(** C2. The decoder is total: on every byte sequence and in every decoder state
    it returns (no index or slice out of range, no overflow of the [u32]
    arithmetic on variable byte integers, no [unwrap] of [None], no loop that
    does not end). What it returns as a packet lies inside the buffer and is
    well formed: a CONNECT for the version it carries, which becomes the
    decoder's, another packet for the version it is read in, the decoder's if
    it has one; and no other packet changes the decoder. *)
Theorem decode_total d buf :
  post (decode d buf).2 (λ r, match r with
    | None => (decode d buf).1 = d
    | Some (p, n) =>
        2 ≤ n ≤ zlen buf ∧ wf_decoded (read_version d p) p ∧ (decode d buf).1 = decoder_after d p
    end).
Proof. apply post_decode. Qed.

(** No packet before its last byte: on a strict prefix of an encoded packet
    [decode] asks for more input and does not change its state. *)
Theorem decode_prefix v d p k :
  encodable v p → protocol_version d = Some v →
  zlen (packet_body v p) ≤ max_packet_size d → max_packet_size d ≤ MAX_REMAINING_LENGTH →
  (k < length (packet_bytes v p))%nat →
  decode d (take k (packet_bytes v p)) = (d, Ok None).
Proof.
  intros Hp Hd Hl Hm Hk. set (buf := take k (packet_bytes v p)).
  assert (Hvi : is_var_int (zlen (packet_body v p))) by (unfold is_var_int; llia).
  pose proof (decode_packet_bytes d v Hd p [] Hp Hl Hvi) as Hfull. rewrite app_nil_r in Hfull.
  rewrite <-(take_drop k (packet_bytes v p)) in Hfull at 1. fold buf in Hfull.
  pose proof (post_decode d buf) as Hpost. pose proof (decode_None_state d buf) as Hn.
  pose proof (decode_app d buf (drop k (packet_bytes v p))) as Happ.
  destruct (decode d buf) as [d' r] eqn:Hdec. cbn [snd fst] in *.
  destruct r as [[[q m]|]|err| |]; [|by rewrite Hn|..]; exfalso;
    specialize (Happ ltac:(done)); rewrite Hfull in Happ; simplify_eq.
  destruct Hpost as [[_ Hle] _]. unfold buf, zlen in Hle. rewrite length_take in Hle. lia.
Qed.

Lemma decode_prefix_witness :
  decode (MkDecoder 100 (Some V311)) (take 3 (packet_bytes V311 (P.PubAck (PubAck_new 9)))) =
    (MkDecoder 100 (Some V311), Ok None).
Proof.
  apply (decode_prefix V311 (MkDecoder 100 (Some V311)) (P.PubAck (PubAck_new 9)) 3).
  - split; [|exact I]. repeat split; vm_compute; congruence.
  - reflexivity.
  - vm_compute. congruence.
  - vm_compute. congruence.
  - vm_compute. lia.
Defined.

(** Framing: once [decode] has decided (a packet or an error), bytes that
    arrive later change nothing; so the packets of a connection do not depend
    on how the transport cuts the stream. *)
Theorem decode_more_input d buf rest :
  (decode d buf).2 ≠ Ok None → decode d (buf ++ rest) = decode d buf.
Proof. apply decode_app. Qed.

Lemma decode_more_input_witness :
  decode (MkDecoder 100 (Some V5)) ([xc0; x00] ++ [x10; x20]) =
  decode (MkDecoder 100 (Some V5)) [xc0; x00].
Proof. apply (decode_more_input (MkDecoder 100 (Some V5)) [xc0; x00] [x10; x20]). vm_compute. congruence. Defined.

(** ** Primitives and enumerations *)

(** Variable byte integers: up to 268,435,455 the writer appends
    [variable_int_len v] bytes, at most four, from which the reader gets [v]
    back whatever follows; above, it fails and writes nothing. *)
Theorem variable_int_roundtrip v buf rest :
  is_u32 v →
  if v <=? MAX_REMAINING_LENGTH then
    ∃ bs, write_variable_int v buf = (buf ++ bs, Ok (variable_int_len v)) ∧
      zlen bs = variable_int_len v ∧ 1 ≤ zlen bs ≤ 4 ∧
      read_variable_int (bs ++ rest) = Ok (v, zlen bs)
  else write_variable_int v buf = (buf, Err EE.PacketTooLarge).
Proof.
  intros Hv. unfold is_u32 in Hv. destruct (Z.leb_spec v MAX_REMAINING_LENGTH) as [Hm|Hm].
  - assert (Hi : is_var_int v) by (split; lia). exists (var_int_bytes v).
    rewrite (emits_write_variable_int v Hi), read_variable_int_bytes by done.
    rewrite zlen_var_int_bytes by done. split_and!; auto; apply variable_int_len_range.
  - unfold write_variable_int. replace (wrap_u32 v) with v by (unfold wrap_u32; zdm). cbv zeta.
    rewrite Z.gtb_ltb. by destruct (Z.ltb_spec MAX_REMAINING_LENGTH v); [|lia].
Qed.

Lemma variable_int_roundtrip_witness :
  if 321 <=? MAX_REMAINING_LENGTH then
    ∃ bs, write_variable_int 321 [] = ([] ++ bs, Ok (variable_int_len 321)) ∧
      zlen bs = variable_int_len 321 ∧ 1 ≤ zlen bs ≤ 4 ∧
      read_variable_int (bs ++ [x07]) = Ok (321, zlen bs)
  else write_variable_int 321 [] = ([], Err EE.PacketTooLarge).
Proof. apply (variable_int_roundtrip 321 [] [x07]). unfold is_u32. lia. Defined.

(** Properties: every well-formed property collection whose encoding fits
    its length prefix is encoded in exactly the number of bytes that
    [encoded_size] and [variable_int_len] announce, and decoded back. *)
Theorem properties_roundtrip p buf rest :
  wf_props p → Properties_encoded_size p ≤ MAX_REMAINING_LENGTH →
  ∃ bs, Properties_encode p buf = (buf ++ bs, Ok tt) ∧
    zlen bs = variable_int_len (Properties_encoded_size p) + Properties_encoded_size p ∧
    Properties_decode (bs ++ rest) = Ok (p, zlen bs).
Proof.
  intros Hw Hs. pose proof (Properties_encoded_size_nonneg p).
  assert (Hi : is_var_int (Properties_encoded_size p)) by done.
  exists (props_bytes p). rewrite (emits_Properties_encode p Hw Hi).
  rewrite Properties_decode_bytes, zlen_props_bytes by done. done.
Qed.

Lemma properties_roundtrip_witness :
  ∃ bs, Properties_encode (pub_properties sample_publish) [] = ([] ++ bs, Ok tt) ∧
    zlen bs = variable_int_len (Properties_encoded_size (pub_properties sample_publish))
              + Properties_encoded_size (pub_properties sample_publish) ∧
    Properties_decode (bs ++ []) = Ok (pub_properties sample_publish, zlen bs).
Proof.
  apply (properties_roundtrip (pub_properties sample_publish) [] []).
  - change (Forall wf_item [PV.MessageExpiryInterval 30; PV.UserProperty "k" "v"]).
    repeat apply Forall_cons_2; [vm_compute; split; congruence|split; reflexivity|apply Forall_nil_2].
  - vm_compute. congruence.
Defined.

(** The subscription options byte: [from_byte] accepts exactly the bytes
    that [to_byte] produces and the two are inverse to each other; in
    particular reserved bits and QoS 3 are rejected. *)
Theorem subscription_options_byte b o :
  is_u8 b → SubscriptionOptions_from_byte b = Some o ↔ SubscriptionOptions_to_byte o = b.
Proof.
  intros Hb. split; [|intros <-; apply SubscriptionOptions_from_to]. intros Ho.
  assert (H := u8_forall (λ b, match SubscriptionOptions_from_byte b with
    | Some o => SubscriptionOptions_to_byte o =? b | None => true end) eq_refl b Hb).
  cbv beta in H. rewrite Ho in H. lia.
Qed.

Lemma subscription_options_byte_witness :
  SubscriptionOptions_from_byte 0x2D = Some (MkSubscriptionOptions AtLeastOnce true true DoNotSend)
  ↔ SubscriptionOptions_to_byte (MkSubscriptionOptions AtLeastOnce true true DoNotSend) = 0x2D.
Proof.
  apply (subscription_options_byte 0x2D (MkSubscriptionOptions AtLeastOnce true true DoNotSend)).
  split; reflexivity || lia.
Defined.

(** Reason codes: [from_u8] is the inverse of the discriminant on all bytes,
    and a code is an error exactly from 0x80 on. *)
Theorem reason_code_byte b r :
  is_u8 b → (ReasonCode_from_u8 b = Some r ↔ ReasonCode_as_u8 r = b) ∧
  is_error r = negb (is_success r).
Proof.
  intros Hb. split; [split|].
  - intros Hr. assert (H := u8_forall (λ b, match ReasonCode_from_u8 b with
      | Some r => ReasonCode_as_u8 r =? b | None => true end) eq_refl b Hb).
    cbv beta in H. rewrite Hr in H. lia.
  - intros <-. apply ReasonCode_from_as.
  - by destruct r.
Qed.

Lemma reason_code_byte_witness :
  (ReasonCode_from_u8 0x87 = Some RC.NotAuthorized ↔ ReasonCode_as_u8 RC.NotAuthorized = 0x87) ∧
  is_error RC.NotAuthorized = negb (is_success RC.NotAuthorized).
Proof. apply (reason_code_byte 0x87 RC.NotAuthorized). split; reflexivity || lia. Defined.

(** ** What the decoder accepts beyond the specification *)

(** The property loop narrows the identifier to a byte before looking it
    up, so identifiers above 255 alias the defined ones: 0x81 0x02 (that is
    257) is read as Payload Format Indicator (1). *)
Theorem property_id_aliasing :
  Properties_decode [x03; x81; x02; x01] =
    Ok (Properties_default <| payload_format_indicator := Some 1 |>, 4) ∧
  Properties_decode [x02; x01; x01] =
    Ok (Properties_default <| payload_format_indicator := Some 1 |>, 3).
Proof. by vm_compute. Qed.

(** String properties are read without regard to the end of the property
    section: a Reason String whose length runs past the announced section is
    accepted, and its bytes are then read again as what follows the section. *)
Theorem property_overrun :
  Properties_decode [x03; x1f; x00; x02; x61; x62] =
    Ok (Properties_default <| reason_string := Some "ab"%string |>, 4).
Proof. by vm_compute. Qed.
