(* ===== verification/TopicValidation.v ===== *)
(** * Topic names, topic filters and matching

    [topic/validation.rs] and the shared subscription syntax of
    [topic/mod.rs]. *)

From S2P Require Import Prelude.

(** ** Levels *)
Inductive TopicLevel : Type :=
  | Normal (s : string)
  | SingleWildcard
  | MultiWildcard.

Definition parse_levels (topic : string) : list TopicLevel :=
  (fun level =>
     if String.eqb level "+" then SingleWildcard
     else if String.eqb level "#" then MultiWildcard
     else Normal level) <$> split "/" topic.

(** ** Validation *)
Definition validate_topic_name_with_max_levels (topic : string) (max_topic_levels : Z)
    : outcome string unit :=
  if is_empty topic then Err "topic name cannot be empty"%string
  else if slen topic >? 65535 then Err "topic name exceeds maximum length"%string
  else if contains Ascii.zero topic then Err "topic name cannot contain null character"%string
  else if contains "+" topic || contains "#" topic
  then Err "topic name cannot contain wildcards"%string
  else if (max_topic_levels >? 0) && (zlen (split "/" topic) >? max_topic_levels)
  then Err "topic exceeds maximum allowed levels"%string
  else Ok tt.

Definition validate_topic_name (topic : string) : outcome string unit :=
  validate_topic_name_with_max_levels topic 0.

(** The [for (i, level) in levels.iter().enumerate()] loop; a level is the last
    one when nothing follows it. *)
Fixpoint validate_filter_levels (levels : list string) : outcome string unit :=
  match levels with
  | [] => Ok tt
  | level :: rest =>
      (if contains "#" level then
         if negb (String.eqb level "#") then Err "multi-level wildcard must occupy entire level"%string
         else if negb (is_nil rest) then Err "multi-level wildcard must be last level"%string
         else Ok tt
       else Ok tt);;
      (if contains "+" level then
         if negb (String.eqb level "+") then Err "single-level wildcard must occupy entire level"%string
         else Ok tt
       else Ok tt);;
      validate_filter_levels rest
  end.

(** The filter behind [$share/{group}/]. *)
Definition actual_filter (filter : string) : outcome string string :=
  match strip_prefix "$share/" filter with
  | Some rest =>
      match split_once "/" rest with
      | Some (group, actual) =>
          if is_empty group then Err "shared subscription group name cannot be empty"%string
          else if contains "+" group || contains "#" group
          then Err "shared subscription group name cannot contain wildcards"%string
          else if is_empty actual then Err "shared subscription filter cannot be empty"%string
          else Ok actual
      | None => Err "invalid shared subscription format"%string
      end
  | None => Ok filter
  end.

Definition validate_topic_filter_with_max_levels (filter : string) (max_topic_levels : Z)
    : outcome string unit :=
  if is_empty filter then Err "topic filter cannot be empty"%string
  else if slen filter >? 65535 then Err "topic filter exceeds maximum length"%string
  else if contains Ascii.zero filter then Err "topic filter cannot contain null character"%string
  else
    actual_filter ← actual_filter filter;
    let levels := split "/" actual_filter in
    if (max_topic_levels >? 0) && (zlen levels >? max_topic_levels)
    then Err "topic filter exceeds maximum allowed levels"%string
    else validate_filter_levels levels.

Definition validate_topic_filter (filter : string) : outcome string unit :=
  validate_topic_filter_with_max_levels filter 0.

(** [parse_shared_subscription] of [topic/mod.rs]. *)
Definition parse_shared_subscription (filter : string) : option (string * string) :=
  match strip_prefix "$share/" filter with
  | Some rest =>
      match split_once "/" rest with
      | Some (group, actual_filter) =>
          if negb (is_empty group) && negb (is_empty actual_filter)
          then Some (group, actual_filter) else None
      | None => None
      end
  | None => None
  end.

(** ** Matching *)

(** The [while fi < filter_levels.len()] loop over what is left of the filter
    and of the topic. *)
Fixpoint match_levels (filter_levels topic_levels : list string) : bool :=
  match filter_levels with
  | [] => is_nil topic_levels
  | filter_level :: filter_rest =>
      if String.eqb filter_level "#" then true
      else
        match topic_levels with
        | [] => false
        | topic_level :: topic_rest =>
            if String.eqb filter_level "+" then match_levels filter_rest topic_rest
            else if String.eqb filter_level topic_level then match_levels filter_rest topic_rest
            else false
        end
  end.

Definition topic_matches_filter (topic filter : string) : bool :=
  if starts_with "$" topic && (starts_with "+" filter || starts_with "#" filter) then false
  else match_levels (split "/" filter) (split "/" topic).

(** ** Declarative matching *)

(** The rules of section 4.7 of the specification, level by level. *)
Inductive levels_match : list string → list string → Prop :=
  | match_nil : levels_match [] []
  | match_multi fs ts : levels_match ("#"%string :: fs) ts
  | match_single fs t ts : levels_match fs ts → levels_match ("+"%string :: fs) (t :: ts)
  | match_exact l fs ts : levels_match fs ts → levels_match (l :: fs) (l :: ts).

(** A level of a well-formed filter: [last] says that no level follows. *)
Definition level_ok (last : bool) (l : string) : bool :=
  String.eqb l "+" || (last && String.eqb l "#") || (negb (contains "+" l) && negb (contains "#" l)).

Fixpoint filter_levels_ok (ls : list string) : bool :=
  match ls with
  | [] => true
  | l :: rest => level_ok (is_nil rest) l && filter_levels_ok rest
  end.

(** ** Lemmas: splitting and joining *)
Lemma split_not_nil c s : split c s ≠ [].
Proof. induction s as [|a s IH]; simpl; [done|]. destruct (Ascii.eqb a c); [done|]. by destruct (split c s). Qed.

Lemma join_cons c l ls : ls ≠ [] → join c (l :: ls) = String.append l (String c (join c ls)).
Proof. by destruct ls. Qed.

Lemma join_split c s : join c (split c s) = s.
Proof.
  induction s as [|a s IH]; [done|]. cbn [split]. destruct (Ascii.eqb a c) eqn:E.
  - rewrite join_cons by apply split_not_nil. apply Ascii.eqb_eq in E as ->. simpl. by rewrite IH.
  - pose proof (split_not_nil c s). destruct (split c s) as [|l ls] eqn:Hs; [done|].
    destruct ls as [|l' ls].
    + simpl in *. by rewrite IH.
    + rewrite join_cons in IH by done. rewrite join_cons by done.
      change (String a (String.append l (String c (join c (l' :: ls)))) = String a s). by rewrite IH.
Qed.

Lemma split_inj c s s' : split c s = split c s' → s = s'.
Proof. intros H. by rewrite <-(join_split c s), <-(join_split c s'), H. Qed.

Lemma contains_split c s l : l ∈ split c s → contains c l = false.
Proof.
  revert l. induction s as [|a s IH]; intros l Hl; cbn [split] in Hl.
  - apply list_elem_of_singleton in Hl as ->. done.
  - destruct (Ascii.eqb a c) eqn:E.
    + apply elem_of_cons in Hl as [->|Hl]; [done|by apply IH].
    + pose proof (split_not_nil c s). destruct (split c s) as [|l' ls]; [done|].
      apply elem_of_cons in Hl as [->|Hl].
      * cbn. rewrite E. apply IH. constructor.
      * apply IH. by constructor.
Qed.

Lemma split_no_sep c s : contains c s = false → split c s = [s].
Proof.
  induction s as [|a s IH]; [done|]. cbn. intros [Ha Hs]%orb_false_iff.
  by rewrite Ha, IH.
Qed.

Lemma append_cons a l s : String.append (String a l) s = String a (String.append l s).
Proof. done. Qed.

Lemma split_append c l s : contains c l = false → split c (String.append l (String c s)) = l :: split c s.
Proof.
  induction l as [|a l IH].
  - intros _. change (split c (String c s) = EmptyString :: split c s). cbn.
    by rewrite Ascii.eqb_refl.
  - rewrite append_cons. cbn. intros [Ha Hl]%orb_false_iff. by rewrite Ha, IH.
Qed.

Lemma split_join c ls :
  ls ≠ [] → Forall (λ l, contains c l = false) ls → split c (join c ls) = ls.
Proof.
  induction ls as [|l ls IH]; intros Hn Hf; [done|]. apply Forall_cons in Hf as [Hl Hf].
  destruct ls as [|l' ls]; [by apply split_no_sep|].
  rewrite join_cons by done. rewrite split_append by done. f_equal. by apply IH.
Qed.

(** A string without a character has levels without it. *)
Lemma contains_split_other c d s l :
  contains d s = false → l ∈ split c s → contains d l = false.
Proof.
  revert l. induction s as [|a s IH]; intros l Hd Hl; cbn [split] in Hl.
  - apply list_elem_of_singleton in Hl as ->. done.
  - cbn in Hd. apply orb_false_iff in Hd as [Ha Hs].
    destruct (Ascii.eqb a c).
    + apply elem_of_cons in Hl as [->|Hl]; [done|by apply IH].
    + pose proof (split_not_nil c s). destruct (split c s) as [|l' ls]; [done|].
      apply elem_of_cons in Hl as [->|Hl].
      * cbn. rewrite Ha. apply IH; [done|constructor].
      * apply IH; [done|by constructor].
Qed.

(** The first character of a string and of its first level. *)
Lemma starts_with_split c d s :
  c ≠ d → starts_with d s = from_option (starts_with d) false (head (split c s)).
Proof.
  intros Hne. destruct s as [|a s]; [done|]. cbn. destruct (Ascii.eqb a c) eqn:E.
  - apply Ascii.eqb_eq in E as ->. cbn. by apply Ascii.eqb_neq.
  - by destruct (split c s).
Qed.

(** ** Lemmas: matching *)
Lemma match_levels_spec fs ts : match_levels fs ts = true ↔ levels_match fs ts.
Proof.
  split.
  - revert ts. induction fs as [|f fs IH]; intros ts; cbn.
    + destruct ts; [constructor|done].
    + destruct (String.eqb_spec f "#") as [->|]; [constructor|]. destruct ts as [|t ts]; [done|].
      destruct (String.eqb_spec f "+") as [->|]; [intros; constructor; auto|].
      destruct (String.eqb_spec f t) as [->|]; [intros; constructor; auto|done].
  - induction 1; cbn; try done.
    destruct (String.eqb_spec l "#"); [done|]. destruct (String.eqb_spec l "+"); [done|].
    by rewrite String.eqb_refl.
Qed.

(** The rule for [$]-topics, on levels: it only concerns the first level of
    the filter. *)
Definition system_blocked (topic : string) (fs : list string) : bool :=
  starts_with "$" topic &&
  match fs with
  | f :: _ => String.eqb f "+" || String.eqb f "#"
  | [] => false
  end.

Lemma topic_matches_levels topic filter :
  topic_matches_filter topic filter =
  negb (system_blocked topic (split "/" filter)) && match_levels (split "/" filter) (split "/" topic).
Proof.
  unfold topic_matches_filter, system_blocked.
  destruct (starts_with "$" topic) eqn:Ht; [|done]. cbn [andb].
  rewrite (starts_with_split "/" "$") in Ht by done.
  rewrite (starts_with_split "/" "+" filter), (starts_with_split "/" "#" filter) by done.
  pose proof (split_not_nil "/" filter). destruct (split "/" filter) as [|f fs]; [done|]. cbn [head from_option].
  destruct (String.eqb_spec f "+") as [->|Hp]; [done|]. destruct (String.eqb_spec f "#") as [->|Hh]; [done|].
  cbn [orb negb andb]. destruct (starts_with "+" f || starts_with "#" f) eqn:Hw; [|done].
  cbn [match_levels]. destruct (String.eqb_spec f "#"); [done|].
  destruct (split "/" topic) as [|t ts]; [done|]. destruct (String.eqb_spec f "+"); [done|].
  destruct (String.eqb_spec f t) as [->|]; [|done]. cbn [head from_option] in Ht.
  destruct t as [|a t]; [done|]. cbn in *. apply Ascii.eqb_eq in Ht as ->. done.
Qed.

(** ** Lemmas: validation *)
Lemma validate_filter_levels_ok ls :
  validate_filter_levels ls = Ok tt ↔ filter_levels_ok ls = true.
Proof.
  induction ls as [|l rest IH]; cbn; [done|]. unfold level_ok.
  destruct (String.eqb_spec l "#") as [->|Hh].
  { by destruct rest. }
  destruct (String.eqb_spec l "+") as [->|Hp].
  { cbn. rewrite IH. done. }
  destruct (contains "#" l); cbn; rewrite ?andb_false_r; cbn; [done|].
  destruct (contains "+" l); cbn; [done|]. by rewrite IH.
Qed.

(** Validation either accepts or gives one of the messages; it never panics. *)
Lemma post_validate_filter_levels ls : post (validate_filter_levels ls) (λ _, True).
Proof.
  induction ls as [|l rest IH]; cbn; [done|].
  repeat case_match; cbn; auto.
Qed.

Lemma validate_topic_name_ok topic n :
  validate_topic_name_with_max_levels topic n = Ok tt ↔
  topic ≠ EmptyString ∧ slen topic ≤ 65535 ∧ contains Ascii.zero topic = false ∧
  contains "+" topic = false ∧ contains "#" topic = false ∧
  (0 < n → zlen (split "/" topic) ≤ n).
Proof.
  unfold validate_topic_name_with_max_levels.
  destruct (is_empty topic) eqn:He; [destruct topic; naive_solver|].
  assert (topic ≠ EmptyString) by (by destruct topic).
  destruct (Z.gtb_spec (slen topic) 65535); [naive_solver lia|].
  destruct (contains Ascii.zero topic); [naive_solver|].
  destruct (contains "+" topic), (contains "#" topic); cbn [orb]; try naive_solver.
  destruct (Z.gtb_spec n 0); cbn [andb].
  - destruct (Z.gtb_spec (zlen (split "/" topic)) n); naive_solver lia.
  - naive_solver lia.
Qed.

(** ** Theorems *)

(** Filter validation accepts exactly the filters of the specification: not
    empty, at most 65535 bytes, no U+0000, behind an optional [$share/group/]
    only levels that are [+], a final [#], or free of wildcard characters, and
    at most [n] levels when [n] is positive. *)
Theorem validate_topic_filter_spec filter n :
  validate_topic_filter_with_max_levels filter n = Ok tt ↔
  filter ≠ EmptyString ∧ slen filter ≤ 65535 ∧ contains Ascii.zero filter = false ∧
  ∃ f, actual_filter filter = Ok f ∧
    filter_levels_ok (split "/" f) = true ∧ (0 < n → zlen (split "/" f) ≤ n).
Proof.
  unfold validate_topic_filter_with_max_levels.
  destruct (is_empty filter) eqn:He; [destruct filter; naive_solver|].
  assert (filter ≠ EmptyString) by (by destruct filter).
  destruct (Z.gtb_spec (slen filter) 65535); [naive_solver lia|].
  destruct (contains Ascii.zero filter); [naive_solver|].
  destruct (actual_filter filter) as [f| | |]; cbn; [|naive_solver..].
  destruct (Z.gtb_spec n 0); cbn [andb].
  - destruct (Z.gtb_spec (zlen (split "/" f)) n); [naive_solver lia|].
    rewrite validate_filter_levels_ok. naive_solver.
  - rewrite validate_filter_levels_ok. naive_solver lia.
Qed.

(** C36. Matching follows section 4.7: [topic_matches_filter] holds exactly when
    the levels match by the declarative rules ([+] one level, [#] any number
    including none, otherwise equality) and a topic that starts with [$] is not
    matched by a filter whose first level is a wildcard. *)
Theorem topic_matches_filter_spec topic filter :
  topic_matches_filter topic filter = true ↔
  levels_match (split "/" filter) (split "/" topic) ∧
  ~ (starts_with "$" topic = true ∧
     (head (split "/" filter) = Some "+"%string ∨ head (split "/" filter) = Some "#"%string)).
Proof.
  rewrite topic_matches_levels, andb_true_iff, negb_true_iff, match_levels_spec.
  unfold system_blocked. pose proof (split_not_nil "/" filter).
  destruct (split "/" filter) as [|f fs]; [done|]. cbn [head].
  destruct (starts_with "$" topic); cbn [andb]; [|naive_solver].
  destruct (String.eqb_spec f "+") as [->|]; cbn [orb]; [naive_solver|].
  destruct (String.eqb_spec f "#") as [->|]; naive_solver.
Qed.
