(* ===== verification/TopicTrie.v ===== *)
(** * The topic trie

    [topic/trie.rs]: a prefix tree indexed by topic levels, with a child for
    the single-level wildcard and a value for the multi-level wildcard at each
    node. The hash map of children is a finite map; functions over the trie
    recurse on the levels of a filter or topic, or on the tree. *)

From S2P Require Import Prelude TopicValidation.

#[warnings="-register-all"]
Inductive TrieNode (V : Type) : Type :=
  Node (value : option V) (children : gmap string (TrieNode V))
       (single_wildcard : option (TrieNode V)) (multi_wildcard : option V).
Arguments Node {V} value children single_wildcard multi_wildcard.

Section trie.
Context {V : Type}.
Implicit Types (node : TrieNode V) (levels : list string) (filter topic : string).

Definition node_value node : option V := match node with Node v _ _ _ => v end.
Definition node_children node : gmap string (TrieNode V) := match node with Node _ c _ _ => c end.
Definition node_single node : option (TrieNode V) := match node with Node _ _ s _ => s end.
Definition node_multi node : option V := match node with Node _ _ _ m => m end.

(** [TrieNode::new()] *)
Definition TrieNode_new : TrieNode V := Node None ∅ None None.

Definition set_value node (v : option V) : TrieNode V :=
  Node v (node_children node) (node_single node) (node_multi node).
Definition set_multi node (m : option V) : TrieNode V :=
  Node (node_value node) (node_children node) (node_single node) m.
Definition set_single node (c : TrieNode V) : TrieNode V :=
  Node (node_value node) (node_children node) (Some c) (node_multi node).
Definition set_child node (l : string) (c : TrieNode V) : TrieNode V :=
  Node (node_value node) (<[l := c]> (node_children node)) (node_single node) (node_multi node).

(** ** Operations *)
Fixpoint insert_levels levels (value : V) node : TrieNode V :=
  match levels with
  | [] => node
  | level :: rest =>
      let go child := if is_nil rest then set_value child (Some value) else insert_levels rest value child in
      if String.eqb level "#" then set_multi node (Some value)
      else if String.eqb level "+" then set_single node (go (default TrieNode_new (node_single node)))
      else set_child node level (go (default TrieNode_new (node_children node !! level)))
  end.

Definition insert filter (value : V) node : TrieNode V :=
  insert_levels (split "/" filter) value node.

(** What [get_mut] points to. *)
Fixpoint get_levels levels node : option V :=
  match levels with
  | [] => None
  | level :: rest =>
      if String.eqb level "#" then node_multi node
      else
        child ← (if String.eqb level "+" then node_single node else node_children node !! level);
        if is_nil rest then node_value child else get_levels rest child
  end.

Definition get_mut filter node : option V := get_levels (split "/" filter) node.

(** [if let Some(v) = trie.get_mut(filter) { *v = f(v) }] *)
Fixpoint update_levels levels (f : V → V) node : TrieNode V :=
  match levels with
  | [] => node
  | level :: rest =>
      let go child := if is_nil rest then set_value child (f <$> node_value child)
                      else update_levels rest f child in
      if String.eqb level "#" then set_multi node (f <$> node_multi node)
      else if String.eqb level "+" then
        match node_single node with Some child => set_single node (go child) | None => node end
      else
        match node_children node !! level with
        | Some child => set_child node level (go child)
        | None => node
        end
  end.

Definition update filter (f : V → V) node : TrieNode V := update_levels (split "/" filter) f node.

(** [remove_recursive]: the removed value and the trie. *)
Fixpoint remove_recursive levels node : option V * TrieNode V :=
  match levels with
  | [] => (node_value node, set_value node None)
  | level :: rest =>
      let go child := if is_nil rest then (node_value child, set_value child None)
                      else remove_recursive rest child in
      if String.eqb level "#" then (node_multi node, set_multi node None)
      else if String.eqb level "+" then
        match node_single node with
        | Some child => let '(r, child) := go child in (r, set_single node child)
        | None => (None, node)
        end
      else
        match node_children node !! level with
        | Some child => let '(r, child) := go child in (r, set_child node level child)
        | None => (None, node)
        end
  end.

Definition remove filter node : option V * TrieNode V := remove_recursive (split "/" filter) node.

(** [remove_by_predicate]: the closure may modify the value and says whether
    the entry goes; [None] removes, [Some v] keeps [v]. *)
Fixpoint remove_by_predicate (pred : V → option V) node : TrieNode V :=
  match node with
  | Node value children single_wildcard multi_wildcard =>
      Node (value ≫= pred)
        (remove_by_predicate pred <$> children)
        (match single_wildcard with
         | Some child => Some (remove_by_predicate pred child)
         | None => None
         end)
        (multi_wildcard ≫= pred)
  end.

(** [matches_recursive]: the values handed to the callback, in order. *)
Fixpoint matches_recursive levels (index : nat) (is_system_topic : bool) node : list V :=
  let wild := negb (is_system_topic && (index =? 0)%nat) in
  (if wild then option_list (node_multi node) else []) ++
  match levels with
  | [] => option_list (node_value node)
  | level :: rest =>
      (if wild then
         match node_single node with
         | Some child => matches_recursive rest (S index) is_system_topic child
         | None => []
         end
       else []) ++
      match node_children node !! level with
      | Some child => matches_recursive rest (S index) is_system_topic child
      | None => []
      end
  end.

Definition matches topic node : list V :=
  matches_recursive (split "/" topic) 0 (starts_with "$" topic) node.

(** [for_each]: the values handed to the callback. *)
Fixpoint for_each_value node : list V :=
  match node with
  | Node value children single_wildcard multi_wildcard =>
      option_list value ++ option_list multi_wildcard ++
      match single_wildcard with Some child => for_each_value child | None => [] end ++
      map_fold (fun _ child acc => for_each_value child ++ acc) [] children
  end.

(** ** The trie as a map from filters

    Everything after a ["#"] level is ignored: the key of a filter. *)
Fixpoint key levels : list string :=
  match levels with
  | [] => []
  | l :: rest => if String.eqb l "#" then [l] else l :: key rest
  end.

(** The entries that [matches_recursive] visits, with their keys. *)
Fixpoint keyed levels (index : nat) (sys : bool) node : list (list string * V) :=
  let wild := negb (sys && (index =? 0)%nat) in
  (if wild then (λ v, (["#"%string], v)) <$> option_list (node_multi node) else []) ++
  match levels with
  | [] => (λ v, ([], v)) <$> option_list (node_value node)
  | level :: rest =>
      (if wild then
         match node_single node with
         | Some child => (λ '(k, v), ("+"%string :: k, v)) <$> keyed rest (S index) sys child
         | None => []
         end
       else []) ++
      match node_children node !! level with
      | Some child => (λ '(k, v), (level :: k, v)) <$> keyed rest (S index) sys child
      | None => []
      end
  end.

(** The value at a key; unlike [get_levels] this is defined for the empty key,
    the value of the node itself. *)
Definition at_key (k : list string) node : option V :=
  match k with [] => node_value node | _ => get_levels k node end.

(** ** Lemmas *)
Lemma is_nil_true {A} (l : list A) : is_nil l = true ↔ l = [].
Proof. by destruct l. Qed.

Lemma get_levels_cons l rest node :
  get_levels (l :: rest) node =
    if String.eqb l "#" then node_multi node
    else child ← (if String.eqb l "+" then node_single node else node_children node !! l);
         at_key rest child.
Proof.
  cbn. destruct (String.eqb l "#"); [done|].
  destruct (if String.eqb l "+" then _ else _); [|done]. cbn. by destruct rest.
Qed.

Lemma at_key_new k : at_key k TrieNode_new = None.
Proof.
  destruct k as [|l rest]; [done|]. unfold at_key. rewrite get_levels_cons.
  destruct (String.eqb l "#"); [done|]. by destruct (String.eqb l "+").
Qed.

(** The child that a level leads to, created when missing. *)
Lemma at_key_default k (o : option (TrieNode V)) :
  at_key k (default TrieNode_new o) = (c ← o; at_key k c).
Proof. destruct o; [done|]. apply at_key_new. Qed.

Lemma key_cons l rest : key (l :: rest) = if String.eqb l "#" then [l] else l :: key rest.
Proof. done. Qed.

Lemma get_levels_key levels node : at_key (key levels) node = at_key levels node.
Proof.
  revert node. induction levels as [|l rest IH]; intros node; [done|].
  rewrite key_cons. destruct (String.eqb l "#") eqn:E.
  - unfold at_key. by rewrite !get_levels_cons, E.
  - unfold at_key at 1 2. rewrite !get_levels_cons, E.
    destruct (if String.eqb l "+" then _ else _); [|done]. apply IH.
Qed.

(** The generic lookup-after-insert argument: [go] acts on the entry at [rest]
    of the child and leaves the others alone. *)
Lemma key_eq_cons l l' rest rest' :
  String.eqb l "#" = false → String.eqb l' "#" = false →
  (key (l :: rest) = key (l' :: rest')) ↔ l = l' ∧ key rest = key rest'.
Proof. intros H H'. rewrite !key_cons, H, H'. split; [by intros [= -> ->]|by intros [-> ->]]. Qed.

Lemma key_hash rest k : key ("#"%string :: rest) = key k ↔ head k = Some "#"%string.
Proof.
  destruct k as [|l k]; [done|]. rewrite !key_cons. cbn.
  destruct (String.eqb_spec l "#") as [->|]; [done|]. split; [intros [=]; congruence|intros [=]; congruence].
Qed.

Lemma key_nil k : [] = key k ↔ k = [].
Proof. destruct k as [|l k]; [done|]. rewrite key_cons. by destruct (String.eqb l "#"). Qed.

(** Each of the operations acts at the key of [levels] by replacing the value
    [o] there by [f o] and leaves every other key alone. *)
Definition acts_at levels (f : option V → option V) node node' : Prop :=
  ∀ k, at_key k node' = if decide (key levels = key k) then f (at_key k node) else at_key k node.

Lemma acts_at_value f node : acts_at [] f node (set_value node (f (node_value node))).
Proof.
  intros k. destruct (decide (key [] = key k)) as [Hk|Hk].
  - apply key_nil in Hk as ->. done.
  - destruct k; [|done]. by destruct Hk.
Qed.

Lemma acts_at_multi f rest node :
  acts_at ("#"%string :: rest) f node (set_multi node (f (node_multi node))).
Proof.
  intros k. destruct (decide (key ("#"%string :: rest) = key k)) as [Hk|Hk].
  - apply key_hash in Hk. destruct k as [|l k]; [done|]. injection Hk as ->. done.
  - destruct k as [|l k]; [done|]. cbn [at_key]. rewrite !get_levels_cons.
    destruct (String.eqb_spec l "#") as [->|]; [|done]. destruct Hk. by apply key_hash.
Qed.

Lemma acts_at_single f rest node child :
  acts_at rest f (default TrieNode_new (node_single node)) child →
  acts_at ("+"%string :: rest) f node (set_single node child).
Proof.
  intros Hc k. destruct k as [|l k].
  { destruct (decide _) as [Hk|]; [|done]. by rewrite key_cons in Hk. }
  cbn [at_key]. rewrite !get_levels_cons. destruct (String.eqb_spec l "#") as [->|Hh].
  { destruct (decide _) as [Hk|]; [|done]. symmetry in Hk. by apply key_hash in Hk. }
  destruct (String.eqb_spec l "+") as [->|Hp].
  - cbn [node_single set_single mbind option_bind]. rewrite Hc, at_key_default.
    apply decide_ext. rewrite key_eq_cons by done. naive_solver.
  - destruct (decide _) as [Hk|]; [|done]. rewrite key_eq_cons in Hk by (done || by apply String.eqb_neq).
    naive_solver.
Qed.

Lemma acts_at_child f l rest node child :
  l ≠ "#"%string → l ≠ "+"%string →
  acts_at rest f (default TrieNode_new (node_children node !! l)) child →
  acts_at (l :: rest) f node (set_child node l child).
Proof.
  intros Hh Hp Hc k. destruct k as [|l' k].
  { destruct (decide _) as [Hk|]; [|done]. rewrite key_cons in Hk. by destruct (String.eqb l "#"). }
  cbn [at_key]. rewrite !get_levels_cons. destruct (String.eqb_spec l' "#") as [->|Hh'].
  { destruct (decide _) as [Hk|]; [|done]. symmetry in Hk. apply key_hash in Hk. cbn in Hk. congruence. }
  rewrite (decide_ext _ (l = l' ∧ key rest = key k)) by (by rewrite key_eq_cons by (by apply String.eqb_neq)).
  destruct (String.eqb_spec l' "+") as [->|Hp'].
  - destruct (decide _) as [[-> _]|]; done.
  - cbn [node_children set_child]. rewrite lookup_insert. destruct (decide (l = l')) as [->|Hne].
    + cbn [mbind option_bind]. rewrite Hc, at_key_default. apply decide_ext. naive_solver.
    + destruct (decide _) as [[-> _]|]; done.
Qed.

Lemma acts_at_missing f levels node :
  f None = None → at_key levels node = None → acts_at levels f node node.
Proof.
  intros Hf Hn k. destruct (decide _) as [Hk|]; [|done].
  rewrite <-(get_levels_key k), <-Hk, get_levels_key, Hn. done.
Qed.

Lemma insert_levels_acts levels v node :
  levels ≠ [] → acts_at levels (λ _, Some v) node (insert_levels levels v node).
Proof.
  revert node. induction levels as [|l rest IH]; intros node Hne; [done|]. cbn [insert_levels].
  assert (Hgo : ∀ c, acts_at rest (λ _, Some v) c
    (if is_nil rest then set_value c (Some v) else insert_levels rest v c)).
  { intros c. destruct rest; [apply (acts_at_value (λ _, Some v))|by apply IH]. }
  destruct (String.eqb_spec l "#") as [->|]; [apply (acts_at_multi (λ _, Some v))|].
  destruct (String.eqb_spec l "+") as [->|]; [by apply acts_at_single|by apply acts_at_child].
Qed.

Lemma update_levels_acts levels f node :
  levels ≠ [] → acts_at levels (fmap f) node (update_levels levels f node).
Proof.
  revert node. induction levels as [|l rest IH]; intros node Hne; [done|]. cbn [update_levels].
  assert (Hgo : ∀ c, acts_at rest (fmap f) c
    (if is_nil rest then set_value c (f <$> node_value c) else update_levels rest f c)).
  { intros c. destruct rest; [apply acts_at_value|by apply IH]. }
  destruct (String.eqb_spec l "#") as [->|Hh]; [apply acts_at_multi|].
  destruct (String.eqb_spec l "+") as [->|Hp].
  - destruct (node_single node) as [c|] eqn:Hc.
    + apply acts_at_single. by rewrite Hc.
    + apply acts_at_missing; [done|]. cbn [at_key]. by rewrite get_levels_cons, Hc.
  - destruct (node_children node !! l) as [c|] eqn:Hc.
    + apply acts_at_child; [done|done|]. by rewrite Hc.
    + apply acts_at_missing; [done|]. cbn [at_key]. rewrite get_levels_cons, Hc.
      destruct (String.eqb_spec l "#"); [done|]. by destruct (String.eqb_spec l "+").
Qed.

Lemma update_levels_same levels v node :
  get_levels levels node = Some v → update_levels levels (λ _, v) node = node.
Proof.
  revert node. induction levels as [|l rest IH]; intros [nv ch sw mw]; [done|].
  rewrite get_levels_cons. cbn [update_levels].
  assert (Hgo : ∀ c, at_key rest c = Some v →
    (if is_nil rest then set_value c ((λ _, v) <$> node_value c) else update_levels rest (λ _, v) c) = c).
  { intros [cv cc cs cm] Hc. destruct rest; [|by apply IH]. cbn in *. by rewrite Hc. }
  destruct (String.eqb l "#"); [by cbn; intros ->|].
  destruct (String.eqb l "+"); cbn [node_single node_children].
  - destruct sw as [c|]; [|done]. cbn [mbind option_bind]. intros Hc. unfold set_single. cbn. by rewrite Hgo.
  - destruct (ch !! l) as [c|] eqn:E; [|done]. cbn [mbind option_bind]. intros Hc. rewrite Hgo by done.
    unfold set_child. cbn. by rewrite insert_id.
Qed.

Lemma remove_recursive_acts levels node :
  (remove_recursive levels node).1 = at_key levels node ∧
  acts_at levels (λ _, None) node (remove_recursive levels node).2.
Proof.
  revert node. induction levels as [|l rest IH]; intros node; cbn [remove_recursive].
  { split; [done|]. apply (acts_at_value (λ _, None)). }
  assert (Hgo : ∀ c, let r := (if is_nil rest then (node_value c, set_value c None)
      else remove_recursive rest c) in
    r.1 = at_key rest c ∧ acts_at rest (λ _, None) c r.2).
  { intros c. destruct rest; [|by apply IH]. split; [done|]. apply (acts_at_value (λ _, None)). }
  cbn [at_key]. rewrite get_levels_cons.
  destruct (String.eqb_spec l "#") as [->|Hh]; [split; [done|apply (acts_at_multi (λ _, None))]|].
  destruct (String.eqb_spec l "+") as [->|Hp].
  - destruct (node_single node) as [c|] eqn:Hc.
    + destruct (Hgo c) as [Hv Ha]. destruct (if is_nil rest then _ else _) as [r c']. cbn in *.
      split; [done|]. apply acts_at_single. by rewrite Hc.
    + split; [done|]. apply acts_at_missing; [done|]. cbn [at_key snd]. by rewrite get_levels_cons, Hc.
  - destruct (node_children node !! l) as [c|] eqn:Hc.
    + destruct (Hgo c) as [Hv Ha]. destruct (if is_nil rest then _ else _) as [r c']. cbn in *.
      split; [done|]. apply acts_at_child; [done|done|]. by rewrite Hc.
    + split; [done|]. apply acts_at_missing; [done|]. cbn [at_key snd]. rewrite get_levels_cons, Hc.
      destruct (String.eqb_spec l "#"); [done|]. by destruct (String.eqb_spec l "+").
Qed.

Lemma remove_by_predicate_at pred k node :
  at_key k (remove_by_predicate pred node) = at_key k node ≫= pred.
Proof.
  revert node. induction k as [|l k IH]; intros [v ch sw mw]; [done|].
  cbn [at_key]. rewrite !get_levels_cons. destruct (String.eqb l "#"); [done|].
  destruct (String.eqb l "+"); cbn [node_single node_children remove_by_predicate].
  - destruct sw as [c|]; [|done]. cbn. by rewrite IH.
  - rewrite lookup_fmap. destruct (ch !! l) as [c|]; [|done]. cbn. by rewrite IH.
Qed.

(** ** Lemmas: matching visits exactly the matching keys *)
Lemma matches_keyed levels index sys node :
  matches_recursive levels index sys node = (keyed levels index sys node).*2.
Proof.
  revert index node. induction levels as [|l rest IH]; intros index node; cbn [matches_recursive keyed];
    rewrite !fmap_app; f_equal.
  - destruct (negb _); [|done]. by destruct (node_multi node).
  - by destruct (node_value node).
  - destruct (negb _); [|done]. by destruct (node_multi node).
  - assert (Hgo : ∀ h c, matches_recursive rest (S index) sys c =
      ((λ '(k, v), (h :: k, v)) <$> keyed rest (S index) sys c).*2).
    { intros h c. rewrite IH, <-list_fmap_compose. apply list_fmap_ext. by intros ? [??]. }
    f_equal.
    + destruct (negb _); [|done]. destruct (node_single node); [|done]. apply Hgo.
    + destruct (node_children node !! l); [|done]. apply Hgo.
Qed.

(** Keys that can match: they contain a [#] only at the end. *)
Definition canonical (k : list string) : Prop := key k = k.

Definition wild_ok (sys : bool) (index : nat) (k : list string) : bool :=
  negb (sys && (index =? 0)%nat &&
        match k with f :: _ => String.eqb f "+" || String.eqb f "#" | [] => false end).

Definition plain (l : string) : Prop := l ≠ "#"%string ∧ l ≠ "+"%string.

Lemma elem_of_cons_keys h (L : list (list string * V)) k v :
  (k, v) ∈ (λ '(k, v), (h :: k, v)) <$> L ↔ ∃ k', k = h :: k' ∧ (k', v) ∈ L.
Proof.
  rewrite list_elem_of_fmap. split.
  - intros ([k' v'] & [= -> ->] & ?). eauto.
  - intros (k' & -> & ?). by exists (k', v).
Qed.

Lemma elem_of_const_key (h : list string) (o : option V) k v :
  (k, v) ∈ (λ v, (h, v)) <$> option_list o ↔ k = h ∧ o = Some v.
Proof.
  destruct o as [w|]; cbn; [rewrite list_elem_of_singleton|]; set_solver.
Qed.

Lemma elem_of_if (b : bool) {A} (x : A) l : x ∈ (if b then l else []) ↔ b = true ∧ x ∈ l.
Proof. destruct b; set_solver. Qed.

Lemma elem_of_keyed_single h rest index sys (o : option (TrieNode V)) k v :
  (k, v) ∈ match o with
           | Some child => (λ '(k, v), (h :: k, v)) <$> keyed rest (S index) sys child
           | None => []
           end ↔ ∃ k' c, k = h :: k' ∧ o = Some c ∧ (k', v) ∈ keyed rest (S index) sys c.
Proof.
  destruct o as [c|]; [|set_solver]. rewrite elem_of_cons_keys. naive_solver.
Qed.

Lemma canonical_cons l k : plain l ∨ l = "+"%string → canonical (l :: k) ↔ canonical k.
Proof.
  unfold canonical. intros Hl. rewrite key_cons.
  destruct (String.eqb_spec l "#") as [->|]; [destruct Hl as [[[] _]|]; done|].
  split; [by intros [=]|by intros ->].
Qed.

Lemma canonical_hash k : canonical ("#"%string :: k) ↔ k = [].
Proof. unfold canonical. rewrite key_cons. cbn. split; [by intros [= <-]|by intros ->]. Qed.

(** What a key has to satisfy below the root, for a level [t] of the topic. *)
Lemma keyed_spec ts index sys node k v :
  Forall plain ts →
  (k, v) ∈ keyed ts index sys node ↔
  at_key k node = Some v ∧ canonical k ∧ match_levels k ts = true ∧ wild_ok sys index k = true.
Proof.
  intros Hts. revert index node k. induction Hts as [|t ts [Hth Htp] Hts IH]; intros index node k;
    cbn [keyed]; rewrite !elem_of_app, elem_of_if, !elem_of_const_key.
  - unfold wild_ok. destruct k as [|l k]; cbn [at_key match_levels is_nil].
    + rewrite andb_false_r. cbn. naive_solver.
    + rewrite get_levels_cons. destruct (String.eqb_spec l "#") as [->|].
      * rewrite orb_true_r, andb_true_r, canonical_hash. naive_solver.
      * naive_solver.
  - rewrite elem_of_if, !elem_of_keyed_single. setoid_rewrite IH.
    destruct k as [|l k]; cbn [at_key match_levels is_nil].
    { naive_solver. }
    rewrite get_levels_cons. unfold wild_ok.
    destruct (String.eqb_spec l "#") as [->|Hh].
    { rewrite orb_true_r, andb_true_r, canonical_hash. naive_solver. }
    destruct (String.eqb_spec l "+") as [->|Hp].
    + rewrite canonical_cons by auto. cbn [orb]. rewrite andb_true_r.
      replace (sys && (S index =? 0)%nat) with false by (by rewrite andb_false_r). cbn [andb negb].
      split.
      * intros [[_ [[=] _]]|[[Hw (k' & c & [= ->] & Hc & Ha & ? & ? & _)]|(k' & c & [= <- _] & _)]]; [|done].
        rewrite Hc. cbn. auto.
      * intros (Ha & Hcan & Hm & Hw). right. left. split; [done|].
        destruct (node_single node) as [c|]; [|done]. by exists k, c.
    + cbn [orb]. rewrite andb_false_r. cbn [negb].
      replace (sys && (S index =? 0)%nat) with false by (by rewrite andb_false_r). cbn [andb negb].
      split.
      * intros [[_ [[=] _]]|[[Hw (k' & c & [=] & _)]|(k' & c & [= -> ->] & Hc & Ha & ? & ? & _)]]; [done..|].
        rewrite Hc, canonical_cons, String.eqb_refl by (left; done). by rewrite andb_false_r.
      * intros (Ha & Hcan & Hm & Hw). right. right.
        destruct (String.eqb_spec l t) as [->|]; [|done].
        rewrite canonical_cons in Hcan by (left; done).
        destruct (node_children node !! t) as [c|]; [|done]. by exists k, c.
Qed.

Lemma NoDup_cons_keys h (L : list (list string * V)) :
  NoDup L.*1 → NoDup ((λ '(k, v), (h :: k, v)) <$> L).*1.
Proof.
  intros H. replace ((λ '(k, v), (h :: k, v)) <$> L).*1 with (cons h <$> L.*1).
  - apply NoDup_fmap_2; [by intros ?? [=]|done].
  - clear. induction L as [|[k v] L IH]; [done|]. rewrite !fmap_cons. by f_equal.
Qed.

Lemma keyed_NoDup ts index sys node : Forall plain ts → NoDup (keyed ts index sys node).*1.
Proof.
  intros Hts. revert index node. induction Hts as [|t ts [Hth Htp] Hts IH]; intros index node;
    cbn [keyed]; rewrite !fmap_app.
  - apply NoDup_app. split_and!.
    + destruct (negb _); [|constructor]. destruct (node_multi node); repeat constructor; set_solver.
    + intros k (p & -> & Hp)%list_elem_of_fmap (q & Hpq & Hq)%list_elem_of_fmap. destruct p as [k v], q as [k' v'].
      apply elem_of_if in Hp as [_ Hp]. apply elem_of_const_key in Hp as [-> _].
      apply elem_of_const_key in Hq as [-> _]. done.
    + destruct (node_value node); repeat constructor; set_solver.
  - apply NoDup_app. split_and!.
    + destruct (negb _); [|constructor]. destruct (node_multi node); repeat constructor; set_solver.
    + intros k (p & -> & Hp)%list_elem_of_fmap Hk. destruct p as [k v].
      apply elem_of_if in Hp as [_ Hp]. apply elem_of_const_key in Hp as [-> _]. cbn in Hk.
      apply elem_of_app in Hk as [Hk|Hk]; apply list_elem_of_fmap in Hk as ([k' v'] & [= <-] & Hk).
      * apply elem_of_if in Hk as [_ Hk]. apply elem_of_keyed_single in Hk as (? & ? & [=] & _).
      * apply elem_of_keyed_single in Hk as (? & ? & [=] & _). done.
    + apply NoDup_app. split_and!.
      * destruct (negb _); [|constructor]. destruct (node_single node); [|constructor].
        apply NoDup_cons_keys, IH.
      * intros k (p & -> & Hp)%list_elem_of_fmap (q & Hpq & Hq)%list_elem_of_fmap.
        destruct p as [k v], q as [k' v']. cbn in Hpq. subst k'.
        apply elem_of_if in Hp as [_ Hp]. apply elem_of_keyed_single in Hp as (? & ? & -> & _).
        apply elem_of_keyed_single in Hq as (? & ? & [= <- _] & _). done.
      * destruct (node_children node !! t); [|constructor]. apply NoDup_cons_keys, IH.
Qed.

(** ** Filters as strings *)
Lemma get_mut_at_key f node : get_mut f node = at_key (split "/" f) node.
Proof. unfold get_mut, at_key. pose proof (split_not_nil "/" f). by destruct (split "/" f). Qed.

Lemma filter_levels_ok_canonical ls : filter_levels_ok ls = true → canonical ls.
Proof.
  unfold canonical. induction ls as [|l ls IH]; [done|]. cbn [filter_levels_ok]. rewrite key_cons.
  intros [Hl Hls]%andb_true_iff. rewrite IH by done.
  destruct (String.eqb_spec l "#") as [->|]; [|done]. unfold level_ok in Hl. by destruct ls.
Qed.

(** Filters that pass [validate_topic_filter] behind their share prefix. *)
Definition valid_filter f : Prop := filter_levels_ok (split "/" f) = true.

Lemma key_valid_inj f f' :
  valid_filter f → valid_filter f' → key (split "/" f) = key (split "/" f') ↔ f = f'.
Proof.
  intros Hf Hf'. rewrite !filter_levels_ok_canonical by done. split; [apply split_inj|by intros ->].
Qed.

Lemma get_mut_acts f g node node' f' :
  valid_filter f → valid_filter f' → acts_at (split "/" f) g node node' →
  get_mut f' node' = if decide (f = f') then g (get_mut f' node) else get_mut f' node.
Proof.
  intros Hf Hf' Ha. rewrite !get_mut_at_key, Ha. apply decide_ext. by apply key_valid_inj.
Qed.

Lemma get_mut_insert f v node f' :
  valid_filter f → valid_filter f' →
  get_mut f' (insert f v node) = if decide (f = f') then Some v else get_mut f' node.
Proof.
  intros. apply (get_mut_acts _ (λ _, Some v)); [done..|]. apply insert_levels_acts, split_not_nil.
Qed.

Lemma get_mut_update f g node f' :
  valid_filter f → valid_filter f' →
  get_mut f' (update f g node) = if decide (f = f') then g <$> get_mut f' node else get_mut f' node.
Proof. intros. apply get_mut_acts; [done..|]. apply update_levels_acts, split_not_nil. Qed.

Lemma get_mut_remove f node f' :
  valid_filter f → valid_filter f' →
  (remove f node).1 = get_mut f node ∧
  get_mut f' (remove f node).2 = if decide (f = f') then None else get_mut f' node.
Proof.
  intros. destruct (remove_recursive_acts (split "/" f) node) as [Hr Ha].
  split; [by rewrite get_mut_at_key|]. by apply (get_mut_acts _ (λ _, None)).
Qed.

Lemma get_mut_remove_by_predicate pred node f :
  get_mut f (remove_by_predicate pred node) = get_mut f node ≫= pred.
Proof. rewrite !get_mut_at_key. apply remove_by_predicate_at. Qed.

Lemma get_mut_new f : get_mut f TrieNode_new = None.
Proof. rewrite get_mut_at_key. apply at_key_new. Qed.

(** A valid topic name has plain levels. *)
Lemma topic_levels_plain topic :
  contains "+" topic = false → contains "#" topic = false → Forall plain (split "/" topic).
Proof.
  intros Hp Hh. apply Forall_forall. intros l Hl. split; intros ->.
  - by apply (contains_split_other "/" "#" topic) in Hl.
  - by apply (contains_split_other "/" "+" topic) in Hl.
Qed.

Lemma wild_ok_system topic k : wild_ok (starts_with "$" topic) 0 k = negb (system_blocked topic k).
Proof. unfold wild_ok, system_blocked. by rewrite andb_true_r. Qed.

Lemma canonical_no_sep k ts :
  canonical k → match_levels k ts = true → Forall (λ l, contains "/" l = false) ts →
  Forall (λ l, contains "/" l = false) k.
Proof.
  intros Hc Hm. apply match_levels_spec in Hm. induction Hm as [|fs ts|fs t ts Hm IH|l fs ts Hm IH]; intros Hts.
  - constructor.
  - apply canonical_hash in Hc as ->. by repeat constructor.
  - apply Forall_cons in Hts as [_ Hts]. constructor; [done|]. apply IH; [|done].
    by apply canonical_cons in Hc; [|auto].
  - apply Forall_cons in Hts as [Hl Hts]. constructor; [done|].
    destruct (decide (l = "#"%string)) as [->|Hh].
    + apply canonical_hash in Hc as ->. constructor.
    + apply IH; [|done]. revert Hc. unfold canonical. rewrite key_cons.
      destruct (String.eqb_spec l "#"); [done|]. by intros [= ->].
Qed.

Lemma keyed_strings ts index sys node k v :
  Forall plain ts → ts ≠ [] → Forall (λ l, contains "/" l = false) ts →
  (k, v) ∈ keyed ts index sys node → split "/" (join "/" k) = k.
Proof.
  intros Hp Hne Hts (_ & Hc & Hm & _)%keyed_spec; [|done].
  apply split_join; [intros ->; by destruct ts|]. by eapply canonical_no_sep.
Qed.

(** A stored filter that a topic name matches has only the levels of the topic
    and wildcards where they may stand. *)
Lemma canonical_match_valid k ts :
  canonical k → match_levels k ts = true →
  Forall (λ l, contains "+" l = false ∧ contains "#" l = false) ts → filter_levels_ok k = true.
Proof.
  intros Hc Hm. apply match_levels_spec in Hm.
  induction Hm as [|fs ts|fs t ts Hm IH|l fs ts Hm IH]; intros Hts; [done| | |].
  - by apply canonical_hash in Hc as ->.
  - apply Forall_cons in Hts as [_ Hts]. cbn. apply IH; [|done]. by apply canonical_cons in Hc; [|auto].
  - apply Forall_cons in Hts as [[Hp Hh] Hts]. cbn [filter_levels_ok]. unfold level_ok.
    rewrite Hp, Hh, orb_true_r. apply IH; [|done]. revert Hc. unfold canonical. rewrite key_cons.
    destruct (String.eqb_spec l "#") as [->|]; [done|]. by intros [= ->].
Qed.

Lemma matched_filter_valid topic f :
  contains "+" topic = false → contains "#" topic = false →
  canonical (split "/" f) → topic_matches_filter topic f = true → valid_filter f.
Proof.
  intros Hp Hh Hc Hm. rewrite topic_matches_levels, andb_true_iff in Hm. destruct Hm as [_ Hm].
  apply (canonical_match_valid _ (split "/" topic)); [done..|]. apply Forall_forall.
  intros l Hl. split; by apply (contains_split_other "/" _ topic l).
Qed.

(** The filters that [matches] visits: each once, and exactly those stored
    filters that match the topic. *)
Lemma matches_entries topic node :
  contains "+" topic = false → contains "#" topic = false →
  ∃ l : list (string * V),
    matches topic node = l.*2 ∧ NoDup l.*1 ∧
    ∀ f v, (f, v) ∈ l ↔ valid_filter f ∧ get_mut f node = Some v ∧ topic_matches_filter topic f = true.
Proof.
  intros Hp Hh. pose proof (topic_levels_plain topic Hp Hh) as Hpl.
  assert (Hsep : Forall (λ l, contains "/" l = false) (split "/" topic)).
  { apply Forall_forall. intros l. apply contains_split. }
  set (L := keyed (split "/" topic) 0 (starts_with "$" topic) node).
  assert (HL : ∀ k v, (k, v) ∈ L → split "/" (join "/" k) = k).
  { intros k v. by apply keyed_strings; [|apply split_not_nil|]. }
  exists ((λ '(k, v), (join "/" k, v)) <$> L). split_and!.
  - unfold matches. rewrite matches_keyed, <-list_fmap_compose. apply list_fmap_ext. by intros ? [??].
  - rewrite <-list_fmap_compose.
    assert (Hnd : NoDup L.*1) by (by apply keyed_NoDup).
    revert Hnd HL. clear. induction L as [|[k v] L IH]; intros Hnd HL; cbn; [constructor|].
    apply NoDup_cons in Hnd as [Hk Hnd]. constructor.
    + intros ([k' v'] & Hjk & Hin)%list_elem_of_fmap. cbn in Hjk. apply Hk, list_elem_of_fmap.
      exists (k', v'). split; [|done]. cbn.
      rewrite <-(HL k v), <-(HL k' v'), Hjk; [done|by constructor|by constructor].
    + apply IH; [done|]. intros. eapply HL. by constructor.
  - intros f v. rewrite list_elem_of_fmap.
    pose proof (matched_filter_valid topic f Hp Hh) as Hvalid. revert Hvalid.
    rewrite get_mut_at_key, topic_matches_levels, andb_true_iff, <-wild_ok_system. intros Hvalid. split.
    + intros ([k v'] & [= -> ->] & Hin). rewrite (HL k v' Hin) in *.
      apply keyed_spec in Hin; [|done]. naive_solver.
    + intros (Hf & Hg & Hw & Hm). exists (split "/" f, v). rewrite join_split. split; [done|].
      apply keyed_spec; [done|]. auto using filter_levels_ok_canonical.
Qed.
End trie.

(** ** Theorems *)

(** C11. The trie refines a finite map from filters to values: on valid filters
    lookup after insert, update, remove and bulk removal is what it is for a
    map, and [remove] returns what was stored. *)
Theorem trie_is_map {V} (t : TrieNode V) f f' (v : V) (g : V → V) (pred : V → option V) :
  valid_filter f → valid_filter f' →
  get_mut f' (@TrieNode_new V) = None ∧
  get_mut f' (insert f v t) = (if decide (f = f') then Some v else get_mut f' t) ∧
  get_mut f' (update f g t) = (if decide (f = f') then g <$> get_mut f' t else get_mut f' t) ∧
  (remove f t).1 = get_mut f t ∧
  get_mut f' (remove f t).2 = (if decide (f = f') then None else get_mut f' t) ∧
  get_mut f' (remove_by_predicate pred t) = get_mut f' t ≫= pred.
Proof.
  intros Hf Hf'. destruct (get_mut_remove f t f' Hf Hf').
  split_and!; auto using get_mut_new, get_mut_insert, get_mut_update, get_mut_remove_by_predicate.
Qed.

Lemma trie_is_map_witness :
  let t := insert "a/+" 1 (insert "a/#" 2 TrieNode_new) in
  get_mut "a/#" (@TrieNode_new Z) = None ∧
  get_mut "a/#" (insert "a/+" 7 t) = (if decide ("a/+" = "a/#")%string then Some 7 else get_mut "a/#" t) ∧
  get_mut "a/#" (update "a/+" Z.succ t)
    = (if decide ("a/+" = "a/#")%string then Z.succ <$> get_mut "a/#" t else get_mut "a/#" t) ∧
  (remove "a/+" t).1 = get_mut "a/+" t ∧
  get_mut "a/#" (remove "a/+" t).2 = (if decide ("a/+" = "a/#")%string then None else get_mut "a/#" t) ∧
  get_mut "a/#" (remove_by_predicate (λ v, if v =? 2 then None else Some v) t)
    = get_mut "a/#" t ≫= (λ v, if v =? 2 then None else Some v).
Proof. apply (trie_is_map _ "a/+" "a/#"); reflexivity. Defined.

(** C10. Matching is exact: for a topic name without wildcards, [matches] hands
    over the values of a list of distinct filters, which are exactly the valid
    filters that are stored and that [topic_matches_filter] accepts. *)
Theorem trie_matches_exact {V} (t : TrieNode V) topic :
  validate_topic_name topic = Ok tt →
  ∃ l : list (string * V),
    matches topic t = l.*2 ∧ NoDup l.*1 ∧
    ∀ f v, (f, v) ∈ l ↔ valid_filter f ∧ get_mut f t = Some v ∧ topic_matches_filter topic f = true.
Proof. intros (_ & _ & _ & Hp & Hh & _)%validate_topic_name_ok. by apply matches_entries. Qed.

Lemma trie_matches_exact_witness :
  ∃ l : list (string * Z),
    matches "a/b" (insert "a/+" 1 (insert "#" 2 (insert "c" 3 TrieNode_new))) = l.*2 ∧ NoDup l.*1 ∧
    ∀ f v, (f, v) ∈ l ↔
      valid_filter f ∧ get_mut f (insert "a/+" 1 (insert "#" 2 (insert "c" 3 TrieNode_new))) = Some v ∧
      topic_matches_filter "a/b" f = true.
Proof. apply (trie_matches_exact _ "a/b"). reflexivity. Defined.
