(* ===== verification/SubscriptionStore.v ===== *)
(** * The subscription store

    [topic/mod.rs]: the trie of subscription lists with the match cache, the
    generation counter that invalidates it and the round-robin counters of
    shared subscriptions. The operations are given as functions on the store;
    the cache protocol, whose steps interleave between threads, is also given
    as a step relation. *)

From S2P Require Import Prelude Protocol TopicValidation TopicTrie.

Definition TOPIC_CACHE_MAX_SIZE : Z := 1024.

Record Subscription : Type := MkSubscription {
  client_id : string;
  sub_qos : QoS;
  no_local : bool;
  retain_as_published : bool;
  subscription_id : option Z;
  share_group : option string;
}.

#[global] Instance Subscription_eta : Eta Subscription := fun s =>
  MkSubscription (client_id s) (sub_qos s) (no_local s) (retain_as_published s)
    (subscription_id s) (share_group s).

#[global] Instance Subscription_eq_dec : EqDecision Subscription.
Proof. solve_decision. Defined.

Record CachedMatch : Type := MkCachedMatch {
  cached_subscriptions : list Subscription;
  cached_generation : Z;
}.

Record SubscriptionStore : Type := MkStore {
  trie : TrieNode (list Subscription);
  share_counters : gmap string Z;
  topic_cache : gmap string CachedMatch;
  generation : Z;
}.

#[global] Instance SubscriptionStore_eta : Eta SubscriptionStore := fun s =>
  MkStore (trie s) (share_counters s) (topic_cache s) (generation s).

Definition SubscriptionStore_new : SubscriptionStore := MkStore TrieNode_new ∅ ∅ 0.

(** [DashMap::len] *)
Definition map_len {A} (m : gmap string A) : Z := Z.of_nat (size m).

(** ** Operations *)
Definition invalidate_cache (s : SubscriptionStore) : SubscriptionStore :=
  let s := s <| generation ::= (fun g => wrap_u64 (g + 1)) |> in
  if map_len (topic_cache s) >? TOPIC_CACHE_MAX_SIZE * 2 then s <| topic_cache := ∅ |> else s.

(** [s.client_id == sub.client_id && s.share_group == sub.share_group] *)
Definition same_subscriber (a b : Subscription) : bool :=
  String.eqb (client_id a) (client_id b) && bool_decide (share_group a = share_group b).

(** The part of [subscribe] done under the write lock of the trie. *)
Definition trie_subscribe (actual_filter : string) (sub : Subscription)
    (t : TrieNode (list Subscription)) : TrieNode (list Subscription) :=
  match get_mut actual_filter t with
  | Some _ =>
      update actual_filter (fun subs => filter (fun s => negb (same_subscriber s sub)) subs ++ [sub]) t
  | None => insert actual_filter [sub] t
  end.

Definition subscribe (f : string) (sub : Subscription) (s : SubscriptionStore) : SubscriptionStore :=
  let '(actual_filter, sub, s) :=
    match parse_shared_subscription f with
    | Some (group, actual) =>
        (actual, sub <| share_group := Some group |>,
         s <| share_counters ::= (fun m =>
           match m !! group with Some _ => m | None => <[group := 0]> m end) |>)
    | None => (f, sub, s)
    end in
  invalidate_cache (s <| trie ::= trie_subscribe actual_filter sub |>).

(** The closure of [unsubscribe]: whether an entry stays. *)
Definition unsubscribe_keeps (cid : string) (group : option string) (s : Subscription) : bool :=
  if negb (String.eqb (client_id s) cid) then true
  else
    match share_group s, group with
    | Some sg, Some fg => negb (String.eqb sg fg)
    | None, None => false
    | _, _ => true
    end.

Definition trie_unsubscribe (actual_filter cid : string) (group : option string)
    (t : TrieNode (list Subscription)) : TrieNode (list Subscription) * bool :=
  match get_mut actual_filter t with
  | Some subs =>
      let subs' := filter (fun s => unsubscribe_keeps cid group s) subs in
      let t := update actual_filter (fun _ => subs') t in
      let removed := negb (length subs' =? length subs)%nat in
      let t := if is_nil subs' then (remove actual_filter t).2 else t in
      (t, removed)
  | None => (t, false)
  end.

Definition unsubscribe (f cid : string) (s : SubscriptionStore) : SubscriptionStore * bool :=
  let '(actual_filter, group) :=
    match parse_shared_subscription f with
    | Some (group, actual) => (actual, Some group)
    | None => (f, None)
    end in
  let '(t, removed) := trie_unsubscribe actual_filter cid group (trie s) in
  let s := s <| trie := t |> in
  (if removed then invalidate_cache s else s, removed).

(** [subs.retain(|s| s.client_id != client_id); subs.is_empty()] *)
Definition drop_client (cid : string) (subs : list Subscription) : option (list Subscription) :=
  let subs := filter (fun s => negb (String.eqb (client_id s) cid)) subs in
  if is_nil subs then None else Some subs.

Definition unsubscribe_all (cid : string) (s : SubscriptionStore) : SubscriptionStore :=
  invalidate_cache (s <| trie ::= remove_by_predicate (drop_client cid) |>).

(** The subscriptions collected from the trie: those without a share group in
    order, and the members of each share group. *)
Definition push_shared (groups : gmap string (list Subscription)) (sub : Subscription)
    : gmap string (list Subscription) :=
  match share_group sub with
  | Some group => <[group := default [] (groups !! group) ++ [sub]]> groups
  | None => groups
  end.

Definition is_shared (sub : Subscription) : bool := is_some (share_group sub).

Definition collect (topic : string) (t : TrieNode (list Subscription))
    : list Subscription * gmap string (list Subscription) :=
  let all := mjoin (matches topic t) in
  (filter (fun s => negb (is_shared s)) all, foldl push_shared ∅ all).

(** One share group: the member at the group's counter, which advances. *)
Definition pick_member (acc : gmap string Z * list Subscription)
    (entry : string * list Subscription) : gmap string Z * list Subscription :=
  let '(counters, result) := acc in
  let '(group, subs) := entry in
  if is_nil subs then acc
  else
    let counter := default 0 (counters !! group) in
    (<[group := wrap_u64 (counter + 1)]> counters,
     result ++ option_list (subs !! Z.to_nat (counter mod zlen subs))).

(** What [matches] computes when it does not use the cache, and whether a
    shared subscription took part. *)
Definition compute_matches (topic : string) (s : SubscriptionStore)
    : list Subscription * gmap string Z * bool :=
  let '(direct, groups) := collect topic (trie s) in
  let '(counters, result) := foldl pick_member (share_counters s, direct) (map_to_list groups) in
  (result, counters, negb (bool_decide (groups = ∅))).

Definition store_matches (topic : string) (s : SubscriptionStore)
    : list Subscription * SubscriptionStore :=
  let current_gen := generation s in
  let compute :=
    let '(result, counters, has_shared) := compute_matches topic s in
    let s := s <| share_counters := counters |> in
    (result,
     if negb has_shared && (map_len (topic_cache s) <? TOPIC_CACHE_MAX_SIZE)
     then s <| topic_cache ::= <[topic := MkCachedMatch result current_gen]> |>
     else s) in
  match topic_cache s !! topic with
  | Some cached =>
      if cached_generation cached =? current_gen then (cached_subscriptions cached, s) else compute
  | None => compute
  end.

(** [matches_with_callback]: the subscriptions handed to the callback. *)
Definition matches_with_callback (topic : string) (s : SubscriptionStore)
    : list Subscription * SubscriptionStore :=
  let '(result, counters, _) := compute_matches topic s in
  (result, s <| share_counters := counters |>).

Definition shared_subscription_count (s : SubscriptionStore) : Z :=
  zlen (filter is_shared (mjoin (for_each_value (trie s)))).

(** ** What the store holds *)

(** The entries under a filter. *)
Definition subs_at (f : string) (s : SubscriptionStore) : list Subscription :=
  default [] (get_mut f (trie s)).

(** The identity of an entry under a filter: client and share group. *)
Definition subscriber (s : Subscription) : string * option string := (client_id s, share_group s).

Definition subs_ok (subs : list Subscription) : Prop := subs ≠ [] ∧ NoDup (subscriber <$> subs).

(** A cached result with the current generation is what the trie gives, and
    involves no share group; generations of cached results are not ahead. *)
Definition cache_ok (s : SubscriptionStore) : Prop :=
  ∀ topic c, topic_cache s !! topic = Some c →
    0 ≤ cached_generation c ≤ generation s ∧
    (cached_generation c = generation s →
     collect topic (trie s) = (cached_subscriptions c, ∅)).

(** No stored list is empty or has two entries for one subscriber. *)
Definition trie_ok (t : TrieNode (list Subscription)) : Prop :=
  ∀ k subs, at_key k t = Some subs → subs_ok subs.

Definition store_wf (s : SubscriptionStore) : Prop :=
  trie_ok (trie s) ∧
  0 ≤ generation s < 2 ^ 64 ∧
  map_len (topic_cache s) ≤ TOPIC_CACHE_MAX_SIZE ∧ cache_ok s.

(** ** Lemmas: the trie part of the operations *)
Lemma same_subscriber_spec a b : same_subscriber a b = true ↔ subscriber a = subscriber b.
Proof.
  unfold same_subscriber, subscriber. rewrite andb_true_iff, String.eqb_eq, bool_decide_eq_true.
  split; [intros [-> ->]; done|intros [= -> ->]; done].
Qed.

Lemma trie_subscribe_acts f sub t :
  acts_at (split "/" f)
    (λ o, Some (filter (λ s, negb (same_subscriber s sub)) (default [] o) ++ [sub]))
    t (trie_subscribe f sub t).
Proof.
  intros k. unfold trie_subscribe. rewrite get_mut_at_key.
  pose proof (split_not_nil "/" f) as Hne.
  destruct (at_key (split "/" f) t) as [subs|] eqn:Hg.
  - unfold update. rewrite (update_levels_acts _ _ _ Hne k). destruct (decide _) as [Hk|]; [|done].
    rewrite <-(get_levels_key k), <-Hk, get_levels_key, Hg. done.
  - unfold insert. rewrite (insert_levels_acts _ _ _ Hne k). destruct (decide _) as [Hk|]; [|done].
    rewrite <-(get_levels_key k), <-Hk, get_levels_key, Hg. done.
Qed.

(** The entry after an unsubscription; an empty list is not kept. *)
Definition keep_subs (cid : string) (group : option string) (o : option (list Subscription))
    : option (list Subscription) :=
  match filter (λ s, unsubscribe_keeps cid group s) <$> o with
  | Some ((_ :: _) as subs) => Some subs
  | _ => None
  end.

Lemma trie_unsubscribe_acts f cid group t :
  acts_at (split "/" f) (keep_subs cid group) t (trie_unsubscribe f cid group t).1 ∧
  ((trie_unsubscribe f cid group t).2 = true ↔
   ∃ s, s ∈ default [] (get_mut f t) ∧ unsubscribe_keeps cid group s = false).
Proof.
  unfold trie_unsubscribe. rewrite get_mut_at_key. pose proof (split_not_nil "/" f) as Hne.
  destruct (at_key (split "/" f) t) as [subs|] eqn:Hg; cbn.
  - split.
    + intros k. set (subs' := filter _ subs).
      assert (Hu : at_key k (update f (λ _, subs') t) =
        if decide (key (split "/" f) = key k) then Some subs' else at_key k t).
      { unfold update. rewrite (update_levels_acts _ _ _ Hne k). destruct (decide _) as [Hk|]; [|done].
        by rewrite <-(get_levels_key k), <-Hk, get_levels_key, Hg. }
      destruct (decide (key (split "/" f) = key k)) as [Hk|Hk].
      * assert (Hkt : at_key k t = Some subs) by (by rewrite <-(get_levels_key k), <-Hk, get_levels_key).
        rewrite Hkt. unfold keep_subs. cbn. fold subs'.
        clearbody subs'. destruct subs' as [|x l]; cbn [is_nil].
        -- unfold remove. destruct (remove_recursive_acts (split "/" f) (update f (λ _, []) t)) as [_ Ha].
           rewrite Ha. by destruct (decide _).
        -- done.
      * destruct (is_nil subs'); [|done]. unfold remove.
        destruct (remove_recursive_acts (split "/" f) (update f (λ _, subs') t)) as [_ Ha].
        rewrite Ha. by destruct (decide _).
    + rewrite negb_true_iff, Nat.eqb_neq. split.
      * intros Hl. destruct (decide (Exists (λ s, unsubscribe_keeps cid group s = false) subs)) as [He|He].
        { by apply Exists_exists in He. }
        destruct Hl. f_equal. apply filter_all. apply Forall_Exists_neg in He.
        eapply Forall_impl; [done|]. intros x. cbn. by destruct (unsubscribe_keeps cid group x).
      * intros (x & Hx & Hkeep) Hl.
        assert (Hlt : (length (filter (λ s, unsubscribe_keeps cid group s) subs) < length subs)%nat); [|lia].
        apply length_filter_lt with x; [done|]. intros Hk2. by rewrite Hkeep in Hk2.
  - split.
    + intros k. destruct (decide _) as [Hk|]; [|done].
      by rewrite <-(get_levels_key k), <-Hk, get_levels_key, Hg.
    + split; [done|]. intros (x & Hx & _). by apply not_elem_of_nil in Hx.
Qed.

Lemma subs_ok_filter (P : Subscription → Prop) `{!∀ x, Decision (P x)} subs :
  NoDup (subscriber <$> subs) → NoDup (subscriber <$> filter P subs).
Proof.
  intros Hnd. eapply sublist_NoDup; [exact Hnd|]. apply fmap_sublist, sublist_filter.
Qed.

Lemma subs_ok_subscribe subs sub :
  NoDup (subscriber <$> subs) →
  NoDup (subscriber <$> filter (λ s, negb (same_subscriber s sub)) subs ++ [sub]).
Proof.
  intros Hnd. rewrite fmap_app. apply NoDup_app. split_and!.
  - by apply subs_ok_filter.
  - intros x (s & -> & Hs)%list_elem_of_fmap Hx%list_elem_of_singleton.
    apply list_elem_of_filter in Hs as [Hs _].
    apply same_subscriber_spec in Hx. by rewrite Hx in Hs.
  - apply NoDup_singleton.
Qed.

Lemma trie_ok_acts levels g t t' :
  trie_ok t → acts_at levels g t t' →
  (∀ o, (∀ subs, o = Some subs → subs_ok subs) → ∀ subs, g o = Some subs → subs_ok subs) →
  trie_ok t'.
Proof.
  intros Ht Ha Hg k subs. rewrite Ha. destruct (decide _); [|apply Ht].
  apply Hg. apply Ht.
Qed.

Lemma trie_ok_subscribe f sub t : trie_ok t → trie_ok (trie_subscribe f sub t).
Proof.
  intros Ht. eapply trie_ok_acts; [done|apply trie_subscribe_acts|].
  intros o Ho subs [= <-]. split; [by destruct (filter _ _)|]. apply subs_ok_subscribe.
  destruct o as [l|]; [by apply Ho|constructor].
Qed.

Lemma trie_ok_unsubscribe f cid group t : trie_ok t → trie_ok (trie_unsubscribe f cid group t).1.
Proof.
  intros Ht. eapply trie_ok_acts; [done|apply trie_unsubscribe_acts|].
  intros [l|] Ho subs; [|done]. unfold keep_subs. cbn.
  destruct (filter _ l) as [|x l'] eqn:E; [done|]. intros [= <-]. split; [done|].
  rewrite <-E. apply subs_ok_filter. by apply Ho.
Qed.

Lemma trie_ok_unsubscribe_all cid t : trie_ok t → trie_ok (remove_by_predicate (drop_client cid) t).
Proof.
  intros Ht k subs. rewrite remove_by_predicate_at.
  destruct (at_key k t) as [l|] eqn:E; [|done]. cbn. unfold drop_client.
  destruct (filter _ l) as [|x l'] eqn:El; [done|]. cbn. intros [= <-]. split; [done|].
  rewrite <-El. apply subs_ok_filter. by eapply Ht.
Qed.

(** An unsubscription that removes nothing leaves the trie as it is. *)
Lemma trie_unsubscribe_false f cid group t :
  trie_ok t → (trie_unsubscribe f cid group t).2 = false → (trie_unsubscribe f cid group t).1 = t.
Proof.
  intros Ht. unfold trie_unsubscribe. rewrite get_mut_at_key.
  destruct (at_key (split "/" f) t) as [subs|] eqn:Hg; [|done]. cbn.
  intros Hr%negb_false_iff%Nat.eqb_eq.
  assert (Hs : filter (λ s, unsubscribe_keeps cid group s) subs = subs).
  { by apply filter_same_length. }
  rewrite Hs. apply Ht in Hg as Hok. destruct subs as [|x l]; [by destruct Hok as [[] _]|].
  cbn [is_nil]. apply update_levels_same. by rewrite <-Hg, <-get_mut_at_key.
Qed.

(** ** Lemmas: collecting and picking *)

(** The members of a share group among some subscriptions. *)
Definition members (g : string) (all : list Subscription) : list Subscription :=
  filter (λ s, share_group s = Some g) all.

Lemma foldl_push_shared all groups g :
  foldl push_shared groups all !! g =
    match default [] (groups !! g) ++ members g all with
    | [] => groups !! g
    | l => Some l
    end.
Proof.
  revert groups. induction all as [|s all IH]; intros groups; cbn [foldl].
  { cbn. rewrite app_nil_r. destruct (groups !! g) as [[|]|]; done. }
  rewrite IH. unfold push_shared, members.
  destruct (share_group s) as [h|] eqn:Hs.
  - destruct (decide (h = g)) as [->|Hne].
    + rewrite lookup_insert_eq. cbn [from_option id]. rewrite filter_cons_True by done.
      rewrite <-app_assoc. cbn [app]. by destruct (default [] (groups !! g)).
    + rewrite lookup_insert_ne by done. rewrite filter_cons_False by congruence. done.
  - rewrite filter_cons_False by congruence. done.
Qed.

Lemma collect_groups topic t g :
  (collect topic t).2 !! g =
    match members g (mjoin (matches topic t)) with [] => None | l => Some l end.
Proof. unfold collect. cbn. rewrite foldl_push_shared, lookup_empty. cbn. done. Qed.

Lemma pick_members_spec L counters acc :
  NoDup L.*1 → Forall (λ e : string * list Subscription, e.2 ≠ []) L →
  foldl pick_member (counters, acc) L =
    (foldl (λ m e, <[e.1 := wrap_u64 (default 0 (counters !! e.1) + 1)]> m) counters L,
     acc ++ mjoin ((λ e, option_list (e.2 !! Z.to_nat (default 0 (counters !! e.1) mod zlen e.2))) <$> L)).
Proof.
  revert counters acc. induction L as [|[g subs] L IH]; intros counters acc Hnd Hne.
  { cbn. by rewrite app_nil_r. }
  apply NoDup_cons in Hnd as [Hg Hnd]. apply Forall_cons in Hne as [Hs Hne]. cbn [foldl pick_member].
  replace (is_nil subs) with false by (by destruct subs). rewrite IH by done.
  assert (Hext : ∀ e, e ∈ L → <[g:=wrap_u64 (default 0 (counters !! g) + 1)]> counters !! e.1 = counters !! e.1).
  { intros e He. apply lookup_insert_ne. intros ->. apply Hg. cbn. by apply (list_elem_of_fmap_2 fst). }
  f_equal.
  - cbn [fst foldl]. apply foldl_ext_elem. intros e He m. by rewrite Hext.
  - rewrite <-app_assoc. f_equal. cbn. f_equal. f_equal. apply list_fmap_ext.
    intros i e He. rewrite Hext; [done|]. by eapply list_elem_of_lookup_2.
Qed.

(** The counters after a round of picks. *)
Lemma pick_counters_lookup L (counters m : gmap string Z) g :
  NoDup L.*1 →
  foldl (λ m (e : string * list Subscription), <[e.1 := wrap_u64 (default 0 (counters !! e.1) + 1)]> m) m L !! g =
    if decide (g ∈ L.*1) then Some (wrap_u64 (default 0 (counters !! g) + 1)) else m !! g.
Proof.
  revert m. induction L as [|[h subs] L IH]; intros m Hnd; cbn [foldl].
  { destruct (decide _) as [Hg|]; [|done]. by apply not_elem_of_nil in Hg. }
  apply NoDup_cons in Hnd as [Hh Hnd]. rewrite IH by done. cbn [fst].
  destruct (decide (g ∈ L.*1)) as [Hg|Hg].
  - rewrite decide_True; [done|]. cbn. by constructor.
  - destruct (decide (g ∈ (_ :: L).*1)) as [Hg'|Hg']; cbn in Hg'.
    + apply elem_of_cons in Hg' as [->|]; [|done]. by rewrite lookup_insert_eq.
    + apply not_elem_of_cons in Hg' as [Hne _]. by rewrite lookup_insert_ne.
Qed.

Lemma groups_nonempty topic t g subs :
  (collect topic t).2 !! g = Some subs → subs ≠ [] ∧ Forall (λ s, share_group s = Some g) subs.
Proof.
  rewrite collect_groups. destruct (members g _) as [|x l] eqn:E; [done|]. intros [= <-].
  split; [done|]. rewrite <-E. apply Forall_forall. intros s. unfold members.
  by intros [? _]%list_elem_of_filter.
Qed.

Lemma map_to_list_fst {A} (m : gmap string A) g : g ∈ (map_to_list m).*1 ↔ is_Some (m !! g).
Proof.
  rewrite list_elem_of_fmap. split.
  - intros ([h x] & -> & Hx%elem_of_map_to_list). eauto.
  - intros [x Hx]. exists (g, x). split; [done|]. by apply elem_of_map_to_list.
Qed.

(** The pick of one share group. *)
Definition pick_of (counters : gmap string Z) (g : string) (subs : list Subscription) : list Subscription :=
  option_list (subs !! Z.to_nat (default 0 (counters !! g) mod zlen subs)).

Lemma compute_matches_spec topic s :
  ∃ counters, compute_matches topic s =
    ((collect topic (trie s)).1 ++
       mjoin ((λ e, pick_of (share_counters s) e.1 e.2) <$> map_to_list (collect topic (trie s)).2),
     counters, negb (bool_decide ((collect topic (trie s)).2 = ∅))) ∧
  ∀ g, counters !! g =
    if decide (is_Some ((collect topic (trie s)).2 !! g))
    then Some (wrap_u64 (default 0 (share_counters s !! g) + 1)) else share_counters s !! g.
Proof.
  unfold compute_matches.
  pose proof (groups_nonempty topic (trie s)) as Hne. destruct (collect topic (trie s)) as [direct groups].
  cbn [fst snd] in *. rewrite pick_members_spec.
  - eexists. split; [done|]. intros g. rewrite pick_counters_lookup by apply NoDup_fst_map_to_list.
    apply decide_ext, map_to_list_fst.
  - apply NoDup_fst_map_to_list.
  - apply Forall_forall. intros [g subs] He%elem_of_map_to_list. by apply (Hne g).
Qed.

Lemma compute_matches_no_groups topic s direct :
  collect topic (trie s) = (direct, ∅) → compute_matches topic s = (direct, share_counters s, false).
Proof.
  intros Hc. unfold compute_matches. rewrite Hc, map_to_list_empty. cbn. by rewrite bool_decide_true.
Qed.

(** A pick is a member of its group. *)
Lemma pick_of_spec counters g subs :
  subs ≠ [] → ∃ x, subs !! Z.to_nat (default 0 (counters !! g) mod zlen subs) = Some x ∧
                   pick_of counters g subs = [x] ∧ x ∈ subs.
Proof.
  intros Hne. unfold pick_of.
  destruct (subs !! Z.to_nat (default 0 (counters !! g) mod zlen subs)) as [x|] eqn:E.
  - exists x. split_and!; [done..|]. by eapply list_elem_of_lookup_2.
  - apply lookup_ge_None in E. assert (0 < zlen subs) by (destruct subs; [done|]; unfold zlen; cbn; lia).
    unfold zlen in *. pose proof (Z.mod_pos_bound (default 0 (counters !! g)) (Z.of_nat (length subs))). lia.
Qed.

Lemma mjoin_at_key {A B} (L : list (string * A)) g (f : A → list B) :
  NoDup L.*1 →
  mjoin ((λ e, if decide (e.1 = g) then f e.2 else []) <$> L) =
    match (list_to_map L : gmap string A) !! g with Some x => f x | None => [] end.
Proof.
  induction L as [|[h x] L IH]; intros Hnd; [done|]. apply NoDup_cons in Hnd as [Hh Hnd].
  rewrite fmap_cons, list_to_map_cons, lookup_insert. rewrite mjoin_cons. cbn [fst snd]. rewrite IH by done.
  destruct (decide (h = g)) as [->|]; [|done].
  rewrite not_elem_of_list_to_map_1 by done. by rewrite app_nil_r.
Qed.

(** Restricting a round of picks to one group. *)
Lemma picks_of_group counters (groups : gmap string (list Subscription)) g :
  (∀ h subs, groups !! h = Some subs → subs ≠ [] ∧ Forall (λ s, share_group s = Some h) subs) →
  members g (mjoin ((λ e, pick_of counters e.1 e.2) <$> map_to_list groups)) =
    match groups !! g with Some subs => pick_of counters g subs | None => [] end.
Proof.
  intros Hg.
  assert (HL : Forall (λ e, e.2 ≠ [] ∧ Forall (λ s, share_group s = Some e.1) e.2) (map_to_list groups)).
  { apply Forall_forall. intros [h subs] He%elem_of_map_to_list. by apply Hg. }
  rewrite <-(list_to_map_to_list groups) at 2.
  rewrite <-mjoin_at_key by apply NoDup_fst_map_to_list.
  clear Hg. induction HL as [|[h subs] L [Hs Hm] HL IH]; [done|].
  rewrite !fmap_cons, !mjoin_cons. cbn [fst snd] in *. rewrite <-IH. unfold members.
  rewrite filter_app. f_equal.
  destruct (pick_of_spec counters h subs Hs) as (x & _ & Hp & Hx). rewrite Hp.
  rewrite Forall_forall in Hm. specialize (Hm x Hx). destruct (decide (h = g)) as [->|Hne].
  - by rewrite filter_cons_True, Hp by done.
  - by rewrite filter_cons_False by congruence.
Qed.

(** ** Lemmas: the invariant of the store *)

(** Cached generations are not ahead of the counter. *)
Definition cache_gens_ok (s : SubscriptionStore) : Prop :=
  ∀ topic c, topic_cache s !! topic = Some c → 0 ≤ cached_generation c ≤ generation s.

Lemma invalidate_wf s :
  trie_ok (trie s) → map_len (topic_cache s) ≤ TOPIC_CACHE_MAX_SIZE → cache_gens_ok s →
  0 ≤ generation s < 2 ^ 64 - 1 → store_wf (invalidate_cache s).
Proof.
  intros Ht Hl Hc Hg. unfold invalidate_cache.
  destruct (map_len _ >? _) eqn:E; unfold store_wf, cache_ok; unfold set_field; simpl;
    (replace (wrap_u64 (generation s + 1)) with (generation s + 1) by (unfold wrap_u64; zdm));
    (split_and!; [done|lia|lia|done|]).
  - intros topic c. by rewrite lookup_empty.
  - intros topic c Hk. specialize (Hc topic c Hk). split; lia.
Qed.

Lemma store_wf_gens s : store_wf s → cache_gens_ok s.
Proof. intros (_ & _ & _ & Hc) topic c Hl. by apply (Hc topic c). Qed.

(** The filter that [subscribe] and [unsubscribe] act on and the share group. *)
Definition filter_target (f : string) : string * option string :=
  match parse_shared_subscription f with
  | Some (group, actual) => (actual, Some group)
  | None => (f, None)
  end.

Definition with_group (f : string) (sub : Subscription) : Subscription :=
  match parse_shared_subscription f with
  | Some (group, _) => sub <| share_group := Some group |>
  | None => sub
  end.

Lemma subscribe_eq f sub s :
  ∃ counters, subscribe f sub s =
    invalidate_cache (MkStore (trie_subscribe (filter_target f).1 (with_group f sub) (trie s))
                        counters (topic_cache s) (generation s)).
Proof.
  unfold subscribe, filter_target, with_group, set_field.
  destruct (parse_shared_subscription f) as [[g a]|]; simpl; eauto.
Qed.

Lemma unsubscribe_eq f cid s :
  let r := trie_unsubscribe (filter_target f).1 cid (filter_target f).2 (trie s) in
  unsubscribe f cid s =
    (if r.2 then invalidate_cache (MkStore r.1 (share_counters s) (topic_cache s) (generation s))
     else MkStore r.1 (share_counters s) (topic_cache s) (generation s), r.2).
Proof.
  unfold unsubscribe, filter_target, set_field.
  destruct (parse_shared_subscription f) as [[g a]|]; simpl; by destruct (trie_unsubscribe _ _ _ _).
Qed.

Lemma unsubscribe_all_eq cid s :
  unsubscribe_all cid s =
    invalidate_cache (MkStore (remove_by_predicate (drop_client cid) (trie s))
                        (share_counters s) (topic_cache s) (generation s)).
Proof. done. Qed.

Lemma trie_invalidate s : trie (invalidate_cache s) = trie s.
Proof. unfold invalidate_cache, set_field. simpl. by destruct (_ >? _). Qed.

Lemma generation_invalidate s : generation (invalidate_cache s) = wrap_u64 (generation s + 1).
Proof. unfold invalidate_cache, set_field. simpl. by destruct (_ >? _). Qed.

(** [matches] with and without the cache. *)
Lemma store_matches_cases topic s :
  store_wf s →
  let r := compute_matches topic s in
  (store_matches topic s).1 = r.1.1 ∧
  ∃ cache, (store_matches topic s).2 = MkStore (trie s) r.1.2 cache (generation s) ∧
    (cache = topic_cache s ∨
     collect topic (trie s) = (r.1.1, ∅) ∧ map_len (topic_cache s) < TOPIC_CACHE_MAX_SIZE ∧
     cache = <[topic := MkCachedMatch r.1.1 (generation s)]> (topic_cache s)).
Proof.
  intros (Ht & Hg & Hl & Hc). unfold store_matches.
  destruct (compute_matches topic s) as [[result counters] has] eqn:E. cbn [fst snd].
  assert (Hmiss : has = false → collect topic (trie s) = (result, ∅)).
  { intros ->. destruct (compute_matches_spec topic s) as (c & Hr & _). rewrite E in Hr.
    destruct (collect topic (trie s)) as [d gs]. cbn [fst snd] in Hr.
    destruct (bool_decide_reflect (gs = ∅)) as [He|]; [|done].
    rewrite He, map_to_list_empty in Hr. cbn in Hr. rewrite app_nil_r in Hr. injection Hr as ->. by f_equal. }
  assert (Hmiss' : let r := (result, if negb has && (map_len (topic_cache s) <? TOPIC_CACHE_MAX_SIZE)
      then MkStore (trie s) counters (<[topic := MkCachedMatch result (generation s)]> (topic_cache s)) (generation s)
      else MkStore (trie s) counters (topic_cache s) (generation s)) in
    r.1 = result ∧ ∃ cache, r.2 = MkStore (trie s) counters cache (generation s) ∧
      (cache = topic_cache s ∨
       collect topic (trie s) = (result, ∅) ∧ map_len (topic_cache s) < TOPIC_CACHE_MAX_SIZE ∧
       cache = <[topic := MkCachedMatch result (generation s)]> (topic_cache s))).
  { cbn. split; [done|]. destruct has; cbn; [by eauto|].
    destruct (_ <? _) eqn:E'; [apply Z.ltb_lt in E'|]; eauto 7. }
  destruct (topic_cache s !! topic) as [c|] eqn:El; [|exact Hmiss'].
  destruct (cached_generation c =? generation s) eqn:Eg; [|exact Hmiss'].
  apply Z.eqb_eq in Eg. destruct (Hc topic c El) as [_ Hcol]. specialize (Hcol Eg).
  rewrite (compute_matches_no_groups _ _ _ Hcol) in E. injection E as <- <- <-.
  split; [done|]. exists (topic_cache s). split; [by destruct s|by left].
Qed.

Lemma store_matches_wf topic s :
  store_wf s →
  store_wf (store_matches topic s).2 ∧ trie (store_matches topic s).2 = trie s.
Proof.
  intros Hwf. split.
  - pose proof Hwf as (Ht & Hg & Hl & Hc).
    destruct (store_matches_cases topic s Hwf) as (_ & cache & -> & Hcache).
    split_and!; [done|cbn; lia|cbn; lia| |]; cbn.
    { destruct Hcache as [->|(_ & Hlt & ->)]; [done|]. unfold map_len in *.
      destruct (topic_cache s !! topic) eqn:El;
        [rewrite map_size_insert_Some by eauto|rewrite map_size_insert_None by done]; lia. }
    intros topic' c. cbn. destruct Hcache as [->|(Hcol & _ & ->)]; [apply Hc|].
    rewrite lookup_insert. destruct (decide (topic = topic')) as [<-|]; [|apply Hc].
    intros [= <-]. cbn. split; [lia|]. by intros _.
  - by destruct (store_matches_cases topic s Hwf) as (_ & cache & -> & _).
Qed.

(** ** Sequences of operations *)
Inductive store_op : Type :=
  | OpSubscribe (f : string) (sub : Subscription)
  | OpUnsubscribe (f cid : string)
  | OpUnsubscribeAll (cid : string)
  | OpMatches (topic : string)
  | OpMatchesWithCallback (topic : string).

Definition run_op (s : SubscriptionStore) (op : store_op) : SubscriptionStore :=
  match op with
  | OpSubscribe f sub => subscribe f sub s
  | OpUnsubscribe f cid => (unsubscribe f cid s).1
  | OpUnsubscribeAll cid => unsubscribe_all cid s
  | OpMatches topic => (store_matches topic s).2
  | OpMatchesWithCallback topic => (matches_with_callback topic s).2
  end.

Lemma invalidate_step t counters s :
  store_wf s → trie_ok t → generation s < 2 ^ 64 - 1 →
  let s' := invalidate_cache (MkStore t counters (topic_cache s) (generation s)) in
  store_wf s' ∧ generation s' = generation s + 1.
Proof.
  intros Hwf Ht Hg. pose proof Hwf as (_ & Hg' & Hl & _). split.
  - apply invalidate_wf; [done..| |cbn; lia]. apply (store_wf_gens s Hwf).
  - rewrite generation_invalidate. cbn. unfold wrap_u64. zdm.
Qed.

Lemma run_op_wf op s :
  store_wf s → generation s < 2 ^ 64 - 1 →
  store_wf (run_op s op) ∧ generation (run_op s op) ≤ generation s + 1.
Proof.
  intros Hwf Hg. pose proof Hwf as (Ht & Hg' & Hl & Hc).
  destruct op as [f sub|f cid|cid|topic|topic]; cbn [run_op].
  - destruct (subscribe_eq f sub s) as [counters ->].
    destruct (invalidate_step (trie_subscribe (filter_target f).1 (with_group f sub) (trie s)) counters s)
      as [? ->]; [done|by apply trie_ok_subscribe|done|]. split; [done|lia].
  - rewrite unsubscribe_eq. cbn [fst].
    set (r := trie_unsubscribe _ _ _ _). destruct r.2 eqn:Hr.
    + destruct (invalidate_step r.1 (share_counters s) s) as [? ->]; [done|by apply trie_ok_unsubscribe|done|].
      split; [done|lia].
    + unfold r. rewrite trie_unsubscribe_false by done. cbn. split; [by destruct s|lia].
  - rewrite unsubscribe_all_eq. destruct (invalidate_step (remove_by_predicate (drop_client cid) (trie s))
      (share_counters s) s) as [? ->]; [done|by apply trie_ok_unsubscribe_all|done|]. split; [done|lia].
  - split; [by apply store_matches_wf|].
    destruct (store_matches_cases topic s Hwf) as (_ & cache & -> & _). cbn. lia.
  - unfold matches_with_callback. destruct (compute_matches topic s) as [[result counters] has].
    unfold set_field. cbn. split; [by split|lia].
Qed.

Lemma run_ops_wf ops s :
  store_wf s → generation s + zlen ops < 2 ^ 64 →
  store_wf (foldl run_op s ops) ∧ generation (foldl run_op s ops) ≤ generation s + zlen ops.
Proof.
  revert s. induction ops as [|op ops IH]; intros s Hwf Hn; [cbn; unfold zlen; cbn; split; [done|lia]|].
  rewrite zlen_cons in Hn |- *. assert (0 ≤ zlen ops) by (unfold zlen; lia). cbn [foldl].
  destruct (run_op_wf op s) as [Hwf' Hg]; [done|lia|].
  destruct (IH (run_op s op)) as [? ?]; [done|lia|]. split; [done|lia].
Qed.

Lemma store_wf_new : store_wf SubscriptionStore_new.
Proof.
  split_and!; [|cbn; lia|cbn; lia|done|].
  - intros k subs. cbn [trie SubscriptionStore_new]. by rewrite at_key_new.
  - intros topic c. cbn [topic_cache SubscriptionStore_new]. by rewrite lookup_empty.
Qed.

(** ** Lemmas: round robin *)

(** [n] calls of [matches] in a row: the results in order. *)
Fixpoint matches_n (n : nat) (topic : string) (s : SubscriptionStore) : list (list Subscription) :=
  match n with
  | O => []
  | S n => let '(r, s) := store_matches topic s in r :: matches_n n topic s
  end.

Lemma rotation_Permutation {A} (l : list A) (m : nat) :
  (m ≤ length l)%nat →
  mjoin ((λ i, option_list (l !! ((m + i) mod length l)%nat)) <$> seq 0 (length l)) ≡ₚ l.
Proof.
  intros Hm. transitivity (drop m l ++ take m l); [|by rewrite Permutation_app_comm, take_drop].
  apply Permutation_refl'. apply list_eq. intros i.
  assert (Hgen : ∀ n, (n ≤ length l)%nat →
    mjoin ((λ i, option_list (l !! ((m + i) mod length l)%nat)) <$> seq 0 n) = take n (drop m l ++ take m l)).
  { induction n as [|n IH]; intros Hn; [done|].
    rewrite seq_S, fmap_app, join_app, IH by lia. cbn [fmap list_fmap Nat.add]. rewrite mjoin_cons. cbn.
    assert (Hl : (drop m l ++ take m l) !! n = l !! ((m + n) mod length l)%nat).
    { destruct (decide (m + n < length l)%nat).
      - rewrite lookup_app_l by (rewrite length_drop; lia). rewrite lookup_drop. by rewrite Nat.mod_small by lia.
      - rewrite lookup_app_r by (rewrite length_drop; lia). rewrite length_drop.
        replace ((m + n) mod length l)%nat with (n - (length l - m))%nat.
        + apply lookup_take_lt. lia.
        + apply Nat.mod_unique with 1%nat; lia. }
    rewrite <-Hl. destruct (lookup_lt_is_Some_2 (drop m l ++ take m l) n) as [x Hx];
      [rewrite length_app, length_drop, length_take; lia|].
    rewrite Hx. cbn. by rewrite (take_S_r _ _ x). }
  rewrite Hgen by lia. rewrite take_ge; [done|]. rewrite length_app, length_drop, length_take. lia.
Qed.

(** One call of [matches], restricted to a share group. *)
Lemma store_matches_members topic s g :
  store_wf s →
  let ms := members g (mjoin (matches topic (trie s))) in
  let c := default 0 (share_counters s !! g) in
  members g (store_matches topic s).1 =
    (if is_nil ms then [] else option_list (ms !! Z.to_nat (c mod zlen ms))) ∧
  share_counters (store_matches topic s).2 !! g =
    (if is_nil ms then share_counters s !! g else Some (wrap_u64 (c + 1))).
Proof.
  intros Hwf. destruct (store_matches_cases topic s Hwf) as (-> & cache & -> & _).
  destruct (compute_matches_spec topic s) as (counters & -> & Hc). cbn [fst snd share_counters].
  rewrite Hc. unfold members at 1. rewrite filter_app. fold (members g).
  rewrite (filter_none _ (collect topic (trie s)).1).
  - cbn [app]. fold (members g (mjoin ((λ e, pick_of (share_counters s) e.1 e.2) <$>
      map_to_list (collect topic (trie s)).2))).
    rewrite (picks_of_group _ _ g (groups_nonempty topic (trie s))), collect_groups.
    unfold pick_of. by destruct (members g (mjoin _)).
  - apply Forall_forall. intros x Hx Hg. cbn in Hx. apply list_elem_of_filter in Hx as [Hx _].
    unfold is_shared in Hx. by rewrite Hg in Hx.
Qed.

Lemma store_matches_direct topic s :
  store_wf s →
  filter (λ x, share_group x = None) (store_matches topic s).1 =
  filter (λ x, share_group x = None) (mjoin (matches topic (trie s))).
Proof.
  intros Hwf. destruct (store_matches_cases topic s Hwf) as (-> & _).
  destruct (compute_matches_spec topic s) as (counters & -> & _). cbn [fst].
  rewrite filter_app. rewrite (filter_none _ (mjoin _)).
  - rewrite app_nil_r. cbn. rewrite list_filter_filter. apply list_filter_iff.
    intros x. unfold is_shared. destruct (share_group x); naive_solver.
  - apply Forall_forall. intros x Hx Hn. apply list_elem_of_join in Hx as (l & Hx & Hl).
    apply list_elem_of_fmap in Hl as ([g subs] & -> & He%elem_of_map_to_list).
    destruct (groups_nonempty _ _ _ _ He) as [Hne Hm].
    destruct (pick_of_spec (share_counters s) g subs Hne) as (y & _ & Hp & Hy). cbn in Hx.
    rewrite Hp in Hx. apply list_elem_of_singleton in Hx as ->.
    rewrite Forall_forall in Hm. specialize (Hm y Hy). congruence.
Qed.

Lemma matches_n_picks n topic g s c :
  let ms := members g (mjoin (matches topic (trie s))) in
  store_wf s → ms ≠ [] → default 0 (share_counters s !! g) = c → 0 ≤ c → c + Z.of_nat n < 2 ^ 64 →
  mjoin (members g <$> matches_n n topic s) =
  mjoin ((λ i, option_list (ms !! Z.to_nat ((c + Z.of_nat i) mod zlen ms))) <$> seq 0 n).
Proof.
  intros ms Hwf Hms. subst ms. revert s c Hwf Hms. induction n as [|n IH]; intros s c Hwf Hms Hc H0 Hn; [done|].
  cbn [matches_n]. destruct (store_matches topic s) as [r s'] eqn:E.
  destruct (store_matches_members topic s g Hwf) as [Hr Hc']. destruct (store_matches_wf topic s Hwf) as [Hwf' Ht].
  rewrite E in Hr, Hc', Hwf', Ht. cbn [fst snd] in *.
  rewrite fmap_cons, mjoin_cons. cbn [seq]. rewrite fmap_cons, mjoin_cons.
  destruct (is_nil _) eqn:En; [by destruct (members g (mjoin (matches topic (trie s))))|].
  rewrite Hr, Hc, Z.add_0_r. f_equal. rewrite (IH s' (c + 1)), Ht; [|by rewrite ?Ht..| |lia|lia].
  - rewrite <-(fmap_S_seq 0 n), <-list_fmap_compose. f_equal. apply list_fmap_ext. intros i x _. cbn [compose].
    by replace (c + 1 + Z.of_nat x) with (c + Z.of_nat (S x)) by lia.
  - rewrite Hc', Hc. cbn. unfold wrap_u64. zdm.
Qed.

(** ** Lemmas: the entries after an operation *)
Lemma unsubscribe_keeps_spec cid group x :
  unsubscribe_keeps cid group x = true ↔ subscriber x ≠ (cid, group).
Proof.
  unfold unsubscribe_keeps, subscriber.
  destruct (String.eqb_spec (client_id x) cid) as [->|]; cbn; [|naive_solver].
  destruct (share_group x) as [g|], group as [h|]; [destruct (String.eqb_spec g h)| | |]; naive_solver.
Qed.

Lemma subs_at_subscribe f sub s f' :
  valid_filter (filter_target f).1 → valid_filter f' →
  subs_at f' (subscribe f sub s) =
    if decide ((filter_target f).1 = f')
    then filter (λ x, subscriber x ≠ subscriber (with_group f sub)) (subs_at f' s) ++ [with_group f sub]
    else subs_at f' s.
Proof.
  intros Hf Hf'. destruct (subscribe_eq f sub s) as [counters ->]. unfold subs_at. rewrite trie_invalidate. cbn.
  rewrite (get_mut_acts _ _ _ _ f' Hf Hf' (trie_subscribe_acts _ _ (trie s))).
  destruct (decide _); [|done]. cbn. f_equal. apply list_filter_iff. intros x.
  rewrite <-same_subscriber_spec. destruct (same_subscriber _ _); naive_solver.
Qed.

Lemma subs_at_unsubscribe f cid s f' :
  valid_filter (filter_target f).1 → valid_filter f' →
  subs_at f' (unsubscribe f cid s).1 =
    if decide ((filter_target f).1 = f')
    then filter (λ x, subscriber x ≠ (cid, (filter_target f).2)) (subs_at f' s)
    else subs_at f' s.
Proof.
  intros Hf Hf'. rewrite unsubscribe_eq. cbn [fst]. set (r := trie_unsubscribe _ _ _ _).
  transitivity (default [] (get_mut f' r.1)).
  { destruct r.2; [|done]. unfold subs_at. by rewrite trie_invalidate. }
  unfold r. rewrite (get_mut_acts _ _ _ _ f' Hf Hf' (proj1 (trie_unsubscribe_acts _ _ _ (trie s)))).
  destruct (decide _) as [<-|]; [|done]. unfold subs_at.
  destruct (get_mut _ _) as [l|]; [|done]. unfold keep_subs. cbn.
  rewrite (list_filter_iff (λ x, subscriber x ≠ (cid, (filter_target f).2))
             (λ x, unsubscribe_keeps cid (filter_target f).2 x)).
  - by destruct (filter _ l).
  - intros x. by rewrite <-unsubscribe_keeps_spec, Is_true_true.
Qed.

Lemma unsubscribe_removed f cid s :
  (unsubscribe f cid s).2 = true ↔
  (cid, (filter_target f).2) ∈ subscriber <$> subs_at (filter_target f).1 s.
Proof.
  rewrite unsubscribe_eq. cbn [snd]. rewrite (proj2 (trie_unsubscribe_acts _ _ _ (trie s))).
  rewrite list_elem_of_fmap. unfold subs_at. split.
  - intros (x & Hx & Hk). exists x. split; [|done].
    destruct (decide (subscriber x = (cid, (filter_target f).2))) as [|Hn]; [done|].
    apply unsubscribe_keeps_spec in Hn. congruence.
  - intros (x & Hx & Hin). exists x. split; [done|]. apply not_true_iff_false.
    rewrite unsubscribe_keeps_spec. intros Hn. by apply Hn.
Qed.

Lemma subs_at_unsubscribe_all cid s f :
  subs_at f (unsubscribe_all cid s) = filter (λ x, client_id x ≠ cid) (subs_at f s).
Proof.
  rewrite unsubscribe_all_eq. unfold subs_at. rewrite trie_invalidate. cbn.
  rewrite get_mut_remove_by_predicate. destruct (get_mut f (trie s)) as [l|]; [|done]. cbn.
  unfold drop_client. rewrite (list_filter_iff _ (λ x, client_id x ≠ cid)).
  - by destruct (filter _ l).
  - intros x. destruct (String.eqb_spec (client_id x) cid); naive_solver.
Qed.

(** ** Theorems *)

(** C12. The store implements its specification: below valid filters, a
    subscription replaces the client's previous entry of the same share group
    under the target filter and touches nothing else; an unsubscription removes
    exactly the client's entry with the filter's share group and reports
    whether there was one; [unsubscribe_all] removes every entry of the client. *)
Theorem store_operations (s : SubscriptionStore) f sub cid f' :
  valid_filter (filter_target f).1 → valid_filter f' →
  subs_at f' (subscribe f sub s) =
    (if decide ((filter_target f).1 = f')
     then filter (λ x, subscriber x ≠ subscriber (with_group f sub)) (subs_at f' s) ++ [with_group f sub]
     else subs_at f' s) ∧
  subs_at f' (unsubscribe f cid s).1 =
    (if decide ((filter_target f).1 = f')
     then filter (λ x, subscriber x ≠ (cid, (filter_target f).2)) (subs_at f' s)
     else subs_at f' s) ∧
  ((unsubscribe f cid s).2 = true ↔
   (cid, (filter_target f).2) ∈ subscriber <$> subs_at (filter_target f).1 s) ∧
  subs_at f' (unsubscribe_all cid s) = filter (λ x, client_id x ≠ cid) (subs_at f' s).
Proof.
  intros Hf Hf'.
  split_and!; auto using subs_at_subscribe, subs_at_unsubscribe, unsubscribe_removed, subs_at_unsubscribe_all.
Qed.

(** The store after two clients subscribed, one of them in a share group. *)
Definition example_sub (cid : string) : Subscription := MkSubscription cid AtLeastOnce false false None None.

Definition example_store : SubscriptionStore :=
  subscribe "$share/g/a/+" (example_sub "c3")
    (subscribe "$share/g/a/+" (example_sub "c2") (subscribe "a/b" (example_sub "c1") SubscriptionStore_new)).

Lemma store_operations_witness :
  subs_at "a/b" (subscribe "a/b" (example_sub "c2") example_store) = [example_sub "c1"; example_sub "c2"] ∧
  (unsubscribe "a/b" "c2" example_store).2 = false ∧
  subs_at "a/b" (unsubscribe_all "c1" example_store) = [].
Proof.
  destruct (store_operations example_store "a/b" (example_sub "c2") "c2" "a/b") as (H1 & _ & H3 & _);
    [reflexivity..|].
  destruct (store_operations example_store "a/b" (example_sub "c2") "c1" "a/b") as (_ & _ & _ & H4);
    [reflexivity..|].
  split_and!.
  - rewrite H1. vm_compute. reflexivity.
  - apply not_true_iff_false. rewrite H3. apply (bool_decide_eq_false_1 _). vm_compute. reflexivity.
  - rewrite H4. vm_compute. reflexivity.
Defined.

(** C13. Every store reached from the empty one by fewer than [2^64]
    operations is well formed: no stored list is empty or holds a subscriber
    twice, the cache has at most [TOPIC_CACHE_MAX_SIZE] entries, and a cached
    result whose generation is current is what the trie gives now. *)
Theorem store_invariant ops :
  zlen ops < 2 ^ 64 → store_wf (foldl run_op SubscriptionStore_new ops).
Proof. intros Hn. apply run_ops_wf; [apply store_wf_new|cbn; lia]. Qed.

Lemma store_invariant_witness :
  store_wf (foldl run_op SubscriptionStore_new
    [OpSubscribe "a/+" (example_sub "c1"); OpMatches "a/b"; OpUnsubscribe "a/+" "c1"]).
Proof. apply store_invariant. reflexivity. Defined.

(** The cache is transparent: in a well-formed store [matches] returns the
    same subscriptions and advances the same share counters as the uncached
    [matches_with_callback]. *)
Theorem cache_transparent topic s :
  store_wf s →
  (store_matches topic s).1 = (matches_with_callback topic s).1 ∧
  share_counters (store_matches topic s).2 = share_counters (matches_with_callback topic s).2 ∧
  trie (store_matches topic s).2 = trie s ∧ trie (matches_with_callback topic s).2 = trie s.
Proof.
  intros Hwf. destruct (store_matches_cases topic s Hwf) as (-> & cache & -> & _).
  unfold matches_with_callback. by destruct (compute_matches topic s) as [[??]?].
Qed.

Lemma cache_transparent_witness :
  let s := (store_matches "x" (subscribe "x" (example_sub "c1") SubscriptionStore_new)).2 in
  topic_cache s !! "x"%string = Some (MkCachedMatch [example_sub "c1"] 1) ∧
  (store_matches "x" s).1 = (matches_with_callback "x" s).1.
Proof.
  split; [by vm_compute|]. apply cache_transparent.
  exact (proj1 (run_ops_wf [OpSubscribe "x" (example_sub "c1"); OpMatches "x"] _ store_wf_new eq_refl)).
Defined.

(** C9. What [matches] delivers for a valid topic name, in a well-formed
    store: the entries without a share group of exactly the stored filters
    that match the topic, each once per entry; and, for each share group with
    members under these filters, exactly one member, the one the group's
    counter points at, the counter advancing by one. *)
Theorem store_matches_spec topic s :
  store_wf s → validate_topic_name topic = Ok tt →
  ∃ entries : list (string * list Subscription),
    NoDup entries.*1 ∧
    (∀ f subs, (f, subs) ∈ entries ↔
       valid_filter f ∧ get_mut f (trie s) = Some subs ∧ topic_matches_filter topic f = true) ∧
    let all := mjoin entries.*2 in
    filter (λ x, share_group x = None) (store_matches topic s).1 = filter (λ x, share_group x = None) all ∧
    ∀ g, let ms := members g all in
         let c := default 0 (share_counters s !! g) in
         members g (store_matches topic s).1 =
           (if is_nil ms then [] else option_list (ms !! Z.to_nat (c mod zlen ms))) ∧
         (ms ≠ [] → length (members g (store_matches topic s).1) = 1%nat) ∧
         share_counters (store_matches topic s).2 !! g =
           (if is_nil ms then share_counters s !! g else Some (wrap_u64 (c + 1))).
Proof.
  intros Hwf (_ & _ & _ & Hp & Hh & _)%validate_topic_name_ok.
  destruct (matches_entries topic (trie s) Hp Hh) as (entries & Hl & Hnd & Hin).
  exists entries. cbn zeta. rewrite <-Hl. split_and!; [done|done|by apply store_matches_direct|].
  intros g. cbn zeta. destruct (store_matches_members topic s g Hwf) as [Hm Hc].
  split_and!; [done| |done]. intros Hne. rewrite Hm.
  destruct (pick_of_spec (share_counters s) g _ Hne) as (x & Hx & _). rewrite Hx.
  by destruct (members g (mjoin (matches topic (trie s)))).
Qed.

Lemma store_matches_spec_witness :
  ∃ entries : list (string * list Subscription),
    NoDup entries.*1 ∧
    (∀ f subs, (f, subs) ∈ entries ↔
       valid_filter f ∧ get_mut f (trie example_store) = Some subs ∧ topic_matches_filter "a/b" f = true) ∧
    let all := mjoin entries.*2 in
    filter (λ x, share_group x = None) (store_matches "a/b" example_store).1 =
      filter (λ x, share_group x = None) all ∧
    ∀ g, let ms := members g all in
         let c := default 0 (share_counters example_store !! g) in
         members g (store_matches "a/b" example_store).1 =
           (if is_nil ms then [] else option_list (ms !! Z.to_nat (c mod zlen ms))) ∧
         (ms ≠ [] → length (members g (store_matches "a/b" example_store).1) = 1%nat) ∧
         share_counters (store_matches "a/b" example_store).2 !! g =
           (if is_nil ms then share_counters example_store !! g else Some (wrap_u64 (c + 1))).
Proof.
  apply store_matches_spec; [|reflexivity].
  exact (proj1 (run_ops_wf [OpSubscribe "a/b" (example_sub "c1");
    OpSubscribe "$share/g/a/+" (example_sub "c2"); OpSubscribe "$share/g/a/+" (example_sub "c3")]
    _ store_wf_new eq_refl)).
Defined.

(** Shared subscriptions are served fairly: while nothing else happens and
    the group's counter does not wrap, as many consecutive matches as the
    group has members under the topic pick each member exactly once. *)
Theorem shared_round_robin topic g s :
  let ms := members g (mjoin (matches topic (trie s))) in
  store_wf s →
  0 ≤ default 0 (share_counters s !! g) → default 0 (share_counters s !! g) + zlen ms < 2 ^ 64 →
  mjoin (members g <$> matches_n (length ms) topic s) ≡ₚ ms.
Proof.
  intros ms Hwf H0 Hn. destruct (decide (ms = [])) as [Hms|Hms]; [by rewrite Hms|].
  unfold ms. rewrite (matches_n_picks _ topic g s (default 0 (share_counters s !! g)));
    [|done..]. fold ms.
  set (c := default 0 (share_counters s !! g)) in *. set (m := Z.to_nat (c mod zlen ms)).
  assert (Hl : 0 < zlen ms) by (destruct ms; [done|]; rewrite zlen_cons; unfold zlen; lia).
  assert (Hm : (m ≤ length ms)%nat).
  { unfold m, zlen in *. pose proof (Z.mod_pos_bound c (Z.of_nat (length ms))). lia. }
  etransitivity; [|apply (rotation_Permutation ms m Hm)].
  apply Permutation_refl'. f_equal. apply list_fmap_ext. intros i x _. do 2 f_equal.
  unfold m, zlen in *. rewrite <-Zplus_mod_idemp_l, Z2Nat.inj_mod, Z2Nat.inj_add, !Nat2Z.id by zdm. done.
Qed.

Lemma shared_round_robin_witness :
  mjoin (members "g" <$> matches_n 2 "a/b" example_store) ≡ₚ
  members "g" (mjoin (matches "a/b" (trie example_store))).
Proof.
  apply (shared_round_robin "a/b" "g" example_store); [|by vm_compute..].
  exact (proj1 (run_ops_wf [OpSubscribe "a/b" (example_sub "c1");
    OpSubscribe "$share/g/a/+" (example_sub "c2"); OpSubscribe "$share/g/a/+" (example_sub "c3")]
    _ store_wf_new eq_refl)).
Defined.
