(* ===== verification/SubscriptionCache.v ===== *)
(** * Concurrent use of the subscription store

    [topic/mod.rs] shares one store between all connections: the trie is behind
    a lock, the cache and the counters are concurrent maps and the generation
    is an atomic. Each operation is therefore a sequence of atomic steps, and
    the steps of different threads interleave. This file models [subscribe],
    [unsubscribe], [unsubscribe_all] and [matches] as threads of a transition
    system and shows what a match may return.

    Ghost components record the history of the trie and, for each value of the
    generation, the newest trie version whose writer had advanced it. *)

From S2P Require Import Prelude Protocol TopicValidation TopicTrie SubscriptionStore.

(** Where a thread is within an operation. *)
Inductive thread : Type :=
  | Idle
  | Subscribing (actual_filter : string) (sub : Subscription)
      (** [subscribe] has parsed the filter and made the share counter *)
  | Written (ver : nat)
      (** the trie is written, as version [ver]; [invalidate_cache] is to come *)
  | Advanced
      (** the generation is advanced, the size of the cache is to be checked *)
  | Loaded (topic : string) (gen : Z) (floor : nat)
      (** [matches] has loaded the generation *)
  | Collected (topic : string) (gen : Z) (floor : nat) (has_shared : bool)
      (result : list Subscription) (share_groups : list (string * list Subscription))
      (** the trie has been read; these share groups are still to be served *)
  | Caching (topic : string) (gen : Z) (floor : nat) (result : list Subscription)
      (** the size of the cache allows an insertion *)
  | Finished (topic : string) (floor : nat) (result : list Subscription).

Record state : Type := MkState {
  store : SubscriptionStore;
  threads : gmap nat thread;
  history : list (TrieNode (list Subscription)); (** ghost: all trie versions *)
  floors : list nat; (** ghost: per generation, the newest completed version *)
}.

Definition initial (n : nat) : state :=
  MkState SubscriptionStore_new (list_to_map ((λ i, (i, Idle)) <$> seq 0 n)) [TrieNode_new] [0%nat].

(** A write of the trie makes a new version. *)
Definition write_trie (s : state) (t : TrieNode (list Subscription)) : SubscriptionStore :=
  MkStore t (share_counters (store s)) (topic_cache (store s)) (generation (store s)).

Definition advance (s : SubscriptionStore) : SubscriptionStore :=
  MkStore (trie s) (share_counters s) (topic_cache s) (wrap_u64 (generation s + 1)).

Definition trim_cache (s : SubscriptionStore) : SubscriptionStore :=
  if map_len (topic_cache s) >? TOPIC_CACHE_MAX_SIZE * 2
  then MkStore (trie s) (share_counters s) ∅ (generation s) else s.

Definition last_floor (s : state) : nat := default 0%nat (last (floors s)).

Inductive step : state → state → Prop :=
  | StepSubscribe s i f sub :
      threads s !! i = Some Idle →
      step s (MkState
        (MkStore (trie (store s))
           (match (filter_target f).2 with
            | Some g => match share_counters (store s) !! g with
                        | Some _ => share_counters (store s)
                        | None => <[g := 0]> (share_counters (store s))
                        end
            | None => share_counters (store s)
            end)
           (topic_cache (store s)) (generation (store s)))
        (<[i := Subscribing (filter_target f).1 (with_group f sub)]> (threads s)) (history s) (floors s))
  | StepSubscribeWrite s i f sub :
      threads s !! i = Some (Subscribing f sub) →
      let t := trie_subscribe f sub (trie (store s)) in
      step s (MkState (write_trie s t) (<[i := Written (length (history s))]> (threads s))
                (history s ++ [t]) (floors s))
  | StepUnsubscribe s i f cid :
      threads s !! i = Some Idle →
      let r := trie_unsubscribe (filter_target f).1 cid (filter_target f).2 (trie (store s)) in
      step s (if r.2
              then MkState (write_trie s r.1) (<[i := Written (length (history s))]> (threads s))
                     (history s ++ [r.1]) (floors s)
              else MkState (write_trie s r.1) (threads s) (history s) (floors s))
  | StepUnsubscribeAll s i cid :
      threads s !! i = Some Idle →
      let t := remove_by_predicate (drop_client cid) (trie (store s)) in
      step s (MkState (write_trie s t) (<[i := Written (length (history s))]> (threads s))
                (history s ++ [t]) (floors s))
  | StepAdvance s i ver :
      threads s !! i = Some (Written ver) →
      step s (MkState (advance (store s)) (<[i := Advanced]> (threads s)) (history s)
                (floors s ++ [Nat.max (last_floor s) ver]))
  | StepTrim s i :
      threads s !! i = Some Advanced →
      step s (MkState (trim_cache (store s)) (<[i := Idle]> (threads s)) (history s) (floors s))
  | StepLoad s i topic :
      threads s !! i = Some Idle →
      step s (MkState (store s) (<[i := Loaded topic (generation (store s)) (last_floor s)]> (threads s))
                (history s) (floors s))
  | StepHit s i topic gen floor c :
      threads s !! i = Some (Loaded topic gen floor) →
      topic_cache (store s) !! topic = Some c → cached_generation c = gen →
      step s (MkState (store s) (<[i := Finished topic floor (cached_subscriptions c)]> (threads s))
                (history s) (floors s))
  | StepCollect s i topic gen floor share_groups :
      threads s !! i = Some (Loaded topic gen floor) →
      (∀ c, topic_cache (store s) !! topic = Some c → cached_generation c ≠ gen) →
      let r := collect topic (trie (store s)) in
      share_groups ≡ₚ map_to_list r.2 →
      step s (MkState (store s)
        (<[i := Collected topic gen floor (negb (bool_decide (r.2 = ∅))) r.1 share_groups]> (threads s))
        (history s) (floors s))
  | StepPick s i topic gen floor has_shared result e share_groups :
      threads s !! i = Some (Collected topic gen floor has_shared result (e :: share_groups)) →
      let r := pick_member (share_counters (store s), result) e in
      step s (MkState
        (MkStore (trie (store s)) r.1 (topic_cache (store s)) (generation (store s)))
        (<[i := Collected topic gen floor has_shared r.2 share_groups]> (threads s)) (history s) (floors s))
  | StepDone s i topic gen floor has_shared result :
      threads s !! i = Some (Collected topic gen floor has_shared result []) →
      step s (MkState (store s)
        (<[i := if negb has_shared && (map_len (topic_cache (store s)) <? TOPIC_CACHE_MAX_SIZE)
                then Caching topic gen floor result else Finished topic floor result]> (threads s))
        (history s) (floors s))
  | StepCache s i topic gen floor result :
      threads s !! i = Some (Caching topic gen floor result) →
      step s (MkState
        (MkStore (trie (store s)) (share_counters (store s))
           (<[topic := MkCachedMatch result gen]> (topic_cache (store s))) (generation (store s)))
        (<[i := Finished topic floor result]> (threads s)) (history s) (floors s))
  | StepReturn s i topic floor result :
      threads s !! i = Some (Finished topic floor result) →
      step s (MkState (store s) (<[i := Idle]> (threads s)) (history s) (floors s)).

(** ** The invariant *)

(** A result is right for a trie: the entries without share group, then one
    member of each group. *)
Definition answers (topic : string) (t : TrieNode (list Subscription)) (todo : list (string * list Subscription))
    (result : list Subscription) : Prop :=
  ∃ served picks,
    served ++ todo ≡ₚ map_to_list (collect topic t).2 ∧
    result = (collect topic t).1 ++ picks ∧ Forall2 (λ e x, x ∈ e.2) served picks.

(** Some trie version from [floor] on. *)
Definition since (s : state) (floor : nat) (Q : TrieNode (list Subscription) → Prop) : Prop :=
  ∃ v t, (floor ≤ v)%nat ∧ history s !! v = Some t ∧ Q t.

Definition floor_of (s : state) (gen : Z) (floor : nat) : Prop :=
  0 ≤ gen ∧ floors s !! Z.to_nat gen = Some floor.

Definition thread_ok (s : state) (th : thread) : Prop :=
  match th with
  | Idle | Subscribing _ _ | Advanced => True
  | Written ver => (ver < length (history s))%nat
  | Loaded _ gen floor => floor_of s gen floor
  | Collected topic gen floor has_shared result todo =>
      floor_of s gen floor ∧
      since s floor (λ t, answers topic t todo result ∧
                          (has_shared = false → collect topic t = (result, ∅)))
  | Caching topic gen floor result =>
      floor_of s gen floor ∧ since s floor (λ t, collect topic t = (result, ∅))
  | Finished topic floor result => since s floor (λ t, answers topic t [] result)
  end.

Definition entry_ok (s : state) (topic : string) (c : CachedMatch) : Prop :=
  ∃ floor, floor_of s (cached_generation c) floor ∧
           since s floor (λ t, collect topic t = (cached_subscriptions c, ∅)).

Record Inv (s : state) : Prop := {
  inv_trie : trie_ok (trie (store s));
  inv_last : last (history s) = Some (trie (store s));
  inv_gen : generation (store s) + 1 = zlen (floors s);
  inv_floors : floors s ≠ [];
  inv_floor : Forall (λ f, f < length (history s))%nat (floors s);
  inv_pending : S (last_floor s) = length (history s) ∨
                ∃ i ver, threads s !! i = Some (Written ver) ∧ S ver = length (history s);
  inv_threads : ∀ i th, threads s !! i = Some th → thread_ok s th;
  inv_cache : ∀ topic c, topic_cache (store s) !! topic = Some c → entry_ok s topic c;
}.

(** ** Lemmas *)
Definition extends (s s' : state) : Prop :=
  history s `prefix_of` history s' ∧ floors s `prefix_of` floors s'.

Lemma since_mono s s' floor Q : extends s s' → since s floor Q → since s' floor Q.
Proof.
  intros [Hh _] (v & t & Hv & Ht & Hq). exists v, t. split_and!; [done| |done].
  by eapply prefix_lookup_Some.
Qed.

Lemma floor_of_mono s s' gen floor : extends s s' → floor_of s gen floor → floor_of s' gen floor.
Proof. intros [_ Hf] [H0 H]. split; [done|]. by eapply prefix_lookup_Some. Qed.

Lemma thread_ok_mono s s' th : extends s s' → thread_ok s th → thread_ok s' th.
Proof.
  intros He. pose proof (prefix_length _ _ (proj1 He)).
  destruct th; cbn [thread_ok]; [done|done|lia|done|by apply floor_of_mono| | |by apply since_mono];
    (intros [? ?]; split; [by eapply floor_of_mono|by eapply since_mono]).
Qed.

Lemma entry_ok_mono s s' topic c : extends s s' → entry_ok s topic c → entry_ok s' topic c.
Proof.
  intros He (fl & ? & ?). exists fl. split; [by eapply floor_of_mono|by eapply since_mono].
Qed.

Lemma extends_refl s st ths : extends s (MkState st ths (history s) (floors s)).
Proof. by split. Qed.

(** Steps that leave the trie, the generation and the ghost state alone. *)
Lemma inv_local s i th0 th st :
  Inv s → threads s !! i = Some th0 → (∀ v, th0 ≠ Written v) →
  trie st = trie (store s) → generation st = generation (store s) → thread_ok s th →
  (∀ topic c, topic_cache st !! topic = Some c → topic_cache (store s) !! topic = Some c ∨ entry_ok s topic c) →
  Inv (MkState st (<[i := th]> (threads s)) (history s) (floors s)).
Proof.
  intros [] Hi Hw Ht Hg Hok Hc. split; cbn; rewrite ?Ht, ?Hg; try done.
  - destruct inv_pending0 as [|(j & ver & Hj & Hv)]; [by left|]. right. exists j, ver.
    split; [|done]. rewrite lookup_insert_ne; [done|]. intros <-. rewrite Hi in Hj. by injection Hj as ->; destruct (Hw ver).
  - intros j th'. rewrite lookup_insert. destruct (decide (i = j)) as [<-|]; [by intros [= <-]|].
    apply inv_threads0.
  - intros topic c Hl. destruct (Hc topic c Hl) as [Hl'|]; [|done]. by apply (inv_cache0 topic c).
Qed.

(** Steps that write the trie. *)
Lemma inv_write s i t :
  Inv s → trie_ok t →
  Inv (MkState (write_trie s t) (<[i := Written (length (history s))]> (threads s)) (history s ++ [t]) (floors s)).
Proof.
  intros [] Ht. assert (He : ∀ st ths, extends s (MkState st ths (history s ++ [t]) (floors s))).
  { intros st ths. split; cbn; [by apply prefix_app_r|done]. }
  split; cbn; [done|by rewrite last_snoc|done|done| | | |].
  - eapply Forall_impl; [done|]. intros f. rewrite length_app. cbn. lia.
  - right. exists i, (length (history s)). rewrite lookup_insert_eq, length_app. cbn. split; [done|lia].
  - intros j th. rewrite lookup_insert. destruct (decide (i = j)) as [<-|].
    + intros [= <-]. cbn. rewrite length_app. cbn. lia.
    + intros Hj. eapply thread_ok_mono; [apply He|]. by apply (inv_threads0 j).
  - intros topic c Hl. eapply entry_ok_mono; [apply He|]. by apply inv_cache0.
Qed.

Lemma last_floor_of s : Inv s → floor_of s (generation (store s)) (last_floor s).
Proof.
  intros []. unfold floor_of, last_floor. rewrite last_lookup. unfold zlen in *.
  assert (Hg : Z.to_nat (generation (store s)) = Init.Nat.pred (length (floors s))) by lia.
  split; [destruct (floors s); [done|cbn in *; lia]|]. rewrite Hg.
  destruct (lookup_lt_is_Some_2 (floors s) (Init.Nat.pred (length (floors s)))) as [x Hx];
    [destruct (floors s); [done|cbn; lia]|]. by rewrite Hx.
Qed.

(** A floor recorded for some generation is a version that exists. *)
Lemma floor_of_bound s gen floor : Inv s → floor_of s gen floor → (floor < length (history s))%nat.
Proof. intros [] [_ Hl]. by eapply Forall_lookup_1 in inv_floor0. Qed.

Lemma inv_advance s i ver :
  Inv s → threads s !! i = Some (Written ver) → zlen (floors s) + 1 < 2 ^ 64 →
  Inv (MkState (advance (store s)) (<[i := Advanced]> (threads s)) (history s)
         (floors s ++ [Nat.max (last_floor s) ver])).
Proof.
  intros Hinv Hi Hn. pose proof (last_floor_of s Hinv) as Hfl. pose proof Hfl as [Hg0 _].
  pose proof (floor_of_bound s _ _ Hinv Hfl) as Hlast. destruct Hinv as [].
  set (f' := floors s ++ [Nat.max (last_floor s) ver]).
  assert (He : ∀ st ths, extends s (MkState st ths (history s) f')).
  { intros st ths. split; cbn; [done|by apply prefix_app_r]. }
  assert (Hf : ∀ st ths h, last_floor (MkState st ths h f') = Nat.max (last_floor s) ver).
  { intros. unfold last_floor at 1. cbn. unfold f'. by rewrite last_snoc. }
  assert (Hver : (ver < length (history s))%nat) by (by apply (inv_threads0 i) in Hi).
  split; rewrite ?Hf; cbn [store threads history floors trie generation topic_cache advance]; [done..| |by destruct (floors s)| | | |].
  - unfold f'. rewrite zlen_app, <-inv_gen0. unfold wrap_u64, zlen in *. cbn. zdm.
  - apply Forall_app. split; [done|]. repeat constructor. lia.
  - destruct inv_pending0 as [|(j & ver' & Hj & Hv)]; [left; lia|].
    destruct (decide (i = j)) as [<-|Hne'].
    + rewrite Hi in Hj. injection Hj as <-. left. lia.
    + right. exists j, ver'. by rewrite lookup_insert_ne.
  - intros j th. rewrite lookup_insert. destruct (decide (i = j)) as [<-|]; [by intros [= <-]|].
    intros Hj. eapply thread_ok_mono; [apply He|]. by apply (inv_threads0 j).
  - intros topic c Hl. eapply entry_ok_mono; [apply He|]. by apply inv_cache0.
Qed.

Lemma answers_collect topic t todo :
  todo ≡ₚ map_to_list (collect topic t).2 → answers topic t todo (collect topic t).1.
Proof. intros Hp. exists [], []. by rewrite app_nil_r. Qed.

Lemma answers_pick topic t e todo result counters :
  answers topic t (e :: todo) result → answers topic t todo (pick_member (counters, result) e).2.
Proof.
  intros (served & picks & Hp & -> & Hf). destruct e as [g subs]. unfold pick_member.
  assert (Hg : (collect topic t).2 !! g = Some subs).
  { apply elem_of_map_to_list. rewrite <-Hp. set_solver. }
  destruct (groups_nonempty _ _ _ _ Hg) as [Hne _].
  destruct (pick_of_spec counters g subs Hne) as (x & Hx & _ & Hin).
  destruct (is_nil subs) eqn:E; [by destruct subs|]. cbn. rewrite Hx. cbn.
  exists (served ++ [(g, subs)]), (picks ++ [x]). split_and!.
  - by rewrite <-app_assoc.
  - by rewrite app_assoc.
  - apply Forall2_app; [done|]. by repeat constructor.
Qed.

Lemma current_since s floor (Q : TrieNode (list Subscription) → Prop) :
  Inv s → (floor < length (history s))%nat → Q (trie (store s)) → since s floor Q.
Proof.
  intros [] Hf HQ. exists (length (history s) - 1)%nat, (trie (store s)). split_and!; [lia| |done].
  rewrite last_lookup in inv_last0. by rewrite <-Nat.sub_1_r in inv_last0.
Qed.

Lemma step_inv s s' :
  Inv s → step s s' → zlen (floors s') < 2 ^ 64 → Inv s'.
Proof.
  intros Hinv Hstep Hn. pose proof (inv_trie s Hinv) as Ht.
  destruct Hstep as [s i f sub Hi|s i f sub Hi t|s i f cid Hi r|s i cid Hi t|s i ver Hi|s i Hi|s i topic Hi
    |s i topic gen floor c Hi Hc Hg|s i topic gen floor todo Hi Hc r Hp
    |s i topic gen floor has result e todo Hi r|s i topic gen floor has result Hi
    |s i topic gen floor result Hi|s i topic floor result Hi];
    pose proof (inv_threads s Hinv i _ Hi) as Hok; cbn [thread_ok] in Hok.
  - apply inv_local with Idle; auto.
  - apply inv_write; [done|]. by apply trie_ok_subscribe.
  - destruct r.2 eqn:Hr; [apply inv_write; [done|]; by apply trie_ok_unsubscribe|].
    unfold r, write_trie. rewrite trie_unsubscribe_false by done. by destruct s as [[] ? ? ?].
  - apply inv_write; [done|]. by apply trie_ok_unsubscribe_all.
  - apply inv_advance; [done..|]. cbn in Hn. rewrite zlen_app in Hn. unfold zlen in *. cbn in Hn. lia.
  - apply inv_local with Advanced; auto; unfold trim_cache; destruct (_ >? _); auto.
    intros topic c. cbn. by rewrite lookup_empty.
  - apply inv_local with Idle; auto. by apply last_floor_of.
  - apply inv_local with (Loaded topic gen floor); auto.
    destruct (inv_cache s Hinv topic c Hc) as (fl & [_ Hfl] & v & t & Hv & Hl & Hcol). destruct Hok as [_ Hok].
    rewrite Hg, Hok in Hfl. injection Hfl as <-. exists v, t. split_and!; [done..|].
    exists [], []. rewrite Hcol. split_and!; [done|by rewrite app_nil_r|done].
  - apply inv_local with (Loaded topic gen floor); auto. cbn [thread_ok]. split; [done|].
    apply current_since; [done|by eapply floor_of_bound|]. split; [by apply answers_collect|].
    intros He%negb_false_iff%bool_decide_eq_true. unfold r in *. destruct (collect _ _). cbn in *. by subst.
  - apply inv_local with (Collected topic gen floor has result (e :: todo)); auto.
    destruct Hok as [Hfl (v & t & Hv & Hl & Ha & Hs)]. split; [done|]. exists v, t.
    split_and!; [done..|by apply answers_pick|]. intros Hf. specialize (Hs Hf).
    destruct Ha as (served & picks & Hp & _). rewrite Hs in Hp. cbn in Hp. rewrite map_to_list_empty in Hp.
    by apply Permutation_nil_r, app_nil in Hp as [_ ?].
  - apply inv_local with (Collected topic gen floor has result []); auto.
    destruct Hok as [Hfl (v & t & Hv & Hl & Ha & Hs)].
    destruct has; cbn [negb andb thread_ok]; [by exists v, t|].
    destruct (_ <? _); cbn [thread_ok]; [split; [done|]; exists v, t; auto|by exists v, t].
  - apply inv_local with (Caching topic gen floor result); auto.
    + destruct Hok as [Hfl (v & t & Hv & Hl & Hs)]. exists v, t. split_and!; [done..|].
      exists [], []. rewrite Hs. split_and!; [done|by rewrite app_nil_r|done].
    + intros topic' c. cbn. rewrite lookup_insert. destruct (decide (topic = topic')) as [<-|]; [|auto].
      intros [= <-]. right. by exists floor.
  - by apply inv_local with (Finished topic floor result); auto.
Qed.

Lemma step_floors s s' : step s s' → zlen (floors s) ≤ zlen (floors s').
Proof.
  destruct 1; cbn; try lia; [destruct r.2; cbn; lia|]. rewrite zlen_app. unfold zlen. cbn. lia.
Qed.

Lemma inv_initial n : Inv (initial n).
Proof.
  split; cbn; [|done|done|done|by repeat constructor|by left| |].
  - intros k subs. rewrite at_key_new. done.
  - intros i th Hi%elem_of_list_to_map_2%list_elem_of_fmap. by destruct Hi as (j & [= -> ->] & _).
  - intros topic c. by rewrite lookup_empty.
Qed.

Lemma reachable_inv n s : rtc step (initial n) s → zlen (floors s) < 2 ^ 64 → Inv s.
Proof.
  revert s. apply (rtc_ind_r (λ s, zlen (floors s) < 2 ^ 64 → Inv s)); [intros _; apply inv_initial|].
  intros s s' _ Hs IH Hn. eapply step_inv; [|done|done]. apply IH. apply step_floors in Hs. lia.
Qed.

(** Performs a step of a concrete execution and evaluates the state reached. *)
Tactic Notation "run_step" uconstr(c) :=
  eapply rtc_l; [eapply c; try (vm_compute; reflexivity); intros ?; vm_compute; discriminate|];
  lazymatch goal with
  | |- rtc step ?x ?y =>
      let x' := eval vm_compute in x in
      replace x with x' by (vm_compute; reflexivity)
  end.

(** An execution: thread 0 subscribes and matches, which fills the cache; then
    thread 1 matches the same topic and finds the cached result. *)
Lemma example_run :
  { s | rtc step (initial 2) s ∧ floors s = [0; 1]%nat ∧
        threads s = <[1%nat := Finished "x" 1 [example_sub "c1"]]>
          (<[0%nat := Finished "x" 1 [example_sub "c1"]]> ∅) ∧
        topic_cache (store s) !! "x"%string = Some (MkCachedMatch [example_sub "c1"] 1) ∧
        generation (store s) = 1 }.
Proof.
  eexists. split.
  - run_step (StepSubscribe _ 0 "x" (example_sub "c1")).
    run_step (StepSubscribeWrite _ 0 "x" (example_sub "c1")).
    run_step (StepAdvance _ 0 1).
    run_step (StepTrim _ 0).
    run_step (StepLoad _ 0 "x").
    run_step (StepCollect _ 0 "x" 1 1 []).
    run_step (StepDone _ 0 "x" 1 1 false [example_sub "c1"]).
    run_step (StepCache _ 0 "x" 1 1 [example_sub "c1"]).
    run_step (StepLoad _ 1 "x").
    run_step (StepHit _ 1 "x" 1 1 (MkCachedMatch [example_sub "c1"] 1)).
    apply rtc_refl.
  - vm_compute. by split_and!.
Defined.

(** ** Theorems *)

(** C8. What a concurrent match returns: in every interleaving of writers and
    readers (fewer than [2^64] writes), the result of a finished [matches] is
    the answer for a trie version that is at least as new as every write whose
    operation had advanced the generation when the match began. In particular
    a subscription that was acknowledged before the message was published is
    not missed because of a cached result. *)
Theorem concurrent_matches n s i topic floor result :
  rtc step (initial n) s → zlen (floors s) < 2 ^ 64 →
  threads s !! i = Some (Finished topic floor result) →
  ∃ v t, (floor ≤ v)%nat ∧ history s !! v = Some t ∧
    ∃ served picks,
      served ≡ₚ map_to_list (collect topic t).2 ∧
      result = (collect topic t).1 ++ picks ∧ Forall2 (λ e x, x ∈ e.2) served picks.
Proof.
  intros Hr Hn Hi. destruct (inv_threads s (reachable_inv n s Hr Hn) i _ Hi) as (v & t & Hv & Ht & Ha).
  exists v, t. split_and!; [done..|]. destruct Ha as (served & picks & Hp & ?).
  exists served, picks. by rewrite app_nil_r in Hp.
Qed.

Lemma concurrent_matches_witness :
  ∃ s v t, history s !! v = Some t ∧ threads s !! 1%nat = Some (Finished "x" 1 [example_sub "c1"]) ∧
    (1 ≤ v)%nat ∧
    ∃ served picks, served ≡ₚ map_to_list (collect "x" t).2 ∧
      [example_sub "c1"] = (collect "x" t).1 ++ picks ∧ Forall2 (λ e x, x ∈ e.2) served picks.
Proof.
  destruct example_run as (s & Hr & Hf & Ht & _).
  assert (Hi : threads s !! 1%nat = Some (Finished "x" 1 [example_sub "c1"])) by (by rewrite Ht).
  destruct (concurrent_matches 2 s 1 "x" 1 [example_sub "c1"]) as (v & t & Hv & Hl & Ha);
    [done|by rewrite Hf|done|].
  by exists s, v, t.
Defined.

(** Cached results are never stale at rest: when no writer is between its
    write of the trie and its advance of the generation, every cached result
    whose generation is current is what the trie gives now, and involves no
    shared subscription. *)
Theorem cache_coherent_at_rest n s topic c :
  rtc step (initial n) s → zlen (floors s) < 2 ^ 64 →
  (∀ i ver, threads s !! i ≠ Some (Written ver)) →
  topic_cache (store s) !! topic = Some c → cached_generation c = generation (store s) →
  collect topic (trie (store s)) = (cached_subscriptions c, ∅).
Proof.
  intros Hr Hn Hw Hc Hg. pose proof (reachable_inv n s Hr Hn) as Hinv.
  destruct (inv_cache s Hinv topic c Hc) as (fl & [_ Hfl] & v & t & Hv & Ht & Hcol).
  destruct (last_floor_of s Hinv) as [_ Hlast]. rewrite Hg, Hlast in Hfl. injection Hfl as <-.
  destruct (inv_pending s Hinv) as [Hp|(i & ver & Hi & _)]; [|by destruct (Hw i ver)].
  pose proof (lookup_lt_Some _ _ _ Ht).
  assert (v = Init.Nat.pred (length (history s))) as -> by lia.
  pose proof (inv_last s Hinv) as Hl. rewrite last_lookup, Ht in Hl. by injection Hl as <-.
Qed.

Lemma cache_coherent_at_rest_witness :
  ∃ s, topic_cache (store s) !! "x"%string = Some (MkCachedMatch [example_sub "c1"] 1) ∧
       collect "x" (trie (store s)) = ([example_sub "c1"], ∅).
Proof.
  destruct example_run as (s & Hr & Hf & Ht & Hc & Hg). exists s. split; [done|].
  apply (cache_coherent_at_rest 2 s "x" (MkCachedMatch [example_sub "c1"] 1)); [done|by rewrite Hf| |done|done].
  intros i ver. rewrite Ht, !lookup_insert. destruct (decide _); [done|]. by destruct (decide _).
Defined.
