(* ===== verification/TopicMapper.v ===== *)
(** * Bridge configuration and topic mapping

    [config/bridge.rs] and [bridge/topic_mapper.rs]: the forwarding rules of a
    bridge and the mapping of topics between the local and the remote broker. *)

From S2P Require Import Prelude Protocol TopicValidation.

(** ** Configuration ([config/bridge.rs]) *)
Inductive BridgeProtocol : Type := Mqtt | Mqtts | Ws | Wss.

Definition default_port (p : BridgeProtocol) : Z :=
  match p with
  | Mqtt => 1883
  | Mqtts => 8883
  | Ws => 80
  | Wss => 443
  end.

Definition uses_tls (p : BridgeProtocol) : bool := match p with Mqtts | Wss => true | _ => false end.
Definition uses_websocket (p : BridgeProtocol) : bool := match p with Ws | Wss => true | _ => false end.

Inductive ForwardDirection : Type := DirOut | DirIn | DirBoth.

Record ForwardRule : Type := MkForwardRule {
  local_topic : string;
  remote_topic : string;
  direction : ForwardDirection;
  rule_qos : Z;
  rule_retain : bool;
}.

Definition is_outbound (r : ForwardRule) : bool := match direction r with DirOut | DirBoth => true | DirIn => false end.
Definition is_inbound (r : ForwardRule) : bool := match direction r with DirIn | DirBoth => true | DirOut => false end.

Inductive LoopPrevention : Type := LoopNoLocal | LoopUserProperty | LoopBoth | LoopNone.

Record BridgeTlsConfig : Type := MkBridgeTls {
  btls_ca_cert : option string;
  btls_client_cert : option string;
  btls_client_key : option string;
  btls_insecure : bool;
  btls_server_name : option string;
}.

Record BridgeConfig : Type := MkBridgeConfig {
  br_name : string;
  br_address : string;
  br_protocol : BridgeProtocol;
  br_client_id : string;
  br_username : option string;
  br_password : option string;
  br_keepalive : Z;
  br_clean_start : bool;
  br_reconnect_interval : Z;
  br_max_reconnect_interval : Z;
  br_connect_timeout : Z;
  br_forwards : list ForwardRule;
  br_tls : option BridgeTlsConfig;
  br_ws_path : string;
  br_enabled : bool;
  br_loop_prevention : LoopPrevention;
  br_origin_id : option string;
}.

#[global] Instance BridgeConfig_eta : Eta BridgeConfig := fun c =>
  MkBridgeConfig (br_name c) (br_address c) (br_protocol c) (br_client_id c) (br_username c) (br_password c)
    (br_keepalive c) (br_clean_start c) (br_reconnect_interval c) (br_max_reconnect_interval c)
    (br_connect_timeout c) (br_forwards c) (br_tls c) (br_ws_path c) (br_enabled c) (br_loop_prevention c)
    (br_origin_id c).

(** [process_id] is [std::process::id()] in decimal. *)
Definition default_client_id (process_id : string) : string := String.append "vibemq-bridge-" process_id.

Definition BridgeConfig_default (process_id : string) : BridgeConfig :=
  {| br_name := "default";
     br_address := "localhost:1883";
     br_protocol := Mqtt;
     br_client_id := default_client_id process_id;
     br_username := None;
     br_password := None;
     br_keepalive := 60;
     br_clean_start := true;
     br_reconnect_interval := from_secs 5;
     br_max_reconnect_interval := from_secs 60;
     br_connect_timeout := from_secs 30;
     br_forwards := [];
     br_tls := None;
     br_ws_path := "/mqtt";
     br_enabled := true;
     br_loop_prevention := LoopNoLocal;
     br_origin_id := None |}.

(** [str::rsplit_once(c)]: around the last [c]. *)
Fixpoint rsplit_once (c : Ascii.ascii) (s : string) : option (string * string) :=
  match s with
  | EmptyString => None
  | String a s =>
      match rsplit_once c s with
      | Some (l, r) => Some (String a l, r)
      | None => if Ascii.eqb a c then Some (EmptyString, s) else None
      end
  end.

(** [str::parse::<u16>()]: decimal digits, at least one, after an optional
    plus sign; [None] on overflow. *)
Definition digit (a : Ascii.ascii) : option Z :=
  let n := Z.of_nat (Ascii.nat_of_ascii a) - 48 in
  if (0 <=? n) && (n <=? 9) then Some n else None.

Fixpoint parse_digits (max acc : Z) (s : string) : option Z :=
  match s with
  | EmptyString => Some acc
  | String a s =>
      d ← digit a;
      let acc := acc * 10 + d in
      if acc <=? max then parse_digits max acc s else None
  end.

Definition parse_uint (max : Z) (s : string) : option Z :=
  let digits := default s (strip_prefix "+" s) in
  if is_empty digits then None else parse_digits max 0 digits.

Definition parse_address (c : BridgeConfig) : string * Z :=
  match rsplit_once ":" (br_address c) with
  | Some (host, port_str) =>
      match parse_uint 65535 port_str with
      | Some port => (host, port)
      | None => (br_address c, default_port (br_protocol c))
      end
  | None => (br_address c, default_port (br_protocol c))
  end.

Definition config_outbound_rules (c : BridgeConfig) : list ForwardRule := filter (fun r => is_outbound r) (br_forwards c).
Definition config_inbound_rules (c : BridgeConfig) : list ForwardRule := filter (fun r => is_inbound r) (br_forwards c).
Definition get_origin_id (c : BridgeConfig) : string := default (br_name c) (br_origin_id c).
Definition use_no_local (c : BridgeConfig) : bool :=
  match br_loop_prevention c with LoopNoLocal | LoopBoth => true | _ => false end.
Definition use_origin_property (c : BridgeConfig) : bool :=
  match br_loop_prevention c with LoopUserProperty | LoopBoth => true | _ => false end.

(** ** Compiled rules ([bridge/topic_mapper.rs]) *)
Record CompiledRule : Type := MkCompiledRule {
  local_pattern : string;
  remote_pattern : string;
  cr_qos : QoS;
  cr_retain : bool;
  cr_strip_prefix : option string;
  cr_add_prefix : option string;
}.

(** [parts[..n].join("/") + "/"] when there are levels before the last one. *)
Definition prefix_before_last (parts : list string) : option string :=
  let n := (length parts - 1)%nat in
  if (0 <? n)%nat then Some (String.append (join "/" (take n parts)) "/") else None.

Definition compute_prefix_transform (source dest : string) : option string * option string :=
  let source_parts := split "/" source in
  let dest_parts := split "/" dest in
  if bool_decide (last source_parts = last dest_parts)
  then (prefix_before_last source_parts, prefix_before_last dest_parts)
  else (None, None).

Definition from_forward_rule (rule : ForwardRule) (outbound : bool) : CompiledRule :=
  let qos := match rule_qos rule with 0 => AtMostOnce | 1 => AtLeastOnce | _ => ExactlyOnce end in
  let '(source_pattern, dest_pattern) :=
    if outbound then (local_topic rule, remote_topic rule) else (remote_topic rule, local_topic rule) in
  let '(strip_prefix, add_prefix) := compute_prefix_transform source_pattern dest_pattern in
  MkCompiledRule (local_topic rule) (remote_topic rule) qos (rule_retain rule) strip_prefix add_prefix.

Definition rule_matches (r : CompiledRule) (topic : string) (outbound : bool) : bool :=
  topic_matches_filter topic (if outbound then local_pattern r else remote_pattern r).

(** [s.find(['#', '+'])] and the slice before it. *)
Fixpoint before_wildcard (s : string) : option string :=
  match s with
  | EmptyString => None
  | String a s =>
      if Ascii.eqb a "#" || Ascii.eqb a "+" then Some EmptyString
      else String a <$> before_wildcard s
  end.

Definition transform (r : CompiledRule) (topic : string) (outbound : bool) : string :=
  if String.eqb (local_pattern r) (remote_pattern r) then topic
  else
    let result :=
      match cr_strip_prefix r with
      | Some strip => default topic (strip_prefix strip topic)
      | None => topic
      end in
    match cr_add_prefix r with
    | Some add =>
        let dest_base := if outbound then remote_pattern r else local_pattern r in
        match before_wildcard dest_base with
        | Some prefix => String.append prefix result
        | None => String.append add result
        end
    | None => result
    end.

(** ** The mapper *)
Record TopicMapper : Type := MkTopicMapper {
  outbound_rules : list CompiledRule;
  inbound_rules : list CompiledRule;
}.

Definition TopicMapper_new (rules : list ForwardRule) : TopicMapper :=
  MkTopicMapper ((fun r => from_forward_rule r true) <$> filter (fun r => is_outbound r) rules)
    ((fun r => from_forward_rule r false) <$> filter (fun r => is_inbound r) rules).

Definition should_forward_outbound (m : TopicMapper) (topic : string) : bool :=
  existsb (fun r => rule_matches r topic true) (outbound_rules m).

(** The loop of [map_outbound] and [map_inbound]: the first rule that matches. *)
Fixpoint map_topic (outbound : bool) (rules : list CompiledRule) (topic : string) (qos : QoS) (retain : bool)
    : option (string * QoS * bool) :=
  match rules with
  | [] => None
  | rule :: rules =>
      if rule_matches rule topic outbound
      then Some (transform rule topic outbound, QoS_min qos (cr_qos rule), retain && cr_retain rule)
      else map_topic outbound rules topic qos retain
  end.

Definition map_outbound (m : TopicMapper) (topic : string) (qos : QoS) (retain : bool) : option (string * QoS * bool) :=
  map_topic true (outbound_rules m) topic qos retain.

Definition should_forward_inbound (m : TopicMapper) (topic : string) : bool :=
  existsb (fun r => rule_matches r topic false) (inbound_rules m).

Definition map_inbound (m : TopicMapper) (topic : string) (qos : QoS) (retain : bool) : option (string * QoS * bool) :=
  map_topic false (inbound_rules m) topic qos retain.

Definition inbound_filters (m : TopicMapper) : list (string * QoS) :=
  (fun r => (remote_pattern r, cr_qos r)) <$> inbound_rules m.

Definition outbound_filters (m : TopicMapper) : list string := local_pattern <$> outbound_rules m.

(** ** Lemmas *)
Lemma append_nil_l s : String.append EmptyString s = s.
Proof. done. Qed.

Lemma append_nil_r s : String.append s EmptyString = s.
Proof. induction s as [|a s IH]; [done|]. by rewrite append_cons, IH. Qed.

Lemma append_assoc a b c : String.append a (String.append b c) = String.append (String.append a b) c.
Proof. induction a as [|x a IH]; [done|]. by rewrite !append_cons, IH. Qed.

Lemma split_append_sep c a b : split c (String.append a (String c b)) = split c a ++ split c b.
Proof.
  induction a as [|x a IH].
  - rewrite append_nil_l. cbn. by rewrite Ascii.eqb_refl.
  - rewrite append_cons. cbn [split]. destruct (Ascii.eqb x c); [by rewrite IH|]. rewrite IH.
    destruct (split c a) as [|l ls] eqn:Hs; [by destruct (split_not_nil c a)|done].
Qed.

Lemma strip_prefix_append p s : strip_prefix p (String.append p s) = Some s.
Proof. induction p as [|a p IH]; [done|]. rewrite append_cons. cbn. by rewrite Ascii.eqb_refl. Qed.

Lemma strip_prefix_some p s rest : strip_prefix p s = Some rest → s = String.append p rest.
Proof.
  revert s. induction p as [|a p IH]; intros s; [cbn; naive_solver|]. destruct s as [|b s]; cbn; [done|].
  destruct (Ascii.eqb_spec a b) as [->|]; [|done]. intros ->%IH. by rewrite append_cons.
Qed.

Lemma strip_prefix_longer p s : strip_prefix (String.append p (String s EmptyString)) p = None.
Proof. induction p as [|a p IH]; [done|]. rewrite append_cons. cbn. by rewrite Ascii.eqb_refl. Qed.

Lemma match_levels_below ls ts : match_levels (ls ++ ["#"%string]) (ls ++ ts) = true.
Proof.
  induction ls as [|l ls IH]; [done|]. cbn [match_levels app]. rewrite String.eqb_refl, IH.
  by destruct (String.eqb l "#"), (String.eqb l "+").
Qed.

Lemma contains_append c a b : contains c (String.append a b) = contains c a || contains c b.
Proof. induction a as [|x a IH]; [done|]. rewrite append_cons. cbn. by rewrite IH, orb_assoc. Qed.

(** No wildcards. *)
Definition plain (s : string) : Prop := s ≠ EmptyString ∧ contains "+" s = false ∧ contains "#" s = false.

Lemma before_wildcard_hash s r :
  contains "+" s = false → contains "#" s = false → before_wildcard (String.append s (String "#" r)) = Some s.
Proof.
  induction s as [|a s IH]; [done|]. rewrite append_cons. cbn [before_wildcard contains].
  intros [H1 H2]%orb_false_iff [H3 H4]%orb_false_iff. rewrite H1, H3. cbn. by rewrite IH.
Qed.

Lemma before_wildcard_none s : contains "+" s = false → contains "#" s = false → before_wildcard s = None.
Proof.
  induction s as [|a s IH]; [done|]. cbn [before_wildcard contains]. intros [H1 H2]%orb_false_iff [H3 H4]%orb_false_iff.
  rewrite H1, H3. cbn. by rewrite IH.
Qed.

Lemma plain_starts p s :
  plain p → starts_with "+" (String.append p s) || starts_with "#" (String.append p s) = false.
Proof.
  intros (He & H1 & H2). destruct p as [|a p]; [done|]. rewrite append_cons. cbn in *.
  apply orb_false_iff in H1 as [-> _], H2 as [-> _]. done.
Qed.

(** The pattern of everything below [p]. *)
Definition below (p : string) : string := String.append (String.append p "/") "#".

Lemma split_below p : split "/" (below p) = split "/" p ++ ["#"%string].
Proof. unfold below. rewrite <-append_assoc. apply (split_append_sep "/" p "#"). Qed.

Lemma below_inj p q : below p = below q → p = q.
Proof.
  intros H. apply (f_equal (split "/")) in H. rewrite !split_below in H. apply app_inj_tail in H as [H _].
  by apply split_inj in H.
Qed.

Lemma matches_below p t ts : plain p → split "/" t = split "/" p ++ ts → topic_matches_filter t (below p) = true.
Proof.
  intros Hp Ht. unfold topic_matches_filter. rewrite split_below, Ht. unfold below. rewrite <-append_assoc.
  rewrite plain_starts, andb_false_r by done. apply match_levels_below.
Qed.

Lemma topic_matches_itself p : plain p → topic_matches_filter p p = true.
Proof.
  intros Hp. unfold topic_matches_filter. pose proof (plain_starts p EmptyString Hp) as H.
  rewrite append_nil_r in H. rewrite H, andb_false_r. generalize (split "/" p) as ls. induction ls as [|l ls IH]; [done|]. cbn [match_levels].
  rewrite String.eqb_refl, IH. by destruct (String.eqb l "#"), (String.eqb l "+").
Qed.

Lemma prefix_of_below p : prefix_before_last (split "/" (below p)) = Some (String.append p "/").
Proof.
  unfold prefix_before_last. rewrite split_below, length_app. cbn [length].
  replace (length (split "/" p) + 1 - 1)%nat with (length (split "/" p)) by lia.
  rewrite take_app_length, join_split. pose proof (split_not_nil "/" p). by destruct (split "/" p).
Qed.

Lemma transform_below p q : compute_prefix_transform (below p) (below q) = (Some (String.append p "/"), Some (String.append q "/")).
Proof.
  unfold compute_prefix_transform. rewrite !prefix_of_below, !split_below, !last_app. cbn. by rewrite bool_decide_eq_true_2.
Qed.

Lemma before_wildcard_below q : plain q → before_wildcard (below q) = Some (String.append q "/").
Proof. intros (_ & H1 & H2). unfold below. apply before_wildcard_hash; by rewrite contains_append, ?H1, ?H2. Qed.

(** A rule from [p/#] to [q/#] in the direction it is compiled for. *)
Definition prefix_rule (rule : ForwardRule) (outbound : bool) (p q : string) : Prop :=
  (if outbound then (local_topic rule, remote_topic rule) else (remote_topic rule, local_topic rule)) = (below p, below q).

Definition rule_max_qos (rule : ForwardRule) : QoS := cr_qos (from_forward_rule rule true).

Lemma map_prefix_rule rule outbound p q rules t ts qos retain :
  plain p → plain q → prefix_rule rule outbound p q → split "/" t = split "/" p ++ ts →
  map_topic outbound (from_forward_rule rule outbound :: rules) t qos retain =
    Some (if String.eqb p q then t else String.append (String.append q "/") (default t (strip_prefix (String.append p "/") t)),
          QoS_min qos (rule_max_qos rule), retain && rule_retain rule).
Proof.
  intros Hp Hq Hr Ht. unfold prefix_rule in Hr. unfold rule_max_qos, from_forward_rule. rewrite Hr.
  destruct (compute_prefix_transform (local_topic rule) (remote_topic rule)) as [x y].
  rewrite transform_below. cbn [map_topic]. unfold rule_matches. cbn [local_pattern remote_pattern].
  replace (if outbound then local_topic rule else remote_topic rule) with (below p) by (by destruct outbound; injection Hr).
  rewrite (matches_below p t ts) by done. cbn [cr_qos cr_retain]. do 3 f_equal. unfold transform.
  cbn [local_pattern remote_pattern cr_strip_prefix cr_add_prefix].
  replace (if outbound then remote_topic rule else local_topic rule) with (below q) by (by destruct outbound; injection Hr).
  rewrite before_wildcard_below by done.
  assert (String.eqb (local_topic rule) (remote_topic rule) = String.eqb p q) as ->; [|done].
  destruct outbound; injection Hr as -> ->; [|rewrite (String.eqb_sym p q)];
    match goal with |- String.eqb _ _ = String.eqb ?a ?b => destruct (String.eqb_spec a b) as [->|Hne] end;
    try apply String.eqb_refl; apply String.eqb_neq; by intros ?%below_inj.
Qed.

(** ** Theorems *)

(** Prefix rules translate topics faithfully: with a rule in both
    directions between [p/#] and [q/#], a topic below [p] is forwarded as the
    same topic below [q], with the lower of the two QoS levels and the retain
    flag only if the rule keeps it; coming back, it is the topic it was. *)
Theorem prefix_mapping rule p q rest qos retain :
  plain p → plain q → local_topic rule = below p → remote_topic rule = below q → direction rule = DirBoth →
  let m := TopicMapper_new [rule] in
  let topic := String.append p (String "/" rest) in
  let remote := String.append q (String "/" rest) in
  let sent := (QoS_min qos (rule_max_qos rule), retain && rule_retain rule) in
  map_outbound m topic qos retain = Some (remote, sent.1, sent.2) ∧
  map_inbound m remote sent.1 sent.2 = Some (topic, sent.1, sent.2) ∧
  should_forward_outbound m topic = true ∧ should_forward_inbound m remote = true.
Proof.
  intros Hp Hq Hl Hr Hd m topic remote sent.
  assert (Hm : m = MkTopicMapper [from_forward_rule rule true] [from_forward_rule rule false])
    by (unfold m, TopicMapper_new, is_outbound, is_inbound; cbn; by rewrite Hd).
  assert (Hsplit : ∀ s, split "/" (String.append s (String "/" rest)) = split "/" s ++ split "/" rest)
    by (intros s; apply split_append_sep).
  assert (Happ : ∀ s, String.append s (String "/" rest) = String.append (String.append s "/") rest)
    by (intros s; apply (append_assoc s "/" rest)).
  rewrite Hm. unfold map_outbound, map_inbound, should_forward_outbound, should_forward_inbound.
  cbn [outbound_rules inbound_rules existsb].
  rewrite (map_prefix_rule rule true p q [] topic (split "/" rest)); [|done|done|by unfold prefix_rule; rewrite Hl, Hr|apply Hsplit].
  rewrite (map_prefix_rule rule false q p [] remote (split "/" rest)); [|done|done|by unfold prefix_rule; rewrite Hl, Hr|apply Hsplit].
  unfold topic, remote. rewrite !Happ, !strip_prefix_append. cbn [default].
  split_and!.
  - by destruct (String.eqb_spec p q) as [->|_].
  - destruct (String.eqb_spec q p) as [->|_]; do 2 f_equal; unfold sent; cbn;
      by destruct qos, (rule_max_qos rule), retain, (rule_retain rule).
  - unfold rule_matches, from_forward_rule. destruct (compute_prefix_transform _ _). cbn. rewrite Hl, <-Happ.
    by rewrite (matches_below p _ (split "/" rest)) by (done || apply Hsplit).
  - unfold rule_matches, from_forward_rule. destruct (compute_prefix_transform _ _). cbn. rewrite Hr, <-Happ.
    by rewrite (matches_below q _ (split "/" rest)) by (done || apply Hsplit).
Qed.

Definition edge_rule : ForwardRule := MkForwardRule (below "sensors") (below "edge/device01/sensors") DirBoth 1 true.

Lemma prefix_mapping_witness :
  map_outbound (TopicMapper_new [edge_rule]) "sensors/temp" ExactlyOnce true =
    Some ("edge/device01/sensors/temp"%string, AtLeastOnce, true).
Proof.
  apply (prefix_mapping edge_rule "sensors" "edge/device01/sensors" "temp" ExactlyOnce true);
    [split_and!; [discriminate|reflexivity|reflexivity]..|reflexivity|reflexivity|reflexivity].
Defined.

(** Two kinds of rule do not map the topics they match as they say: a rule
    from [p/#] to [q/#] also matches the topic [p] itself and forwards it as
    [q/p] (not [q]), and a rule between two fixed topics whose last levels
    differ forwards the topic under its old name. *)
Theorem mapping_gaps rule p q qos retain :
  plain p → plain q → p ≠ q → is_outbound rule = true →
  let sent topic := Some (topic, QoS_min qos (rule_max_qos rule), retain && rule_retain rule) in
  (local_topic rule = below p → remote_topic rule = below q →
   map_outbound (TopicMapper_new [rule]) p qos retain = sent (String.append q (String "/" p))) ∧
  (local_topic rule = p → remote_topic rule = q → last (split "/" p) ≠ last (split "/" q) →
   map_outbound (TopicMapper_new [rule]) p qos retain = sent p).
Proof.
  intros Hp Hq Hne Ho sent.
  assert (Hout : outbound_rules (TopicMapper_new [rule]) = [from_forward_rule rule true]) by (cbn; by rewrite Ho).
  unfold map_outbound. rewrite Hout. split.
  - intros Hl Hr. rewrite (map_prefix_rule rule true p q [] p []); [|done|done| |by rewrite app_nil_r].
    + rewrite strip_prefix_longer. cbn [default]. rewrite <-append_assoc. by destruct (String.eqb_spec p q).
    + unfold prefix_rule. by rewrite Hl, Hr.
  - intros Hl Hr Hlast. unfold sent, rule_max_qos, from_forward_rule, compute_prefix_transform.
    rewrite Hl, Hr, bool_decide_eq_false_2 by done. cbn [map_topic]. unfold rule_matches. cbn [local_pattern].
    rewrite topic_matches_itself by done. unfold transform. cbn. by destruct (String.eqb_spec p q).
Qed.

Lemma mapping_gaps_witness :
  map_outbound (TopicMapper_new [edge_rule]) "sensors" AtMostOnce false =
    Some ("edge/device01/sensors/sensors"%string, AtMostOnce, false).
Proof.
  apply (mapping_gaps edge_rule "sensors" "edge/device01/sensors" AtMostOnce false);
    [split_and!; [discriminate|reflexivity|reflexivity]..|discriminate|reflexivity|reflexivity|reflexivity].
Defined.
