(* ===== verification/Remote.v ===== *)
(** * Remote peers

    [remote/peer.rs] and [remote/message.rs]: the interface through which
    bridges and cluster connections take messages for other brokers, and the
    collection of such peers. A trait object is a value of a type with an
    instance of [RemotePeer]; [&self] methods that send into the peer's channel
    return the peer with its channel changed. *)

From S2P Require Import Prelude Protocol.

Inductive RemoteError : Type :=
  | ConnectionLost (msg : string)
  | Rejected (msg : string)
  | RemoteTimeout
  | QueueFull
  | InvalidConfig (msg : string)
  | RemoteOther (msg : string).

Module RS.

Inductive RemotePeerStatus : Type := Disconnected | Connecting | Connected | Backoff | Failed.

End RS.
Abbreviation RemotePeerStatus := RS.RemotePeerStatus.

#[global] Instance RemotePeerStatus_eq_dec : EqDecision RemotePeerStatus.
Proof. solve_decision. Defined.

Definition remote_result : Type := outcome RemoteError unit.

Class RemotePeer (P : Type) : Type := {
  peer_name : P → string;
  peer_status : P → RemotePeerStatus;
  peer_forward_publish : string → list byte → QoS → bool → P → remote_result * P;
  peer_notify_subscribe : string → QoS → P → remote_result * P;
  peer_notify_unsubscribe : string → P → remote_result * P;
  peer_should_forward : P → string → bool;
  peer_start : P → remote_result * P;
  peer_stop : P → remote_result * P;
}.

(** ** The command channel of a peer

    [mpsc::Sender::send(..).await] waits for room and fails once the receiver is
    gone ([cc_open] is [false]); [cc_senders] says whether a sender is left. The
    channel of a client is [None] before [spawn]. *)
Record CommandChannel (C : Type) : Type := MkCommandChannel {
  cc_queue : list C;
  cc_open : bool;
  cc_senders : bool;
}.
Arguments MkCommandChannel {C}.
Arguments cc_queue {C}.
Arguments cc_open {C}.
Arguments cc_senders {C}.

#[global] Instance CommandChannel_eta {C} : Eta (CommandChannel C) := fun c => MkCommandChannel (cc_queue c) (cc_open c) (cc_senders c).

Definition send_command {C} (cmd : C) (tx : option (CommandChannel C)) : remote_result * option (CommandChannel C) :=
  match tx with
  | Some ch =>
      if cc_open ch then (Ok tt, Some (ch <| cc_queue ::= (fun q => q ++ [cmd]) |>))
      else (Err (ConnectionLost "Command channel closed"), tx)
  | None => (Ok tt, None)
  end.

(** What [recv] and [try_recv] find: the oldest command, else whether more may
    come. *)
Inductive received (C : Type) : Type := Received (cmd : C) | ChannelEmpty | ChannelClosed.
Arguments Received {C}.
Arguments ChannelEmpty {C}.
Arguments ChannelClosed {C}.

Definition try_recv {C} (ch : CommandChannel C) : received C * CommandChannel C :=
  match cc_queue ch with
  | cmd :: q => (Received cmd, ch <| cc_queue := q |>)
  | [] => (if cc_senders ch then ChannelEmpty else ChannelClosed, ch)
  end.

(** The receiver is dropped, with what it holds. *)
Definition drop_receiver {C} (ch : CommandChannel C) : CommandChannel C := ch <| cc_queue := [] |> <| cc_open := false |>.

(** ** The tasks of the connections

    State [T], error [E]: the code of a connection between two awaits of
    something from outside. *)
Definition task (E T A : Type) : Type := T → outcome E A * T.

#[global] Instance task_ret {E T} : MRet (task E T) := fun A a t => (Ok a, t).
#[global] Instance task_bind {E T} : MBind (task E T) := fun A B k m t =>
  match m t with
  | (Ok a, t) => k a t
  | (Err e, t) => (Err e, t)
  | (Panic, t) => (Panic, t)
  | (NoFuel, t) => (NoFuel, t)
  end.

Section task.
Context {E T : Type}.

Definition throw {A} (e : E) : task E T A := fun t => (Err e, t).
Definition update (f : T → T) : task E T unit := fun t => (Ok tt, f t).
Definition asks {A} (f : T → A) : task E T A := fun t => (Ok (f t), t).
Definition lift {A} (r : outcome E A) : task E T A := fun t => (r, t).

(** What a task that may fail did, for a caller that goes on. *)
Definition attempt_result {A} (m : task E T A) : task E T (outcome E A) := fun t => let '(r, t) := m t in (Ok r, t).
End task.

Definition outcome_void {E A} (r : outcome E A) : outcome E unit := _ ← r; Ok tt.

(** How an operation of the operating system under a timeout ends. *)
Inductive io_result (A : Type) : Type := IoOk (a : A) | IoError | IoTimeout.
Arguments IoOk {A}.
Arguments IoError {A}.
Arguments IoTimeout {A}.

(** [min(retry_interval * 2, max_retry)]; [Duration * 2] panics when it exceeds
    the largest duration. *)
Definition next_retry (retry max_retry : Z) : outcome RemoteError Z :=
  if retry * 2 <? from_secs (2 ^ 64) then Ok (Z.min (retry * 2) max_retry) else Panic.

(** ** Messages ([remote/message.rs]) *)
Record RemotePublish : Type := MkRemotePublish {
  rp_local_topic : string;
  rp_remote_topic : string;
  rp_payload : list byte;
  rp_qos : QoS;
  rp_retain : bool;
}.

Definition RemotePublish_new (topic : string) (payload : list byte) (qos : QoS) (retain : bool) : RemotePublish :=
  MkRemotePublish topic topic payload qos retain.

Definition with_remap (local_topic remote_topic : string) (payload : list byte) (qos : QoS) (retain : bool)
    : RemotePublish :=
  MkRemotePublish local_topic remote_topic payload qos retain.

Record RemoteSubscription : Type := MkRemoteSubscription {
  rs_filter : string;
  rs_qos : QoS;
}.

Inductive RemoteMessage : Type :=
  | RemotePublishMessage (p : RemotePublish)
  | RemoteSubscribeMessage (s : RemoteSubscription)
  | RemoteUnsubscribeMessage (filter : string).

(** A local message that is offered to the peers. *)
Record message : Type := MkMessage {
  m_topic : string;
  m_payload : list byte;
  m_qos : QoS;
  m_retain : bool;
}.

(** ** Collections of peers *)
Section peers.
Context {P : Type} `{!RemotePeer P}.

Abbreviation RemotePeers := (list P).

(** The loops over [self.peers], in order. *)
Fixpoint each_peer (wanted : P → bool) (call : P → remote_result * P) (peers : RemotePeers)
    : list (string * remote_result) * RemotePeers :=
  match peers with
  | [] => ([], [])
  | p :: peers =>
      let '(results, peers) := each_peer wanted call peers in
      if wanted p then
        let '(r, p') := call p in
        ((peer_name p, r) :: results, p' :: peers)
      else (results, p :: peers)
  end.

Definition is_connected (p : P) : bool := bool_decide (peer_status p = RS.Connected).

Definition RemotePeers_add (p : P) (peers : RemotePeers) : RemotePeers := peers ++ [p].

Definition RemotePeers_forward_publish (topic : string) (payload : list byte) (qos : QoS) (retain : bool)
    (peers : RemotePeers) : list (string * remote_result) * RemotePeers :=
  each_peer (fun p => peer_should_forward p topic && is_connected p)
    (peer_forward_publish topic payload qos retain) peers.

Definition RemotePeers_notify_subscribe (filter : string) (qos : QoS) (peers : RemotePeers) : RemotePeers :=
  (each_peer is_connected (peer_notify_subscribe filter qos) peers).2.

Definition RemotePeers_notify_unsubscribe (filter : string) (peers : RemotePeers) : RemotePeers :=
  (each_peer is_connected (peer_notify_unsubscribe filter) peers).2.

Definition RemotePeers_start_all (peers : RemotePeers) : list (string * remote_result) * RemotePeers :=
  each_peer (fun _ => true) peer_start peers.

Definition RemotePeers_stop_all (peers : RemotePeers) : list (string * remote_result) * RemotePeers :=
  each_peer (fun _ => true) peer_stop peers.

Definition RemotePeers_len (peers : RemotePeers) : Z := zlen peers.

Definition RemotePeers_connected_count (peers : RemotePeers) : Z := zlen (filter (fun p => is_connected p) peers).

(** ** Lemmas *)

(** Every wanted peer is called once, in order; the others stay as they are. *)
Lemma each_peer_spec wanted call (peers : RemotePeers) :
  each_peer wanted call peers =
    ((fun p => (peer_name p, (call p).1)) <$> filter (fun p => wanted p) peers,
     (fun p => if wanted p then (call p).2 else p) <$> peers).
Proof.
  induction peers as [|p peers IH]; [done|]. cbn [each_peer]. rewrite IH, filter_cons. cbn [fmap list_fmap].
  destruct (wanted p) eqn:Hw; cbn.
  - rewrite decide_True by done. cbn. by destruct (call p).
  - by rewrite decide_False by (by intros []).
Qed.
End peers.
