(* ===== verification/Bridge.v ===== *)
(** * Bridges to other brokers

    [bridge/client.rs] and [bridge/manager.rs]: the client that connects to a
    remote broker and exchanges messages with it according to the forwarding
    rules, and the manager that hands local messages to all bridges. The remote
    end is the environment: what it sends are the bytes of the reads, and
    whether it still takes data is [bt_writable]. The text of an operating
    system error is [io_error]; the formatted detail of the other error texts
    is left out. *)

From S2P Require Import Prelude Protocol Codec Properties Packet Decode Encode Wire CodecTheorems TopicValidation.
From S2P Require Import TopicMapper Remote.

(** ** The client *)
Module BC.

Inductive BridgeCommand : Type :=
  | Publish (topic : string) (payload : list byte) (qos : QoS) (retain : bool)
  | Subscribe (filter : string) (qos : QoS)
  | Unsubscribe (filter : string)
  | Shutdown.

End BC.
Abbreviation BridgeCommand := BC.BridgeCommand.

(** [spawn] gives the task of the connection the same rules, so one mapper
    stands for both. *)
Record BridgeClient : Type := MkBridgeClient {
  bcl_config : BridgeConfig;
  bcl_topic_mapper : TopicMapper;
  bcl_status : RemotePeerStatus;
  bcl_command_tx : option (CommandChannel BridgeCommand);
  bcl_next_packet_id : Z;
}.

#[global] Instance BridgeClient_eta : Eta BridgeClient := fun c =>
  MkBridgeClient (bcl_config c) (bcl_topic_mapper c) (bcl_status c) (bcl_command_tx c) (bcl_next_packet_id c).

Definition BridgeClient_new (config : BridgeConfig) : BridgeClient :=
  MkBridgeClient config (TopicMapper_new (br_forwards config)) RS.Disconnected None 1.

(** [fetch_add] wraps around and returns the old value. *)
Definition bridge_next_packet_id (c : BridgeClient) : Z * BridgeClient :=
  let fetch_add (c : BridgeClient) := (bcl_next_packet_id c, c <| bcl_next_packet_id ::= (fun n => wrap_u16 (n + 1)) |>) in
  let '(id, c) := fetch_add c in
  if id =? 0 then fetch_add c else (id, c).

(** The client with its channel; the task is a [BridgeTask]. *)
Definition BridgeClient_spawn (c : BridgeClient) : BridgeClient :=
  c <| bcl_command_tx := Some (MkCommandChannel [] true true) |>.

Definition bridge_send (cmd : BridgeCommand) (c : BridgeClient) : remote_result * BridgeClient :=
  let '(r, tx) := send_command cmd (bcl_command_tx c) in (r, c <| bcl_command_tx := tx |>).

Definition bridge_forward_publish (topic : string) (payload : list byte) (qos : QoS) (retain : bool) (c : BridgeClient)
    : remote_result * BridgeClient :=
  match map_outbound (bcl_topic_mapper c) topic qos retain with
  | Some (remote_topic, effective_qos, effective_retain) =>
      bridge_send (BC.Publish remote_topic payload effective_qos effective_retain) c
  | None => (Ok tt, c)
  end.

Definition bridge_notify_subscribe (filter : string) (qos : QoS) : BridgeClient → remote_result * BridgeClient :=
  bridge_send (BC.Subscribe filter qos).

Definition bridge_notify_unsubscribe (filter : string) : BridgeClient → remote_result * BridgeClient :=
  bridge_send (BC.Unsubscribe filter).

Definition bridge_should_forward (c : BridgeClient) (topic : string) : bool :=
  should_forward_outbound (bcl_topic_mapper c) topic.

Definition bridge_start (c : BridgeClient) : remote_result * BridgeClient := (Ok tt, c).

(** [let _ = tx.send(Shutdown).await] *)
Definition bridge_stop (c : BridgeClient) : remote_result * BridgeClient := (Ok tt, (bridge_send BC.Shutdown c).2).

#[global] Instance BridgeClient_peer : RemotePeer BridgeClient :=
  {| peer_name c := br_name (bcl_config c);
     peer_status := bcl_status;
     peer_forward_publish := bridge_forward_publish;
     peer_notify_subscribe := bridge_notify_subscribe;
     peer_notify_unsubscribe := bridge_notify_unsubscribe;
     peer_should_forward := bridge_should_forward;
     peer_start := bridge_start;
     peer_stop := bridge_stop |}.

(** ** The task of the connection *)
Section task.
Context {S : Type} (inbound_callback : string → list byte → QoS → bool → S → S) (io_error : string).

(** [S] is the state that the callback acts on, the local broker's. *)
Record BridgeTask : Type := MkBridgeTask {
  bt_client : BridgeClient;
  bt_decoder : Decoder;
  bt_written : list (list byte);
  bt_writable : bool;
  bt_broker : S;
}.

#[global] Instance BridgeTask_eta : Eta BridgeTask := fun t =>
  MkBridgeTask (bt_client t) (bt_decoder t) (bt_written t) (bt_writable t) (bt_broker t).

#[local] Abbreviation btask := (task RemoteError BridgeTask).

Definition set_status (s : RemotePeerStatus) : btask unit :=
  update (fun t => t <| bt_client ::= (fun c => c <| bcl_status := s |>) |>).

Definition io {A} (r : io_result A) : btask A :=
  match r with
  | IoOk a => mret a
  | IoError => throw (ConnectionLost io_error)
  | IoTimeout => throw RemoteTimeout
  end.

(** [write_half.write_all(&buf).await] with its error as [ConnectionLost]. *)
Definition write_half (buf : list byte) : btask unit := fun t =>
  if bt_writable t then (Ok tt, t <| bt_written ::= (fun l => l ++ [buf]) |>)
  else (Err (ConnectionLost io_error), t).

(** [let _ = write_half.write_all(&buf).await] *)
Definition write_ignoring (buf : list byte) : btask unit := fun t => (Ok tt, (write_half buf t).2).

(** The encoder of the task is for v5.0. *)
Definition encode_v5 (p : Packet) : btask (list byte) := fun t =>
  match encode (Encoder_new V5) p [] with
  | (buf, Ok _) => (Ok buf, t)
  | (_, Err _) => (Err (RemoteOther "Encode error"), t)
  | (_, Panic) => (Panic, t)
  | (_, NoFuel) => (NoFuel, t)
  end.

(** [if encoder.encode(..).is_ok() { .. }] *)
Definition if_encodes (p : Packet) (k : list byte → btask unit) : btask unit := fun t =>
  match encode_v5 p t with
  | (Ok buf, t) => k buf t
  | (Err _, t) => (Ok tt, t)
  | (Panic, t) => (Panic, t)
  | (NoFuel, t) => (NoFuel, t)
  end.

Definition bridge_connect_packet (config : BridgeConfig) : Packet :=
  P.Connect (MkConnect V5 (br_client_id config) (br_clean_start config) (br_keepalive config) (br_username config)
    (as_bytes <$> br_password config) None Properties_default).

(** The handshake after the TCP connection; [data] is what the first read
    returns. *)
Definition send_connect (config : BridgeConfig) : btask unit :=
  update (fun t => t <| bt_decoder := Decoder_set_protocol_version Decoder_new V5 |>);;
  buf ← encode_v5 (bridge_connect_packet config);
  write_half buf.

(** [decoder.decode(&read_buf[..n])] *)
Definition decode_read (data : list byte) : btask (outcome DecodeError (option (Packet * Z))) := fun t =>
  let '(d, r) := decode (bt_decoder t) data in (Ok r, t <| bt_decoder := d |>).

Definition await_connack (data : list byte) : btask unit :=
  if is_nil data then throw (ConnectionLost "Connection closed")
  else
    r ← decode_read data;
    match r with
    | Ok (Some (P.ConnAck connack, _)) =>
        if negb (bool_decide (connack_reason_code connack = RC.Success)) then throw (Rejected "CONNACK failed")
        else set_status RS.Connected
    | Ok (Some _) => throw (RemoteOther "Expected CONNACK")
    | Ok None => throw (RemoteOther "Incomplete packet")
    | Err _ => throw (RemoteOther "Decode error")
    | Panic => lift Panic
    | NoFuel => lift NoFuel
    end.

(** [SubscriptionOptions { qos, no_local, ..Default::default() }] *)
Definition default_options (qos : QoS) (no_local : bool) : SubscriptionOptions :=
  let d := SubscriptionOptions_default in
  MkSubscriptionOptions qos no_local (so_retain_as_published d) (so_retain_handling d).

Definition inbound_subscription (config : BridgeConfig) (e : string * QoS) : Subscription :=
  MkSubscription e.1 (default_options e.2 (use_no_local config)).

Definition subscribe_inbound : btask unit :=
  config ← asks (fun t => bcl_config (bt_client t));
  filters ← asks (fun t => inbound_filters (bcl_topic_mapper (bt_client t)));
  if is_nil filters then mret tt
  else
    buf ← encode_v5 (P.Subscribe (MkSubscribe 1 (inbound_subscription config <$> filters) Properties_default));
    write_half buf.

(** [connect_and_run] up to its message loop; [tokio::time::interval] panics on
    a zero period. *)
Definition bridge_connect (connack : io_result (list byte)) : btask unit :=
  config ← asks (fun t => bcl_config (bt_client t));
  send_connect config;;
  data ← io connack;
  await_connack data;;
  subscribe_inbound;;
  if br_keepalive config =? 0 then lift Panic else mret tt.

(** ** The message loop: [true] when it goes on, [false] when it returns *)
Definition handle_command (cmd : BridgeCommand) : btask bool :=
  match cmd with
  | BC.Publish topic payload qos retain =>
      let packet_id := if negb (bool_decide (qos = AtMostOnce)) then Some 1 else None in
      if_encodes (P.Publish (MkPublish false qos retain topic packet_id payload Properties_default)) write_half;;
      mret true
  | BC.Subscribe filter qos =>
      if_encodes (P.Subscribe (MkSubscribe 2
        [MkSubscription filter (default_options qos (so_no_local SubscriptionOptions_default))] Properties_default)) write_ignoring;;
      mret true
  | BC.Unsubscribe filter =>
      if_encodes (P.Unsubscribe (MkUnsubscribe 3 [filter] Properties_default)) write_ignoring;;
      mret true
  | BC.Shutdown =>
      if_encodes (P.Disconnect (MkDisconnect RC.Success Properties_default)) write_ignoring;;
      mret false
  end.

Definition call_inbound (topic : string) (payload : list byte) (qos : QoS) (retain : bool) : btask unit :=
  update (fun t => t <| bt_broker ::= inbound_callback topic payload qos retain |>).

Definition handle_bridge_packet (p : Packet) : btask unit :=
  match p with
  | P.Publish publish =>
      mapper ← asks (fun t => bcl_topic_mapper (bt_client t));
      match map_inbound mapper (pub_topic publish) (pub_qos publish) (pub_retain publish) with
      | Some (local_topic, qos, retain) => call_inbound local_topic (pub_payload publish) qos retain
      | None => mret tt
      end;;
      if bool_decide (pub_qos publish = AtLeastOnce) then
        match pub_packet_id publish with
        | Some packet_id => if_encodes (P.PubAck (MkPubAck packet_id RC.Success Properties_default)) write_ignoring
        | None => mret tt
        end
      else mret tt
  | P.Disconnect _ => throw (ConnectionLost "Remote disconnected")
  | _ => mret tt
  end.

(** [read_half.read(&mut read_buf)] returned [data]: the first packet in it. *)
Definition handle_read (data : list byte) : btask bool :=
  if is_nil data then throw (ConnectionLost "Connection closed")
  else
    r ← decode_read data;
    match r with
    | Ok (Some (p, _)) => handle_bridge_packet p;; mret true
    | Ok None | Err _ => mret true
    | Panic => lift Panic
    | NoFuel => lift NoFuel
    end.

Definition keepalive_tick : btask bool := if_encodes P.PingReq write_half;; mret true.

(** What can happen while [select!] waits; which ready branch it takes is not
    determined. [LCommand] takes the oldest command; [LWritable] says whether
    the remote end still takes data. *)
Inductive loop_event : Type :=
  | LCommand
  | LRead (data : list byte)
  | LReadError
  | LTick
  | LWritable (b : bool).

Definition loop_step (e : loop_event) : btask bool :=
  match e with
  | LCommand => fun t =>
      match bcl_command_tx (bt_client t) with
      | Some ch =>
          match try_recv ch with
          | (Received cmd, ch) =>
              handle_command cmd (t <| bt_client ::= (fun c => c <| bcl_command_tx := Some ch |>) |>)
          | _ => (Ok true, t)
          end
      | None => (Ok true, t)
      end
  | LRead data => handle_read data
  | LReadError => throw (ConnectionLost io_error)
  | LTick => keepalive_tick
  | LWritable b => fun t => (Ok true, t <| bt_writable := b |>)
  end.

(** [true]: the loop is still running after [events]. *)
Fixpoint message_loop (events : list loop_event) : btask bool :=
  match events with
  | [] => mret true
  | e :: events => loop_step e ≫= fun go_on : bool => if go_on then message_loop events else mret false
  end.

Definition connect_and_run (tcp : io_result unit) (connack : io_result (list byte)) (events : list loop_event) : btask bool :=
  io tcp;;
  bridge_connect connack;;
  message_loop events.

(** ** [connection_loop] *)

(** The loop returns: the receiver is dropped. *)
Definition loop_returns : btask (option Z) :=
  set_status RS.Disconnected;;
  update (fun t => t <| bt_client ::= (fun c => c <| bcl_command_tx ::= fmap drop_receiver |>) |>);;
  mret None.

(** After an attempt that ended with [r]: [Some retry] when the loop goes on,
    with that interval. A command that is found in the channel is dropped
    unless it is [Shutdown]. *)
Definition after_attempt (r : outcome RemoteError unit) (retry : Z) : btask (option Z) :=
  match r with
  | Ok _ => loop_returns
  | Err _ =>
      set_status RS.Backoff;;
      config ← asks (fun t => bcl_config (bt_client t));
      retry ← lift (next_retry retry (br_max_reconnect_interval config));
      tx ← asks (fun t => bcl_command_tx (bt_client t));
      match try_recv <$> tx with
      | Some (Received BC.Shutdown, _) | Some (ChannelClosed, _) | None => loop_returns
      | Some (_, ch) => update (fun t => t <| bt_client ::= (fun c => c <| bcl_command_tx := Some ch |>) |>);; mret (Some retry)
      end
  | Panic => lift Panic
  | NoFuel => lift NoFuel
  end.

(** A sequence of attempts, each with what the environment does in it; the
    events of an attempt that does not end are the last ones. *)
Record attempt : Type := MkAttempt {
  at_tcp : io_result unit;
  at_connack : io_result (list byte);
  at_events : list loop_event;
}.

Fixpoint connection_loop (attempts : list attempt) (retry : Z) : btask (option Z) :=
  match attempts with
  | [] => mret (Some retry)
  | a :: attempts =>
      set_status RS.Connecting;;
      update (fun t => t <| bt_writable := true |>);;
      r ← attempt_result (connect_and_run (at_tcp a) (at_connack a) (at_events a));
      match r with
      | Ok true => mret (Some retry)
      | r =>
          next ← after_attempt (outcome_void r) retry;
          match next with
          | Some retry => connection_loop attempts retry
          | None => mret None
          end
      end
  end.
End task.

(** ** The manager ([bridge/manager.rs]) *)
Definition BridgeManager : Type := list BridgeClient.

Definition add_bridge (config : BridgeConfig) (m : BridgeManager) : BridgeManager :=
  m ++ [BridgeClient_spawn (BridgeClient_new config)].

Definition BridgeManager_from_configs (configs : list BridgeConfig) : BridgeManager :=
  foldl (fun m config => if br_enabled config then add_bridge config m else m) [] configs.

(** Errors are logged. *)
Definition manager_forward_publish (topic : string) (payload : list byte) (qos : QoS) (retain : bool) (m : BridgeManager)
    : BridgeManager :=
  (each_peer (fun b => peer_should_forward b topic && is_connected b) (peer_forward_publish topic payload qos retain) m).2.

Definition manager_should_forward (topic : string) (m : BridgeManager) : bool := existsb (fun b => peer_should_forward b topic) m.
Definition bridge_count (m : BridgeManager) : Z := zlen m.
Definition connected_count (m : BridgeManager) : Z := zlen (filter (fun b : BridgeClient => is_connected b) m).
Definition manager_status (m : BridgeManager) : list (string * RemotePeerStatus) :=
  (fun b : BridgeClient => (peer_name b, peer_status b)) <$> m.
Definition manager_start_all (m : BridgeManager) : BridgeManager := (each_peer (fun _ => true) peer_start m).2.
Definition manager_stop_all (m : BridgeManager) : BridgeManager := (each_peer (fun _ => true) peer_stop m).2.

(** ** Lemmas *)
Section lemmas.
Context {S : Type} (inbound_callback : string → list byte → QoS → bool → S → S) (io_error : string).
Implicit Types (t : @BridgeTask S).

Lemma encode_v5_bytes p t :
  encodable V5 p → is_var_int (zlen (packet_body V5 p)) → encode_v5 p t = (Ok (packet_bytes V5 p), t).
Proof. intros Hp Hl. unfold encode_v5. by rewrite (emits_encode (Encoder_new V5) p Hp Hl []). Qed.

(** A PUBLISH as the remote broker gets it for a message that the mapper
    forwards: its packet identifier is always 1. *)
Definition bridged (payload : list byte) (m : string * QoS * bool) : Publish :=
  let '(topic, qos, retain) := m in
  MkPublish false qos retain topic (if decide (qos = AtMostOnce) then None else Some 1) payload Properties_default.

Definition forward_all (ms : list message) (c : BridgeClient) : BridgeClient :=
  foldl (fun c m => (bridge_forward_publish (m_topic m) (m_payload m) (m_qos m) (m_retain m) c).2) c ms.

Definition mapped (mapper : TopicMapper) (ms : list message) : list Publish :=
  omap (fun m => bridged (m_payload m) <$> map_outbound mapper (m_topic m) (m_qos m) (m_retain m)) ms.

Definition command_of (p : Publish) : BridgeCommand := BC.Publish (pub_topic p) (pub_payload p) (pub_qos p) (pub_retain p).

Lemma forward_all_queue ms c q :
  bcl_command_tx c = Some (MkCommandChannel q true true) →
  forward_all ms c = c <| bcl_command_tx := Some (MkCommandChannel (q ++ (command_of <$> mapped (bcl_topic_mapper c) ms)) true true) |>.
Proof.
  revert c q. induction ms as [|m ms IH]; intros c q Hc.
  - cbn. rewrite app_nil_r, <-Hc. by destruct c.
  - change (forward_all (m :: ms) c) with
      (forward_all ms (bridge_forward_publish (m_topic m) (m_payload m) (m_qos m) (m_retain m) c).2).
    unfold mapped, bridge_forward_publish. cbn [omap list_omap].
    destruct (map_outbound _ _ _ _) as [[[topic qos] retain]|]; cbn [fmap option_fmap option_map]; [|by erewrite IH].
    unfold bridge_send. rewrite Hc. cbn [send_command cc_open snd].
    erewrite IH by reflexivity. cbn. by rewrite <-app_assoc.
Qed.

Definition transmittable (p : Packet) : Prop := encodable V5 p ∧ zlen (packet_body V5 p) ≤ MAX_REMAINING_LENGTH.

Lemma transmittable_var_int p : transmittable p → is_var_int (zlen (packet_body V5 p)).
Proof. intros [_ H]. unfold is_var_int. llia. Qed.

Lemma handle_publish_command payload m t :
  transmittable (P.Publish (bridged payload m)) → bt_writable t = true →
  handle_command io_error (command_of (bridged payload m)) t =
    (Ok true, t <| bt_written ::= (λ l, l ++ [packet_bytes V5 (P.Publish (bridged payload m))]) |>).
Proof.
  intros Ht Hw. destruct m as [[topic qos] retain]. cbn [bridged command_of handle_command pub_topic pub_payload pub_qos pub_retain].
  unfold mbind, task_bind, if_encodes. replace (if negb (bool_decide (qos = AtMostOnce)) then Some 1 else None)
    with (if decide (qos = AtMostOnce) then None else Some 1) by (by destruct qos).
  rewrite encode_v5_bytes by (apply Ht || by apply transmittable_var_int). unfold write_half. by rewrite Hw.
Qed.

Lemma message_loop_commands (ps : list (list byte * (string * QoS * bool))) t :
  let publishes := (λ e, bridged e.1 e.2) <$> ps in
  bcl_command_tx (bt_client t) = Some (MkCommandChannel (command_of <$> publishes) true true) → bt_writable t = true →
  Forall (λ p, transmittable (P.Publish p)) publishes →
  message_loop inbound_callback io_error (replicate (length ps) LCommand) t =
    (Ok true, t <| bt_client ::= (λ c, c <| bcl_command_tx := Some (MkCommandChannel [] true true) |>) |>
                <| bt_written ::= (λ l, l ++ ((λ p, packet_bytes V5 (P.Publish p)) <$> publishes)) |>).
Proof.
  cbv zeta. revert t. induction ps as [|[payload m] ps IH]; intros t Hq Hw Hp.
  - destruct t as [[] ? ? ? ?]. cbn in *. subst. cbv [set_field]. cbn. by rewrite app_nil_r.
  - cbn [length replicate message_loop]. unfold mbind, task_bind. cbn [loop_step]. rewrite Hq. cbn [fmap list_fmap try_recv cc_queue].
    apply Forall_cons in Hp as [Hp Hps]. rewrite handle_publish_command by done.
    rewrite IH; [|done..]. destruct t as [[] ? ? ? ?]. cbv [set_field]. cbn. by rewrite <-app_assoc.
Qed.

(** The mapped messages with their payloads. *)
Definition mapped_messages (mapper : TopicMapper) (ms : list message) : list (list byte * (string * QoS * bool)) :=
  omap (fun m => pair (m_payload m) <$> map_outbound mapper (m_topic m) (m_qos m) (m_retain m)) ms.

Lemma mapped_bridged mapper ms : mapped mapper ms = (λ e, bridged e.1 e.2) <$> mapped_messages mapper ms.
Proof.
  induction ms as [|m ms IH]; [done|]. unfold mapped, mapped_messages in *. cbn [omap list_omap].
  destruct (map_outbound _ _ _ _); cbn; [by rewrite IH|done].
Qed.

(** *** The backoff *)

(** A task that keeps the configuration and the channel, and returns. *)
Definition quiet (config : BridgeConfig) {A} (m : task RemoteError (@BridgeTask S) A) : Prop :=
  ∀ t, bcl_config (bt_client t) = config →
    bcl_config (bt_client (m t).2) = config ∧ bcl_command_tx (bt_client (m t).2) = bcl_command_tx (bt_client t) ∧
    post (m t).1 (λ _, True).

Context (config : BridgeConfig) (Hka : br_keepalive config ≠ 0).

Lemma quiet_bind {A B} (m : task RemoteError (@BridgeTask S) A) (k : A → task RemoteError (@BridgeTask S) B) :
  quiet config m → (∀ a, quiet config (k a)) → quiet config (m ≫= k).
Proof.
  intros Hm Hk t Ht. destruct (Hm t Ht) as (H1 & H2 & H3). unfold mbind, task_bind.
  destruct (m t) as [[a| | |] t']; cbn in *; try done. destruct (Hk a t' H1) as (? & H4 & ?). by rewrite <-H2, <-H4.
Qed.

Lemma quiet_if_encodes p k : (∀ buf, quiet config (k buf)) → quiet config (if_encodes p k).
Proof.
  intros Hk t Ht. unfold if_encodes, encode_v5. pose proof (encode_safe (Encoder_new V5) p []) as He.
  destruct (encode (Encoder_new V5) p []) as [buf [|e| |]]; try done. by apply Hk.
Qed.

Lemma quiet_encode_v5 p : quiet config (encode_v5 p).
Proof.
  intros t Ht. unfold encode_v5. pose proof (encode_safe (Encoder_new V5) p []) as He.
  by destruct (encode (Encoder_new V5) p []) as [buf [|e| |]].
Qed.

Lemma quiet_write_half buf : quiet config (write_half io_error buf).
Proof. intros t Ht. unfold write_half. by destruct (bt_writable t). Qed.

Lemma quiet_write_ignoring buf : quiet config (write_ignoring io_error buf).
Proof. intros t Ht. unfold write_ignoring, write_half. by destruct (bt_writable t). Qed.

Lemma quiet_decode_read {A} data (k : _ → task RemoteError (@BridgeTask S) A) :
  (∀ r, post r (λ _, True) → quiet config (k r)) → quiet config (decode_read data ≫= k).
Proof.
  intros Hk t Ht. unfold decode_read, mbind, task_bind. pose proof (post_decode (bt_decoder t) data) as Hd.
  destruct (decode (bt_decoder t) data) as [d r]. assert (Hr : post r (λ _, True)) by (by destruct r). 
  destruct t as [c d0 l b st]. exact (Hk r Hr (MkBridgeTask c d l b st) Ht).
Qed.

Lemma quiet_ret {A} (a : A) : quiet config (mret a).
Proof. done. Qed.

Lemma quiet_throw {A} e : quiet config (@throw RemoteError (@BridgeTask S) A e).
Proof. done. Qed.

Lemma quiet_asks {A} (f : @BridgeTask S → A) : quiet config (asks f).
Proof. done. Qed.

Lemma quiet_set_status s : quiet config (@set_status S s).
Proof. done. Qed.

Lemma quiet_call topic payload qos retain : quiet config (call_inbound inbound_callback topic payload qos retain).
Proof. done. Qed.

Lemma quiet_update_decoder d : quiet config (@update RemoteError (@BridgeTask S) (fun t => t <| bt_decoder := d |>)).
Proof. done. Qed.

Lemma quiet_config {A} (k : BridgeConfig → task RemoteError (@BridgeTask S) A) :
  quiet config (k config) → quiet config (asks (fun t => bcl_config (bt_client t)) ≫= k).
Proof. intros Hk t Ht. unfold mbind, task_bind, asks. rewrite Ht. by apply Hk. Qed.

#[local] Hint Resolve quiet_update_decoder quiet_ret quiet_throw quiet_asks quiet_set_status quiet_call quiet_encode_v5 quiet_write_half
  quiet_write_ignoring : quiet.

Ltac solve_quiet := intros; repeat first [solve [auto with quiet nocore] | contradiction
  | apply quiet_decode_read; intros [] ? | apply quiet_bind; [|intros] | apply quiet_if_encodes; intros | case_match].

Lemma quiet_connect connack : quiet config (bridge_connect io_error connack).
Proof.
  apply quiet_config. unfold send_connect, io, await_connack, subscribe_inbound.
  rewrite (proj2 (Z.eqb_neq _ _) Hka). solve_quiet.
Qed.

(** Apart from [LCommand], a step goes on or fails. *)
Lemma quiet_step e : e ≠ LCommand → quiet config (loop_step inbound_callback io_error e).
Proof. destruct e; [done|..]; intros _; cbn [loop_step]; unfold handle_read, handle_bridge_packet, keepalive_tick; solve_quiet. done. Qed.

(** An attempt that ends because the remote end cannot be reached, or because
    the connection breaks with no command taken before. *)
Definition lost (a : attempt) : Prop :=
  at_tcp a ≠ IoOk tt ∨ LReadError ∈ at_events a ∧ LCommand ∉ at_events a.

Lemma loop_step_goes_on e t : e ≠ LCommand → (loop_step inbound_callback io_error e t).1 ≠ Ok false.
Proof.
  intros He. destruct e as [|data| | |]; [done|..]; cbn [loop_step]; try done.
  - unfold handle_read, decode_read, mbind, task_bind. destruct (is_nil data); [done|].
    destruct (decode _ _) as [d [[[p n]|]| | |]]; try done. by destruct (handle_bridge_packet _ _ _ _) as [[]].
  - unfold keepalive_tick, mbind, task_bind. by destruct (if_encodes _ _ _) as [[]].
Qed.

Lemma lost_loop events t :
  bcl_config (bt_client t) = config → LReadError ∈ events → LCommand ∉ events →
  ∃ e t', message_loop inbound_callback io_error events t = (Err e, t') ∧
    bcl_config (bt_client t') = config ∧ bcl_command_tx (bt_client t') = bcl_command_tx (bt_client t).
Proof.
  revert t. induction events as [|ev events IH]; intros t Ht Hr Hc; [by apply not_elem_of_nil in Hr|].
  apply not_elem_of_cons in Hc as [Hev Hc]. cbn [message_loop]. unfold mbind, task_bind.
  pose proof (loop_step_goes_on ev t (not_eq_sym Hev)) as Hgo. destruct (quiet_step ev (not_eq_sym Hev) t Ht) as (H1 & H2 & H3).
  destruct (loop_step inbound_callback io_error ev t) as [[[]|e| |] t'] eqn:Hs; cbn in *; try done; [|eauto].
  apply elem_of_cons in Hr as [<-|Hr]; [done|]. destruct (IH t' H1 Hr Hc) as (e & t2 & -> & ? & Hq). exists e, t2. by rewrite Hq, H2.
Qed.

Lemma lost_fails a t :
  lost a → bcl_config (bt_client t) = config →
  ∃ e t', connect_and_run inbound_callback io_error (at_tcp a) (at_connack a) (at_events a) t = (Err e, t') ∧
    bcl_config (bt_client t') = config ∧ bcl_command_tx (bt_client t') = bcl_command_tx (bt_client t).
Proof.
  intros Hl Ht. unfold connect_and_run, mbind, task_bind. destruct (at_tcp a) as [[]| |] eqn:Ha; [|by eauto..].
  destruct Hl as [|[Hr Hc]]; [congruence|]. destruct (quiet_connect (at_connack a) t Ht) as (H1 & H2 & H3). cbn [io mret task_ret].
  destruct (bridge_connect io_error (at_connack a) t) as [[|e| |] t']; cbn in *; try done; [|by eauto].
  destruct (lost_loop (at_events a) t' H1 Hr Hc) as (e & t2 & -> & ? & Hq). exists e, t2. by rewrite Hq, H2.
Qed.
End lemmas.

(** ** Properties *)
(** *** What the configured rules ask for *)

(** The message that the first outbound rule for its topic makes of a local one. *)
Definition forwards_as (rules : list ForwardRule) (m : message) (p : Publish) : Prop :=
  ∃ before r after, rules = before ++ r :: after ∧
    Forall (λ r', is_outbound r' = true → topic_matches_filter (m_topic m) (local_topic r') = false) before ∧
    is_outbound r = true ∧ topic_matches_filter (m_topic m) (local_topic r) = true ∧
    pub_topic p = transform (from_forward_rule r true) (m_topic m) true ∧ pub_payload p = m_payload m ∧
    QoS_as_u8 (pub_qos p) = Z.min (QoS_as_u8 (m_qos m)) (rule_qos r) ∧
    (pub_retain p = true ↔ m_retain m = true ∧ rule_retain r = true) ∧
    pub_dup p = false ∧ pub_packet_id p = (if QoS_as_u8 (pub_qos p) =? 0 then None else Some 1) ∧
    pub_properties p = Properties_default.

(** The messages to forward, in order; the others have no outbound rule. *)
Inductive forwarded (rules : list ForwardRule) : list message → list Publish → Prop :=
  | forwarded_nil : forwarded rules [] []
  | forwarded_keep m ms p ps : forwards_as rules m p → forwarded rules ms ps → forwarded rules (m :: ms) (p :: ps)
  | forwarded_skip m ms ps :
      Forall (λ r, is_outbound r = true → topic_matches_filter (m_topic m) (local_topic r) = false) rules →
      forwarded rules ms ps → forwarded rules (m :: ms) ps.

Lemma map_outbound_first rules m :
  Forall (λ r, 0 ≤ rule_qos r) rules →
  match map_outbound (TopicMapper_new rules) (m_topic m) (m_qos m) (m_retain m) with
  | Some e => forwards_as rules m (bridged (m_payload m) e)
  | None => Forall (λ r, is_outbound r = true → topic_matches_filter (m_topic m) (local_topic r) = false) rules
  end.
Proof.
  induction 1 as [|r rules Hr _ IH]; [constructor|]. unfold map_outbound, TopicMapper_new in *. cbn [outbound_rules] in *.
  assert (Hskip : (is_outbound r = true → topic_matches_filter (m_topic m) (local_topic r) = false) →
    match map_topic true ((λ r, from_forward_rule r true) <$> filter (λ r, is_outbound r) rules) (m_topic m) (m_qos m) (m_retain m) with
    | Some e => forwards_as (r :: rules) m (bridged (m_payload m) e)
    | None => Forall (λ r, is_outbound r = true → topic_matches_filter (m_topic m) (local_topic r) = false) (r :: rules)
    end).
  { intros Hn. case_match; [|by constructor]. destruct IH as (before & r' & after & -> & Hb & Hrest).
    exists (r :: before), r', after. split; [done|]. split; [by constructor|exact Hrest]. }
  rewrite filter_cons. case_decide as Ho; [|apply Hskip; naive_solver]. cbn [fmap list_fmap map_topic].
  assert (El : rule_matches (from_forward_rule r true) (m_topic m) true = topic_matches_filter (m_topic m) (local_topic r)).
  { unfold rule_matches, from_forward_rule. by destruct (compute_prefix_transform _ _). }
  rewrite El. destruct (topic_matches_filter _ (local_topic r)) eqn:Em; [|by apply Hskip].
  exists [], r, rules. split_and!; try done.
  - by destruct r as [? ? []].
  - cbn. unfold from_forward_rule. destruct (compute_prefix_transform _ _). cbn.
    destruct (m_qos m), (rule_qos r) as [|[]|]; cbn; try lia.
  - cbn. unfold from_forward_rule. destruct (compute_prefix_transform _ _). cbn. by rewrite andb_true_iff.
  - cbn. by destruct (QoS_min _ _).
Qed.

Lemma mapped_forwarded rules ms :
  Forall (λ r, 0 ≤ rule_qos r) rules → forwarded rules ms (mapped (TopicMapper_new rules) ms).
Proof.
  intros Hr. induction ms as [|m ms IH]; [constructor|]. unfold mapped in *. cbn [omap list_omap].
  pose proof (map_outbound_first rules m Hr) as Hm.
  destruct (map_outbound _ _ _ _); cbn; [by apply forwarded_keep|by apply forwarded_skip].
Qed.

Section properties.
Context {S : Type} (inbound_callback : string → list byte → QoS → bool → S → S) (io_error : string).
Implicit Types (t : @BridgeTask S).

Lemma lost_after e retry t :
  bcl_command_tx (bt_client t) = Some (MkCommandChannel [] true true) →
  0 < retry < from_secs (2 ^ 63) →
  ∃ t', after_attempt (Err e) retry t = (Ok (Some (Z.min (retry * 2) (br_max_reconnect_interval (bcl_config (bt_client t))))), t') ∧
    bcl_config (bt_client t') = bcl_config (bt_client t) ∧ bcl_command_tx (bt_client t') = Some (MkCommandChannel [] true true) ∧
    bcl_status (bt_client t') = RS.Backoff.
Proof.
  intros Hq Hr. unfold after_attempt, mbind, task_bind, lift, asks, set_status, update, next_retry.
  cbn [bt_client bcl_config bcl_command_tx set_field].
  rewrite (proj2 (Z.ltb_lt _ _)) by (unfold from_secs in *; lia). cbn. rewrite Hq. cbn. by eexists.
Qed.

(** The interval after [n] lost attempts. *)
Definition backoff (r0 max : Z) (n : nat) : Z := match n with O => r0 | _ => Z.min (r0 * 2 ^ Z.of_nat n) max end.

Lemma backoff_step r0 max n : 0 ≤ max → backoff (Z.min (r0 * 2) max) max n = backoff r0 max (Datatypes.S n).
Proof.
  intros Hm. destruct n as [|n]; cbn [backoff]; [by rewrite Z.pow_1_r|].
  rewrite (Nat2Z.inj_succ (Datatypes.S n)), Z.pow_succ_r by lia.
  assert (1 ≤ 2 ^ Z.of_nat (Datatypes.S n)) by (apply (Z.pow_le_mono_r 2 0); lia). nia.
Qed.

(** The client reconnects with exponential backoff: when [n] attempts in a
    row are lost, whether the remote broker could not be reached or the
    connection broke after it was established, the loop goes on and the next
    interval is the initial one doubled [n] times, at most the configured
    maximum. It never starts over: an attempt that had connected counts like
    one that had not. *)
Theorem bridge_backoff attempts r0 t :
  let config := bcl_config (bt_client t) in
  Forall lost attempts → br_keepalive config ≠ 0 →
  bcl_command_tx (bt_client t) = Some (MkCommandChannel [] true true) →
  0 < r0 < from_secs (2 ^ 63) → 0 < br_max_reconnect_interval config < from_secs (2 ^ 63) →
  ∃ t', connection_loop inbound_callback io_error attempts r0 t =
      (Ok (Some (backoff r0 (br_max_reconnect_interval config) (length attempts))), t') ∧
    (attempts ≠ [] → bcl_status (bt_client t') = RS.Backoff) ∧
    bcl_command_tx (bt_client t') = Some (MkCommandChannel [] true true).
Proof.
  cbv zeta. intros Ha. revert r0 t. induction Ha as [|a attempts Ha Has IH]; intros r0 t Hka Hq Hr Hm; [by eexists|].
  cbn [connection_loop]. unfold mbind, task_bind, attempt_result. cbn [set_status update].
  set (t1 := t <| bt_client ::= (λ c, c <| bcl_status := RS.Connecting |>) |> <| bt_writable := true |>).
  destruct (lost_fails inbound_callback io_error (bcl_config (bt_client t)) Hka a t1 Ha eq_refl) as (e & t2 & Hrun & Hc2 & Hq2).
  rewrite Hrun. change (bcl_command_tx (bt_client t1)) with (bcl_command_tx (bt_client t)) in Hq2.
  destruct (lost_after e r0 t2) as (t3 & Haf & Hc3 & Hq3 & Hs3); [by rewrite Hq2|done|].
  unfold outcome_void, mbind, outcome_bind. rewrite Haf, Hc2. rewrite Hc2 in Hc3.
  destruct (IH (Z.min (r0 * 2) (br_max_reconnect_interval (bcl_config (bt_client t)))) t3) as (t4 & Hl & Hs4 & Hq4);
    rewrite ?Hc3; [done..|lia|done|]. exists t4. rewrite Hl, Hc3, backoff_step by lia. split_and!; [done| |done].
  intros _. destruct attempts; [|by apply Hs4]. cbn in Hl. by injection Hl as <-.
Qed.

Lemma packet_bytes_not_nil v p rest : is_nil (packet_bytes v p ++ rest) = false.
Proof. done. Qed.

Lemma encode_puback id t :
  is_u16 id → encode_v5 (P.PubAck (MkPubAck id RC.Success Properties_default)) t =
    (Ok (packet_bytes V5 (P.PubAck (MkPubAck id RC.Success Properties_default))), t).
Proof.
  intros Hid. apply encode_v5_bytes; [|split; done]. split; [|done].
  split; [done|]. split; [|done]. split; [apply Forall_nil_2|split; done].
Qed.

(** C30. Messages handed to a bridge reach the remote broker: after any sequence
    of local messages is forwarded, the task takes one command for each message
    for whose topic there is an outbound rule and writes one PUBLISH for each,
    in order, with the topic that the first such rule gives, the lower of the
    two QoS, and the retain flag set just when both the message and the rule
    have it; a decoder for v5.0 reads it back exactly. Every PUBLISH with QoS
    above 0 carries packet identifier 1. The channel to the task is open and
    empty before, the connection takes what is written, and each PUBLISH is one
    that MQTT can carry. *)
Theorem bridge_forwards ms t :
  let rules := br_forwards (bcl_config (bt_client t)) in
  bcl_topic_mapper (bt_client t) = TopicMapper_new rules → Forall (λ r, 0 ≤ rule_qos r) rules →
  bcl_command_tx (bt_client t) = Some (MkCommandChannel [] true true) → bt_writable t = true →
  ∃ publishes, forwarded rules ms publishes ∧
    (Forall (λ p, transmittable (P.Publish p)) publishes →
     ∃ t' written,
       message_loop inbound_callback io_error (replicate (length publishes) LCommand) (t <| bt_client ::= forward_all ms |>) =
         (Ok true, t') ∧
       bt_written t' = bt_written t ++ written ∧ bcl_command_tx (bt_client t') = Some (MkCommandChannel [] true true) ∧
       Forall2 (λ p bs, ∀ rest, decode (MkDecoder MAX_REMAINING_LENGTH (Some V5)) (bs ++ rest) =
         (MkDecoder MAX_REMAINING_LENGTH (Some V5), Ok (Some (P.Publish p, zlen bs)))) publishes written).
Proof.
  cbv zeta. intros Hm Hr Hq Hw. eexists. split; [by apply mapped_forwarded|]. rewrite <-Hm, mapped_bridged.
  intros Hp. rewrite length_fmap, message_loop_commands.
  - eexists _, _. split; [done|]. split; [done|]. split; [done|].
    apply Forall2_fmap_r, Forall_Forall2_diag. eapply Forall_impl; [done|]. intros p Ht rest.
    rewrite (decode_packet_bytes _ V5); [done|done|apply Ht|apply Ht|by apply transmittable_var_int].
  - change (bt_client (t <| bt_client ::= forward_all ms |>)) with (forward_all ms (bt_client t)).
    by rewrite (forward_all_queue ms (bt_client t) [] Hq), mapped_bridged.
  - done.
  - done.
Qed.

(** What one read from the remote broker does when it starts with a PUBLISH:
    the message is mapped by the inbound rules and given to the local broker
    once, a PUBACK with its identifier is written if its QoS is 1, and nothing
    is written if it is 2. The rest of what was read is dropped, whatever it
    is: further packets in the same read are lost. *)
Theorem bridge_read p rest t :
  transmittable (P.Publish p) → protocol_version (bt_decoder t) = Some V5 → max_packet_size (bt_decoder t) = MAX_REMAINING_LENGTH →
  bt_writable t = true →
  handle_read inbound_callback io_error (packet_bytes V5 (P.Publish p) ++ rest) t =
    (Ok true,
     t <| bt_broker ::= (λ b, match map_inbound (bcl_topic_mapper (bt_client t)) (pub_topic p) (pub_qos p) (pub_retain p) with
            | Some (topic, qos, retain) => inbound_callback topic (pub_payload p) qos retain b
            | None => b
            end) |>
       <| bt_written ::= (λ l, l ++ match pub_qos p, pub_packet_id p with
            | AtLeastOnce, Some id => [packet_bytes V5 (P.PubAck (MkPubAck id RC.Success Properties_default))]
            | _, _ => []
            end) |>).
Proof.
  intros Ht Hv Hm Hw. pose proof (decode_packet_bytes (bt_decoder t) V5 Hv (P.Publish p) rest (proj1 Ht)) as Hd.
  rewrite Hm in Hd. specialize (Hd (proj2 Ht) (transmittable_var_int _ Ht)). cbn [decoder_after] in Hd.
  destruct Ht as [[(_ & _ & _ & _ & Hid & _) _] _].
  unfold handle_read. rewrite packet_bytes_not_nil. unfold decode_read, mbind, task_bind. rewrite Hd.
  unfold handle_bridge_packet, asks, mbind, task_bind. destruct t as [c d l b st]. cbn in Hw |- *. subst b.
  destruct (map_inbound _ _ _ _) as [[[topic qos] retain]|], (pub_qos p) eqn:Hq, (pub_packet_id p) as [id|]; cbv [set_field]; cbn -[packet_bytes if_encodes] in *;
    rewrite ?app_nil_r; try done; unfold if_encodes; rewrite encode_puback by apply Hid; done.
Qed.
End properties.

Definition sample_bridge : BridgeConfig :=
  (BridgeConfig_default "1") <| br_forwards := [MkForwardRule "site/#" "cloud/site/#" DirBoth 1 true] |>.

Definition sample_task : @BridgeTask (list string) :=
  MkBridgeTask (BridgeClient_spawn (BridgeClient_new sample_bridge)) (MkDecoder MAX_REMAINING_LENGTH (Some V5)) [] true [].

Definition sample_attempts : list attempt :=
  [MkAttempt (IoOk tt) (IoOk [x20; x03; x00; x00; x00]) [LTick; LReadError]; MkAttempt IoTimeout IoError []].

Lemma bridge_backoff_witness :
  ∃ t', connection_loop (fun topic _ _ _ topics => topics ++ [topic]) "reset" sample_attempts (from_secs 5) sample_task =
      (Ok (Some (from_secs 20)), t') ∧
    (sample_attempts ≠ [] → bcl_status (bt_client t') = RS.Backoff) ∧
    bcl_command_tx (bt_client t') = Some (MkCommandChannel [] true true).
Proof.
  apply (bridge_backoff _ "reset" sample_attempts (from_secs 5) sample_task).
  - repeat apply Forall_cons_2; [right|by left|apply Forall_nil_2]. cbn [at_events]. split; [set_solver|].
    intros [|[|?%elem_of_nil]%elem_of_cons]%elem_of_cons; done.
  - done.
  - done.
  - unfold from_secs. lia.
  - vm_compute. done.
Defined.


Lemma sample_transmittable topic qos payload id :
  mqtt_string topic = true → contains "+" topic = false → contains "#" topic = false →
  match id with Some id => qos ≠ AtMostOnce ∧ is_u16 id ∧ id ≠ 0 | None => qos = AtMostOnce end →
  zlen payload ≤ 1000 →
  transmittable (P.Publish (MkPublish false qos true topic id payload Properties_default)).
Proof.
  intros H1 H2 H3 H4 H5. split.
  - split; [|done]. refine (conj _ (conj H1 (conj H2 (conj H3 (conj H4 _))))); [done|]. split; [apply Forall_nil_2|split; done].
  - cbn [packet_body]. unfold publish_body. cbn [pub_topic pub_packet_id pub_properties pub_payload].
    unfold mqtt_string in H1. apply andb_true_iff in H1 as [_ H1%Z.leb_le]. unfold MAX_REMAINING_LENGTH.
    rewrite !zlen_app, zlen_string_bytes. change (zlen (section_bytes V5 Properties_default)) with 1.
    assert (zlen (opt_bytes be_u16 id) ≤ 2) by (by destruct id). lia.
Qed.

Definition sample_messages : list message :=
  [MkMessage "site/a" [x61] ExactlyOnce true; MkMessage "other" [x62] AtMostOnce true; MkMessage "site/b" [] AtMostOnce true].

Lemma bridge_forwards_witness :
  ∃ publishes, forwarded (br_forwards sample_bridge) sample_messages publishes ∧
    (Forall (λ p, transmittable (P.Publish p)) publishes →
     ∃ t' written,
       message_loop (fun topic _ _ _ topics => topics ++ [topic]) "reset" (replicate (length publishes) LCommand)
         (sample_task <| bt_client ::= forward_all sample_messages |>) = (Ok true, t') ∧
       bt_written t' = [] ++ written ∧ bcl_command_tx (bt_client t') = Some (MkCommandChannel [] true true) ∧
       Forall2 (λ p bs, ∀ rest, decode (MkDecoder MAX_REMAINING_LENGTH (Some V5)) (bs ++ rest) =
         (MkDecoder MAX_REMAINING_LENGTH (Some V5), Ok (Some (P.Publish p, zlen bs)))) publishes written).
Proof.
  apply (bridge_forwards (fun topic _ _ _ topics => topics ++ [topic]) "reset" sample_messages sample_task); try reflexivity.
  apply Forall_cons_2; [cbn; lia|apply Forall_nil_2].
Defined.

(** The two messages of [sample_messages] that have a rule can be carried. *)
Example sample_forwarded :
  let publishes := [MkPublish false AtLeastOnce true "cloud/site/a" (Some 1) [x61] Properties_default;
                    MkPublish false AtMostOnce true "cloud/site/b" None [] Properties_default] in
  forwarded (br_forwards sample_bridge) sample_messages publishes ∧ Forall (λ p, transmittable (P.Publish p)) publishes.
Proof.
  cbv zeta. split.
  - apply (mapped_forwarded (br_forwards sample_bridge) sample_messages). apply Forall_cons_2; [cbn; lia|apply Forall_nil_2].
  - repeat apply Forall_cons_2; [..|apply Forall_nil_2]; by apply sample_transmittable.
Qed.

Lemma bridge_read_witness :
  let p := MkPublish false AtLeastOnce true "cloud/site/a" (Some 9) [x61] Properties_default in
  let ping := packet_bytes V5 P.PingResp in
  handle_read (fun topic _ _ _ topics => topics ++ [topic]) "reset" (packet_bytes V5 (P.Publish p) ++ ping) sample_task =
    (Ok true, sample_task <| bt_broker := ["site/a"%string] |> <| bt_written := [[x40; x02; x00; x09]] |>).
Proof.
  cbv zeta. rewrite (bridge_read (fun topic _ _ _ topics => topics ++ [topic])); [reflexivity| |done..].
  by apply sample_transmittable.
Defined.
