(* ===== verification/BufferPool.v ===== *)
(** * The buffer pool

    [buffer_pool.rs]: buffers that connections give back for the next one. The
    queue of the crate crossbeam is an interface with what its documentation
    says of it; a buffer is its bytes and its capacity. *)

From S2P Require Import Prelude.

Definition DEFAULT_BUFFER_SIZE : Z := 4096.
Definition MAX_POOLED_BUFFERS : nat := 256.
Definition MAX_POOLED_BUFFER_SIZE : Z := 16384.

(** [BytesMut] *)
Record buffer : Type := MkBuffer {
  buf_bytes : list byte;
  buf_capacity : Z;
}.

Definition with_capacity (n : Z) : buffer := MkBuffer [] n.
Definition clear (b : buffer) : buffer := MkBuffer [] (buf_capacity b).

(** [crossbeam_queue::ArrayQueue]: a bounded queue. Pushing to a full queue gives
    the element back. *)
Class ArrayQueue (Q : Type → Type) := {
  queue_new : ∀ {A}, nat → Q A;
  queue_push : ∀ {A}, A → Q A → bool * Q A;
  queue_pop : ∀ {A}, Q A → option A * Q A;
  queue_list : ∀ {A}, Q A → list A;
  queue_capacity : ∀ {A}, Q A → nat;
}.

Class ArrayQueueLaws (Q : Type → Type) `{ArrayQueue Q} : Prop := {
  queue_new_list : ∀ A n, queue_list (queue_new (A := A) n) = [] ∧ queue_capacity (queue_new (A := A) n) = n;
  queue_push_list : ∀ A (x : A) q,
    let full := bool_decide (length (queue_list q) = queue_capacity q) in
    (queue_push x q).1 = negb full ∧
    queue_list (queue_push x q).2 = (if full then queue_list q else queue_list q ++ [x]) ∧
    queue_capacity (queue_push x q).2 = queue_capacity q;
  queue_pop_list : ∀ A (q : Q A),
    (queue_pop q).1 = head (queue_list q) ∧ queue_list (queue_pop q).2 = tail (queue_list q) ∧
    queue_capacity (queue_pop q).2 = queue_capacity q;
}.

Section pool.
Context {Q : Type → Type} `{!ArrayQueue Q}.

Record BufferPool : Type := MkPool {
  bp_pool : Q buffer;
  bp_buffer_size : Z;
}.

Definition with_buffer_size (buffer_size : Z) : BufferPool := MkPool (queue_new MAX_POOLED_BUFFERS) buffer_size.
Definition BufferPool_new : BufferPool := with_buffer_size DEFAULT_BUFFER_SIZE.

Definition pool_get (p : BufferPool) : buffer * BufferPool :=
  let '(b, q) := queue_pop (bp_pool p) in (default (with_capacity (bp_buffer_size p)) b, MkPool q (bp_buffer_size p)).

Definition pool_put (buf : buffer) (p : BufferPool) : BufferPool :=
  if buf_capacity buf <=? MAX_POOLED_BUFFER_SIZE then MkPool (queue_push (clear buf) (bp_pool p)).2 (bp_buffer_size p)
  else p.

Definition pool_len (p : BufferPool) : nat := length (queue_list (bp_pool p)).

(** What connections do with the pool. *)
Inductive pool_op : Type := Get | Put (buf : buffer).

Definition pool_run (p : BufferPool) (ops : list pool_op) : BufferPool :=
  foldl (fun p op => match op with Get => (pool_get p).2 | Put buf => pool_put buf p end) p ops.

(** ** Lemmas *)
Context `{!ArrayQueueLaws Q}.

Definition pooled (b : buffer) : Prop := buf_bytes b = [] ∧ buf_capacity b ≤ MAX_POOLED_BUFFER_SIZE.

Definition pool_ok (size : Z) (p : BufferPool) : Prop :=
  Forall pooled (queue_list (bp_pool p)) ∧ (pool_len p ≤ MAX_POOLED_BUFFERS)%nat ∧
  queue_capacity (bp_pool p) = MAX_POOLED_BUFFERS ∧ bp_buffer_size p = size.

Lemma pool_get_ok size p :
  pool_ok size p → pool_ok size (pool_get p).2 ∧ buf_bytes (pool_get p).1 = [] ∧
  buf_capacity (pool_get p).1 ≤ Z.max size MAX_POOLED_BUFFER_SIZE.
Proof.
  intros (Hf & Hl & Hc & Hs). unfold pool_get, pool_ok, pool_len in *. pose proof (queue_pop_list buffer (bp_pool p)) as (H1 & H2 & H3).
  destruct (queue_pop (bp_pool p)) as [o q]. cbn in *. rewrite H2, H3, H1, Hs.
  destruct (queue_list (bp_pool p)) as [|b l]; cbn in *; [split_and!; try done; lia|].
  apply Forall_cons in Hf as [[Hb Hcap] Hf]. split_and!; try done; lia.
Qed.

Lemma pool_put_ok size buf p : pool_ok size p → pool_ok size (pool_put buf p).
Proof.
  intros (Hf & Hl & Hc & Hs). unfold pool_put, pool_ok, pool_len in *. destruct (Z.leb_spec (buf_capacity buf) MAX_POOLED_BUFFER_SIZE); [|done].
  pose proof (queue_push_list buffer (clear buf) (bp_pool p)) as (_ & H2 & H3). cbn in *. rewrite H2, H3. clear H2 H3.
  case_bool_decide; split_and!; try done.
  - apply Forall_app. split; [done|]. by constructor.
  - rewrite length_app. cbn [length]. lia.
Qed.

Lemma pool_run_ok size p ops : pool_ok size p → pool_ok size (pool_run p ops).
Proof.
  revert p. induction ops as [|[|buf] ops IH]; intros p Hp; cbn; [done|..]; apply IH; [by apply pool_get_ok|by apply pool_put_ok].
Qed.

Lemma pool_new_ok size : pool_ok size (with_buffer_size size).
Proof.
  destruct (queue_new_list buffer MAX_POOLED_BUFFERS) as [Hl Hc]. unfold pool_ok, pool_len. cbn. rewrite Hl, Hc.
  split_and!; [constructor|cbn; lia|done..].
Qed.

(** ** Theorems *)

(** The pool never leaks what a connection left in a buffer: after any
    sequence of takings and givings back, the buffer taken next is empty, its
    capacity is bounded by the larger of the pool's buffer size and 16384, and
    the pool holds at most 256 buffers. *)
Theorem pool_safe size ops :
  let p := pool_run (with_buffer_size size) ops in
  buf_bytes (pool_get p).1 = [] ∧ buf_capacity (pool_get p).1 ≤ Z.max size MAX_POOLED_BUFFER_SIZE ∧
  (pool_len p ≤ MAX_POOLED_BUFFERS)%nat.
Proof.
  intros p. pose proof (pool_run_ok size _ ops (pool_new_ok size)) as Hp.
  destruct (pool_get_ok size _ Hp) as (_ & ? & ?). split_and!; [done..|apply Hp].
Qed.
End pool.

(** A queue as a list with its capacity. *)
#[local] Instance list_queue : ArrayQueue (λ A, (list A * nat)%type) := {|
  queue_new A n := ([], n);
  queue_push A x q := if bool_decide (length q.1 = q.2) then (false, q) else (true, (q.1 ++ [x], q.2));
  queue_pop A q := (head q.1, (tail q.1, q.2));
  queue_list A q := q.1;
  queue_capacity A q := q.2;
|}.

#[local] Instance list_queue_laws : ArrayQueueLaws (λ A, (list A * nat)%type).
Proof. split; intros A; cbn; [done| |done]. intros x q. by case_bool_decide. Qed.

Lemma pool_safe_witness :
  buf_bytes (pool_get (pool_run BufferPool_new [Get; Put (MkBuffer [x01; x02] 4096)])).1 = [].
Proof. exact (proj1 (pool_safe DEFAULT_BUFFER_SIZE [Get; Put (MkBuffer [x01; x02] 4096)])). Defined.
