(* ===== verification/WebSocket.v ===== *)
(** * MQTT over WebSocket

    [transport/websocket.rs]: the wrapper that presents the binary messages of a
    WebSocket as a byte stream, and the check of the request that opens it. The
    WebSocket itself (tokio-tungstenite) is the environment: the messages that
    arrive, and for the sink whether it is ready and takes a message. *)

From S2P Require Import Prelude Protocol.

Module WS.

Inductive Message : Type :=
  | Binary (data : list byte)
  | Text (data : list byte)
  | Ping
  | Pong
  | Close
  | Frame.

End WS.
Abbreviation Message := WS.Message.

(** [Poll<io::Result<A>>]; [Pending] with or without a wake-up already
    arranged by this code. *)
Inductive poll (A : Type) : Type :=
  | Ready (a : A)
  | ReadyErr
  | Pending (woken : bool).
Arguments Ready {A}.
Arguments ReadyErr {A}.
Arguments Pending {A}.

(** What [poll_next] of the stream finds when no message is there. *)
Inductive stream_tail : Type := TailError | TailEnd | TailPending.

(** The messages that arrived in order, what follows them, and the messages
    given to the sink. *)
Record WsStream : Type := MkWsStream {
  ws_incoming : list Message;
  ws_tail : stream_tail;
  ws_sent : list Message;
  read_buffer : list byte;
  write_buffer : list byte;
  pending_messages : list (list byte);
  closed : bool;
}.

#[global] Instance WsStream_eta : Eta WsStream := fun w =>
  MkWsStream (ws_incoming w) (ws_tail w) (ws_sent w) (read_buffer w) (write_buffer w) (pending_messages w) (closed w).

Definition WsStream_new (incoming : list Message) (tail : stream_tail) : WsStream := MkWsStream incoming tail [] [] [] [] false.

(** [poll_read] with [n] bytes of room in the caller's buffer; the result is
    what was put there. *)
Definition poll_read (n : nat) (w : WsStream) : poll (list byte) * WsStream :=
  if negb (is_nil (read_buffer w)) then
    (Ready (take n (read_buffer w)), w <| read_buffer ::= drop n |>)
  else
    match pending_messages w with
    | msg :: rest =>
        let w := w <| pending_messages := rest |> in
        (Ready (take n msg), if (n <? length msg)%nat then w <| read_buffer ::= (fun b => b ++ drop n msg) |> else w)
    | [] =>
        if closed w then (Ready [], w)
        else
          match ws_incoming w with
          | m :: ms =>
              let w := w <| ws_incoming := ms |> in
              match m with
              | WS.Binary data =>
                  (Ready (take n data),
                   if (n <? length data)%nat then w <| read_buffer ::= (fun b => b ++ drop n data) |> else w)
              | WS.Close => (Ready [], w <| closed := true |>)
              | _ => (Pending true, w)
              end
          | [] =>
              match ws_tail w with
              | TailError => (ReadyErr, w)
              | TailEnd => (Ready [], w <| closed := true |>)
              | TailPending => (Pending false, w)
              end
          end
    end.

(** The state of the sink, when asked. *)
Inductive sink_state : Type := SinkReady (accepts : bool) | SinkError | SinkPending.

Definition start_send (m : Message) (w : WsStream) : WsStream := w <| ws_sent ::= (fun l => l ++ [m]) |>.

(** The number of bytes taken. *)
Definition poll_write (sink : sink_state) (buf : list byte) (w : WsStream) : poll Z * WsStream :=
  let data := write_buffer w ++ buf in
  let w := w <| write_buffer := [] |> in
  match sink with
  | SinkReady true => (Ready (zlen buf), start_send (WS.Binary data) w)
  | SinkReady false => (ReadyErr, w)
  | SinkError => (ReadyErr, w)
  | SinkPending => (Pending false, w)
  end.

(** [flushed] is what [poll_flush] of the sink returns. *)
Definition poll_flush (flushed : poll unit) (w : WsStream) : poll unit * WsStream := (flushed, w).

Definition poll_shutdown (sink : sink_state) (flushed : poll unit) (w : WsStream) : poll unit * WsStream :=
  match sink with
  | SinkReady accepts => (flushed, if accepts then start_send WS.Close w else w)
  | SinkError => (ReadyErr, w)
  | SinkPending => (Pending false, w)
  end.

(** ** The request that opens it *)

(** [str::trim] on the white space of ASCII; [to_str] has refused everything
    else. *)
Definition is_space (a : Ascii.ascii) : bool :=
  let n := Ascii.nat_of_ascii a in (n =? 32)%nat || ((9 <=? n)%nat && (n <=? 13)%nat).

Fixpoint trim_start (s : string) : string :=
  match s with
  | String a s' => if is_space a then trim_start s' else s
  | EmptyString => EmptyString
  end.

Fixpoint trim_end (s : string) : string :=
  match s with
  | String a s' =>
      match trim_end s' with
      | EmptyString => if is_space a then EmptyString else String a EmptyString
      | r => String a r
      end
  | EmptyString => EmptyString
  end.

Definition trim (s : string) : string := trim_end (trim_start s).

Definition is_mqtt_protocol (p : string) : bool := String.eqb p "mqtt" || String.eqb p "mqttv3.1" || String.eqb p "mqttv5".

(** The callback of [accept_with_path]: [Err] refuses the request, otherwise the
    subprotocol of the response. [protocols] is the header, if it is there and
    is text. *)
Definition accept_request (expected_path request_path : string) (protocols : option string) : outcome string (option string) :=
  if negb (String.eqb request_path expected_path) then Err "Invalid path"%string
  else Ok (p ← protocols; find is_mqtt_protocol (trim <$> split "," p)).

(** ** Sequences of reads and writes *)

(** The bytes that calls of [poll_read] with the given room deliver. *)
Fixpoint reads (ns : list nat) (w : WsStream) : list byte * WsStream :=
  match ns with
  | [] => ([], w)
  | n :: ns =>
      let '(r, w) := poll_read n w in
      let '(out, w) := reads ns w in
      (match r with Ready data => data ++ out | _ => out end, w)
  end.

(** Calls of [poll_write], and the bytes they reported as written. *)
Fixpoint writes (calls : list (sink_state * list byte)) (w : WsStream) : list (list byte) * WsStream :=
  match calls with
  | [] => ([], w)
  | (sink, buf) :: calls =>
      let '(r, w) := poll_write sink buf w in
      let '(written, w) := writes calls w in
      (match r with Ready _ => buf :: written | _ => written end, w)
  end.

(** The bytes of the messages before the end. *)
Fixpoint data_of (ms : list Message) : list byte :=
  match ms with
  | WS.Binary data :: ms => data ++ data_of ms
  | WS.Close :: _ => []
  | _ :: ms => data_of ms
  | [] => []
  end.

(** What is still to be read. *)
Definition unread (w : WsStream) : list byte := read_buffer w ++ if closed w then [] else data_of (ws_incoming w).

Definition not_polled (w : WsStream) : nat := if closed w then 0%nat else length (ws_incoming w).

(** ** Lemmas *)
(** One read hands over the next bytes and keeps the rest. *)
Lemma poll_read_unread n w :
  pending_messages w = [] →
  let r := poll_read n w in
  pending_messages r.2 = [] ∧ (match r.1 with Ready data => data | _ => [] end) ++ unread r.2 = unread w.
Proof.
  intros Hp. cbv zeta. destruct w as [inc tail sent rb wb pm cl]. cbn in Hp. subst pm. unfold poll_read, unread. cbn -[Nat.ltb].
  destruct rb as [|b rb]; cbn [is_nil negb].
  - destruct cl; [done|]. destruct inc as [|[data|data| | | |] ms]; [by destruct tail|..|done]; try done. cbn -[Nat.ltb].
    destruct (Nat.ltb_spec n (length data)); cbn; [by rewrite app_assoc, take_drop|by rewrite take_ge].
  - cbn. rewrite app_assoc. by rewrite (take_drop n (b :: rb)).
Qed.

Lemma reads_unread ns w :
  pending_messages w = [] →
  let r := reads ns w in pending_messages r.2 = [] ∧ r.1 ++ unread r.2 = unread w.
Proof.
  cbv zeta. revert w. induction ns as [|n ns IH]; intros w Hp; [done|]. cbn [reads].
  destruct (poll_read_unread n w Hp) as [Hp1 H1]. destruct (poll_read n w) as [r w1]. cbn in Hp1, H1.
  destruct (IH w1 Hp1) as [Hp2 H2]. destruct (reads ns w1) as [out w2]. cbn in *. split; [done|].
  rewrite <-H1, <-H2. by destruct r; cbn; rewrite <-?app_assoc.
Qed.

(** A read with room for a byte delivers a byte or takes a message off the
    stream, as long as there are any. *)
Lemma poll_read_progress n w :
  pending_messages w = [] → (1 ≤ n)%nat →
  let w' := (poll_read n w).2 in
  (length (unread w') + not_polled w' ≤ pred (length (unread w) + not_polled w))%nat.
Proof.
  intros Hp Hn. cbv zeta. pose proof (poll_read_unread n w Hp) as [_ Hu]. unfold not_polled.
  destruct w as [inc tail sent rb wb pm cl]. cbn in Hp. subst pm.
  revert Hu. unfold poll_read, unread. cbn -[Nat.ltb]. destruct rb as [|b rb]; cbn [is_nil negb].
  - destruct cl; [done|]. destruct inc as [|[data|data| | | |] ms]; [by destruct tail|..]; cbn -[Nat.ltb]; try lia.
    intros _.
    destruct (Nat.ltb_spec n (length data)); cbn; rewrite ?length_app, ?length_drop; lia.
  - intros _. cbn. destruct n; [lia|]. cbn. rewrite !length_app, length_drop. destruct cl; lia.
Qed.

Lemma reads_all ns w :
  pending_messages w = [] → Forall (λ n, (1 ≤ n)%nat) ns → (length (unread w) + not_polled w ≤ length ns)%nat →
  unread (reads ns w).2 = [].
Proof.
  intros Hp Hns. revert w Hp. induction Hns as [|n ns Hn Hns IH]; intros w Hp Hl.
  - cbn in *. destruct (unread w); [done|cbn in Hl; lia].
  - cbn [reads]. destruct (poll_read_unread n w Hp) as [Hp1 _]. pose proof (poll_read_progress n w Hp Hn) as Hpr.
    destruct (poll_read n w) as [r w1]. cbn in Hp1, Hpr. specialize (IH w1 Hp1). destruct (reads ns w1) as [out w2].
    apply IH. cbn in Hl. lia.
Qed.

(** Each write that is taken is one message; one that is not leaves nothing
    behind, so that it can be repeated. *)
Lemma writes_sent calls w :
  write_buffer w = [] →
  let r := writes calls w in
  ws_sent r.2 = ws_sent w ++ (WS.Binary <$> r.1) ∧ write_buffer r.2 = [].
Proof.
  cbv zeta. revert w. induction calls as [|[sink buf] calls IH]; intros w Hb; [by rewrite app_nil_r|]. cbn [writes].
  unfold poll_write. rewrite Hb. cbn [app].
  destruct sink as [[]| |]; match goal with |- context [writes calls ?w1] => destruct (IH w1 eq_refl) as [H1 H2]; destruct (writes calls w1) end;
    cbn in *; rewrite H1; by rewrite <-?app_assoc.
Qed.

Lemma data_of_binary l : data_of (WS.Binary <$> l) = concat l.
Proof. induction l as [|d l IH]; [done|]. cbn. by rewrite IH. Qed.

(** C39. MQTT over WebSocket is a byte stream: when one side writes any buffers,
    with its sink ready or not, and the other side, which may also get control
    messages before, reads with any amounts of room, what it has read and what
    is still unread are together exactly the bytes that were reported as
    written, in order; and enough reads deliver all of them. *)
Theorem ws_roundtrip calls ns control w :
  write_buffer w = [] → ws_sent w = [] → Forall (λ m, m = WS.Ping ∨ m = WS.Pong) control →
  let '(written, w1) := writes calls w in
  let '(out, w2) := reads ns (WsStream_new (control ++ ws_sent w1) TailPending) in
  out ++ unread w2 = concat written ∧
  (Forall (λ n, (1 ≤ n)%nat) ns → (length (concat written) + length (control ++ ws_sent w1) ≤ length ns)%nat → out = concat written).
Proof.
  intros Hb Hs Hc. pose proof (writes_sent calls w Hb) as [Hw _]. destruct (writes calls w) as [written w1]. cbn in Hw.
  set (r := WsStream_new (control ++ ws_sent w1) TailPending).
  assert (Hu : unread r = concat written).
  { unfold unread, r. cbn. rewrite Hw, Hs. cbn [app]. rewrite <-data_of_binary. induction Hc as [|m ms [->| ->] _ IH]; done. }
  destruct (reads_unread ns r eq_refl) as [_ Hr]. pose proof (reads_all ns r eq_refl) as Ha.
  destruct (reads ns r) as [out w2]. cbn in Hr, Ha. rewrite <-Hu. split; [done|]. intros Hns Hl.
  rewrite Ha in Hr; [by rewrite app_nil_r in Hr|done|]. exact Hl.
Qed.

Lemma ws_roundtrip_witness :
  let calls := [(SinkPending, [x10]); (SinkReady true, [x10; x00]); (SinkReady true, [xc0])] in
  let '(written, w1) := writes calls (WsStream_new [] TailPending) in
  let '(out, w2) := reads [1; 1; 4; 4; 4; 4; 4]%nat (WsStream_new ([WS.Ping] ++ ws_sent w1) TailPending) in
  out ++ unread w2 = concat written ∧
  (Forall (λ n, (1 ≤ n)%nat) [1; 1; 4; 4; 4; 4; 4]%nat → (length (concat written) + length ([WS.Ping] ++ ws_sent w1) ≤ 7)%nat →
   out = concat written).
Proof.
  apply (ws_roundtrip [(SinkPending, [x10]); (SinkReady true, [x10; x00]); (SinkReady true, [xc0])]
    [1; 1; 4; 4; 4; 4; 4]%nat [WS.Ping] (WsStream_new [] TailPending)); [done|done|]. repeat constructor.
Defined.

(** When a read reports the end of the stream (no bytes, with room for one):
    after a Close message or the end of the connection, as it should be, and
    also when an empty binary message comes in, after which the rest of the
    stream is not read any more by a caller that takes it for the end. *)
Theorem ws_end_of_stream n w :
  (1 ≤ n)%nat → pending_messages w = [] →
  (poll_read n w).1 = Ready [] ↔
    read_buffer w = [] ∧
    (closed w = true ∨ head (ws_incoming w) = Some WS.Close ∨ head (ws_incoming w) = Some (WS.Binary []) ∨
     ws_incoming w = [] ∧ ws_tail w = TailEnd).
Proof.
  intros Hn Hp. destruct w as [inc tail sent rb wb pm cl]. cbn in Hp. subst pm. unfold poll_read. cbn. destruct n as [|n]; [lia|].
  destruct rb as [|b rb]; cbn [is_nil negb]; [|cbn; split; [done|by intros []]].
  destruct cl; [by split; auto|]. destruct inc as [|[[|]|data| | | |] ms]; [destruct tail|..]; cbn; naive_solver.
Qed.

Lemma ws_end_of_stream_witness :
  (poll_read 8 (WsStream_new [WS.Binary []; WS.Binary [x10]] TailPending)).1 = Ready [] ↔
    [] = @nil byte ∧
    (false = true ∨ Some (WS.Binary []) = Some WS.Close ∨ Some (WS.Binary []) = Some (WS.Binary []) ∨
     [WS.Binary []; WS.Binary [x10]] = [] ∧ TailPending = TailEnd).
Proof. apply (ws_end_of_stream 8 (WsStream_new [WS.Binary []; WS.Binary [x10]] TailPending)); [lia|done]. Defined.
