(* ===== verification/Session.v ===== *)
(** * Sessions

    [session/mod.rs]: the per-client session with its packet identifiers,
    in-flight messages, pending queue, send quota and topic aliases, and the
    session store. The store hands out shared references ([Arc<RwLock<_>>]), so
    it is modelled as a map from client identifiers to cells and a heap of
    cells; a connection keeps the cell it was given even when the store no
    longer points to it. [Instant::now()] is an argument of the operations that
    read the clock. *)

From S2P Require Import Prelude Protocol Codec Properties Packet.

Record PendingMessage : Type := MkPending {
  pm_publish : Publish;
  pm_queued_at : Z;
}.

Inductive SessionState : Type := Connected | Disconnected | Expired.

Inductive Qos2State : Type := WaitingPubRec | WaitingPubComp.

Record InflightMessage : Type := MkInflight {
  if_packet_id : Z;
  if_publish : Publish;
  if_qos2_state : option Qos2State;
  if_sent_at : Z;
  if_retry_count : Z;
}.

Record SessionSubscription : Type := MkSessionSubscription {
  ss_filter : string;
  ss_options : SubscriptionOptions;
  ss_subscription_id : option Z;
}.

Record WillMessage : Type := MkWillMessage {
  wm_topic : string;
  wm_payload : list byte;
  wm_qos : QoS;
  wm_retain : bool;
  wm_properties : Properties;
}.

Inductive QueueResult : Type := Queued | DroppedOldest.

Record SessionLimits : Type := MkLimits {
  lim_max_pending_messages : Z;
  lim_max_inflight : Z;
  lim_max_awaiting_rel : Z;
}.

Definition SessionLimits_default : SessionLimits := MkLimits 1000 32 100.

Record Session : Type := MkSession {
  s_client_id : string;
  s_protocol_version : ProtocolVersion;
  s_state : SessionState;
  s_clean_start : bool;
  s_session_expiry_interval : Z;
  s_keep_alive : Z;
  s_last_activity : Z;
  s_subscriptions : gmap string SessionSubscription;
  s_inflight_outgoing : gmap Z InflightMessage;
  s_inflight_incoming : gmap Z Publish;
  s_next_packet_id : Z;
  s_pending_messages : list PendingMessage;
  s_max_pending_messages : Z;
  s_max_inflight : Z;
  s_max_awaiting_rel : Z;
  s_receive_maximum : Z;
  s_send_quota : Z;
  s_max_packet_size : Z;
  s_client_topic_aliases : gmap Z string;
  s_server_topic_aliases : gmap string Z;
  s_next_server_alias : Z;
  s_topic_alias_maximum : Z;
  s_will : option WillMessage;
  s_will_delay_interval : Z;
  s_disconnected_at : option Z;
}.

#[global] Instance PendingMessage_eta : Eta PendingMessage := fun m =>
  MkPending (pm_publish m) (pm_queued_at m).
#[global] Instance InflightMessage_eta : Eta InflightMessage := fun m =>
  MkInflight (if_packet_id m) (if_publish m) (if_qos2_state m) (if_sent_at m) (if_retry_count m).
#[global] Instance Session_eta : Eta Session := fun s =>
  MkSession (s_client_id s) (s_protocol_version s) (s_state s) (s_clean_start s)
    (s_session_expiry_interval s) (s_keep_alive s) (s_last_activity s) (s_subscriptions s)
    (s_inflight_outgoing s) (s_inflight_incoming s) (s_next_packet_id s) (s_pending_messages s)
    (s_max_pending_messages s) (s_max_inflight s) (s_max_awaiting_rel s) (s_receive_maximum s)
    (s_send_quota s) (s_max_packet_size s) (s_client_topic_aliases s) (s_server_topic_aliases s)
    (s_next_server_alias s) (s_topic_alias_maximum s) (s_will s) (s_will_delay_interval s)
    (s_disconnected_at s).

#[global] Instance SessionState_eq_dec : EqDecision SessionState.
Proof. solve_decision. Defined.
#[global] Instance Qos2State_eq_dec : EqDecision Qos2State.
Proof. solve_decision. Defined.
#[global] Instance QueueResult_eq_dec : EqDecision QueueResult.
Proof. solve_decision. Defined.

(** ** Operations of a session *)
Definition Session_new (now : Z) (client_id : string) (v : ProtocolVersion) (limits : SessionLimits) : Session :=
  {| s_client_id := client_id;
     s_protocol_version := v;
     s_state := Connected;
     s_clean_start := true;
     s_session_expiry_interval := 0;
     s_keep_alive := 60;
     s_last_activity := now;
     s_subscriptions := ∅;
     s_inflight_outgoing := ∅;
     s_inflight_incoming := ∅;
     s_next_packet_id := 1;
     s_pending_messages := [];
     s_max_pending_messages := lim_max_pending_messages limits;
     s_max_inflight := lim_max_inflight limits;
     s_max_awaiting_rel := lim_max_awaiting_rel limits;
     s_receive_maximum := 65535;
     s_send_quota := 65535;
     s_max_packet_size := 268435455;
     s_client_topic_aliases := ∅;
     s_server_topic_aliases := ∅;
     s_next_server_alias := 1;
     s_topic_alias_maximum := 0;
     s_will := None;
     s_will_delay_interval := 0;
     s_disconnected_at := None |}.

(** The successor of a packet identifier: [wrapping_add(1)], skipping 0. *)
Definition next_id (id : Z) : Z :=
  let id := wrap_u16 (id + 1) in
  if id =? 0 then 1 else id.

(** The loop of [next_packet_id]; it only ends when some identifier is free. *)
Fixpoint next_packet_id_loop {E} (fuel : nat) (s : Session) : outcome E (Z * Session) :=
  match fuel with
  | O => NoFuel
  | S fuel =>
      let id := s_next_packet_id s in
      let s := s <| s_next_packet_id := next_id id |> in
      if is_none (s_inflight_outgoing s !! id) && is_none (s_inflight_incoming s !! id)
      then Ok (id, s)
      else next_packet_id_loop fuel s
  end.

(** One round over the 65535 identifiers. *)
Definition next_packet_id {E} (s : Session) : outcome E (Z * Session) :=
  next_packet_id_loop (Z.to_nat 65535) s.

Definition touch (now : Z) (s : Session) : Session := s <| s_last_activity := now |>.

Definition is_expired (now : Z) (s : Session) : bool :=
  if negb (bool_decide (s_state s = Disconnected)) then false
  else if s_session_expiry_interval s =? 0 then true
  else if s_session_expiry_interval s =? 4294967295 then false
  else
    match s_disconnected_at s with
    | Some disconnected_at =>
        as_secs (duration_since now disconnected_at) >=? s_session_expiry_interval s
    | None => false
    end.

Definition is_keep_alive_expired (now : Z) (s : Session) : bool :=
  if s_keep_alive s =? 0 then false
  else duration_since now (s_last_activity s) >=? from_secs (s_keep_alive s * 3 / 2).

Definition queue_message (now : Z) (publish : Publish) (s : Session) : QueueResult * Session :=
  let '(result, s) :=
    if zlen (s_pending_messages s) >=? s_max_pending_messages s
    then (DroppedOldest, s <| s_pending_messages ::= tail |>)
    else (Queued, s) in
  (result, s <| s_pending_messages ::= (fun q => q ++ [MkPending publish now]) |>).

Definition elapsed_secs (now : Z) (since : Z) : Z := wrap_u32 (as_secs (duration_since now since)).

Definition set_expiry (p : Publish) (v : Z) : Publish :=
  p <| pub_properties ::= (fun ps => ps <| message_expiry_interval := Some v |>) |>.

(** The closure of [drain_pending_messages]. *)
Definition drain_one (now : Z) (pm : PendingMessage) : option Publish :=
  match message_expiry_interval (pub_properties (pm_publish pm)) with
  | Some expiry =>
      let elapsed := elapsed_secs now (pm_queued_at pm) in
      if elapsed >=? expiry then None else Some (set_expiry (pm_publish pm) (expiry - elapsed))
  | None => Some (pm_publish pm)
  end.

Definition drain_pending_messages (now : Z) (s : Session) : list Publish * Session :=
  (omap (drain_one now) (s_pending_messages s), s <| s_pending_messages := [] |>).

(** The closure of [cleanup_expired_messages]. *)
Definition keep_pending (now : Z) (pm : PendingMessage) : bool :=
  match message_expiry_interval (pub_properties (pm_publish pm)) with
  | Some expiry => elapsed_secs now (pm_queued_at pm) <? expiry
  | None => true
  end.

Definition cleanup_expired_messages (now : Z) (s : Session) : Session :=
  s <| s_pending_messages ::= (fun q => filter (fun pm => keep_pending now pm) q) |>.

Definition add_subscription (f : string) (options : SubscriptionOptions) (id : option Z) (s : Session) : Session :=
  s <| s_subscriptions ::= <[f := MkSessionSubscription f options id]> |>.

Definition remove_subscription (f : string) (s : Session) : bool * Session :=
  (is_some (s_subscriptions s !! f), s <| s_subscriptions ::= delete f |>).

Definition get_or_create_topic_alias (topic : string) (s : Session) : option Z * Session :=
  if s_topic_alias_maximum s =? 0 then (None, s)
  else
    match s_server_topic_aliases s !! topic with
    | Some alias => (Some alias, s)
    | None =>
        if s_next_server_alias s <=? s_topic_alias_maximum s then
          let alias := s_next_server_alias s in
          let s := s <| s_next_server_alias := wrap_u16 (alias + 1) |> in
          (Some alias, s <| s_server_topic_aliases ::= <[topic := alias]> |>)
        else (None, s)
    end.

Definition resolve_topic_alias (alias : Z) (s : Session) : option string :=
  s_client_topic_aliases s !! alias.

Definition register_topic_alias (alias : Z) (topic : string) (s : Session) : Session :=
  s <| s_client_topic_aliases ::= <[alias := topic]> |>.

Definition decrement_send_quota (s : Session) : bool * Session :=
  if s_send_quota s >? 0 then (true, s <| s_send_quota ::= Z.pred |>) else (false, s).

Definition increment_send_quota (s : Session) : Session :=
  if s_send_quota s <? s_receive_maximum s then s <| s_send_quota ::= Z.succ |> else s.

(** ** The session store *)
Record SessionStore : Type := MkSessionStore {
  sessions : gmap string nat;
  cells : gmap nat Session;
  next_cell : nat;
}.

#[global] Instance SessionStore_eta : Eta SessionStore := fun st =>
  MkSessionStore (sessions st) (cells st) (next_cell st).

Definition SessionStore_new : SessionStore := MkSessionStore ∅ ∅ 0.

(** [session.write()] *)
Definition modify_session (c : nat) (f : Session → Session) (st : SessionStore) : SessionStore :=
  st <| cells ::= alter f c |>.

(** [Arc::new(RwLock::new(s))] followed by the insertion under the client. *)
Definition create_session (now : Z) (client_id : string) (v : ProtocolVersion) (limits : SessionLimits)
    (st : SessionStore) : (nat * bool) * SessionStore :=
  let c := next_cell st in
  ((c, false),
   MkSessionStore (<[client_id := c]> (sessions st))
     (<[c := Session_new now client_id v limits]> (cells st)) (S c)).

Definition resume (v : ProtocolVersion) (s : Session) : Session :=
  s <| s_state := Connected |> <| s_protocol_version := v |> <| s_disconnected_at := None |>.

Definition get_or_create (now : Z) (client_id : string) (v : ProtocolVersion) (clean_start : bool)
    (limits : SessionLimits) (st : SessionStore) : (nat * bool) * SessionStore :=
  if clean_start then create_session now client_id v limits st
  else
    match sessions st !! client_id with
    | Some c =>
        match cells st !! c with
        | Some s =>
            if negb (is_expired now s) then ((c, true), modify_session c (resume v) st)
            else create_session now client_id v limits st
        | None => create_session now client_id v limits st
        end
    | None => create_session now client_id v limits st
    end.

Definition get_session (client_id : string) (st : SessionStore) : option nat := sessions st !! client_id.

Definition remove_session (client_id : string) (st : SessionStore) : SessionStore :=
  st <| sessions ::= delete client_id |>.

Definition mark_disconnected (now : Z) (s : Session) : Session :=
  s <| s_state := Disconnected |> <| s_disconnected_at := Some now |>.

Definition disconnect (now : Z) (client_id : string) (st : SessionStore) : SessionStore :=
  match sessions st !! client_id with
  | Some c =>
      let st := modify_session c (mark_disconnected now) st in
      if bool_decide (s_session_expiry_interval <$> cells st !! c = Some 0)
      then remove_session client_id st else st
  | None => st
  end.

(** [DashMap::retain]: the closure runs once for each entry. *)
Definition cleanup_one (now : Z) (st : SessionStore) (e : string * nat) : SessionStore :=
  let st := modify_session e.2 (cleanup_expired_messages now) st in
  match cells st !! e.2 with
  | Some s => if negb (is_expired now s) then st else remove_session e.1 st
  | None => st
  end.

Definition cleanup_expired (now : Z) (st : SessionStore) : SessionStore :=
  foldl (cleanup_one now) st (map_to_list (sessions st)).

Definition session_of (st : SessionStore) (client_id : string) : option Session :=
  c ← sessions st !! client_id; cells st !! c.

Definition is_disconnected (now : Z) (st : SessionStore) (e : string * nat) : bool :=
  match cells st !! e.2 with
  | Some s => bool_decide (s_state s = Disconnected) && negb (is_expired now s)
  | None => false
  end.

Definition count_disconnected (now : Z) (st : SessionStore) : Z :=
  zlen (filter (fun e => is_disconnected now st e) (map_to_list (sessions st))).

Definition total_queued_messages (st : SessionStore) : Z :=
  foldr Z.add 0 ((fun e => from_option (fun s => zlen (s_pending_messages s)) 0 (cells st !! e.2))
                   <$> map_to_list (sessions st)).

(** ** Invariant of a session *)
Definition is_packet_id (id : Z) : Prop := 1 ≤ id ≤ 65535.

Definition inflight_ok (id : Z) (m : InflightMessage) : Prop :=
  is_packet_id id ∧ if_packet_id m = id ∧ pub_packet_id (if_publish m) = Some id ∧
  pub_qos (if_publish m) ≠ AtMostOnce ∧
  (pub_qos (if_publish m) = ExactlyOnce → is_Some (if_qos2_state m)).

Record session_wf (s : Session) : Prop := {
  wf_next_id : is_packet_id (s_next_packet_id s);
  wf_outgoing : map_Forall inflight_ok (s_inflight_outgoing s);
  wf_incoming : map_Forall (λ id p, is_packet_id id ∧ pub_packet_id p = Some id ∧ pub_qos p = ExactlyOnce)
                  (s_inflight_incoming s);
  wf_inflight_limit : Z.of_nat (size (s_inflight_outgoing s)) ≤ s_max_inflight s;
  wf_quota : 0 ≤ s_send_quota s ≤ s_receive_maximum s;
  wf_pending : zlen (s_pending_messages s) ≤ Z.max 1 (s_max_pending_messages s);
}.

(** ** Lemmas: packet identifiers *)

(** The identifier looked at in round [i], starting from [n]. *)
Definition nth_id (n : Z) (i : nat) : Z := (n - 1 + Z.of_nat i) mod 65535 + 1.

Definition id_used (s : Session) (id : Z) : Prop :=
  is_Some (s_inflight_outgoing s !! id) ∨ is_Some (s_inflight_incoming s !! id).

Lemma next_id_nth n : is_packet_id n → next_id n = nth_id n 1.
Proof. unfold is_packet_id, next_id, nth_id, wrap_u16. intros H. case_match; zdm. Qed.

Lemma nth_id_0 n : is_packet_id n → nth_id n 0 = n.
Proof. unfold is_packet_id, nth_id. intros. zdm. Qed.

Lemma nth_id_range n i : is_packet_id (nth_id n i).
Proof. unfold is_packet_id, nth_id. zdm. Qed.

Lemma nth_id_S n i : is_packet_id n → nth_id (nth_id n 1) i = nth_id n (S i).
Proof. unfold is_packet_id, nth_id. intros. zdm. Qed.

Lemma nth_id_inj n i j :
  (Z.of_nat i < 65535) → Z.of_nat j < 65535 → nth_id n i = nth_id n j → i = j.
Proof. unfold nth_id. intros. zdm. Qed.

Lemma id_free_spec s id :
  is_none (s_inflight_outgoing s !! id) && is_none (s_inflight_incoming s !! id) = true ↔ ¬ id_used s id.
Proof.
  unfold id_used, is_none, is_some.
  destruct (s_inflight_outgoing s !! id), (s_inflight_incoming s !! id); cbn;
    (split; [intros H; try done; by intros [[? ?]|[? ?]]|intros H; try done; exfalso; apply H; eauto]).
Qed.

Lemma next_packet_id_loop_spec {E} fuel s :
  is_packet_id (s_next_packet_id s) →
  (∃ i, (i < fuel)%nat ∧ ¬ id_used s (nth_id (s_next_packet_id s) i) ∧
        (∀ j, (j < i)%nat → id_used s (nth_id (s_next_packet_id s) j)) ∧
        next_packet_id_loop fuel s =
          Ok (E := E) (nth_id (s_next_packet_id s) i,
                       s <| s_next_packet_id := nth_id (s_next_packet_id s) (S i) |>)) ∨
  (next_packet_id_loop (E := E) fuel s = NoFuel ∧
   ∀ j, (j < fuel)%nat → id_used s (nth_id (s_next_packet_id s) j)).
Proof.
  revert s. induction fuel as [|fuel IH]; intros s Hn; [right; split; [done|lia]|].
  cbn [next_packet_id_loop]. set (n := s_next_packet_id s) in *.
  destruct (is_none _ && is_none _) eqn:E'.
  - left. exists 0%nat. rewrite nth_id_0 by done. apply (id_free_spec s) in E'.
    rewrite next_id_nth by done. split_and!; [lia|done|lia|done].
  - assert (Hu : id_used s n).
    { unfold id_used. destruct (s_inflight_outgoing s !! n) eqn:Eo; [by eauto|].
      destruct (s_inflight_incoming s !! n) eqn:Ei; [by eauto|].
      unfold set_field in E'. cbn in E'. by rewrite Eo, Ei in E'. }
    set (s' := s <| s_next_packet_id := next_id n |>).
    assert (Hs' : s_next_packet_id s' = nth_id n 1) by (by rewrite <-next_id_nth).
    destruct (IH s') as [(i & Hi & Hf & Hall & Hr)|[Hr Hall]].
    { rewrite Hs'. apply nth_id_range. }
    + left. exists (S i). rewrite Hs', !nth_id_S in * by done. split_and!; [lia|done| |by rewrite Hr].
      intros [|j] Hj; [by rewrite nth_id_0|]. rewrite <-nth_id_S, <-Hs' by done. rewrite Hs'. apply Hall. lia.
    + right. split; [done|]. intros [|j] Hj; [by rewrite nth_id_0|].
      rewrite <-nth_id_S, <-Hs' by done. apply Hall. lia.
Qed.

Definition ids_in_use (s : Session) : gset Z := dom (s_inflight_outgoing s) ∪ dom (s_inflight_incoming s).

Lemma elem_of_ids_in_use s id : id ∈ ids_in_use s ↔ id_used s id.
Proof. unfold ids_in_use, id_used. by rewrite elem_of_union, !elem_of_dom. Qed.

Lemma all_ids_used s n :
  (∀ j, (j < Z.to_nat 65535)%nat → id_used s (nth_id n j)) → (Z.to_nat 65535 ≤ size (ids_in_use s))%nat.
Proof.
  intros Hall. set (ids := nth_id n <$> seq 0 (Z.to_nat 65535)).
  assert (Hnd : NoDup ids).
  { apply NoDup_fmap_2_strong; [|apply NoDup_seq].
    intros i j Hi%elem_of_seq Hj%elem_of_seq. apply nth_id_inj; lia. }
  transitivity (length ids); [unfold ids; by rewrite length_fmap, length_seq|].
  rewrite <-(size_list_to_set (C := gset Z)) by done. apply subseteq_size.
  intros id Hid%elem_of_list_to_set%list_elem_of_fmap. destruct Hid as (j & -> & Hj%elem_of_seq).
  apply elem_of_ids_in_use, Hall. lia.
Qed.

Lemma next_packet_id_ok {E} s :
  is_packet_id (s_next_packet_id s) → (size (ids_in_use s) < Z.to_nat 65535)%nat →
  ∃ id n, next_packet_id s = Ok (E := E) (id, s <| s_next_packet_id := n |>) ∧
    is_packet_id id ∧ is_packet_id n ∧ ¬ id_used s id.
Proof.
  intros Hn Hsize. unfold next_packet_id.
  destruct (next_packet_id_loop_spec (E := E) (Z.to_nat 65535) s Hn) as [(i & Hi & Hf & _ & Hr)|[_ Hall]].
  - eexists _, _. split_and!; [exact Hr|apply nth_id_range..|done].
  - apply all_ids_used in Hall. lia.
Qed.

Lemma size_ids_in_use s :
  (size (ids_in_use s) ≤ size (s_inflight_outgoing s) + size (s_inflight_incoming s))%nat.
Proof.
  unfold ids_in_use. rewrite size_union_alt, <-!size_dom.
  apply Nat.add_le_mono_l, subseteq_size. set_solver.
Qed.

(** ** Lemmas: the invariant *)
Lemma session_wf_new now client_id v limits :
  0 ≤ lim_max_inflight limits →
  session_wf (Session_new now client_id v limits).
Proof.
  intros. split; unfold is_packet_id; simpl;
    [lia|apply map_Forall_empty|apply map_Forall_empty|by rewrite map_size_empty|lia|].
  unfold zlen. simpl. lia.
Qed.

(** An update of the fields the invariant does not mention. *)
Definition same_flow (s s' : Session) : Prop :=
  s_next_packet_id s' = s_next_packet_id s ∧ s_inflight_outgoing s' = s_inflight_outgoing s ∧
  s_inflight_incoming s' = s_inflight_incoming s ∧ s_max_inflight s' = s_max_inflight s ∧
  s_max_awaiting_rel s' = s_max_awaiting_rel s ∧ s_send_quota s' = s_send_quota s ∧
  s_receive_maximum s' = s_receive_maximum s ∧ s_pending_messages s' = s_pending_messages s ∧
  s_max_pending_messages s' = s_max_pending_messages s.

Lemma session_wf_same s s' : same_flow s s' → session_wf s → session_wf s'.
Proof.
  intros (E1 & E2 & E3 & E4 & E5 & E6 & E7 & E8 & E9) [].
  split; rewrite ?E1, ?E2, ?E3, ?E4, ?E5, ?E6, ?E7, ?E8, ?E9; done.
Qed.

Lemma session_wf_pending s q :
  zlen q ≤ Z.max 1 (s_max_pending_messages s) → session_wf s →
  session_wf (s <| s_pending_messages := q |>).
Proof. intros Hq []. by split. Qed.

Lemma queue_message_eq now p s :
  queue_message now p s =
    ((if zlen (s_pending_messages s) >=? s_max_pending_messages s then DroppedOldest else Queued),
     s <| s_pending_messages :=
            (if zlen (s_pending_messages s) >=? s_max_pending_messages s
             then tail (s_pending_messages s) else s_pending_messages s) ++ [MkPending p now] |>).
Proof. unfold queue_message. by destruct (_ >=? _). Qed.

Lemma wf_queue_message now p s : session_wf s → session_wf (queue_message now p s).2.
Proof.
  intros Hwf. rewrite queue_message_eq. apply session_wf_pending; [|done].
  pose proof (wf_pending s Hwf) as Hp. rewrite zlen_app. change (zlen [MkPending p now]) with 1.
  destruct (Z.geb_spec (zlen (s_pending_messages s)) (s_max_pending_messages s)); [|lia].
  destruct (s_pending_messages s) as [|x q]; [change (zlen (tail (@nil PendingMessage))) with 0; lia|]. rewrite zlen_cons in *. cbn [tail]. lia.
Qed.

Lemma wf_drain now s : session_wf s → session_wf (drain_pending_messages now s).2.
Proof. intros Hwf. apply session_wf_pending; [unfold zlen; simpl; lia|done]. Qed.

Lemma wf_cleanup now s : session_wf s → session_wf (cleanup_expired_messages now s).
Proof.
  intros Hwf. apply session_wf_pending; [|done]. pose proof (wf_pending s Hwf).
  unfold zlen in *. pose proof (length_filter (λ pm, keep_pending now pm) (s_pending_messages s)). lia.
Qed.

Lemma wf_increment s : session_wf s → session_wf (increment_send_quota s).
Proof. intros []. unfold increment_send_quota. destruct (Z.ltb_spec (s_send_quota s) (s_receive_maximum s)); by split; cbn; try lia. Qed.

Lemma wf_decrement s : session_wf s → session_wf (decrement_send_quota s).2.
Proof. intros []. unfold decrement_send_quota. destruct (Z.gtb_spec (s_send_quota s) 0); by split; cbn; try lia. Qed.

Lemma wf_ack id s :
  session_wf s → session_wf (s <| s_inflight_outgoing ::= delete id |>).
Proof.
  intros []. split; cbn; try done.
  - by apply map_Forall_delete.
  - pose proof (map_subseteq_size _ _ (delete_subseteq (s_inflight_outgoing s) id)). lia.
Qed.

Lemma wf_received id p s :
  is_packet_id id → pub_packet_id p = Some id → pub_qos p = ExactlyOnce →
  session_wf s → session_wf (s <| s_inflight_incoming ::= <[id := p]> |>).
Proof. intros Hid Hp Hq []. split; cbn; try done. by apply map_Forall_insert_2. Qed.

Lemma wf_released id s :
  session_wf s → session_wf (s <| s_inflight_incoming ::= delete id |>).
Proof. intros []. split; cbn; try done. by apply map_Forall_delete. Qed.

(** The limits leave an identifier free. *)
Definition limits_ok (s : Session) : Prop :=
  s_max_inflight s + Z.of_nat (size (s_inflight_incoming s)) < 65535.

Lemma ids_available s : session_wf s → limits_ok s → (size (ids_in_use s) < Z.to_nat 65535)%nat.
Proof. intros [] Hl. unfold limits_ok in Hl. pose proof (size_ids_in_use s). lia. Qed.

(** ** Lemmas: the queue *)

(** The last [n] elements. *)
Definition last_n {A} (n : nat) (l : list A) : list A := drop (length l - n) l.

Lemma last_n_snoc {A} n (l : list A) x :
  (0 < n)%nat → last_n n (last_n n l ++ [x]) = last_n n (l ++ [x]).
Proof.
  intros Hn. unfold last_n. rewrite !length_app, length_drop. cbn.
  destruct (decide (length l < n)%nat) as [Hlt|Hge].
  - replace (length l - n)%nat with 0%nat by lia. rewrite drop_0. f_equal. lia.
  - rewrite !drop_app, drop_drop, length_drop.
    f_equal; [f_equal; lia|f_equal; lia].
Qed.

Lemma queue_message_last_n now p s :
  zlen (s_pending_messages s) ≤ Z.max 1 (s_max_pending_messages s) →
  s_pending_messages (queue_message now p s).2 =
    last_n (Z.to_nat (Z.max 1 (s_max_pending_messages s))) (s_pending_messages s ++ [MkPending p now]).
Proof.
  intros Hl. rewrite queue_message_eq. cbn. unfold last_n, zlen in *. rewrite length_app. cbn.
  destruct (Z.geb_spec (Z.of_nat (length (s_pending_messages s))) (s_max_pending_messages s)).
  - destruct (s_pending_messages s) as [|x q]; cbn [tail app length] in *.
    + by replace (0 + 1 - _)%nat with 0%nat by lia.
    + by replace (S (length q) + 1 - _)%nat with 1%nat by lia.
  - by replace (length (s_pending_messages s) + 1 - _)%nat with 0%nat by lia.
Qed.

(** Queueing messages in order, each with the time it is queued. *)
Definition queue_all (ms : list PendingMessage) (s : Session) : Session :=
  foldl (λ s m, (queue_message (pm_queued_at m) (pm_publish m) s).2) s ms.

Lemma queue_all_last_n ms s :
  zlen (s_pending_messages s) ≤ Z.max 1 (s_max_pending_messages s) →
  s_pending_messages (queue_all ms s) =
    last_n (Z.to_nat (Z.max 1 (s_max_pending_messages s))) (s_pending_messages s ++ ms).
Proof.
  set (N := Z.to_nat (Z.max 1 (s_max_pending_messages s))). intros Hl.
  induction ms as [|m ms IH] using rev_ind.
  { rewrite app_nil_r. cbn. unfold last_n, zlen in *.
    by replace (length (s_pending_messages s) - N)%nat with 0%nat by lia. }
  unfold queue_all. rewrite foldl_snoc. fold (queue_all ms s).
  assert (Hmax : s_max_pending_messages (queue_all ms s) = s_max_pending_messages s).
  { clear. induction ms as [|m ms IH] using rev_ind; [done|].
    unfold queue_all. rewrite foldl_snoc, queue_message_eq. exact IH. }
  rewrite queue_message_last_n.
  - rewrite Hmax, IH. fold N. destruct m as [p t]. cbn. rewrite last_n_snoc by lia. by rewrite app_assoc.
  - rewrite Hmax, IH. unfold last_n, zlen. rewrite length_drop. lia.
Qed.

(** ** Lemmas: the session store *)
Record sessions_wf (st : SessionStore) : Prop := {
  sw_cells : map_Forall (λ client c, s_client_id <$> cells st !! c = Some client) (sessions st);
  sw_fresh : ∀ c, (next_cell st ≤ c)%nat → cells st !! c = None;
  sw_sessions : map_Forall (λ _, session_wf) (cells st);
}.

Lemma sessions_wf_new : sessions_wf SessionStore_new.
Proof. split; [apply map_Forall_empty|done|apply map_Forall_empty]. Qed.

Lemma lookup_modify c f st c' :
  cells (modify_session c f st) !! c' = if decide (c = c') then f <$> cells st !! c' else cells st !! c'.
Proof. unfold modify_session, set_field. cbn. rewrite lookup_alter. by destruct (decide _) as [->|]. Qed.

Lemma modify_ext c f g st s :
  cells st !! c = Some s → f s = g s → modify_session c f st = modify_session c g st.
Proof.
  intros Hs Hfg. unfold modify_session, set_field. f_equal. apply alter_ext. intros s' Hs'.
  rewrite Hs in Hs'. by injection Hs' as <-.
Qed.

Lemma modify_wf c f st :
  (∀ s, session_wf s → session_wf (f s)) → (∀ s, s_client_id (f s) = s_client_id s) →
  sessions_wf st → sessions_wf (modify_session c f st).
Proof.
  intros Hf Hcl [H1 H2 H3]. split.
  - intros client c' Hc. specialize (H1 client c' Hc). cbn beta in *. rewrite lookup_modify.
    destruct (decide _); [|done]. destruct (cells st !! c'); [|done]. cbn in *. by rewrite Hcl.
  - intros c' Hc. rewrite lookup_modify. rewrite H2 by done. by destruct (decide _).
  - intros c' s. rewrite lookup_modify. destruct (decide _).
    + intros (s0 & Hs & ->)%fmap_Some. by apply Hf, (H3 c').
    + apply H3.
Qed.

Lemma create_wf now client v limits st :
  0 ≤ lim_max_inflight limits →
  sessions_wf st → sessions_wf (create_session now client v limits st).2.
Proof.
  intros Hi [H1 H2 H3]. split; cbn.
  - apply map_Forall_insert_2; [by rewrite lookup_insert_eq|].
    intros cl c Hc. specialize (H1 cl c Hc). cbn beta in *. rewrite lookup_insert.
    destruct (decide _) as [<-|]; [|done]. by rewrite H2 in H1.
  - intros c Hc. rewrite lookup_insert_ne by lia. apply H2. lia.
  - apply map_Forall_insert_2; [by apply session_wf_new|done].
Qed.

Lemma remove_session_wf client st : sessions_wf st → sessions_wf (remove_session client st).
Proof. intros [H1 H2 H3]. split; [|done..]. cbn. by apply map_Forall_delete. Qed.

Lemma wf_resume v s : session_wf s → session_wf (resume v s).
Proof. by apply session_wf_same. Qed.

Lemma wf_mark_disconnected now s : session_wf s → session_wf (mark_disconnected now s).
Proof. by apply session_wf_same. Qed.

Lemma get_or_create_wf now client v clean limits st :
  0 ≤ lim_max_inflight limits →
  sessions_wf st → sessions_wf (get_or_create now client v clean limits st).2.
Proof.
  intros Hi Hwf. unfold get_or_create. pose proof (create_wf now client v limits st Hi Hwf).
  destruct clean; [done|]. destruct (sessions st !! client) as [c|]; [|done].
  destruct (cells st !! c) as [s|]; [|done]. destruct (negb _); [|done].
  by apply modify_wf; [apply wf_resume|..].
Qed.

Lemma disconnect_wf now client st : sessions_wf st → sessions_wf (disconnect now client st).
Proof.
  intros Hwf. unfold disconnect. destruct (sessions st !! client) as [c|]; [|done].
  assert (Hm : sessions_wf (modify_session c (mark_disconnected now) st)).
  { by apply modify_wf; [apply wf_mark_disconnected|..]. }
  destruct (bool_decide _); [by apply remove_session_wf|done].
Qed.

Lemma sessions_inj st client client' c :
  sessions_wf st → sessions st !! client = Some c → sessions st !! client' = Some c → client = client'.
Proof.
  intros [H1 _ _] Hc Hc'. apply H1 in Hc. apply H1 in Hc'. cbn in *. congruence.
Qed.

Lemma is_expired_cleanup now s : is_expired now (cleanup_expired_messages now s) = is_expired now s.
Proof. done. Qed.

(** What becomes of one session. *)
Definition cleaned (now : Z) (s : Session) : option Session :=
  if is_expired now s then None else Some (cleanup_expired_messages now s).

Lemma cleanup_one_wf now st e : sessions_wf st → sessions_wf (cleanup_one now st e).
Proof.
  intros Hwf. unfold cleanup_one.
  assert (Hm : sessions_wf (modify_session e.2 (cleanup_expired_messages now) st)).
  { by apply modify_wf; [apply wf_cleanup|..]. }
  destruct (cells _ !! _) as [s|]; [|done]. destruct (negb _); [done|by apply remove_session_wf].
Qed.

Lemma cleanup_one_spec now st client c client' :
  sessions_wf st → sessions st !! client = Some c →
  session_of (cleanup_one now st (client, c)) client' =
    (if decide (client = client') then session_of st client' ≫= cleaned now else session_of st client') ∧
  (client' ≠ client → sessions (cleanup_one now st (client, c)) !! client' = sessions st !! client').
Proof.
  intros Hwf Hc. pose proof (sw_cells st Hwf client c Hc) as Hs. cbn beta in Hs.
  destruct (cells st !! c) as [s|] eqn:Ec; [|done]. unfold cleanup_one. cbn [fst snd].
  rewrite lookup_modify, decide_True, Ec by done. cbn [fmap option_fmap option_map].
  rewrite is_expired_cleanup. destruct (decide (client = client')) as [<-|Hne].
  - split; [|done]. unfold session_of, cleaned. rewrite Hc. cbn [mbind option_bind]. rewrite Ec. cbn [mbind option_bind].
    destruct (is_expired now s); cbn.
    + by rewrite lookup_delete_eq.
    + rewrite Hc. cbn. by rewrite lookup_alter, decide_True, Ec.
  - unfold session_of. assert (Hother : sessions (if negb (is_expired now s) then modify_session c (cleanup_expired_messages now) st
      else remove_session client (modify_session c (cleanup_expired_messages now) st)) !! client' = sessions st !! client').
    { destruct (is_expired now s); cbn; [by rewrite lookup_delete_ne|done]. }
    rewrite Hother. split; [|done]. destruct (sessions st !! client') as [c'|] eqn:Ec'; [|done]. cbn [mbind option_bind].
    assert (c ≠ c') by (intros <-; eauto using sessions_inj).
    transitivity (cells (modify_session c (cleanup_expired_messages now) st) !! c'); [by destruct (is_expired now s)|].
    by rewrite lookup_modify, decide_False.
Qed.

Lemma cleanup_fold_wf now st l : sessions_wf st → sessions_wf (foldl (cleanup_one now) st l).
Proof. revert st. induction l as [|e l IH]; intros st Hwf; [done|]. by apply IH, cleanup_one_wf. Qed.

Lemma cleanup_fold_spec now st l client :
  sessions_wf st → NoDup l.*1 → (∀ e, e ∈ l → sessions st !! e.1 = Some e.2) →
  session_of (foldl (cleanup_one now) st l) client =
    if decide (client ∈ l.*1) then session_of st client ≫= cleaned now else session_of st client.
Proof.
  revert st. induction l as [|[cl c] l IH]; intros st Hwf Hnd Hl; cbn [foldl].
  { by rewrite decide_False by apply not_elem_of_nil. }
  apply NoDup_cons in Hnd as [Hcl Hnd].
  assert (Hc : sessions st !! cl = Some c) by (by apply (Hl (cl, c)); constructor).
  rewrite IH; [|by apply cleanup_one_wf|done|].
  - destruct (cleanup_one_spec now st cl c client Hwf Hc) as [-> _]. cbn [fst] in *. rewrite fmap_cons. cbn [fst].
    destruct (decide (client ∈ l.*1)) as [Hin|Hin].
    + rewrite decide_False by (by intros ->). rewrite decide_True; [done|]. by constructor.
    + destruct (decide (cl = client)) as [<-|Hne].
      * rewrite decide_True; [done|]. constructor.
      * rewrite decide_False; [done|]. by intros [->|]%elem_of_cons.
  - intros [cl' c'] He. destruct (cleanup_one_spec now st cl c cl' Hwf Hc) as [_ Hk]. cbn [fst snd].
    rewrite Hk.
    + apply (Hl (cl', c')). by constructor.
    + intros ->. apply Hcl. by apply (list_elem_of_fmap_2 fst _ (cl, c')).
Qed.

(** ** Theorems *)

(** C18. Packet identifiers: while the in-flight limits leave an identifier free,
    [next_packet_id] returns within one round of the identifiers; the
    identifier is not zero and not used by a message in flight in either
    direction, and nothing but the next identifier changes. *)
Theorem next_packet_id_fresh s :
  session_wf s → limits_ok s →
  ∃ id n, next_packet_id s = Ok (E := unit) (id, s <| s_next_packet_id := n |>) ∧
    1 ≤ id ≤ 65535 ∧ s_inflight_outgoing s !! id = None ∧ s_inflight_incoming s !! id = None ∧
    session_wf (s <| s_next_packet_id := n |>).
Proof.
  intros Hwf Hl. destruct (next_packet_id_ok (E := unit) s) as (id & n & Hr & Hid & Hn & Hf);
    [apply Hwf|by apply ids_available|].
  exists id, n. split_and!; [done|apply Hid|apply Hid| | |].
  - apply eq_None_not_Some. intros H. apply Hf. by left.
  - apply eq_None_not_Some. intros H. apply Hf. by right.
  - destruct Hwf. by split.
Qed.

Definition example_session : Session :=
  (Session_new 0 "c1" V5 SessionLimits_default)
    <| s_inflight_incoming := {[ 1 := MkPublish false ExactlyOnce false "t" (Some 1) [] Properties_default ]} |>.

Lemma example_session_wf : session_wf example_session.
Proof.
  apply (wf_received 1 (MkPublish false ExactlyOnce false "t" (Some 1) [] Properties_default)
    (Session_new 0 "c1" V5 SessionLimits_default)); [unfold is_packet_id; lia|done|done|].
  apply session_wf_new. cbn. lia.
Qed.

Lemma next_packet_id_fresh_witness :
  ∃ id n, next_packet_id example_session = Ok (E := unit) (id, example_session <| s_next_packet_id := n |>) ∧
    1 ≤ id ≤ 65535 ∧ s_inflight_outgoing example_session !! id = None ∧
    s_inflight_incoming example_session !! id = None ∧
    session_wf (example_session <| s_next_packet_id := n |>).
Proof. apply (next_packet_id_fresh example_session); [apply example_session_wf|by vm_compute]. Defined.

(** A client can hang the broker when the number of unreleased QoS 2
    messages is not limited: once all 65535 identifiers are taken by messages
    in flight, in whichever direction, the search for the next identifier never
    ends, however long it runs, and it runs with the session locked. *)
Theorem next_packet_id_exhausted s fuel :
  is_packet_id (s_next_packet_id s) → (∀ id, is_packet_id id → id_used s id) →
  next_packet_id_loop (E := unit) fuel s = NoFuel.
Proof.
  revert s. induction fuel as [|fuel IH]; intros s Hn Hall; [done|]. cbn [next_packet_id_loop].
  set (s' := s <| s_next_packet_id := next_id (s_next_packet_id s) |>).
  replace (is_none (s_inflight_outgoing s' !! s_next_packet_id s) && is_none (s_inflight_incoming s' !! s_next_packet_id s))
    with false.
  - apply IH; [|done]. unfold s'. cbn. rewrite next_id_nth by done. unfold is_packet_id, nth_id. zdm.
  - destruct (Hall _ Hn) as [[m Hm]|[m Hm]]; unfold s'; cbn; rewrite Hm; cbn; by rewrite ?andb_false_r.
Qed.

Definition exhausted_session : Session :=
  (Session_new 0 "c1" V5 (MkLimits 1000 32 18446744073709551615))
    <| s_inflight_incoming := gset_to_gmap (MkPublish false ExactlyOnce false "t" (Some 1) [] Properties_default)
                                (list_to_set (seqZ 1 65535)) |>.

Lemma next_packet_id_exhausted_witness : next_packet_id_loop (E := unit) 3 exhausted_session = NoFuel.
Proof.
  apply (next_packet_id_exhausted exhausted_session 3).
  - change (is_packet_id 1). unfold is_packet_id. lia.
  - intros id Hid. right. eexists. apply lookup_gset_to_gmap_Some. split; [|reflexivity].
    apply elem_of_list_to_set, elem_of_seqZ. unfold is_packet_id in Hid. lia.
Defined.

(** The pending queue keeps the newest messages: after queueing any
    messages, the queue holds the last [max(1, max_pending_messages)] of the old
    and new ones in order, and draining it returns, in order, those whose expiry
    interval has not passed, each with the interval reduced to what is left
    (still positive), and leaves the queue empty. *)
Theorem pending_queue_spec ms now s :
  zlen (s_pending_messages s) ≤ Z.max 1 (s_max_pending_messages s) →
  let queue := last_n (Z.to_nat (Z.max 1 (s_max_pending_messages s))) (s_pending_messages s ++ ms) in
  let r := drain_pending_messages now (queue_all ms s) in
  s_pending_messages (queue_all ms s) = queue ∧
  r.1 = omap (drain_one now) queue ∧ s_pending_messages r.2 = [] ∧
  ∀ pm p, drain_one now pm = Some p →
    match message_expiry_interval (pub_properties (pm_publish pm)) with
    | None => p = pm_publish pm
    | Some e => let left := e - elapsed_secs now (pm_queued_at pm) in
                0 < left ≤ e ∧ p = set_expiry (pm_publish pm) left
    end.
Proof.
  intros Hl queue r. pose proof (queue_all_last_n ms s Hl) as Hq. split_and!; [done| |done|].
  - unfold r, drain_pending_messages. cbn [fst]. by rewrite Hq.
  - intros pm p. unfold drain_one. destruct (message_expiry_interval _) as [e|]; [|by intros [= <-]].
    destruct (Z.geb_spec (elapsed_secs now (pm_queued_at pm)) e); [done|]. intros [= <-].
    assert (0 ≤ elapsed_secs now (pm_queued_at pm)) by (unfold elapsed_secs, wrap_u32; zdm).
    split; [lia|done].
Qed.

Definition example_message (e : option Z) : Publish :=
  MkPublish false AtLeastOnce false "t" None [x61] (Properties_default <| message_expiry_interval := e |>).

Lemma pending_queue_spec_witness :
  let s := Session_new 0 "c1" V5 (MkLimits 2 32 100) in
  let ms := [MkPending (example_message None) 0; MkPending (example_message (Some 1)) 0;
             MkPending (example_message (Some 10)) 1000000000] in
  (drain_pending_messages 3000000000 (queue_all ms s)).1 = [example_message (Some 8)].
Proof.
  intros s ms. destruct (pending_queue_spec ms 3000000000 s) as (_ & -> & _); [by vm_compute|].
  vm_compute. reflexivity.
Defined.

(** C17. The lifetime of a session: a session that disconnects at [t0] is
    resumed by the next connection, at [t1], exactly when that asks for no clean
    start and its expiry interval is not zero and has not passed (0xFFFFFFFF
    never passes); the resumed session is the same cell with its subscriptions, in-flight and
    pending messages unchanged, and otherwise a new session takes its place. *)
Theorem session_lifetime st client c s t0 t1 v clean limits :
  sessions_wf st → sessions st !! client = Some c → cells st !! c = Some s →
  let e := s_session_expiry_interval s in
  let alive := negb clean && negb (e =? 0) && ((e =? 4294967295) || (as_secs (duration_since t1 t0) <? e)) in
  let '((c', present), st') := get_or_create t1 client v clean limits (disconnect t0 client st) in
  present = alive ∧ sessions st' !! client = Some c' ∧
  (if alive then c' = c ∧ cells st' !! c' = Some (resume v (mark_disconnected t0 s))
   else c' ≠ c ∧ cells st' !! c' = Some (Session_new t1 client v limits)) ∧
  same_flow s (resume v (mark_disconnected t0 s)) ∧
  s_subscriptions (resume v (mark_disconnected t0 s)) = s_subscriptions s ∧
  s_state (resume v (mark_disconnected t0 s)) = Connected.
Proof.
  intros Hwf Hc Hs. assert (Hne : next_cell st ≠ c).
  { intros <-. by rewrite (sw_fresh st Hwf) in Hs by lia. }
  destruct clean.
  { unfold disconnect, get_or_create. rewrite Hc. destruct (bool_decide _); cbn; rewrite !lookup_insert_eq; by split_and!. }
  unfold disconnect, get_or_create. rewrite Hc. rewrite lookup_modify, decide_True, Hs by done. cbn [fmap option_fmap option_map].
  cbn [negb andb].
  destruct (Z.eqb_spec (s_session_expiry_interval s) 0) as [He|He].
  - rewrite bool_decide_true by (cbn; by rewrite He). cbn. rewrite lookup_delete_eq. cbn.
    rewrite !lookup_insert_eq. by split_and!.
  - rewrite bool_decide_false by (cbn; congruence). cbn [sessions modify_session set_field]. cbn. rewrite Hc.
    rewrite lookup_alter, decide_True, Hs by done. cbn. unfold is_expired. cbn.
    rewrite bool_decide_true by done. cbn. rewrite (proj2 (Z.eqb_neq _ _) He).
    destruct (Z.eqb_spec (s_session_expiry_interval s) 4294967295) as [He'|He']; cbn.
    + unfold modify_session, set_field; cbn; rewrite ?Hc, !lookup_alter, !decide_True, Hs by done. by split_and!.
    + rewrite Z.geb_leb, Z.ltb_antisym.
      destruct (s_session_expiry_interval s <=? as_secs (duration_since t1 t0)); cbn.
      * rewrite !lookup_insert_eq. by split_and!.
      * unfold modify_session, set_field; cbn; rewrite ?Hc, !lookup_alter, !decide_True, Hs by done. by split_and!.
Qed.

Lemma session_lifetime_witness :
  let st := (get_or_create 0 "c1" V5 true SessionLimits_default SessionStore_new).2 in
  let s := Session_new 0 "c1" V5 SessionLimits_default in
  let st := modify_session 0 (λ s, s <| s_session_expiry_interval := 10 |>) st in
  let '((c', present), st') :=
    get_or_create 12000000000 "c1" V311 false SessionLimits_default (disconnect 3000000000 "c1" st) in
  present = true ∧ c' = 0%nat.
Proof.
  intros st s st1.
  assert (Hwf : sessions_wf st1).
  { apply modify_wf; [intros ?; by apply session_wf_same|done|].
    apply get_or_create_wf; [by vm_compute..|apply sessions_wf_new]. }
  pose proof (session_lifetime st1 "c1" 0 (s <| s_session_expiry_interval := 10 |>)
    3000000000 12000000000 V311 false SessionLimits_default Hwf eq_refl eq_refl) as H.
  cbv zeta in H. revert H. destruct (get_or_create 12000000000 _ _ _ _ _) as [[c' present] st'].
  intros (-> & _ & H & _). exact (conj eq_refl (proj1 H)).
Defined.

(** The periodic cleanup removes exactly the expired sessions and, in the
    others, exactly the pending messages whose expiry interval has passed,
    whatever order the map is traversed in. *)
Theorem cleanup_expired_spec now st client :
  sessions_wf st →
  sessions_wf (cleanup_expired now st) ∧
  session_of (cleanup_expired now st) client =
    (s ← session_of st client; if is_expired now s then None else Some (cleanup_expired_messages now s)) ∧
  ∀ s pm, pm ∈ s_pending_messages (cleanup_expired_messages now s) ↔
          pm ∈ s_pending_messages s ∧ is_Some (drain_one now pm).
Proof.
  intros Hwf. split_and!.
  - unfold cleanup_expired. by apply cleanup_fold_wf.
  - unfold cleanup_expired. rewrite cleanup_fold_spec; [|done|apply NoDup_fst_map_to_list|].
    + destruct (decide _) as [|Hn]; [done|]. unfold session_of. destruct (sessions st !! client) as [c|] eqn:Hc; [|done].
      destruct Hn. apply (list_elem_of_fmap_2 fst _ (client, c)). by apply elem_of_map_to_list.
    + intros [cl c] He%elem_of_map_to_list. done.
  - intros s pm. unfold cleanup_expired_messages. cbn. rewrite list_elem_of_filter.
    unfold keep_pending, drain_one. destruct (message_expiry_interval _) as [e|]; [|naive_solver].
    destruct (Z.geb_spec (elapsed_secs now (pm_queued_at pm)) e), (Z.ltb_spec (elapsed_secs now (pm_queued_at pm)) e);
      try lia; naive_solver.
Qed.

Lemma cleanup_expired_spec_witness :
  let st := (get_or_create 0 "c1" V5 true SessionLimits_default SessionStore_new).2 in
  session_of (cleanup_expired 0 st) "c1" = Some (Session_new 0 "c1" V5 SessionLimits_default).
Proof.
  intros st. destruct (cleanup_expired_spec 0 st "c1") as (_ & -> & _).
  - apply get_or_create_wf; [by vm_compute..|apply sessions_wf_new].
  - reflexivity.
Defined.
