(* ===== verification/Hooks.v ===== *)
(** * Hooks

    [hooks/mod.rs]: the interface through which the broker asks for
    authentication and authorisation and announces events. A hooks object may
    share mutable state with others (the access control provider reads the
    client names that the authentication provider records), so an object is a
    record of operations on a state [W] of which each object sees its part;
    [Box<dyn Hooks>] is such a record. *)

From S2P Require Import Prelude Protocol.

Inductive HookError : Type :=
  | Internal (msg : string)
  | AuthenticationFailed
  | AuthorizationDenied.

(** [HookResult<bool>] *)
Inductive HookResult : Type := HookOk (b : bool) | HookErr (e : HookError).

Record Hooks (W : Type) : Type := MkHooks {
  on_authenticate : string → option string → option (list byte) → W → HookResult * W;
  on_publish_check : string → option string → string → QoS → bool → W → HookResult * W;
  on_subscribe_check : string → option string → string → QoS → W → HookResult * W;
  on_client_connected : string → option string → W → W;
  on_client_disconnected : string → bool → W → W;
  on_message_published : string → list byte → QoS → W → W;
}.
Arguments MkHooks {W}.
Arguments on_authenticate {W}.
Arguments on_publish_check {W}.
Arguments on_subscribe_check {W}.
Arguments on_client_connected {W}.
Arguments on_client_disconnected {W}.
Arguments on_message_published {W}.

Section hooks.
Context {W : Type}.
Implicit Types (h : Hooks W) (hs : list (Hooks W)).

(** The default methods of the trait: allow everything, do nothing. *)
Definition DefaultHooks : Hooks W :=
  {| on_authenticate _ _ _ w := (HookOk true, w);
     on_publish_check _ _ _ _ _ w := (HookOk true, w);
     on_subscribe_check _ _ _ _ w := (HookOk true, w);
     on_client_connected _ _ w := w;
     on_client_disconnected _ _ w := w;
     on_message_published _ _ _ w := w |}.

(** The loop of [CompositeHooks]: stop at the first hook that does not say
    yes; [?] returns its error. *)
Fixpoint all_allow (check : Hooks W → W → HookResult * W) hs (w : W) : HookResult * W :=
  match hs with
  | [] => (HookOk true, w)
  | h :: hs =>
      match check h w with
      | (HookOk true, w) => all_allow check hs w
      | (HookOk false, w) => (HookOk false, w)
      | (HookErr e, w) => (HookErr e, w)
      end
  end.

(** The event methods call every hook in order. *)
Definition each_hook (event : Hooks W → W → W) hs (w : W) : W := foldl (fun w h => event h w) w hs.

Definition CompositeHooks hs : Hooks W :=
  {| on_authenticate client_id username password :=
       all_allow (fun h => on_authenticate h client_id username password) hs;
     on_publish_check client_id username topic qos retain :=
       all_allow (fun h => on_publish_check h client_id username topic qos retain) hs;
     on_subscribe_check client_id username f qos :=
       all_allow (fun h => on_subscribe_check h client_id username f qos) hs;
     on_client_connected client_id username :=
       each_hook (fun h => on_client_connected h client_id username) hs;
     on_client_disconnected client_id graceful :=
       each_hook (fun h => on_client_disconnected h client_id graceful) hs;
     on_message_published topic payload qos :=
       each_hook (fun h => on_message_published h topic payload qos) hs |}.

(** ** Lemmas *)

(** The states in which the hooks of a run are asked. *)
Fixpoint run_states (check : Hooks W → W → HookResult * W) hs (w : W) : list W :=
  match hs with
  | [] => []
  | h :: hs => w :: run_states check hs (check h w).2
  end.

Lemma all_allow_true check hs w :
  (all_allow check hs w).1 = HookOk true ↔
  Forall2 (λ h w, (check h w).1 = HookOk true) hs (run_states check hs w).
Proof.
  revert w. induction hs as [|h hs IH]; intros w; cbn; [split; [constructor|done]|].
  rewrite Forall2_cons. destruct (check h w) as [[[]|e] w'] eqn:E; cbn [fst snd].
  - rewrite IH. naive_solver.
  - cbn. naive_solver.
  - cbn. naive_solver.
Qed.

Lemma all_allow_first check hs1 h hs2 w r :
  Forall2 (λ h w, (check h w).1 = HookOk true) hs1 (run_states check hs1 w) →
  let w1 := (all_allow check hs1 w).2 in
  (check h w1).1 = r → r ≠ HookOk true →
  all_allow check (hs1 ++ h :: hs2) w = (r, (check h w1).2).
Proof.
  revert w. induction hs1 as [|h1 hs1 IH]; intros w Hf; cbn.
  - destruct (check h w) as [[[]|e] w']; cbn; intros <- Hr; done.
  - cbn in Hf. apply Forall2_cons in Hf as [H1 Hf]. destruct (check h1 w) as [r1 w'] eqn:E. cbn in H1. subst r1.
    apply IH. exact Hf.
Qed.
End hooks.

(** ** Theorems *)

(** A chain of hooks grants permission exactly when every hook of the chain
    does, each asked in the state its predecessors left; and the first hook that
    does not say yes decides, with its own answer or error: the hooks after it
    are not asked and change nothing. *)
Theorem composite_all_must_allow {W} (check : Hooks W → W → HookResult * W) (hs1 hs2 : list (Hooks W)) h w :
  ((all_allow check (hs1 ++ h :: hs2) w).1 = HookOk true ↔
   Forall2 (λ h w, (check h w).1 = HookOk true) (hs1 ++ h :: hs2) (run_states check (hs1 ++ h :: hs2) w)) ∧
  (let '(r1, w1) := all_allow check hs1 w in
   r1 = HookOk true → (check h w1).1 ≠ HookOk true →
   all_allow check (hs1 ++ h :: hs2) w = check h w1).
Proof.
  split; [apply all_allow_true|]. destruct (all_allow check hs1 w) as [r1 w1] eqn:E. intros -> Hne.
  rewrite (all_allow_first check hs1 h hs2 w (check h w1).1).
  - rewrite E. cbn. by destruct (check h w1).
  - apply all_allow_true. by rewrite E.
  - by rewrite E.
  - done.
Qed.

Definition deny_hooks : Hooks nat :=
  {| on_authenticate _ _ _ w := (HookErr AuthenticationFailed, S w);
     on_publish_check _ _ _ _ _ w := (HookOk false, w);
     on_subscribe_check _ _ _ _ w := (HookOk false, w);
     on_client_connected _ _ w := w;
     on_client_disconnected _ _ w := w;
     on_message_published _ _ _ w := w |}.

Lemma composite_all_must_allow_witness :
  all_allow (fun h => on_authenticate h "c" None None) ([DefaultHooks] ++ deny_hooks :: [DefaultHooks]) 0%nat =
    (HookErr AuthenticationFailed, 1%nat).
Proof.
  pose proof (composite_all_must_allow (fun h => on_authenticate h "c"%string None None) [DefaultHooks] [DefaultHooks]
    deny_hooks 0%nat) as [_ H].
  apply H; [reflexivity|discriminate].
Defined.
