(* ===== verification/Auth.v ===== *)
(** * Authentication and access control

    [auth/mod.rs] and [acl/mod.rs]: the providers that implement the hooks, and
    their chain as [main.rs] composes it. The state the two share is the map of
    client names that the authentication provider records. The Argon2 library
    is a parameter: parsing of a hash and verification against it. *)

From S2P Require Import Prelude Protocol TopicValidation Hooks.

(** ** Configuration *)
Record UserConfig : Type := MkUserConfig {
  uc_username : string;
  uc_password : option string;
  uc_password_hash : option string;
  uc_role : option string;
}.

Record AuthConfig : Type := MkAuthConfig {
  ac_enabled : bool;
  ac_allow_anonymous : bool;
  ac_users : list UserConfig;
}.

Record AclRole : Type := MkAclRole {
  ar_name : string;
  ar_publish : list string;
  ar_subscribe : list string;
}.

Record AclConfig : Type := MkAclConfig {
  acl_cfg_enabled : bool;
  acl_cfg_roles : list AclRole;
  acl_cfg_default_publish : list string;
  acl_cfg_default_subscribe : list string;
}.

(** ** The authentication provider *)
Inductive Credential : Type :=
  | Plaintext (stored : string)
  | Argon2Hash (hash : string).

Record UserEntry : Type := MkUserEntry {
  ue_credential : Credential;
  ue_role : option string;
}.

Record AuthProvider : Type := MkAuthProvider {
  ap_enabled : bool;
  ap_allow_anonymous : bool;
  ap_users : gmap string UserEntry;
}.

Definition user_entry (user : UserConfig) : option UserEntry :=
  match uc_password_hash user, uc_password user with
  | Some hash, _ => Some (MkUserEntry (Argon2Hash hash) (uc_role user))
  | None, Some pwd => Some (MkUserEntry (Plaintext pwd) (uc_role user))
  | None, None => None
  end.

Definition add_user (users : gmap string UserEntry) (user : UserConfig) : gmap string UserEntry :=
  match user_entry user with
  | Some entry => <[uc_username user := entry]> users
  | None => users
  end.

Definition AuthProvider_new (config : AuthConfig) : AuthProvider :=
  MkAuthProvider (ac_enabled config) (ac_allow_anonymous config) (foldl add_user ∅ (ac_users config)).

Definition get_user_role (ap : AuthProvider) (username : string) : option string :=
  u ← ap_users ap !! username; ue_role u.

(** The shared state: [client_usernames]. *)
Definition get_client_username (client_id : string) (names : gmap string (option string)) : option string :=
  mjoin (names !! client_id).

Definition store_client_username (client_id : string) (username : option string)
    (names : gmap string (option string)) : gmap string (option string) :=
  <[client_id := username]> names.

Definition remove_client_username (client_id : string) (names : gmap string (option string))
    : gmap string (option string) := delete client_id names.

Section auth.
Context {PasswordHash : Type}.
Context (PasswordHash_new : string → option PasswordHash).
Context (argon2_verify_password : list byte → PasswordHash → bool).

Definition verify_password (password : list byte) (credential : Credential) : bool :=
  match credential with
  | Plaintext stored =>
      match from_utf8 password with Some pwd => String.eqb pwd stored | None => false end
  | Argon2Hash hash =>
      match PasswordHash_new hash with
      | None => false
      | Some parsed_hash => argon2_verify_password password parsed_hash
      end
  end.

Definition auth_on_authenticate (ap : AuthProvider) (client_id : string) (username : option string)
    (password : option (list byte)) (names : gmap string (option string))
    : HookResult * gmap string (option string) :=
  if negb (ap_enabled ap) then (HookOk true, store_client_username client_id username names)
  else
    match username with
    | None =>
        if ap_allow_anonymous ap then (HookOk true, store_client_username client_id None names)
        else (HookOk false, names)
    | Some username =>
        match ap_users ap !! username with
        | None => (HookOk false, names)
        | Some user =>
            if verify_password (default [] password) (ue_credential user)
            then (HookOk true, store_client_username client_id (Some username) names)
            else (HookOk false, names)
        end
    end.

Definition AuthHooks (ap : AuthProvider) : Hooks (gmap string (option string)) :=
  {| on_authenticate := auth_on_authenticate ap;
     on_publish_check _ _ _ _ _ w := (HookOk true, w);
     on_subscribe_check _ _ _ _ w := (HookOk true, w);
     on_client_connected _ _ w := w;
     on_client_disconnected client_id _ w := remove_client_username client_id w;
     on_message_published _ _ _ w := w |}.

(** ** The access control provider *)
Record AclRoleEntry : Type := MkAclRoleEntry {
  re_publish : list string;
  re_subscribe : list string;
}.

Record AclProvider : Type := MkAclProvider {
  acl_enabled : bool;
  acl_roles : gmap string AclRoleEntry;
  acl_default_publish : list string;
  acl_default_subscribe : list string;
  acl_auth_provider : AuthProvider;
}.

Definition AclProvider_new (config : AclConfig) (auth_provider : AuthProvider) : AclProvider :=
  MkAclProvider (acl_cfg_enabled config)
    (foldl (fun roles r => <[ar_name r := MkAclRoleEntry (ar_publish r) (ar_subscribe r)]> roles)
       ∅ (acl_cfg_roles config))
    (acl_cfg_default_publish config) (acl_cfg_default_subscribe config) auth_provider.

(** [str::replace] of a two-character pattern. *)
Fixpoint replace2 (a b : Ascii.ascii) (to s : string) : string :=
  match s with
  | String x tl =>
      match tl with
      | String y rest =>
          if Ascii.eqb x a && Ascii.eqb y b then String.append to (replace2 a b to rest)
          else String x (replace2 a b to tl)
      | EmptyString => String x EmptyString
      end
  | EmptyString => EmptyString
  end.

(** The loop of [mqtt_pattern_match] over the two lists of parts. *)
Fixpoint pattern_levels (ps ts : list string) : bool :=
  match ps, ts with
  | p :: ps, t :: ts =>
      if String.eqb p "#" then true
      else if String.eqb p "+" then pattern_levels ps ts
      else if String.eqb p t then pattern_levels ps ts
      else false
  | [], [] => true
  | _, _ => false
  end.

Definition mqtt_pattern_match (pattern topic : string) : bool :=
  pattern_levels (split "/" pattern) (split "/" topic).

Definition matches_pattern (pattern topic client_id : string) (username : option string) : bool :=
  let pattern := replace2 "%"%char "c"%char client_id pattern in
  let pattern := replace2 "%"%char "u"%char (default ""%string username) pattern in
  mqtt_pattern_match pattern topic.

Definition check_patterns (patterns : list string) (topic client_id : string) (username : option string) : bool :=
  existsb (fun p => matches_pattern p topic client_id username) patterns.

Definition get_role_permissions (acl : AclProvider) (username : option string) : option AclRoleEntry :=
  username ← username;
  role_name ← get_user_role (acl_auth_provider acl) username;
  acl_roles acl !! role_name.

(** [actual_username.as_deref().or(username)] *)
Definition effective_username (client_id : string) (username : option string)
    (names : gmap string (option string)) : option string :=
  match get_client_username client_id names with Some u => Some u | None => username end.

Definition acl_on_publish_check (acl : AclProvider) (client_id : string) (username : option string)
    (topic : string) (qos : QoS) (retain : bool) (names : gmap string (option string))
    : HookResult * gmap string (option string) :=
  if negb (acl_enabled acl) then (HookOk true, names)
  else
    let username_ref := effective_username client_id username names in
    if match get_role_permissions acl username_ref with
       | Some role => check_patterns (re_publish role) topic client_id username_ref
       | None => false
       end then (HookOk true, names)
    else if check_patterns (acl_default_publish acl) topic client_id username_ref then (HookOk true, names)
    else (HookOk false, names).

Definition acl_on_subscribe_check (acl : AclProvider) (client_id : string) (username : option string)
    (f : string) (qos : QoS) (names : gmap string (option string))
    : HookResult * gmap string (option string) :=
  if negb (acl_enabled acl) then (HookOk true, names)
  else
    let username_ref := effective_username client_id username names in
    if match get_role_permissions acl username_ref with
       | Some role => check_patterns (re_subscribe role) f client_id username_ref
       | None => false
       end then (HookOk true, names)
    else if check_patterns (acl_default_subscribe acl) f client_id username_ref then (HookOk true, names)
    else (HookOk false, names).

Definition AclHooks (acl : AclProvider) : Hooks (gmap string (option string)) :=
  {| on_authenticate _ _ _ w := (HookOk true, w);
     on_publish_check := acl_on_publish_check acl;
     on_subscribe_check := acl_on_subscribe_check acl;
     on_client_connected _ _ w := w;
     on_client_disconnected _ _ w := w;
     on_message_published _ _ _ w := w |}.

(** [CompositeHooks::new().with(auth_provider).with(acl_provider)] *)
Definition broker_hooks (auth : AuthConfig) (acl : AclConfig) : Hooks (gmap string (option string)) :=
  let auth_provider := AuthProvider_new auth in
  CompositeHooks [AuthHooks auth_provider; AclHooks (AclProvider_new acl auth_provider)].
End auth.

(** ** Lemmas *)

(** The entry that counts for a name: the last configured user with that name
    and a credential. *)
Definition configured_user (auth : AuthConfig) (name : string) : option UserEntry :=
  last (omap (λ user, if String.eqb (uc_username user) name then user_entry user else None) (ac_users auth)).

Lemma last_app_option {A} (l : list A) (o : option A) :
  last (l ++ option_list o) = match o with Some x => Some x | None => last l end.
Proof. destruct o; cbn; [by rewrite last_snoc|by rewrite app_nil_r]. Qed.

Lemma omap_snoc {A B} (f : A → option B) l x : omap f (l ++ [x]) = omap f l ++ option_list (f x).
Proof. rewrite omap_app. cbn. by destruct (f x). Qed.

Lemma ap_users_lookup auth name : ap_users (AuthProvider_new auth) !! name = configured_user auth name.
Proof.
  unfold configured_user. destruct auth as [en an users]. cbn.
  induction users as [|user users IH] using rev_ind; [done|].
  rewrite foldl_snoc, omap_snoc, last_app_option. unfold add_user.
  destruct (String.eqb_spec (uc_username user) name) as [<-|Hne].
  - destruct (user_entry user); [by rewrite lookup_insert_eq|exact IH].
  - destruct (user_entry user); [by rewrite lookup_insert_ne|exact IH].
Qed.

Lemma configured_role (roles : list AclRole) name :
  (foldl (λ m r, <[ar_name r := MkAclRoleEntry (ar_publish r) (ar_subscribe r)]> m) ∅ roles
     : gmap string AclRoleEntry) !! name =
  last (omap (λ r, if String.eqb (ar_name r) name then Some (MkAclRoleEntry (ar_publish r) (ar_subscribe r))
                   else None) roles).
Proof.
  induction roles as [|r roles IH] using rev_ind; [done|].
  rewrite foldl_snoc, omap_snoc, last_app_option.
  destruct (String.eqb_spec (ar_name r) name) as [<-|Hne]; [by rewrite lookup_insert_eq|].
  by rewrite lookup_insert_ne.
Qed.

(** The matcher of the access control lists against that of subscriptions. *)
Lemma pattern_levels_match ps ts :
  match_levels ps ts = true ↔
  pattern_levels ps ts = true ∨
  ∃ ps0 rest, ps = ps0 ++ "#"%string :: rest ∧ "#"%string ∉ ps0 ∧ pattern_levels ps0 ts = true.
Proof.
  revert ts. induction ps as [|p ps IH]; intros ts; cbn [match_levels].
  { destruct ts; cbn; split; try done; [by left|].
    intros [?|(ps0 & rest & Hp & _)]; [done|]. by destruct ps0. }
  destruct (String.eqb_spec p "#") as [->|Hh].
  { split; [|done]. intros _. destruct ts as [|t ts]; [|by left]. right. exists [], ps.
    split_and!; [done|apply not_elem_of_nil|done]. }
  assert (Hmore : ∀ ts', (∃ ps0 rest, p :: ps = ps0 ++ "#"%string :: rest ∧ "#"%string ∉ ps0 ∧ pattern_levels ps0 ts' = true) ↔
    ∃ ps0 rest, ps = ps0 ++ "#"%string :: rest ∧ "#"%string ∉ ps0 ∧ pattern_levels (p :: ps0) ts' = true).
  { intros ts'. split.
    - intros ([|p' ps0] & rest & Hp & Hn & Hm); [by injection Hp as ->|]. injection Hp as <- ->.
      exists ps0, rest. split_and!; [done| |done]. set_solver.
    - intros (ps0 & rest & -> & Hn & Hm). exists (p :: ps0), rest. split_and!; [done| |done].
      apply not_elem_of_cons. split; [congruence|done]. }
  rewrite Hmore. destruct ts as [|t ts]; cbn [pattern_levels].
  { split; [done|]. intros [?|(? & ? & _ & _ & ?)]; done. }
  rewrite (proj2 (String.eqb_neq p "#") Hh).
  destruct (String.eqb p "+"); [by rewrite IH|]. destruct (String.eqb p t); [by rewrite IH|].
  split; [done|]. intros [?|(? & ? & _ & _ & ?)]; done.
Qed.

Lemma check_patterns_spec patterns topic client_id username :
  check_patterns patterns topic client_id username = true ↔
  ∃ p, p ∈ patterns ∧ matches_pattern p topic client_id username = true.
Proof.
  unfold check_patterns. rewrite existsb_exists. by setoid_rewrite list_elem_of_In.
Qed.

(** ** Theorems *)

(** C21. Authentication decides as configured: the broker's hook chain accepts a
    client exactly when authentication is disabled, or the client is anonymous
    and anonymous clients are allowed, or its user name is configured and the
    password verifies against the last credential configured for it; it never
    fails with an error; and the recorded client names change, for this client
    only, exactly when it is accepted. *)
Theorem authentication_decision {PH} (new : string → option PH) verify auth acl client username password names :
  let '(r, names') := on_authenticate (broker_hooks new verify auth acl) client username password names in
  let accepted :=
    negb (ac_enabled auth) ||
    match username with
    | None => ac_allow_anonymous auth
    | Some u => match configured_user auth u with
                | Some entry => verify_password new verify (default [] password) (ue_credential entry)
                | None => false
                end
    end in
  r = HookOk accepted ∧ names' = if accepted then <[client := username]> names else names.
Proof.
  cbn. unfold auth_on_authenticate. cbn [ap_enabled ap_allow_anonymous AuthProvider_new].
  destruct (ac_enabled auth); cbn [negb orb]; [|done].
  destruct username as [u|].
  - rewrite ap_users_lookup. destruct (configured_user auth u) as [entry|]; [|done].
    by destruct (verify_password _ _ _ _).
  - by destruct (ac_allow_anonymous auth).
Qed.

(** C20. Access control decides as configured: publishing is allowed exactly when
    access control is disabled or some pattern of the client's role or of the
    defaults, with the client identifier and user name substituted, matches the
    topic; the same for subscribing with the subscribe patterns; everything
    else is denied, nothing is an error and no state changes. The user name is
    the recorded one if there is one. The defaults count for clients with a
    role as well. *)
Theorem authorization_decision {PH} (new : string → option PH) verify auth acl client username topic qos retain names :
  let user := effective_username client username names in
  let role := u ← user; entry ← configured_user auth u; name ← ue_role entry;
              last (omap (λ r, if String.eqb (ar_name r) name
                               then Some (MkAclRoleEntry (ar_publish r) (ar_subscribe r)) else None)
                      (acl_cfg_roles acl)) in
  let allowed patterns_of defaults :=
    negb (acl_cfg_enabled acl) ||
    existsb (λ p, matches_pattern p topic client user) (default [] (patterns_of <$> role) ++ defaults) in
  on_publish_check (broker_hooks new verify auth acl) client username topic qos retain names =
    (HookOk (allowed re_publish (acl_cfg_default_publish acl)), names) ∧
  on_subscribe_check (broker_hooks new verify auth acl) client username topic qos names =
    (HookOk (allowed re_subscribe (acl_cfg_default_subscribe acl)), names).
Proof.
  intros user role allowed.
  assert (Hrole : get_role_permissions (AclProvider_new acl (AuthProvider_new auth)) user = role).
  { unfold get_role_permissions, role, get_user_role. destruct user as [u|]; [|done]. cbn [mbind option_bind].
    cbn [acl_auth_provider AclProvider_new]. rewrite ap_users_lookup.
    destruct (configured_user auth u) as [entry|]; [|done]. cbn [mbind option_bind].
    destruct (ue_role entry) as [name|]; [|done]. cbn [mbind option_bind acl_roles AclProvider_new].
    apply configured_role. }
  cbn. unfold acl_on_publish_check, acl_on_subscribe_check, allowed. fold user. rewrite Hrole.
  cbn [acl_enabled acl_default_publish acl_default_subscribe AclProvider_new].
  destruct (acl_cfg_enabled acl); cbn [negb orb]; [|done]. unfold check_patterns.
  destruct role as [r|]; cbn; rewrite ?existsb_app.
  - split.
    + by destruct (existsb _ (re_publish r)), (existsb _ (acl_cfg_default_publish acl)).
    + by destruct (existsb _ (re_subscribe r)), (existsb _ (acl_cfg_default_subscribe acl)).
  - split.
    + by destruct (existsb _ (acl_cfg_default_publish acl)).
    + by destruct (existsb _ (acl_cfg_default_subscribe acl)).
Qed.

(** The patterns of access control lists against topic filters: a topic
    matches a pattern read as a filter exactly when access control matches it,
    except that (1) access control has no rule for topics that start with [$],
    and (2) a pattern that ends in [/#] does not cover its parent level. *)
Theorem acl_pattern_coverage pattern topic :
  topic_matches_filter topic pattern = true ↔
  system_blocked topic (split "/" pattern) = false ∧
  (mqtt_pattern_match pattern topic = true ∨
   ∃ parent rest, split "/" pattern = parent ++ "#"%string :: rest ∧ "#"%string ∉ parent ∧
     pattern_levels parent (split "/" topic) = true).
Proof.
  rewrite topic_matches_levels, andb_true_iff, negb_true_iff, pattern_levels_match. done.
Qed.

(** Client-controlled wildcards widen permissions: a client that calls itself
    [+] may publish below every other client's [sensors/%c/#], and permission to
    subscribe to [sensors/+] also grants the filter [sensors/#], which receives
    topics that no pattern allows. *)
Theorem acl_wildcard_escalation {PH} (new : string → option PH) verify :
  let auth := MkAuthConfig false true [] in
  let acl := MkAclConfig true [] ["sensors/%c/#"%string] ["sensors/+"%string] in
  let hooks := broker_hooks new verify auth acl in
  (on_publish_check hooks "c2" None "sensors/c1/temp" AtMostOnce false ∅).1 = HookOk false ∧
  (on_publish_check hooks "+" None "sensors/c1/temp" AtMostOnce false ∅).1 = HookOk true ∧
  (on_subscribe_check hooks "c2" None "sensors/#" AtMostOnce ∅).1 = HookOk true ∧
  topic_matches_filter "sensors/a/b" "sensors/#" = true ∧
  (on_subscribe_check hooks "c2" None "sensors/a/b" AtMostOnce ∅).1 = HookOk false.
Proof. by vm_compute. Qed.

(** A role does not restrict what the defaults allow: with the settings of
    [vibemq.toml] a user with a role that may publish nothing publishes
    anything. *)
Example readonly_role_publishes {PH} (new : string → option PH) verify :
  let auth := MkAuthConfig true false [MkUserConfig "reader" (Some "secret"%string) None (Some "readonly"%string)] in
  let acl := MkAclConfig true [MkAclRole "readonly" [] ["sensors/#"%string]] ["#"%string] ["#"%string; "$SYS/#"%string] in
  (on_publish_check (broker_hooks new verify auth acl) "c1" (Some "reader"%string) "sensors/a" AtMostOnce false
     {[ "c1"%string := Some "reader"%string ]}).1 = HookOk true.
Proof. by vm_compute. Qed.
