(* ===== verification/Flapping.v ===== *)
(** * Connection limits and flapping detection

    [flapping/mod.rs]: per-address token bucket, connection count and
    disconnection window, temporary and static bans. Each operation is one
    function on the detector, that is, calls for the same address do not
    overlap; it takes the time [now] that [Instant::now()] returns. The address ranges of the [ipnet] library are
    parameters: their type, parser and membership test. *)

From Stdlib Require Import Sorting.Sorted.
From S2P Require Import Prelude.

(** [std::net::IpAddr] *)
Inductive IpAddr : Type := V4 (a : Z) | V6 (a : Z).

#[global] Instance IpAddr_eq_dec : EqDecision IpAddr.
Proof. solve_decision. Defined.

#[global] Instance IpAddr_countable : Countable IpAddr.
Proof.
  refine (inj_countable' (λ ip, match ip with V4 a => inl a | V6 a => inr a end)
            (λ x, match x with inl a => V4 a | inr a => V6 a end) _).
  by intros [].
Defined.

Inductive RejectionReason : Type := Banned | RateLimited | MaxConnectionsExceeded.

#[global] Instance RejectionReason_eq_dec : EqDecision RejectionReason.
Proof. solve_decision. Defined.

Record FlappingConfig : Type := MkFlappingConfig {
  fc_enabled : bool;
  fc_max_count : Z;
  fc_window_time : Z;
  fc_ban_time : Z;
}.

Definition FlappingConfig_default : FlappingConfig :=
  MkFlappingConfig false 15 (from_secs 60) (from_secs 300).

Record ConnectionLimitConfig : Type := MkLimitConfig {
  lc_max_connections_per_ip : Z;
  lc_rate_limit : Z;
  lc_rate_burst : Z;
  lc_banned_ips : list IpAddr;
  lc_allowed_ips : list IpAddr;
  lc_banned_cidrs : list string;
  lc_allowed_cidrs : list string;
  lc_cleanup_interval : Z;
}.

Definition ConnectionLimitConfig_default : ConnectionLimitConfig :=
  MkLimitConfig 0 0 20 [] [] [] [] (from_secs 60).

Record IpState : Type := MkIpState {
  connection_count : Z;
  tokens : Z;
  last_refill_ms : Z;
  disconnect_count : Z;
  window_start_ms : Z;
  first_seen : Z;
}.

#[global] Instance IpState_eta : Eta IpState := fun s =>
  MkIpState (connection_count s) (tokens s) (last_refill_ms s) (disconnect_count s)
    (window_start_ms s) (first_seen s).

Definition IpState_new (burst now_ms now : Z) : IpState := MkIpState 0 burst now_ms 0 now_ms now.

Definition saturating_sub (a b : Z) : Z := Z.max 0 (a - b).

Definition try_consume_token (rate_per_sec burst now_ms : Z) (s : IpState) : bool * IpState :=
  let elapsed_ms := saturating_sub now_ms (last_refill_ms s) in
  let tokens_to_add := wrap_u64 (elapsed_ms * rate_per_sec) / 1000 in
  let s :=
    if (elapsed_ms >? 0) && (tokens_to_add >? 0)
    then s <| last_refill_ms := now_ms |>
           <| tokens ::= (fun current => Z.min (current + tokens_to_add) burst) |>
    else s in
  if tokens s =? 0 then (false, s) else (true, s <| tokens ::= Z.pred |>).

Definition record_disconnect (max_count window_ms now_ms : Z) (s : IpState) : bool * IpState :=
  if saturating_sub now_ms (window_start_ms s) >=? window_ms
  then (false, s <| window_start_ms := now_ms |> <| disconnect_count := 1 |>)
  else
    let s := s <| disconnect_count ::= (fun c => wrap_u32 (c + 1)) |> in
    (disconnect_count s >=? max_count, s).

Section detector.
Context {IpNet : Type}.
Context (IpNet_parse : string → option IpNet) (IpNet_contains : IpNet → IpAddr → bool).

Record FlappingDetector : Type := MkDetector {
  flapping_config : FlappingConfig;
  limit_config : ConnectionLimitConfig;
  ip_state : gmap IpAddr IpState;
  temp_bans : gmap IpAddr Z;
  banned_cidrs : list IpNet;
  allowed_cidrs : list IpNet;
  start_time : Z;
}.

#[global] Instance FlappingDetector_eta : Eta FlappingDetector := fun d =>
  MkDetector (flapping_config d) (limit_config d) (ip_state d) (temp_bans d)
    (banned_cidrs d) (allowed_cidrs d) (start_time d).

Definition FlappingDetector_new (now : Z) (fc : FlappingConfig) (lc : ConnectionLimitConfig) : FlappingDetector :=
  MkDetector fc lc ∅ ∅ (omap IpNet_parse (lc_banned_cidrs lc)) (omap IpNet_parse (lc_allowed_cidrs lc)) now.

Definition now_ms (now : Z) (d : FlappingDetector) : Z :=
  wrap_u64 (as_millis (duration_since now (start_time d))).

Definition is_allowed (ip : IpAddr) (d : FlappingDetector) : bool :=
  bool_decide (ip ∈ lc_allowed_ips (limit_config d)) || existsb (fun c => IpNet_contains c ip) (allowed_cidrs d).

Definition is_static_banned (ip : IpAddr) (d : FlappingDetector) : bool :=
  bool_decide (ip ∈ lc_banned_ips (limit_config d)) || existsb (fun c => IpNet_contains c ip) (banned_cidrs d).

Definition is_temp_banned (ip : IpAddr) (now_ms : Z) (d : FlappingDetector) : bool * FlappingDetector :=
  match temp_bans d !! ip with
  | Some expiry =>
      if now_ms <? expiry then (true, d) else (false, d <| temp_bans ::= delete ip |>)
  | None => (false, d)
  end.

(** [ip_state.entry(ip).or_insert_with(...)] *)
Definition entry_or_new (ip : IpAddr) (now : Z) (d : FlappingDetector) : IpState :=
  default (IpState_new (lc_rate_burst (limit_config d)) (now_ms now d) now) (ip_state d !! ip).

(** The limits that apply to an address that is not banned. *)
Definition check_limits (now : Z) (ip : IpAddr) (d : FlappingDetector)
    : option RejectionReason * FlappingDetector :=
  let ms := now_ms now d in
  let state := entry_or_new ip now d in
  let '(allowed, state) :=
    if lc_rate_limit (limit_config d) >? 0
    then try_consume_token (lc_rate_limit (limit_config d)) (lc_rate_burst (limit_config d)) ms state
    else (true, state) in
  let d := d <| ip_state ::= <[ip := state]> |> in
  if negb allowed then (Some RateLimited, d)
  else if (lc_max_connections_per_ip (limit_config d) >? 0)
          && (connection_count state >=? lc_max_connections_per_ip (limit_config d))
  then (Some MaxConnectionsExceeded, d)
  else (None, d).

Definition check_connection (now : Z) (ip : IpAddr) (d : FlappingDetector)
    : option RejectionReason * FlappingDetector :=
  if is_allowed ip d then (None, d)
  else if is_static_banned ip d then (Some Banned, d)
  else
    let '(banned, d) := is_temp_banned ip (now_ms now d) d in
    if banned then (Some Banned, d) else check_limits now ip d.

Definition record_connection (now : Z) (ip : IpAddr) (d : FlappingDetector) : FlappingDetector :=
  if is_allowed ip d then d
  else
    let state := entry_or_new ip now d in
    d <| ip_state ::= <[ip := state <| connection_count ::= (fun c => wrap_u32 (c + 1)) |>]> |>.

Definition record_disconnection (now : Z) (ip : IpAddr) (d : FlappingDetector) : FlappingDetector :=
  if is_allowed ip d then d
  else
    let ms := now_ms now d in
    match ip_state d !! ip with
    | None => d
    | Some state =>
        let prev := connection_count state in
        let state := state <| connection_count := if prev =? 0 then 0 else prev - 1 |> in
        if fc_enabled (flapping_config d) then
          let window_ms := wrap_u64 (as_millis (fc_window_time (flapping_config d))) in
          let '(should_ban, state) := record_disconnect (fc_max_count (flapping_config d)) window_ms ms state in
          let d := d <| ip_state ::= <[ip := state]> |> in
          if should_ban then
            let ban_expiry_ms := wrap_u64 (ms + wrap_u64 (as_millis (fc_ban_time (flapping_config d)))) in
            d <| temp_bans ::= <[ip := ban_expiry_ms]> |>
          else d
        else d <| ip_state ::= <[ip := state]> |>
    end.

Definition ban_ip (now : Z) (ip : IpAddr) (duration : Z) (d : FlappingDetector) : FlappingDetector :=
  d <| temp_bans ::= <[ip := wrap_u64 (now_ms now d + wrap_u64 (as_millis duration))]> |>.

Definition unban_ip (ip : IpAddr) (d : FlappingDetector) : FlappingDetector :=
  d <| temp_bans ::= delete ip |>.

Definition is_stale (now : Z) (threshold : Z) (s : IpState) : bool :=
  (connection_count s =? 0) && (duration_since now (first_seen s) >? threshold).

Definition cleanup (now : Z) (d : FlappingDetector) : FlappingDetector :=
  let ms := now_ms now d in
  let d := d <| temp_bans ::= filter (fun e => ms < e.2) |> in
  let stale_threshold := lc_cleanup_interval (limit_config d) * 2 in
  d <| ip_state ::= filter (fun e => is_stale now stale_threshold e.2 = false) |>.

(** ** Sequences of operations *)
Inductive detector_op : Type :=
  | OpAttempt (ip : IpAddr) (** [check_connection] and, when allowed, [record_connection] *)
  | OpDisconnect (ip : IpAddr)
  | OpBan (ip : IpAddr) (duration : Z)
  | OpUnban (ip : IpAddr)
  | OpCleanup.

(** The accept loop of [broker/mod.rs]: check, then record. *)
Definition attempt (now : Z) (ip : IpAddr) (d : FlappingDetector) : option RejectionReason * FlappingDetector :=
  match check_connection now ip d with
  | (None, d) => (None, record_connection now ip d)
  | (Some r, d) => (Some r, d)
  end.

Definition run_op (now : Z) (op : detector_op) (d : FlappingDetector) : option RejectionReason * FlappingDetector :=
  match op with
  | OpAttempt ip => attempt now ip d
  | OpDisconnect ip => (None, record_disconnection now ip d)
  | OpBan ip duration => (None, ban_ip now ip duration d)
  | OpUnban ip => (None, unban_ip ip d)
  | OpCleanup => (None, cleanup now d)
  end.

Definition run_ops (ops : list (Z * detector_op)) (d : FlappingDetector) : FlappingDetector :=
  foldl (fun d o => (run_op o.1 o.2 d).2) d ops.

(** Whether an operation is an attempt from [ip] that is let through. *)
Definition admits (ip : IpAddr) (o : Z * detector_op) (d : FlappingDetector) : bool :=
  match o.2 with
  | OpAttempt ip' => bool_decide (ip' = ip) && is_none (attempt o.1 ip d).1
  | _ => false
  end.

(** The number of connections from [ip] that a sequence lets through. *)
Fixpoint admitted (ip : IpAddr) (ops : list (Z * detector_op)) (d : FlappingDetector) : Z :=
  match ops with
  | [] => 0
  | o :: ops => (if admits ip o d then 1 else 0) + admitted ip ops (run_op o.1 o.2 d).2
  end.

(** How often the cleanup drops the entry of [ip]. *)
Fixpoint drops (ip : IpAddr) (ops : list (Z * detector_op)) (d : FlappingDetector) : Z :=
  match ops with
  | [] => 0
  | o :: ops =>
      let d' := (run_op o.1 o.2 d).2 in
      Z.b2z (is_some (ip_state d !! ip) && is_none (ip_state d' !! ip)) + drops ip ops d'
  end.

(** ** Lemmas *)

(** The bucket: a token is spent or refused; the stock grows by at most the
    rate times the elapsed time. *)
Lemma try_consume_token_spec rate burst ms s :
  0 ≤ rate → 0 ≤ tokens s ≤ burst → 0 ≤ last_refill_ms s ≤ ms → ms * rate < 2 ^ 64 →
  let '(ok, s') := try_consume_token rate burst ms s in
  0 ≤ tokens s' ≤ burst ∧ last_refill_ms s ≤ last_refill_ms s' ≤ ms ∧
  1000 * ((if ok then 1 else 0) + tokens s' - tokens s) ≤ rate * (last_refill_ms s' - last_refill_ms s) ∧
  connection_count s' = connection_count s ∧ first_seen s' = first_seen s.
Proof.
  intros Hr Ht Hl Hm. unfold try_consume_token, saturating_sub.
  set (e := Z.max 0 (ms - last_refill_ms s)).
  assert (He : e = ms - last_refill_ms s) by lia.
  assert (Hw : wrap_u64 (e * rate) = e * rate).
  { unfold wrap_u64. apply Z.mod_small. rewrite He. nia. }
  rewrite Hw. set (add := e * rate / 1000).
  assert (Hadd : 0 ≤ add ∧ 1000 * add ≤ e * rate).
  { unfold add. split; [apply Z.div_pos; nia|]. apply Z.mul_div_le. lia. }
  destruct ((e >? 0) && (add >? 0)) eqn:E.
  - cbn [tokens last_refill_ms set_field]. unfold set_field. cbn.
    destruct (Z.eqb_spec (Z.min (tokens s + add) burst) 0) as [H0|H0]; cbn; (split_and!; [lia..| |done|done]); nia.
  - destruct (Z.eqb_spec (tokens s) 0) as [H0|H0]; cbn; (split_and!; [lia..| |done|done]); lia.
Qed.

(** Operations never change the configuration. *)
Definition same_config (d d' : FlappingDetector) : Prop :=
  flapping_config d' = flapping_config d ∧ limit_config d' = limit_config d ∧
  banned_cidrs d' = banned_cidrs d ∧ allowed_cidrs d' = allowed_cidrs d ∧ start_time d' = start_time d.

Lemma same_config_now_ms d d' now : same_config d d' → now_ms now d' = now_ms now d.
Proof. unfold now_ms. by intros (_ & _ & _ & _ & ->). Qed.

Lemma same_config_allowed d d' ip : same_config d d' → is_allowed ip d' = is_allowed ip d.
Proof. unfold is_allowed. by intros (_ & -> & _ & -> & _). Qed.

(** Everything but the entries of [ip] is left alone. *)
Definition only_at (ip : IpAddr) (d d' : FlappingDetector) : Prop :=
  same_config d d' ∧
  ∀ ip', ip' ≠ ip → ip_state d' !! ip' = ip_state d !! ip' ∧ temp_bans d' !! ip' = temp_bans d !! ip'.

(** The bucket operation that [check_limits] performs. *)
Definition spend (now : Z) (ip : IpAddr) (d : FlappingDetector) : bool * IpState :=
  if lc_rate_limit (limit_config d) >? 0
  then try_consume_token (lc_rate_limit (limit_config d)) (lc_rate_burst (limit_config d))
         (now_ms now d) (entry_or_new ip now d)
  else (true, entry_or_new ip now d).

Lemma check_limits_spec now ip d :
  let '(r, d') := check_limits now ip d in
  let '(ok, s') := spend now ip d in
  only_at ip d d' ∧ ip_state d' !! ip = Some s' ∧ temp_bans d' = temp_bans d ∧ r ≠ Some Banned ∧
  (ok = false → r = Some RateLimited) ∧
  (r = None → lc_max_connections_per_ip (limit_config d) > 0 →
   connection_count s' < lc_max_connections_per_ip (limit_config d)).
Proof.
  unfold check_limits. fold (spend now ip d). destruct (spend now ip d) as [ok s'].
  assert (Ho : only_at ip d (d <| ip_state ::= <[ip := s']> |>)).
  { split; [done|]. intros ip' Hne. cbn. by rewrite lookup_insert_ne. }
  assert (Hl : ip_state (d <| ip_state ::= <[ip := s']> |>) !! ip = Some s') by apply lookup_insert_eq.
  destruct ok; cbn [negb]; [|by split_and!].
  destruct ((_ >? _) && _) eqn:E; (split_and!; [done..|]); [done|].
  intros _ Hmax. cbn in E. apply andb_false_iff in E as [E|E]; lia.
Qed.

Lemma is_temp_banned_spec ip ms d :
  let '(b, d') := is_temp_banned ip ms d in
  only_at ip d d' ∧ ip_state d' = ip_state d ∧
  b = match temp_bans d !! ip with Some expiry => ms <? expiry | None => false end ∧ (b = true → d' = d).
Proof.
  unfold is_temp_banned. destruct (temp_bans d !! ip) as [expiry|]; [|done].
  destruct (ms <? expiry); [done|]. split_and!; [|done..]. split; [done|]. intros ip' Hne. cbn.
  by rewrite lookup_delete_ne.
Qed.

Lemma entry_same now ip d d' :
  same_config d d' → ip_state d' = ip_state d → spend now ip d' = spend now ip d.
Proof.
  intros Hc Hs. unfold spend, entry_or_new. rewrite (same_config_now_ms _ _ _ Hc), Hs.
  by destruct Hc as (_ & -> & _).
Qed.

Lemma only_at_trans ip d1 d2 d3 : only_at ip d1 d2 → only_at ip d2 d3 → only_at ip d1 d3.
Proof.
  intros [H1 F1] [H2 F2]. split.
  - destruct H1 as (? & ? & ? & ? & ?), H2 as (? & ? & ? & ? & ?). unfold same_config. split_and!; congruence.
  - intros ip' Hne. destruct (F1 ip' Hne), (F2 ip' Hne). split; congruence.
Qed.

(** What [check_connection] does for an address that is not on the allow list:
    it is banned and nothing changes, or the bucket is asked. *)
Definition banned_at (now : Z) (ip : IpAddr) (d : FlappingDetector) : bool :=
  is_static_banned ip d ||
  match temp_bans d !! ip with Some expiry => now_ms now d <? expiry | None => false end.

Lemma check_connection_spec now ip d :
  is_allowed ip d = false →
  let '(r, d') := check_connection now ip d in
  if banned_at now ip d then r = Some Banned ∧ d' = d
  else
    let '(ok, s') := spend now ip d in
    only_at ip d d' ∧ ip_state d' !! ip = Some s' ∧ r ≠ Some Banned ∧ (ok = false → r = Some RateLimited) ∧
    (r = None → lc_max_connections_per_ip (limit_config d) > 0 →
     connection_count s' < lc_max_connections_per_ip (limit_config d)).
Proof.
  intros Ha. unfold check_connection, banned_at. rewrite Ha.
  destruct (is_static_banned ip d); [done|]. cbn [orb].
  pose proof (is_temp_banned_spec ip (now_ms now d) d) as H.
  destruct (is_temp_banned ip (now_ms now d) d) as [b d1]. destruct H as (Ho & Hs & <- & Hb).
  destruct b; [by rewrite Hb|]. pose proof (check_limits_spec now ip d1) as H.
  destruct (check_limits now ip d1) as [r d2].
  rewrite (entry_same now ip d d1) in H by (done || apply Ho). destruct (spend now ip d) as [ok s'].
  destruct H as (Ho2 & Hs2 & Ht & Hr & Hok & Hmax).
  replace (limit_config d1) with (limit_config d) in Hmax by (destruct Ho as [(_ & Hl & _) _]; done).
  split_and!; [by eapply only_at_trans|done..].
Qed.

Lemma attempt_only_at now ip' d : only_at ip' d (attempt now ip' d).2.
Proof.
  unfold attempt. destruct (is_allowed ip' d) eqn:Ha.
  { unfold check_connection. rewrite Ha. unfold record_connection. by rewrite Ha. }
  pose proof (check_connection_spec now ip' d Ha) as H. destruct (check_connection now ip' d) as [r d1].
  assert (Ho : only_at ip' d d1).
  { destruct (banned_at now ip' d); [by destruct H as [_ ->]|]. destruct (spend now ip' d). apply H. }
  destruct r as [r|]; [done|]. eapply only_at_trans; [done|]. unfold record_connection. cbn.
  destruct (is_allowed ip' d1); [done|]. split; [done|]. intros ip2 Hne. cbn. by rewrite lookup_insert_ne.
Qed.

(** Only the cleanup removes entries. *)
Lemma attempt_keeps_entry now ip' d : is_some (ip_state d !! ip') → is_some (ip_state (attempt now ip' d).2 !! ip').
Proof.
  unfold attempt. destruct (is_allowed ip' d) eqn:Ha.
  { unfold check_connection. rewrite Ha. unfold record_connection. by rewrite Ha. }
  intros Hs. pose proof (check_connection_spec now ip' d Ha) as H. destruct (check_connection now ip' d) as [r d1].
  assert (Hs1 : is_some (ip_state d1 !! ip')).
  { destruct (banned_at now ip' d); [by destruct H as [_ ->]|]. destruct (spend now ip' d). by destruct H as (_ & -> & _). }
  destruct r as [r|]; [done|]. unfold record_connection. cbn. destruct (is_allowed ip' d1); [done|]. cbn. by rewrite lookup_insert_eq.
Qed.

Lemma disconnection_spec now ip' d :
  only_at ip' d (record_disconnection now ip' d) ∧
  match ip_state d !! ip', ip_state (record_disconnection now ip' d) !! ip' with
  | Some s, Some s' => tokens s' = tokens s ∧ last_refill_ms s' = last_refill_ms s ∧
                       (is_allowed ip' d = false → connection_count s' = Z.max 0 (connection_count s - 1) ∨ connection_count s < 0)
  | None, None => True
  | _, _ => False
  end.
Proof.
  unfold record_disconnection. destruct (is_allowed ip' d); [split; [done|by destruct (ip_state d !! ip')]|].
  destruct (ip_state d !! ip') as [s|] eqn:Hs; [|by rewrite Hs].
  assert (Hcount : (if connection_count s =? 0 then 0 else connection_count s - 1) = Z.max 0 (connection_count s - 1)
    ∨ connection_count s < 0) by (destruct (Z.eqb_spec (connection_count s) 0); lia).
  destruct (fc_enabled (flapping_config d)).
  - unfold record_disconnect. destruct (saturating_sub _ _ >=? _).
    + split; [split; [done|]; intros ip2 Hne; cbn; by rewrite lookup_insert_ne|]. cbn. by rewrite lookup_insert_eq.
    + destruct (_ >=? fc_max_count _).
      * split; [split; [done|]; intros ip2 Hne; cbn; by rewrite !lookup_insert_ne|]. cbn. by rewrite lookup_insert_eq.
      * split; [split; [done|]; intros ip2 Hne; cbn; by rewrite lookup_insert_ne|]. cbn. by rewrite lookup_insert_eq.
  - split; [split; [done|]; intros ip2 Hne; cbn; by rewrite lookup_insert_ne|]. cbn. by rewrite lookup_insert_eq.
Qed.

Lemma disconnection_first_seen now ip' d s s' :
  ip_state d !! ip' = Some s → ip_state (record_disconnection now ip' d) !! ip' = Some s' → first_seen s' = first_seen s.
Proof.
  intros Hs. unfold record_disconnection. rewrite Hs. destruct (is_allowed ip' d); [rewrite Hs; by intros [= ->]|].
  unfold record_disconnect. repeat case_match; simplify_eq/=; rewrite lookup_insert_eq; by intros [= <-].
Qed.

(** ** Lemmas: the token bucket over a sequence of operations *)
Section bucket.
Context (d0 : FlappingDetector) (ip : IpAddr) (t0 T : Z).
Let rate := lc_rate_limit (limit_config d0).
Let burst := lc_rate_burst (limit_config d0).
Let stale := 2 * lc_cleanup_interval (limit_config d0).
Let ms (t : Z) := now_ms t d0.

Hypothesis Hrate : 0 < rate.
Hypothesis Hburst : 0 ≤ burst.
Hypothesis Hallowed : is_allowed ip d0 = false.
Hypothesis HT : as_millis (duration_since T (start_time d0)) * rate < 2 ^ 64.

Lemma ms_eq t : t ≤ T → ms t = as_millis (duration_since t (start_time d0)).
Proof.
  intros Ht. unfold ms, now_ms, wrap_u64, as_millis, duration_since in *. apply Z.mod_small.
  split; [apply Z.div_pos; lia|]. apply Z.le_lt_trans with (Z.max 0 (T - start_time d0) / 1000000).
  - apply Z.div_le_mono; lia.
  - assert (0 ≤ Z.max 0 (T - start_time d0) / 1000000) by (apply Z.div_pos; lia). nia.
Qed.

Lemma ms_mono t t' : t ≤ t' → t' ≤ T → 0 ≤ ms t ≤ ms t' ∧ ms t' * rate < 2 ^ 64.
Proof.
  intros Ht Ht'. rewrite !ms_eq by lia. unfold as_millis, duration_since in *. split_and!.
  - apply Z.div_pos; lia.
  - apply Z.div_le_mono; lia.
  - assert (Z.max 0 (t' - start_time d0) / 1000000 ≤ Z.max 0 (T - start_time d0) / 1000000)
      by (apply Z.div_le_mono; lia). nia.
Qed.

(** [adm] connections were let through by time [t], and the entry was dropped
    [n] times. *)
Definition bucket_ok (adm n t : Z) (d : FlappingDetector) : Prop :=
  same_config d0 d ∧
  match ip_state d !! ip with
  | None => 1000 * adm ≤ 1000 * burst * n + rate * (ms t - ms t0) ∧ stale * n ≤ t - t0
  | Some s => 0 ≤ tokens s ≤ burst ∧ ms t0 ≤ last_refill_ms s ≤ ms t ∧
              1000 * (adm + tokens s) ≤ 1000 * burst * (n + 1) + rate * (last_refill_ms s - ms t0) ∧
              stale * n ≤ first_seen s - t0 ∧ first_seen s ≤ t
  end.

Lemma bucket_ok_state adm n t t' d d' :
  bucket_ok adm n t d → t ≤ t' → t' ≤ T → same_config d d' →
  (match ip_state d !! ip, ip_state d' !! ip with
   | Some s, Some s' => tokens s' = tokens s ∧ last_refill_ms s' = last_refill_ms s ∧ first_seen s' = first_seen s
   | None, None => True
   | _, _ => False
   end) → bucket_ok adm n t' d'.
Proof.
  intros [Hc Hb] Ht Ht' Hc' Hs. split.
  - destruct Hc as (? & ? & ? & ? & ?), Hc' as (? & ? & ? & ? & ?). unfold same_config. split_and!; congruence.
  - pose proof (ms_mono t t' Ht Ht'). destruct (ip_state d !! ip), (ip_state d' !! ip); try done.
    + destruct Hs as (-> & -> & ->). split_and!; lia.
    + split; nia.
Qed.

Lemma bucket_attempt adm n t now d :
  bucket_ok adm n t d → t0 ≤ t → t ≤ now → now ≤ T →
  let '(r, d') := attempt now ip d in
  bucket_ok (adm + if is_none r then 1 else 0) n now d'.
Proof.
  intros Hb Ht0 Ht HnT. pose proof Hb as [Hc Hs]. unfold attempt.
  assert (Ha : is_allowed ip d = false) by (by rewrite (same_config_allowed _ _ _ Hc)).
  assert (Hlim : limit_config d = limit_config d0) by apply Hc.
  pose proof (check_connection_spec now ip d Ha) as H. destruct (check_connection now ip d) as [r d1].
  destruct (banned_at now ip d).
  { destruct H as [-> ->]. cbn. rewrite Z.add_0_r. eapply bucket_ok_state; try done. by destruct (ip_state d !! ip). }
  unfold spend in H. rewrite Hlim, (same_config_now_ms _ _ now Hc) in H. fold rate burst (ms now) in H.
  replace (rate >? 0) with true in H by lia.
  destruct (ms_mono t now) as [Hm Hov]; [done..|]. destruct (ms_mono t0 t) as [Hm0 _]; [lia..|].
  pose proof (try_consume_token_spec rate burst (ms now) (entry_or_new ip now d)) as Htok.
  destruct (try_consume_token rate burst (ms now) (entry_or_new ip now d)) as [ok s'].
  destruct H as (Ho & Hl & Hnb & Hok & _).
  assert (Hent : 0 ≤ tokens (entry_or_new ip now d) ≤ burst ∧
    ms t0 ≤ last_refill_ms (entry_or_new ip now d) ≤ ms now ∧
    1000 * (adm + tokens (entry_or_new ip now d)) ≤
      1000 * burst * (n + 1) + rate * (last_refill_ms (entry_or_new ip now d) - ms t0) ∧
    stale * n ≤ first_seen (entry_or_new ip now d) - t0 ∧ first_seen (entry_or_new ip now d) ≤ now).
  { unfold entry_or_new. destruct (ip_state d !! ip) as [s|]; cbn [from_option id default].
    - split_and!; lia.
    - rewrite Hlim, (same_config_now_ms _ _ now Hc). cbn. fold burst (ms now). split_and!; try lia. nia. }
  destruct Hent as (H1 & H2 & H3 & H4 & H5). destruct Htok as (G1 & G2 & G3 & G4 & G5); [lia|lia|lia|done|].
  assert (Hb1 : bucket_ok (adm + if is_none r then 1 else 0) n now d1).
  { split.
    - destruct Hc as (? & ? & ? & ? & ?), Ho as [(? & ? & ? & ? & ?) _]. unfold same_config. split_and!; congruence.
    - rewrite Hl, G5. split_and!; try lia.
      assert ((if is_none r then 1 else 0) ≤ if ok then 1 else 0).
      { destruct ok; [destruct (is_none r); lia|]. by rewrite Hok. }
      lia. }
  destruct r as [r|]; [exact Hb1|]. unfold record_connection.
  rewrite (same_config_allowed _ _ _ (proj1 Ho)), Ha.
  eapply bucket_ok_state; [exact Hb1|lia|done|done|]. rewrite Hl. cbn. rewrite lookup_insert_eq.
  unfold entry_or_new. by rewrite Hl.
Qed.

(** The cleanup keeps the entry, or drops one that is old enough. *)
Lemma bucket_cleanup adm n t now d :
  bucket_ok adm n t d → t0 ≤ t → t ≤ now → now ≤ T →
  bucket_ok adm (n + Z.b2z (is_some (ip_state d !! ip) && is_none (ip_state (cleanup now d) !! ip))) now (cleanup now d).
Proof.
  intros Hb Ht0 Ht HnT. assert (Hlim : limit_config d = limit_config d0) by apply Hb. pose proof Hb as [Hc Hs].
  destruct (ip_state d !! ip) as [s|] eqn:E; cbn [is_some andb].
  - destruct (ip_state (cleanup now d) !! ip) as [s'|] eqn:E'; cbn.
    + rewrite Z.add_0_r. eapply bucket_ok_state; [done..|]. rewrite E, E'.
      apply map_lookup_filter_Some in E' as [E' _]. cbn in E'. rewrite E in E'. by injection E' as ->.
    + split; [exact Hc|]. rewrite E'. apply map_lookup_filter_None in E' as [E'|E']; [cbn in E'; congruence|].
      specialize (E' s E). cbn in E'. apply not_false_is_true in E'. unfold is_stale, duration_since in E'.
      rewrite Hlim in E'. apply andb_true_iff in E' as [_ Hold]. destruct (ms_mono t now) as [? _]; [lia..|].
      destruct Hs as (? & ? & ? & ? & ?). unfold stale in *. split; [nia|]. apply Z.gtb_lt in Hold. lia.
  - rewrite Z.add_0_r. eapply bucket_ok_state; [done..|]. rewrite E.
    assert (ip_state (cleanup now d) !! ip = None) as -> by (apply map_lookup_filter_None; by left). done.
Qed.

Lemma bucket_step adm n t o d :
  bucket_ok adm n t d → t0 ≤ t → t ≤ o.1 → o.1 ≤ T →
  bucket_ok (adm + if admits ip o d then 1 else 0)
    (n + Z.b2z (is_some (ip_state d !! ip) && is_none (ip_state (run_op o.1 o.2 d).2 !! ip))) o.1 (run_op o.1 o.2 d).2.
Proof.
  destruct o as [now op]. cbn [fst snd]. intros Hb Ht0 Ht HnT. unfold admits. cbn [fst snd].
  assert (Hkeep : ∀ a d', bucket_ok a n now d' → (is_some (ip_state d !! ip) → is_some (ip_state d' !! ip)) →
    bucket_ok a (n + Z.b2z (is_some (ip_state d !! ip) && is_none (ip_state d' !! ip))) now d').
  { intros a d' Hd Hi. replace (n + _) with n; [done|]. destruct (ip_state d !! ip), (ip_state d' !! ip); cbn in *; [lia|by destruct Hi|lia..]. }
  assert (Hother : ∀ ip' d', only_at ip' d d' → ip ≠ ip' →
    bucket_ok (adm + 0) (n + Z.b2z (is_some (ip_state d !! ip) && is_none (ip_state d' !! ip))) now d').
  { intros ip' d' [Hc Ho] Hne. destruct (Ho ip Hne) as [He _]. apply Hkeep; [|by rewrite He].
    rewrite Z.add_0_r. eapply bucket_ok_state; [done..|]. rewrite He. by destruct (ip_state d !! ip). }
  assert (Hbans : ∀ bans, bucket_ok (adm + 0) (n + Z.b2z (is_some (ip_state d !! ip) &&
    is_none (ip_state (d <| temp_bans := bans |>) !! ip))) now (d <| temp_bans := bans |>)).
  { intros bans. apply Hkeep; [|done]. rewrite Z.add_0_r. eapply bucket_ok_state; [done..|]. cbn. by destruct (ip_state d !! ip). }
  destruct op as [ip'|ip'|ip' du|ip'|]; cbn [run_op snd].
  - destruct (decide (ip' = ip)) as [->|Hne].
    + rewrite bool_decide_true by done. cbn [andb].
      pose proof (bucket_attempt adm n t now d Hb Ht0 Ht HnT) as H. pose proof (attempt_keeps_entry now ip d) as Hi.
      destruct (attempt now ip d) as [r d']. by apply Hkeep.
    + rewrite bool_decide_false by done. eapply Hother; [apply attempt_only_at|done].
  - destruct (disconnection_spec now ip' d) as [Ho Hs]. destruct (decide (ip' = ip)) as [->|Hne]; [|by eapply Hother].
    pose proof (disconnection_first_seen now ip d) as Hf. apply Hkeep.
    + rewrite Z.add_0_r. eapply bucket_ok_state; [done..|apply Ho|].
      destruct (ip_state d !! ip), (ip_state (record_disconnection now ip d) !! ip); [|done..]. naive_solver.
    + by destruct (ip_state d !! ip), (ip_state (record_disconnection now ip d) !! ip).
  - apply Hbans.
  - apply Hbans.
  - rewrite Z.add_0_r. by apply (bucket_cleanup adm n t).
Qed.

Lemma bucket_run ops adm n t d :
  bucket_ok adm n t d → 0 ≤ n → t0 ≤ t → t ≤ T → Sorted Z.le (t :: ops.*1) → Forall (λ o, o.1 ≤ T) ops →
  1000 * (adm + admitted ip ops d) ≤ 1000 * burst * (1 + (n + drops ip ops d)) + rate * (ms T - ms t0) ∧
  stale * (n + drops ip ops d) ≤ T - t0.
Proof.
  revert adm n t d. induction ops as [|o ops IH]; intros adm n t d Hb Hn Ht0 HtT Hs Hf.
  - cbn [admitted drops]. destruct Hb as [_ Hb]. destruct (ms_mono t T) as [? _]; [lia..|].
    destruct (ms_mono t0 t) as [? _]; [lia..|]. rewrite !Z.add_0_r. destruct (ip_state d !! ip) as [s|]; split; nia.
  - apply Forall_cons in Hf as [HoT Hf]. cbn in Hs. apply Sorted_inv in Hs as [Hs Hle].
    apply HdRel_inv in Hle. cbn [admitted drops]. cbv zeta. rewrite !Z.add_assoc.
    match goal with |- context [Z.b2z ?b] => assert (0 ≤ Z.b2z b) by (destruct b; cbn; lia) end.
    rewrite <-(Z.add_assoc 1 n). rewrite <-(Z.add_assoc 1 (n + _)).
    eapply IH; [by apply (bucket_step adm n t)|lia|lia|done..].
Qed.
End bucket.

(** ** Lemmas: connection counts and bans *)
Lemma spend_count now ip d : connection_count (spend now ip d).2 = connection_count (entry_or_new ip now d).
Proof.
  unfold spend. destruct (_ >? _); [|done]. unfold try_consume_token.
  destruct (_ && _); cbn; by destruct (_ =? _).
Qed.

Definition counts_ok (d : FlappingDetector) : Prop :=
  map_Forall (λ _ s, 0 ≤ connection_count s ≤ lc_max_connections_per_ip (limit_config d)) (ip_state d).

Lemma counts_ok_at ip d d' :
  counts_ok d → only_at ip d d' →
  (∀ s, ip_state d' !! ip = Some s → 0 ≤ connection_count s ≤ lc_max_connections_per_ip (limit_config d)) →
  counts_ok d'.
Proof.
  intros Hd [(_ & Hl & _) Ho] Hs ip' s Hip. rewrite Hl. destruct (decide (ip' = ip)) as [->|Hne]; [by apply Hs|].
  destruct (Ho ip' Hne) as [He _]. rewrite He in Hip. by apply (Hd ip').
Qed.

Lemma entry_count now ip d :
  counts_ok d → 0 ≤ lc_max_connections_per_ip (limit_config d) →
  0 ≤ connection_count (entry_or_new ip now d) ≤ lc_max_connections_per_ip (limit_config d).
Proof.
  intros Hd Hm. unfold entry_or_new. destruct (ip_state d !! ip) as [s|] eqn:E; [|cbn; lia]. by apply (Hd ip).
Qed.

Lemma attempt_counts now ip d :
  0 < lc_max_connections_per_ip (limit_config d) < 2 ^ 32 → counts_ok d → counts_ok (attempt now ip d).2.
Proof.
  intros Hm Hd. eapply counts_ok_at; [done|apply attempt_only_at|]. unfold attempt.
  destruct (is_allowed ip d) eqn:Ha.
  { unfold check_connection. rewrite Ha. unfold record_connection. rewrite Ha. apply Hd. }
  pose proof (check_connection_spec now ip d Ha) as H. destruct (check_connection now ip d) as [r d1].
  destruct (banned_at now ip d); [destruct H as [-> ->]; apply Hd|].
  pose proof (spend_count now ip d) as Hc. pose proof (entry_count now ip d Hd).
  destruct (spend now ip d) as [ok s']. cbn in Hc. destruct H as (Ho & Hl & _ & _ & Hmax).
  destruct r as [r|]; cbn.
  - intros s. rewrite Hl. intros [= <-]. lia.
  - unfold record_connection. rewrite (same_config_allowed _ _ _ (proj1 Ho)), Ha. cbn.
    rewrite lookup_insert_eq. intros s [= <-]. cbn. unfold entry_or_new. rewrite Hl. cbn.
    assert (connection_count s' < lc_max_connections_per_ip (limit_config d)) by (apply Hmax; [done|lia]).
    unfold wrap_u32. rewrite Z.mod_small by lia. lia.
Qed.

Lemma cleanup_counts now d : counts_ok d → counts_ok (cleanup now d).
Proof. intros Hd ip s [Hs _]%map_lookup_filter_Some. by apply (Hd ip). Qed.

Lemma run_op_counts now op d :
  0 < lc_max_connections_per_ip (limit_config d) < 2 ^ 32 → counts_ok d →
  counts_ok (run_op now op d).2 ∧ limit_config (run_op now op d).2 = limit_config d.
Proof.
  intros Hm Hd. destruct op as [ip|ip|ip du|ip|]; cbn [run_op snd]; [..|done|done|].
  - split; [by apply attempt_counts|]. apply attempt_only_at.
  - destruct (disconnection_spec now ip d) as [Ho Hs]. split; [|apply Ho].
    eapply counts_ok_at; [done|apply Ho|]. intros s' Hs'. rewrite Hs' in Hs.
    destruct (ip_state d !! ip) as [s|] eqn:E; [|done]. destruct Hs as (_ & _ & Hs).
    pose proof (Hd ip s E) as Hr. cbn in Hr. destruct (is_allowed ip d) eqn:Ha.
    + unfold record_disconnection in Hs'. rewrite Ha, E in Hs'. by injection Hs' as <-.
    + destruct (Hs eq_refl) as [->|]; lia.
  - by split; [apply cleanup_counts|].
Qed.

(** Operations that end or replace a ban of [ip]. *)
Definition keeps_ban (ip : IpAddr) (op : detector_op) : Prop :=
  match op with
  | OpDisconnect ip' | OpBan ip' _ | OpUnban ip' => ip' ≠ ip
  | OpAttempt _ | OpCleanup => True
  end.

Lemma banned_step ip o d expiry :
  is_allowed ip d = false → temp_bans d !! ip = Some expiry → now_ms o.1 d < expiry → keeps_ban ip o.2 →
  admits ip o d = false ∧ temp_bans (run_op o.1 o.2 d).2 !! ip = Some expiry ∧ same_config d (run_op o.1 o.2 d).2.
Proof.
  intros Ha Hb Hn Hk. destruct o as [now op]. unfold admits. cbn [fst snd] in *.
  assert (Hat : attempt now ip d = (Some Banned, d)).
  { unfold attempt. pose proof (check_connection_spec now ip d Ha) as H. destruct (check_connection now ip d) as [r d1].
    unfold banned_at in H. rewrite Hb in H. rewrite (proj2 (Z.ltb_lt _ _) Hn), orb_true_r in H. by destruct H as [-> ->]. }
  destruct op as [ip'|ip'|ip' du|ip'|]; cbn [run_op snd keeps_ban] in *.
  - destruct (decide (ip' = ip)) as [->|Hne].
    + rewrite Hat. cbn. by rewrite andb_false_r.
    + rewrite bool_decide_false by done. destruct (attempt_only_at now ip' d) as [Hc Ho].
      split_and!; [done| |done]. by destruct (Ho ip (not_eq_sym Hne)) as [_ ->].
  - destruct (disconnection_spec now ip' d) as [[Hc Ho] _]. split_and!; [done| |done].
    by destruct (Ho ip (not_eq_sym Hk)) as [_ ->].
  - split_and!; [done| |done]. cbn. by rewrite lookup_insert_ne.
  - split_and!; [done| |done]. cbn. by rewrite lookup_delete_ne.
  - split_and!; [done| |done]. cbn. by apply map_lookup_filter_Some.
Qed.

Lemma banned_run ip ops d expiry :
  is_allowed ip d = false → temp_bans d !! ip = Some expiry →
  Forall (λ o, now_ms o.1 d < expiry ∧ keeps_ban ip o.2) ops → admitted ip ops d = 0.
Proof.
  revert d. induction ops as [|o ops IH]; intros d Ha Hb Hf; [done|].
  apply Forall_cons in Hf as [[Hn Hk] Hf]. cbn [admitted].
  destruct (banned_step ip o d expiry Ha Hb Hn Hk) as (-> & Hb' & Hc).
  rewrite IH; [done|by rewrite (same_config_allowed _ _ _ Hc)|done|].
  eapply Forall_impl; [done|]. intros o'. by rewrite (same_config_now_ms _ _ _ Hc).
Qed.
End detector.

(** ** Theorems *)

(** C37. The rate limit holds: from the moment an address is first seen, the
    connections it gets through number at most the burst plus the rate times the
    elapsed time, whatever else happens in between (disconnections, bans,
    other addresses), and one burst more for each time the cleanup drops its
    entry. That happens to an address without connections when its entry is
    older than twice the cleanup interval, so as often as this time has passed
    at most. The address is not on the allow list, and the clock in milliseconds
    times the rate fits 64 bits. *)
Theorem rate_limit_bound {IpNet} (contains : IpNet → IpAddr → bool) (d : FlappingDetector) ip ops t0 T :
  is_allowed contains ip d = false → ip_state d !! ip = None →
  0 < lc_rate_limit (limit_config d) → 0 ≤ lc_rate_burst (limit_config d) →
  t0 ≤ T → Sorted Z.le (t0 :: ops.*1) → Forall (λ o, o.1 ≤ T) ops →
  as_millis (duration_since T (start_time d)) * lc_rate_limit (limit_config d) < 2 ^ 64 →
  1000 * admitted contains ip ops d ≤
    1000 * lc_rate_burst (limit_config d) * (1 + drops contains ip ops d) +
    lc_rate_limit (limit_config d) * (now_ms T d - now_ms t0 d) ∧
  2 * lc_cleanup_interval (limit_config d) * drops contains ip ops d ≤ T - t0.
Proof.
  intros Ha Hn Hr Hb HtT Hs Hf HT.
  apply (bucket_run contains d ip t0 T Hr Hb Ha HT ops 0 0 t0 d); [|lia..|done|done].
  split; [done|]. rewrite Hn. split; lia.
Qed.

Definition no_nets (_ : string) : option unit := None.
Definition no_member (_ : unit) (_ : IpAddr) : bool := false.

Definition example_detector : FlappingDetector :=
  FlappingDetector_new no_nets 0 (MkFlappingConfig true 2 (from_secs 60) (from_secs 300))
    (MkLimitConfig 1 5 2 [] [] [] [] (from_secs 60)).

Definition example_ops : list (Z * detector_op) :=
  [(0, OpAttempt (V4 1)); (1000000, OpDisconnect (V4 1)); (2000000, OpAttempt (V4 1)); (3000000, OpAttempt (V4 1))].

Lemma rate_limit_bound_witness :
  admitted no_member (V4 1) example_ops example_detector = 2 ∧
  1000 * admitted no_member (V4 1) example_ops example_detector ≤
    1000 * lc_rate_burst (limit_config example_detector) * (1 + drops no_member (V4 1) example_ops example_detector) +
    lc_rate_limit (limit_config example_detector) *
      (now_ms (from_secs 1) example_detector - now_ms 0 example_detector).
Proof.
  split; [vm_compute; reflexivity|].
  apply (rate_limit_bound no_member example_detector (V4 1) example_ops 0 (from_secs 1));
    [vm_compute; reflexivity|vm_compute; reflexivity|vm_compute; reflexivity|vm_compute; discriminate
    |vm_compute; discriminate| | |vm_compute; reflexivity].
  - repeat constructor; vm_compute; discriminate.
  - repeat constructor; vm_compute; discriminate.
Defined.

(** The age of an entry is counted from when the address was first seen, not from
    its last connection: an address that has just spent its burst of three gets
    another one from the cleanup. *)
Example cleanup_refills :
  let visit t := [(from_secs t, OpAttempt (V4 1)); (from_secs t, OpDisconnect (V4 1))] in
  let before := visit 0 ++ visit 120 ++ visit 120 ++ visit 120 in
  let after := visit 121 ++ visit 121 ++ visit 121 in
  let d := FlappingDetector_new no_nets 0 FlappingConfig_default (MkLimitConfig 0 1 3 [] [] [] [] (from_secs 60)) in
  admitted no_member (V4 1) (before ++ after) d = 5 ∧
  admitted no_member (V4 1) (before ++ (from_secs 121, OpCleanup) :: after) d = 7.
Proof. vm_compute. done. Qed.

(** The connection limit holds: with a limit per address, after any sequence
    of operations the recorded number of connections of every address is
    between zero and the limit. *)
Theorem connection_limit {IpNet} (parse : string → option IpNet) contains now fc lc ops :
  0 < lc_max_connections_per_ip lc < 2 ^ 32 →
  map_Forall (λ _ s, 0 ≤ connection_count s ≤ lc_max_connections_per_ip lc)
    (ip_state (run_ops contains ops (FlappingDetector_new parse now fc lc))).
Proof.
  intros Hm. assert (H : ∀ d, limit_config d = lc → counts_ok d →
    counts_ok (run_ops contains ops d) ∧ limit_config (run_ops contains ops d) = lc).
  { induction ops as [|o ops IH]; intros d Hl Hd; [done|]. cbn.
    destruct (run_op_counts contains o.1 o.2 d) as [? ?]; [by rewrite Hl|done|]. apply IH; [congruence|done]. }
  destruct (H (FlappingDetector_new parse now fc lc)) as [Hc Hl]; [done|apply map_Forall_empty|].
  unfold counts_ok in Hc. by rewrite Hl in Hc.
Qed.

Lemma connection_limit_witness :
  map_Forall (λ _ s, 0 ≤ connection_count s ≤ 1) (ip_state (run_ops no_member example_ops example_detector)).
Proof.
  apply (connection_limit no_nets no_member 0 (MkFlappingConfig true 2 (from_secs 60) (from_secs 300))
    (MkLimitConfig 1 5 2 [] [] [] [] (from_secs 60)) example_ops). vm_compute. split; reflexivity.
Defined.

(** Flapping is punished: the disconnection that brings an address to
    [max_count] within one window bans it, and from then until the ban expires
    none of its attempts gets through, whatever happens in between, unless the
    ban is lifted or replaced. *)
Theorem flapping_banned {IpNet} (contains : IpNet → IpAddr → bool) d ip s now ops :
  is_allowed contains ip d = false → ip_state d !! ip = Some s → fc_enabled (flapping_config d) = true →
  saturating_sub (now_ms now d) (window_start_ms s) < wrap_u64 (as_millis (fc_window_time (flapping_config d))) →
  fc_max_count (flapping_config d) ≤ wrap_u32 (disconnect_count s + 1) →
  let expiry := wrap_u64 (now_ms now d + wrap_u64 (as_millis (fc_ban_time (flapping_config d)))) in
  Forall (λ o, now_ms o.1 d < expiry ∧ keeps_ban ip o.2) ops →
  admitted contains ip ops (record_disconnection contains now ip d) = 0.
Proof.
  intros Ha Hs He Hw Hc expiry Hf. destruct (disconnection_spec contains now ip d) as [[Hconf _] _].
  apply banned_run with expiry.
  - by rewrite (same_config_allowed contains _ _ _ Hconf).
  - unfold record_disconnection. rewrite Ha, Hs, He. unfold record_disconnect. cbn.
    replace (saturating_sub _ _ >=? _) with false by lia. cbn.
    replace (_ >=? _) with true by lia. cbn. by rewrite lookup_insert_eq.
  - eapply Forall_impl; [done|]. intros o. by rewrite (same_config_now_ms _ _ _ Hconf).
Qed.

Lemma flapping_banned_witness :
  let d := run_ops no_member [(0, OpAttempt (V4 1)); (1000000, OpDisconnect (V4 1)); (2000000, OpAttempt (V4 1))]
             example_detector in
  admitted no_member (V4 1) [(from_secs 2, OpAttempt (V4 1)); (from_secs 200, OpCleanup); (from_secs 299, OpAttempt (V4 1))]
    (record_disconnection no_member 3000000 (V4 1) d) = 0.
Proof.
  apply (flapping_banned no_member _ (V4 1) (MkIpState 1 0 0 1 0 0) 3000000);
    [vm_compute; reflexivity|vm_compute; reflexivity|reflexivity|vm_compute; reflexivity|vm_compute; discriminate|].
  repeat constructor; vm_compute; try reflexivity; discriminate.
Defined.
