(* ===== verification/Proxy.v ===== *)
(** * The PROXY protocol

    [proxy/parser.rs] and [config/proxy.rs]: a listener behind a load balancer
    first reads the header that names the client. The crate ppp, which parses
    the header once it is complete, is a parameter: what it returns for a
    version 1 or a version 2 header. The socket is given by the bytes that
    arrive, how many of them each read returns, and what comes after them. *)

From S2P Require Import Prelude Protocol Remote Flapping.

(** ** Configuration *)
Record ProxyProtocolConfig : Type := MkProxyConfig {
  pp_enabled : bool;
  pp_tls_termination : bool;
  pp_timeout : Z;
}.

Definition ProxyProtocolConfig_default : ProxyProtocolConfig := MkProxyConfig false false (from_secs 5).

(** ** Data *)
Definition PROXY_V1_SIGNATURE : list byte := [x50; x52; x4f; x58; x59; x20].
Definition PROXY_V2_SIGNATURE : list byte := [x0d; x0a; x0d; x0a; x00; x0d; x0a; x51; x55; x49; x54; x0a].
Definition CRLF : list byte := [x0d; x0a].
Definition MAX_HEADER_SIZE : Z := 536.

(** [std::net::SocketAddr]; the placeholder address is 0.0.0.0:0. *)
Record SocketAddr : Type := MkSocketAddr {
  sa_ip : IpAddr;
  sa_port : Z;
}.

Definition UNSPECIFIED : SocketAddr := MkSocketAddr (V4 0) 0.

Record ProxyTlsInfo : Type := MkProxyTls {
  sni : option string;
  client_cert_cn : option string;
  client_cert_verified : bool;
}.

Inductive ProxyVersion : Type := ProxyV1 | ProxyV2.

Record ProxyInfo : Type := MkProxyInfo {
  client_addr : SocketAddr;
  server_addr : option SocketAddr;
  tls_info : option ProxyTlsInfo;
  proxy_version : ProxyVersion;
}.

Inductive ProxyError : Type :=
  | ProxyTimeout
  | InvalidHeader (msg : string)
  | ProxyIo
  | ConnectionClosed
  | NotProxyProtocol.

(** What ppp returns: the addresses, with source and destination, and the
    type-length-value fields of a version 2 header ([None] for one that does
    not parse). *)
Inductive Addresses : Type :=
  | Inet (source destination : SocketAddr)
  | NoInet.

Record tlv : Type := MkTlv {
  tlv_kind : Z;
  tlv_value : list byte;
}.

(** ** The socket *)
Inductive stream_end : Type := StreamEof | StreamError | StreamBlocked.

Record Sock : Type := MkSock {
  sk_bytes : list byte;
  sk_sizes : list Z;
  sk_end : stream_end;
}.

#[global] Instance Sock_eta : Eta Sock := fun s => MkSock (sk_bytes s) (sk_sizes s) (sk_end s).

#[local] Abbreviation ptask := (task ProxyError Sock).

(** [stream.read(&mut buf)] for a buffer of [max] bytes, with its error as
    [ProxyError::Io]. A read that would wait for ever runs into the timeout
    around the whole header. *)
Definition read (max : Z) : ptask (list byte) := fun s =>
  match sk_bytes s with
  | [] =>
      (match sk_end s with StreamEof => Ok [] | StreamError => Err ProxyIo | StreamBlocked => Err ProxyTimeout end, s)
  | bytes =>
      let k := Z.to_nat (Z.min (Z.max 1 (default 1 (head (sk_sizes s)))) max) in
      (Ok (take k bytes), s <| sk_bytes := drop k bytes |> <| sk_sizes ::= tail |>)
  end.

(** [buf.windows(2).position(|w| w == CRLF)] *)
Fixpoint find_crlf (buf : list byte) : option nat :=
  match buf with
  | a :: (b :: _) as rest =>
      if decide ([a; b] = CRLF) then Some O else S <$> find_crlf rest
  | _ => None
  end.

(** The loops that fill the buffer up to [n] bytes. *)
Fixpoint fill (fuel : nat) (n : Z) (buf : list byte) : ptask (list byte) :=
  match fuel with
  | O => lift NoFuel
  | S fuel =>
      if zlen buf <? n then
        data ← read (n - zlen buf);
        if is_nil data then throw ConnectionClosed else fill fuel n (buf ++ data)
      else mret buf
  end.

(** The loop of version 1, a byte at a time. *)
Fixpoint read_line (fuel : nat) (buf : list byte) : ptask (list byte) :=
  match fuel with
  | O => lift NoFuel
  | S fuel =>
      if is_some (find_crlf buf) then mret buf
      else if zlen buf >=? 107 then throw (InvalidHeader "v1 header too long")
      else
        data ← read 1;
        if is_nil data then throw ConnectionClosed else read_line fuel (buf ++ data)
  end.

Definition starts_with_bytes (sig buf : list byte) : bool := bool_decide (take (length sig) buf = sig).

(** [u16::from_be_bytes([buf[14], buf[15]])], out of range a panic. *)
Definition header_length (buf : list byte) : outcome ProxyError Z :=
  match buf !! 14%nat, buf !! 15%nat with
  | Some a, Some b => Ok (u16_from_be (u8 a) (u8 b))
  | _, _ => Panic
  end.

Definition read_until_header_complete : ptask (list byte) :=
  buf ← fill 17 16 [];
  if starts_with_bytes PROXY_V2_SIGNATURE buf then
    header_len ← lift (header_length buf);
    let total_len := 16 + header_len in
    if total_len >? MAX_HEADER_SIZE then throw (InvalidHeader "v2 header too large")
    else fill (S (Z.to_nat total_len)) total_len buf
  else if starts_with_bytes PROXY_V1_SIGNATURE buf then read_line 108 buf
  else throw NotProxyProtocol.

(** ** Version 2 TLS information *)
Fixpoint sub_tlvs (fuel : nat) (value : list byte) (cn : option string) : outcome ProxyError (option string) :=
  match fuel with
  | O => NoFuel
  | S fuel =>
      match value with
      | t :: a :: b :: value =>
          let sub_len := Z.to_nat (u16_from_be (u8 a) (u8 b)) in
          if (length value <? sub_len)%nat then Ok cn
          else
            let cn :=
              if u8 t =? 0x02 then
                match from_utf8 (take sub_len value) with Some s => Some s | None => cn end
              else cn in
            sub_tlvs fuel (drop sub_len value) cn
      | _ => Ok cn
      end
  end.

(** [None] for a value that is too short. The result of the verification, bytes
    1 to 4, is read and not used. *)
Definition parse_ssl_tlv (value : list byte) : outcome ProxyError (option (option string * bool)) :=
  match value with
  | client_flags :: _ :: _ :: _ :: _ :: subs =>
      let client_verified := negb (Z.land (u8 client_flags) 0x04 =? 0) in
      cn ← sub_tlvs (S (length subs)) subs None;
      Ok (Some (cn, client_verified))
  | _ => Ok None
  end.

Definition tls_step (acc : ProxyTlsInfo) (t : option tlv) : outcome ProxyError ProxyTlsInfo :=
  match t with
  | None => Ok acc
  | Some t =>
      if tlv_kind t =? 0x02 then
        Ok (match from_utf8 (tlv_value t) with
            | Some s => MkProxyTls (Some s) (client_cert_cn acc) (client_cert_verified acc)
            | None => acc
            end)
      else if tlv_kind t =? 0x20 then
        info ← parse_ssl_tlv (tlv_value t);
        Ok (match info with
            | Some (cn, verified) => MkProxyTls (sni acc) cn verified
            | None => acc
            end)
      else if tlv_kind t =? 0x22 then
        Ok (match from_utf8 (tlv_value t) with
            | Some s => MkProxyTls (sni acc) (Some s) (client_cert_verified acc)
            | None => acc
            end)
      else Ok acc
  end.

Fixpoint tls_loop (tlvs : list (option tlv)) (acc : ProxyTlsInfo) : outcome ProxyError ProxyTlsInfo :=
  match tlvs with
  | [] => Ok acc
  | t :: tlvs => acc ← tls_step acc t; tls_loop tlvs acc
  end.

Definition extract_tls_info (tlvs : list (option tlv)) : outcome ProxyError (option ProxyTlsInfo) :=
  info ← tls_loop tlvs (MkProxyTls None None false);
  Ok (if is_some (sni info) || is_some (client_cert_cn info) || client_cert_verified info then Some info else None).

(** ** The parser *)
Section parser.
Context (ppp_v1 : list byte → option Addresses) (ppp_v2 : list byte → option (Addresses * list (option tlv))).

Definition addresses (a : Addresses) : SocketAddr * option SocketAddr :=
  match a with
  | Inet source destination => (source, Some destination)
  | NoInet => (UNSPECIFIED, None)
  end.

Definition parse_v1_header (buf : list byte) : outcome ProxyError (ProxyInfo * list byte) :=
  i ← ok_or (find_crlf buf) (InvalidHeader "no CRLF found");
  let header_end := (i + 2)%nat in
  a ← ok_or (ppp_v1 (take header_end buf)) (InvalidHeader "v1 parse error");
  let '(client, server) := addresses a in
  Ok (MkProxyInfo client server None ProxyV1, drop header_end buf).

Definition parse_v2_header (buf : list byte) (parse_tls_info : bool) : outcome ProxyError (ProxyInfo * list byte) :=
  h ← ok_or (ppp_v2 buf) (InvalidHeader "v2 parse error");
  let '(a, tlvs) := h in
  let '(client, server) := addresses a in
  tls ← (if parse_tls_info then extract_tls_info tlvs else Ok None);
  header_len ← header_length buf;
  let total := 16 + header_len in
  if total <=? zlen buf then Ok (MkProxyInfo client server tls ProxyV2, drop (Z.to_nat total) buf) else Panic.

Definition parse_proxy_header (parse_tls_info : bool) : ptask (ProxyInfo * list byte) :=
  buf ← read_until_header_complete;
  if (12 <=? zlen buf) && starts_with_bytes PROXY_V2_SIGNATURE buf then lift (parse_v2_header buf parse_tls_info)
  else if (6 <=? zlen buf) && starts_with_bytes PROXY_V1_SIGNATURE buf then lift (parse_v1_header buf)
  else throw NotProxyProtocol.
End parser.

(** ** Lemmas: reading *)

(** A read returns at least a byte while there are bytes. *)
Lemma read_bytes max s :
  0 < max → sk_bytes s ≠ [] →
  ∃ k sizes, (1 ≤ k)%nat ∧ Z.of_nat k ≤ max ∧
    read max s = (Ok (take k (sk_bytes s)), MkSock (drop k (sk_bytes s)) sizes (sk_end s)).
Proof.
  intros Hm Hb. unfold read. destruct (sk_bytes s) as [|b bytes] eqn:Hs; [done|].
  eexists (Z.to_nat (Z.min _ max)), _. split_and!; [| |reflexivity]; lia.
Qed.

Lemma fill_spec fuel n buf s :
  let k := Z.to_nat (n - zlen buf) in
  (k < fuel)%nat → (k ≤ length (sk_bytes s))%nat →
  ∃ sizes, fill fuel n buf s = (Ok (buf ++ take k (sk_bytes s)), MkSock (drop k (sk_bytes s)) sizes (sk_end s)).
Proof.
  cbv zeta. revert buf s. induction fuel as [|fuel IH]; intros buf s Hf Hk; [lia|]. cbn [fill].
  destruct (Z.ltb_spec (zlen buf) n) as [Hlt|Hge].
  - assert (Hne : sk_bytes s ≠ []) by (intros Hn; rewrite Hn in Hk; cbn in Hk; lia).
    destruct (read_bytes (n - zlen buf) s) as (k & sizes & Hk1 & Hk2 & Hr); [lia|done|]. unfold mbind, task_bind. rewrite Hr.
    assert (Hl : length (take k (sk_bytes s)) = k) by (rewrite length_take; lia).
    assert (is_nil (take k (sk_bytes s)) = false) as -> by (destruct k; [lia|]; by destruct (sk_bytes s)).
    assert (Hz : zlen (buf ++ take k (sk_bytes s)) = zlen buf + Z.of_nat k) by (rewrite zlen_app; unfold zlen at 2; by rewrite Hl).
    destruct (IH (buf ++ take k (sk_bytes s)) (MkSock (drop k (sk_bytes s)) sizes (sk_end s))) as (sizes' & ->);
      rewrite ?Hz; cbn [sk_bytes sk_end]; [lia|rewrite length_drop; lia|].
    exists sizes'. rewrite <-app_assoc, drop_drop. set (j := Z.to_nat (n - (zlen buf + Z.of_nat k))).
    replace (Z.to_nat (n - zlen buf)) with (k + j)%nat by lia. by rewrite <-take_take_drop.
  - replace (Z.to_nat (n - zlen buf)) with 0%nat by lia. exists (sk_sizes s). rewrite app_nil_r, drop_0. by destruct s.
Qed.

(** *** The end of a line *)
Lemma find_crlf_cons a b l : find_crlf (a :: b :: l) = if decide ([a; b] = CRLF) then Some O else S <$> find_crlf (b :: l).
Proof. done. Qed.

Lemma find_crlf_bound buf i : find_crlf buf = Some i → (i + 2 ≤ length buf)%nat.
Proof.
  revert i. induction buf as [|a buf IH]; intros i; [done|]. destruct buf as [|b buf]; [done|]. rewrite find_crlf_cons.
  destruct (decide _); [intros [= <-]; cbn; lia|]. intros (j & Hj & ->)%fmap_Some. apply IH in Hj. cbn in *. lia.
Qed.

Lemma find_crlf_app p q i : find_crlf p = Some i → find_crlf (p ++ q) = Some i.
Proof.
  revert i. induction p as [|a p IH]; intros i; [done|]. destruct p as [|b p]; [done|]. cbn [app]. rewrite !find_crlf_cons.
  destruct (decide _); [done|]. intros (j & Hj & ->)%fmap_Some. by rewrite (IH j Hj : find_crlf (b :: p ++ q) = _).
Qed.

Lemma find_crlf_prefix p q i : find_crlf (p ++ q) = Some i → (length p < i + 2)%nat → find_crlf p = None.
Proof.
  intros Hi Hl. destruct (find_crlf p) as [j|] eqn:Hj; [|done]. pose proof (find_crlf_bound _ _ Hj).
  apply (find_crlf_app p q) in Hj. rewrite Hi in Hj. injection Hj as ->. lia.
Qed.

(** A version 1 header: the first line break is its end. *)
Definition one_line (h : list byte) : Prop := find_crlf h = Some (length h - 2)%nat ∧ (2 ≤ length h)%nat.

Lemma read_line_spec fuel buf l rest s :
  one_line (buf ++ l) → zlen (buf ++ l) ≤ 107 → sk_bytes s = l ++ rest → (length l < fuel)%nat →
  ∃ sizes, read_line fuel buf s = (Ok (buf ++ l), MkSock rest sizes (sk_end s)).
Proof.
  revert buf l s. induction fuel as [|fuel IH]; intros buf l s [Hc H2] H107 Hs Hf; [lia|]. cbn [read_line].
  destruct l as [|b l].
  - rewrite app_nil_r in *. rewrite Hc. cbn. exists (sk_sizes s). destruct s. cbn in *. by subst.
  - assert (Hn : find_crlf buf = None).
    { apply (find_crlf_prefix buf (b :: l) _ Hc). rewrite length_app in *. cbn [length] in *. lia. }
    rewrite Hn. cbn [is_some]. unfold zlen in *. rewrite length_app in H107. cbn [length] in H107.
    destruct (Z.geb_spec (Z.of_nat (length buf)) 107); [lia|]. unfold mbind, task_bind.
    destruct (read_bytes 1 s) as (k & sizes & Hk1 & Hk2 & Hr); [lia|by rewrite Hs|]. assert (k = 1%nat) as -> by lia.
    rewrite Hr, Hs. cbn [take drop firstn skipn app is_nil].
    destruct (IH (buf ++ [b]) l (MkSock (l ++ rest) sizes (sk_end s))) as (sizes' & Hl); rewrite <-?app_assoc; cbn [app]; [done| |done|cbn in Hf; lia|].
    + rewrite length_app. cbn [length]. lia.
    + exists sizes'. rewrite drop_0. by rewrite <-app_assoc in Hl.
Qed.

Section properties.
Context (ppp_v1 : list byte → option Addresses) (ppp_v2 : list byte → option (Addresses * list (option tlv))).

(** The headers of the two versions, as far as this code looks at them, and the
    addresses in them. *)
Definition v1_header (h : list byte) (a : Addresses) : Prop :=
  (∃ l, h = PROXY_V1_SIGNATURE ++ l) ∧ one_line h ∧ zlen h ≤ 107 ∧ ppp_v1 h = Some a.

Definition v2_header (h : list byte) (a : Addresses) : Prop :=
  ∃ command family hi lo body tlvs,
    h = PROXY_V2_SIGNATURE ++ [command; family; hi; lo] ++ body ∧
    zlen body = u16_from_be (u8 hi) (u8 lo) ∧ ppp_v2 h = Some (a, tlvs).

Lemma fill_16 s :
  (16 ≤ length (sk_bytes s))%nat →
  ∃ sizes, fill 17 16 [] s = (Ok (take 16 (sk_bytes s)), MkSock (drop 16 (sk_bytes s)) sizes (sk_end s)).
Proof.
  intros Hl. pose proof (fill_spec 17 16 [] s) as H. change (Z.to_nat (16 - zlen [])) with 16%nat in H. apply H; [lia|done].
Qed.

(** The two signatures are told apart by their first byte. *)
Lemma v1_signature l :
  starts_with_bytes PROXY_V1_SIGNATURE (PROXY_V1_SIGNATURE ++ l) = true ∧
  starts_with_bytes PROXY_V2_SIGNATURE (PROXY_V1_SIGNATURE ++ l) = false.
Proof. split; [by apply bool_decide_eq_true|by apply bool_decide_eq_false]. Qed.

Lemma take_16_v1 l : take 16 (PROXY_V1_SIGNATURE ++ l) = PROXY_V1_SIGNATURE ++ take 10 l.
Proof. done. Qed.

(** Reading a version 1 header takes 16 bytes at least. *)
Lemma read_v1 h a rest s :
  v1_header h a → sk_bytes s = h ++ rest → (16 ≤ length (h ++ rest))%nat →
  ∃ sizes, read_until_header_complete s =
    (Ok (h ++ take (16 - length h) rest), MkSock (drop (16 - length h) rest) sizes (sk_end s)).
Proof.
  intros ([l ->] & Hone & H107 & Hp) Hs H16. unfold read_until_header_complete, mbind, task_bind.
  destruct (fill_16 s) as (sizes & ->); [by rewrite Hs|]. rewrite Hs.
  assert (E : (PROXY_V1_SIGNATURE ++ l) ++ rest = PROXY_V1_SIGNATURE ++ l ++ rest) by (by rewrite app_assoc).
  rewrite E, take_16_v1. destruct (v1_signature (take 10 (l ++ rest))) as [-> ->]. rewrite <-take_16_v1, <-E. clear E.
  set (h := PROXY_V1_SIGNATURE ++ l) in *. destruct (decide (16 ≤ length h)%nat) as [Hlen|Hlen].
  - replace (16 - length h)%nat with 0%nat by lia. rewrite take_app_le, drop_app_le by done. cbn [take]. rewrite app_nil_r, drop_0.
    destruct (read_line_spec 108 (take 16 h) (drop 16 h) rest (MkSock (drop 16 h ++ rest) sizes (sk_end s))) as (sizes' & Hr);
      rewrite ?take_drop; [done|done|done|rewrite length_drop; unfold zlen in H107; lia|].
    rewrite take_drop in Hr. by exists sizes'.
  - rewrite take_app_ge, drop_app_ge by lia. exists sizes. cbn [read_line].
    destruct Hone as [Hone H2]. by rewrite (find_crlf_app h _ _ Hone).
Qed.

Lemma parse_v1 h a rest s tls :
  v1_header h a → sk_bytes s = h ++ rest → (16 ≤ length (h ++ rest))%nat →
  ∃ sizes, parse_proxy_header ppp_v1 ppp_v2 tls s =
    (Ok (MkProxyInfo (addresses a).1 (addresses a).2 None ProxyV1, take (16 - length h) rest),
     MkSock (drop (16 - length h) rest) sizes (sk_end s)).
Proof.
  intros Hh Hs H16. destruct (read_v1 h a rest s Hh Hs H16) as (sizes & Hr). exists sizes.
  unfold parse_proxy_header, mbind, task_bind. rewrite Hr. destruct Hh as ([l Hl] & [Hone H2] & _ & Hp).
  set (q := take (16 - length h) rest).
  assert (starts_with_bytes PROXY_V1_SIGNATURE (h ++ q) = true ∧ starts_with_bytes PROXY_V2_SIGNATURE (h ++ q) = false) as [-> ->].
  { rewrite Hl, <-app_assoc. apply v1_signature. }
  rewrite andb_false_r, (proj2 (Z.leb_le 6 _)) by (rewrite Hl, !zlen_app; change (zlen PROXY_V1_SIGNATURE) with 6; llia).
  cbn [andb]. unfold parse_v1_header, lift. rewrite (find_crlf_app h q _ Hone). cbn [ok_or mbind outcome_bind].
  replace (length h - 2 + 2)%nat with (length h) by lia. rewrite take_app_length, drop_app_length, Hp. cbn.
  by destruct (addresses a).
Qed.

(** The loop over the sub-fields ends: each takes three bytes at least. *)
Lemma sub_tlvs_total fuel value cn : (length value < fuel)%nat → ∃ cn', sub_tlvs fuel value cn = Ok cn'.
Proof.
  revert value cn. induction fuel as [|fuel IH]; intros value cn Hl; [lia|].
  destruct value as [|t [|a [|b value]]]; cbn [sub_tlvs]; [by eexists..|].
  destruct (Nat.ltb _ _); [by eexists|]. apply IH. rewrite length_drop. cbn in Hl. lia.
Qed.

Lemma parse_ssl_tlv_total value : ∃ r, parse_ssl_tlv value = Ok r.
Proof.
  destruct value as [|f [|a [|b [|c [|d subs]]]]]; cbn [parse_ssl_tlv]; [by eexists..|].
  destruct (sub_tlvs_total (S (length subs)) subs None) as (cn & ->); [lia|]. by eexists.
Qed.

Lemma extract_tls_info_total tlvs : ∃ r, extract_tls_info tlvs = Ok r.
Proof.
  unfold extract_tls_info. generalize (MkProxyTls None None false) as acc. induction tlvs as [|t tlvs IH]; intros acc; [by eexists|].
  cbn [tls_loop]. assert (∃ acc', tls_step acc t = Ok acc') as (acc' & ->); [|apply IH].
  destruct t as [t|]; cbn [tls_step]; [|by eexists]. destruct (_ =? 0x02); [by eexists|]. destruct (_ =? 0x20).
  - destruct (parse_ssl_tlv_total (tlv_value t)) as (r & ->). by eexists.
  - destruct (_ =? 0x22); by eexists.
Qed.

Lemma parse_v2 h a rest s tls :
  v2_header h a → sk_bytes s = h ++ rest → zlen h ≤ MAX_HEADER_SIZE →
  ∃ info sizes, parse_proxy_header ppp_v1 ppp_v2 tls s = (Ok (info, []), MkSock rest sizes (sk_end s)) ∧
    client_addr info = (addresses a).1 ∧ server_addr info = (addresses a).2 ∧ proxy_version info = ProxyV2.
Proof.
  intros (command & family & hi & lo & body & tlvs & Hh & Hb & Hp) Hs Hm.
  set (pre := PROXY_V2_SIGNATURE ++ [command; family; hi; lo]). assert (Hpre : h = pre ++ body) by (by rewrite Hh).
  assert (Hlen : zlen h = 16 + zlen body) by (rewrite Hpre, zlen_app; done).
  destruct (fill_16 s) as (sizes & Hf); [rewrite Hs, length_app; unfold zlen in Hlen; lia|].
  assert (Htake : take 16 (sk_bytes s) = pre) by (by rewrite Hs, Hpre).
  assert (Hdrop : drop 16 (sk_bytes s) = body ++ rest) by (by rewrite Hs, Hpre).
  rewrite Htake, Hdrop in Hf.
  destruct (fill_spec (S (Z.to_nat (zlen h))) (zlen h) pre (MkSock (body ++ rest) sizes (sk_end s))) as (sizes' & Hf2).
  { change (zlen pre) with 16. lia. }
  { change (zlen pre) with 16. cbn [sk_bytes]. rewrite length_app. unfold zlen in *. lia. }
  replace (Z.to_nat (zlen h - zlen pre)) with (length body) in Hf2 by (change (zlen pre) with 16; unfold zlen in *; lia).
  cbn [sk_bytes sk_end] in Hf2. rewrite take_app_length, drop_app_length, <-Hpre in Hf2.
  destruct (extract_tls_info_total tlvs) as (info & Hi).
  eexists (MkProxyInfo _ _ (if tls then info else None) _), sizes'. split.
  - unfold parse_proxy_header, read_until_header_complete, mbind, task_bind. rewrite Hf.
    change (starts_with_bytes PROXY_V2_SIGNATURE pre) with true. cbn [lift].
    change (header_length pre) with (@Ok ProxyError _ (u16_from_be (u8 hi) (u8 lo))). rewrite <-Hb, <-Hlen. cbn [lift].
    rewrite Z.gtb_ltb, (proj2 (Z.ltb_ge _ _)), Hf2 by lia.
    assert (starts_with_bytes PROXY_V2_SIGNATURE h = true) as -> by (rewrite Hh; done).
    rewrite (proj2 (Z.leb_le 12 _)) by llia. cbn [andb]. unfold parse_v2_header, lift. rewrite Hp. cbn [ok_or mbind outcome_bind].
    rewrite (surjective_pairing (addresses a)).
    assert ((if tls then extract_tls_info tlvs else Ok None) = Ok (if tls then info else None)) as -> by (by destruct tls).
    assert (header_length h = Ok (u16_from_be (u8 hi) (u8 lo))) as -> by (by rewrite Hh).
    cbn [mbind outcome_bind]. rewrite <-Hb, <-Hlen, Z.leb_refl. unfold zlen. by rewrite Nat2Z.id, drop_all.
  - done.
Qed.

(** With fewer bytes than it asks for, filling the buffer fails. *)
Lemma fill_short fuel n buf s :
  (Z.to_nat (n - zlen buf) < fuel)%nat → zlen buf + zlen (sk_bytes s) < n → ∃ e s', fill fuel n buf s = (Err e, s').
Proof.
  revert buf s. induction fuel as [|fuel IH]; intros buf s Hf Hn; [lia|]. cbn [fill].
  assert (0 ≤ zlen (sk_bytes s)) by llia. rewrite (proj2 (Z.ltb_lt _ _)) by lia. unfold mbind, task_bind, read.
  destruct (sk_bytes s) as [|b bytes] eqn:Hs; [destruct (sk_end s); cbn; eauto|].
  set (k := Z.to_nat _). assert (Hk : (1 ≤ k)%nat) by (unfold k; lia).
  destruct (take k (b :: bytes)) as [|c data] eqn:Ht; [by destruct k; [lia|]|]. cbn [is_nil].
  assert (Hz : zlen (b :: bytes) = zlen (c :: data) + zlen (drop k (b :: bytes))).
  { rewrite <-Ht, <-zlen_app, take_drop. done. }
  assert (1 ≤ zlen (c :: data)) by (rewrite zlen_cons; llia).
  apply IH; rewrite zlen_app; [lia|]. change (sk_bytes _) with (drop k (b :: bytes)). lia.
Qed.

Lemma short_refused s tls : zlen (sk_bytes s) < 16 → ∃ e, (parse_proxy_header ppp_v1 ppp_v2 tls s).1 = Err e.
Proof.
  intros Hs. destruct (fill_short 17 16 [] s) as (e & s' & Hf); [change (zlen []) with 0; lia|by rewrite zlen_nil|].
  unfold parse_proxy_header, read_until_header_complete, mbind, task_bind. rewrite Hf. by exists e.
Qed.

Lemma large_refused h a rest s tls :
  v2_header h a → sk_bytes s = h ++ rest → MAX_HEADER_SIZE < zlen h →
  (parse_proxy_header ppp_v1 ppp_v2 tls s).1 = Err (InvalidHeader "v2 header too large").
Proof.
  intros (c & f & hi & lo & body & tlvs & Hh & Hb & _) Hs Hl. set (pre := PROXY_V2_SIGNATURE ++ [c; f; hi; lo]).
  assert (Hpre : h = pre ++ body) by (unfold pre; by rewrite <-app_assoc).
  assert (Hlen : zlen h = 16 + zlen body) by (rewrite Hpre, zlen_app; done).
  destruct (fill_16 s) as (sizes & Hf); [rewrite Hs, length_app; unfold zlen, MAX_HEADER_SIZE in *; lia|].
  assert (Htake : take 16 (sk_bytes s) = pre) by (by rewrite Hs, Hpre). rewrite Htake in Hf.
  unfold parse_proxy_header, read_until_header_complete, mbind, task_bind. rewrite Hf.
  change (starts_with_bytes PROXY_V2_SIGNATURE pre) with true. cbn [lift].
  change (header_length pre) with (@Ok ProxyError _ (u16_from_be (u8 hi) (u8 lo))). rewrite <-Hb, <-Hlen. cbn [lift].
  rewrite Z.gtb_ltb, (proj2 (Z.ltb_lt _ _)) by lia. done.
Qed.

(** C38. Reading the PROXY header takes the header and nothing else off the
    connection, however its bytes arrive: for a complete header of either
    version followed by anything, with at least 16 bytes in all and at most 536
    for a header of version 2, the parser returns the addresses in it, and
    the bytes it hands back together with those still to be read are exactly
    what follows the header. It hands back bytes only for a header of version 1
    with fewer than 16 bytes, and then those that complete the 16. With fewer
    than 16 bytes in all, which a complete header of version 1 may have, and with
    a longer header of version 2, it returns an error. *)
Theorem proxy_header_read h a rest s tls :
  sk_bytes s = h ++ rest → v1_header h a ∨ v2_header h a →
  (16 ≤ zlen (h ++ rest) → (v2_header h a → zlen h ≤ 536) →
   ∃ info remaining sizes,
     parse_proxy_header ppp_v1 ppp_v2 tls s = (Ok (info, remaining), MkSock (drop (16 - length h) rest) sizes (sk_end s)) ∧
     client_addr info = (addresses a).1 ∧ server_addr info = (addresses a).2 ∧
     remaining = take (16 - length h) rest ∧ (v2_header h a → remaining = [])) ∧
  (zlen (h ++ rest) < 16 → ∃ e, (parse_proxy_header ppp_v1 ppp_v2 tls s).1 = Err e) ∧
  (v2_header h a → 536 < zlen h → (parse_proxy_header ppp_v1 ppp_v2 tls s).1 = Err (InvalidHeader "v2 header too large")).
Proof.
  intros Hs Hh. split_and!; [|rewrite <-Hs; apply short_refused|intros; by eapply large_refused]. intros H16 Hmax.
  assert (Hv2 : v2_header h a → (16 ≤ length h)%nat).
  { intros (? & ? & ? & ? & ? & ? & -> & _). rewrite !length_app. cbn [length PROXY_V2_SIGNATURE]. lia. }
  destruct Hh as [Hh|Hh].
  - destruct (parse_v1 h a rest s tls Hh Hs) as (sizes & Hr); [unfold zlen in H16; lia|].
    eexists _, _, sizes. split; [exact Hr|]. split_and!; [done..|]. intros Hl%Hv2. by replace (16 - length h)%nat with 0%nat by lia.
  - destruct (parse_v2 h a rest s tls Hh Hs (Hmax Hh)) as (info & sizes & Hr & Hc & Hsv & _).
    apply Hv2 in Hh. replace (16 - length h)%nat with 0%nat by lia. rewrite drop_0. exists info, [], sizes. done.
Qed.

Lemma read_total max s : post (read max s).1 (λ _, True).
Proof. unfold read. destruct (sk_bytes s); [by destruct (sk_end s)|done]. Qed.

Lemma fill_total fuel n buf s :
  (Z.to_nat (n - zlen buf) < fuel)%nat → post (fill fuel n buf s).1 (λ b, (∃ l, b = buf ++ l) ∧ n ≤ zlen b).
Proof.
  revert buf s. induction fuel as [|fuel IH]; intros buf s Hf; [lia|]. cbn [fill].
  destruct (Z.ltb_spec (zlen buf) n) as [Hlt|Hge]; [|split; [by exists []; rewrite app_nil_r|done]].
  unfold mbind, task_bind. pose proof (read_total (n - zlen buf) s) as Hr.
  destruct (read (n - zlen buf) s) as [[data| | |] s']; try done. destruct data as [|b data]; [done|]. cbn [is_nil].
  assert (Hl : zlen buf + 1 ≤ zlen (buf ++ b :: data)) by (rewrite zlen_app, zlen_cons; llia).
  specialize (IH (buf ++ b :: data) s' ltac:(lia)).
  destruct (fill fuel n (buf ++ b :: data) s') as [[] s2]; try done. destruct IH as [[l ->] Hn]. split; [|done]. exists ((b :: data) ++ l). by rewrite app_assoc.
Qed.

Lemma read_line_total fuel buf s : (Z.to_nat (107 - zlen buf) < fuel)%nat → post (read_line fuel buf s).1 (λ b, ∃ l, b = buf ++ l).
Proof.
  revert buf s. induction fuel as [|fuel IH]; intros buf s Hf; [lia|]. cbn [read_line].
  destruct (is_some _); [by exists []; rewrite app_nil_r|]. destruct (Z.geb_spec (zlen buf) 107); [done|].
  unfold mbind, task_bind. pose proof (read_total 1 s) as Hr. destruct (read 1 s) as [[data| | |] s']; try done.
  destruct data as [|b data]; [done|]. cbn [is_nil]. 
  assert (Hl : zlen buf + 1 ≤ zlen (buf ++ b :: data)) by (rewrite zlen_app, zlen_cons; llia).
  specialize (IH (buf ++ b :: data) s' ltac:(lia)).
  destruct (read_line fuel (buf ++ b :: data) s') as [[] s2]; try done. destruct IH as [l ->].
  exists ((b :: data) ++ l). by rewrite app_assoc.
Qed.

(** With 16 bytes the length field is there, and what follows does not change
    it or the signature. *)
Lemma header_length_16 buf l :
  16 ≤ zlen buf → (∃ n, header_length buf = Ok n ∧ 0 ≤ n) ∧ header_length (buf ++ l) = header_length buf ∧
  starts_with_bytes PROXY_V2_SIGNATURE (buf ++ l) = starts_with_bytes PROXY_V2_SIGNATURE buf.
Proof.
  intros Hl. unfold zlen in Hl. destruct (lookup_lt_is_Some_2 buf 14) as [a Ha]; [lia|].
  destruct (lookup_lt_is_Some_2 buf 15) as [b Hb]; [lia|]. unfold header_length, starts_with_bytes.
  rewrite !lookup_app_l, Ha, Hb, take_app_le by (cbn; lia). split_and!; [|done..].
  eexists. split; [done|]. pose proof (u8_range a). pose proof (u8_range b). unfold u16_from_be. lia.
Qed.

(** The PROXY parser is total: on every connection, whatever it sends, and
    for every answer of the header parser, it returns a result or an error; it
    does not index out of range and its loops end. *)
Theorem proxy_total tls s : post (parse_proxy_header ppp_v1 ppp_v2 tls s).1 (λ _, True).
Proof.
  unfold parse_proxy_header, read_until_header_complete. unfold mbind, task_bind.
  pose proof (fill_total 17 16 [] s ltac:(vm_compute; lia)) as H16. destruct (fill 17 16 [] s) as [[buf| | |] s1]; try done.
  destruct H16 as [_ H16].
  destruct (starts_with_bytes PROXY_V2_SIGNATURE buf) eqn:Hsig.
  - destruct (header_length_16 buf [] H16) as [(n & Hn & Hpos) _]. unfold lift. rewrite Hn.
    destruct (16 + n >? MAX_HEADER_SIZE); [done|].
    pose proof (fill_total (S (Z.to_nat (16 + n))) (16 + n) buf s1 ltac:(lia)) as Hf.
    destruct (fill _ _ buf s1) as [[b| | |] s2]; try done. destruct Hf as [[l ->] Hlen].
    destruct (header_length_16 buf l H16) as (_ & Hh & Hs). rewrite Hs, Hsig, (proj2 (Z.leb_le 12 _)) by lia. cbn [andb].
    unfold parse_v2_header. rewrite Hh, Hn. destruct (ppp_v2 _) as [[a tlvs]|]; [|done]. cbn. destruct (addresses a).
    destruct (extract_tls_info_total tlvs) as (i & Hi). destruct tls; rewrite ?Hi; cbn [mbind outcome_bind];
      by rewrite (proj2 (Z.leb_le _ _) Hlen).
  - destruct (starts_with_bytes PROXY_V1_SIGNATURE buf); [|done].
    pose proof (read_line_total 108 buf s1 ltac:(lia)) as Hf.
    destruct (read_line 108 buf s1) as [[b| | |] s2]; try done. destruct Hf as [l ->].
    destruct (header_length_16 buf l H16) as (_ & _ & ->). rewrite Hsig, andb_false_r. destruct (_ && _); [|done].
    unfold lift, parse_v1_header. destruct (find_crlf _); [|done]. cbn. destruct (ppp_v1 _) as [a|]; [|done]. cbn.
    by destruct (addresses a).
Qed.
End properties.

(** A health check of a load balancer, 15 bytes, followed by the first byte of a
    CONNECT, which is handed back. *)
Lemma proxy_header_read_witness :
  let h := as_bytes "PROXY UNKNOWN" ++ CRLF in
  let s := MkSock (h ++ [x10; x0c]) [7; 3] StreamBlocked in
  ∃ info remaining sizes,
    parse_proxy_header (fun _ => Some NoInet) (fun _ => None) true s = (Ok (info, remaining), MkSock (drop (16 - length h) [x10; x0c]) sizes StreamBlocked) ∧
    client_addr info = UNSPECIFIED ∧ server_addr info = None ∧
    remaining = take (16 - length h) [x10; x0c] ∧ (v2_header (fun _ => None) h NoInet → remaining = []).
Proof.
  intros h s. apply (proxy_header_read (fun _ => Some NoInet) (fun _ => None) h NoInet [x10; x0c] s true).
  - reflexivity.
  - left. split; [by exists (as_bytes "UNKNOWN" ++ CRLF)|]. split; [split; [reflexivity|vm_compute; lia]|].
    split; [vm_compute; congruence|reflexivity].
  - vm_compute. congruence.
  - intros (? & ? & ? & ? & ? & ? & E & _). discriminate E.
Defined.

(** ** The TLS fields of a version 2 header *)

(** The wire format of a sub-field. *)
Definition sub_tlv_bytes (t : tlv) : list byte := to_u8 (tlv_kind t) :: be_u16 (zlen (tlv_value t)) ++ tlv_value t.

Definition wf_tlv (t : tlv) : Prop := is_u8 (tlv_kind t) ∧ is_u16 (zlen (tlv_value t)).

(** The common name after the sub-fields: the last one that is valid UTF-8. *)
Definition common_name (cn : option string) (t : tlv) : option string :=
  if tlv_kind t =? 0x02 then match from_utf8 (tlv_value t) with Some s => Some s | None => cn end else cn.

Lemma sub_tlvs_bytes fuel ts cn :
  Forall wf_tlv ts → (length (ts ≫= sub_tlv_bytes) < fuel)%nat →
  sub_tlvs fuel (ts ≫= sub_tlv_bytes) cn = Ok (foldl common_name cn ts).
Proof.
  intros Hts. revert fuel cn. induction Hts as [|t ts [Hk Hv] Hts IH]; intros fuel cn Hf; (destruct fuel as [|fuel]; [lia|]); [done|].
  change ((t :: ts) ≫= sub_tlv_bytes) with (to_u8 (tlv_kind t) :: be_u16 (zlen (tlv_value t)) ++ tlv_value t ++ (ts ≫= sub_tlv_bytes)) in *.
  cbn [be_u16 app sub_tlvs].
  rewrite u16_from_be_be by done. unfold zlen. rewrite Nat2Z.id.
  rewrite (proj2 (Nat.ltb_ge _ _)) by (rewrite length_app; lia). rewrite take_app_length, drop_app_length.
  rewrite u8_to_u8, Z.mod_small by (unfold is_u8 in Hk; lia). rewrite IH; [done|].
  cbn [be_u16 app length] in Hf. rewrite length_app in Hf. lia.
Qed.

(** The SSL field of a PROXY header: from any well-formed sub-fields the
    common name of the client's certificate is the last one that is valid
    UTF-8. Whether the certificate counts as verified is bit 2 of the flags
    alone; the result of the verification that the header carries is ignored. *)
Theorem ssl_tlv_spec flags v1 v2 v3 v4 ts :
  Forall wf_tlv ts →
  parse_ssl_tlv (flags :: v1 :: v2 :: v3 :: v4 :: (ts ≫= sub_tlv_bytes)) =
    Ok (Some (foldl common_name None ts, Z.testbit (u8 flags) 2)).
Proof.
  intros Hts. cbn [parse_ssl_tlv]. rewrite sub_tlvs_bytes by (done || lia). cbn [mbind outcome_bind]. do 3 f_equal.
  by destruct flags.
Qed.

Lemma ssl_tlv_spec_witness :
  parse_ssl_tlv ([x05; x00; x00; x00; x01] ++ [x02; x00; x02; x6d; x65]) = Ok (Some (Some "me"%string, true)).
Proof.
  apply (ssl_tlv_spec x05 x00 x00 x00 x01 [MkTlv 2 [x6d; x65]]). repeat constructor; vm_compute; congruence.
Defined.
