(* ===== verification/Persistence.v ===== *)
(** * Persistence

    [persistence/]: the storable form of retained messages and sessions
    ([models.rs]) with the conversions from and to the runtime types, the
    operations queued for the background writer ([backend.rs]), the backend on
    a key-value store ([fjall.rs]) and the manager with its writer loop
    ([mod.rs]). The key-value store (fjall) and the serializer (bincode) are
    interfaces, [Keyspace] and [Bincode], with the documented behaviour the code
    relies on as laws. *)

From S2P Require Import Prelude Protocol Codec Properties Packet Session.

(** ** Retained messages ([broker/mod.rs]) *)
Record RetainedMessage : Type := MkRetained {
  rm_topic : string;
  rm_payload : list byte;
  rm_qos : QoS;
  rm_properties : Properties;
  rm_timestamp : Z;
}.

(** ** Stored types ([models.rs]) *)
Record StoredProperties : Type := MkStoredProperties {
  sp_payload_format_indicator : option Z;
  sp_message_expiry_interval : option Z;
  sp_content_type : option string;
  sp_response_topic : option string;
  sp_correlation_data : option (list byte);
  sp_user_properties : list (string * string);
}.

Record StoredRetainedMessage : Type := MkStoredRetained {
  sr_topic : string;
  sr_payload : list byte;
  sr_qos : Z;
  sr_properties : StoredProperties;
  sr_timestamp_secs : Z;
}.

Record StoredSubscription : Type := MkStoredSubscription {
  sts_filter : string;
  sts_qos : Z;
  sts_no_local : bool;
  sts_retain_as_published : bool;
  sts_retain_handling : Z;
  sts_subscription_id : option Z;
}.

Record StoredPublish : Type := MkStoredPublish {
  stp_topic : string;
  stp_payload : list byte;
  stp_qos : Z;
  stp_retain : bool;
  stp_dup : bool;
  stp_packet_id : option Z;
  stp_properties : StoredProperties;
}.

Record StoredPendingMessage : Type := MkStoredPending {
  stpm_publish : StoredPublish;
  stpm_queued_at_secs : Z;
}.

Record StoredInflightMessage : Type := MkStoredInflight {
  sti_packet_id : Z;
  sti_publish : StoredPublish;
  sti_qos2_state : Z;
  sti_sent_at_secs : Z;
  sti_retry_count : Z;
}.

Record StoredWillMessage : Type := MkStoredWill {
  stw_topic : string;
  stw_payload : list byte;
  stw_qos : Z;
  stw_retain : bool;
  stw_properties : StoredProperties;
}.

Record StoredSession : Type := MkStoredSession {
  st_client_id : string;
  st_protocol_version : Z;
  st_session_expiry_interval : Z;
  st_keep_alive : Z;
  st_subscriptions : list StoredSubscription;
  st_pending_messages : list StoredPendingMessage;
  st_inflight_outgoing : list StoredInflightMessage;
  st_inflight_incoming : list StoredInflightMessage;
  st_will : option StoredWillMessage;
  st_disconnected_at_secs : option Z;
  st_next_packet_id : Z;
}.

Record StoredUser : Type := MkStoredUser {
  su_username : string;
  su_password_hash : string;
  su_role : option string;
}.

Record StoredRole : Type := MkStoredRole {
  sro_name : string;
  sro_publish : list string;
  sro_subscribe : list string;
}.

(** ** Clocks

    The two clocks a conversion reads: the monotonic clock of [Instant] and the
    wall clock of [SystemTime], in nanoseconds, the latter from the epoch. *)
Record Clock : Type := MkClock {
  instant_now : Z;
  system_now : Z;
}.

Definition now_unix_secs (c : Clock) : Z := as_secs (Z.max 0 (system_now c)).

Definition instant_to_unix_secs (c : Clock) (instant : Z) : Z :=
  if instant <=? instant_now c then
    let t := system_now c - duration_since (instant_now c) instant in
    if 0 <=? t then as_secs t else 0
  else now_unix_secs c.

(** [now.checked_sub(elapsed)] does not fail: an [Instant] is a signed
    timestamp, far from its bounds. *)
Definition unix_secs_to_instant (c : Clock) (secs : Z) : Z :=
  if secs <=? now_unix_secs c then instant_now c - from_secs (now_unix_secs c - secs)
  else instant_now c.

(** ** Conversions *)
Definition StoredProperties_from (p : Properties) : StoredProperties :=
  MkStoredProperties (payload_format_indicator p) (message_expiry_interval p) (content_type p)
    (response_topic p) (correlation_data p) (user_properties p).

Definition Properties_from (s : StoredProperties) : Properties :=
  Properties_default
    <| payload_format_indicator := sp_payload_format_indicator s |>
    <| message_expiry_interval := sp_message_expiry_interval s |>
    <| content_type := sp_content_type s |>
    <| response_topic := sp_response_topic s |>
    <| correlation_data := sp_correlation_data s |>
    <| user_properties := sp_user_properties s |>.

(** [QoS::from_u8(q).unwrap_or_default()] and the same for retain handling. *)
Definition stored_qos (q : Z) : QoS := default AtMostOnce (QoS_from_u8 q).
Definition stored_retain_handling (r : Z) : RetainHandling := default SendAtSubscribe (RetainHandling_from_u8 r).

Definition StoredPublish_from (p : Publish) : StoredPublish :=
  MkStoredPublish (pub_topic p) (pub_payload p) (QoS_as_u8 (pub_qos p)) (pub_retain p) (pub_dup p)
    (pub_packet_id p) (StoredProperties_from (pub_properties p)).

Definition Publish_from (s : StoredPublish) : Publish :=
  MkPublish (stp_dup s) (stored_qos (stp_qos s)) (stp_retain s) (stp_topic s) (stp_packet_id s)
    (stp_payload s) (Properties_from (stp_properties s)).

Definition StoredWillMessage_from (w : WillMessage) : StoredWillMessage :=
  MkStoredWill (wm_topic w) (wm_payload w) (QoS_as_u8 (wm_qos w)) (wm_retain w)
    (StoredProperties_from (wm_properties w)).

Definition WillMessage_from (s : StoredWillMessage) : WillMessage :=
  MkWillMessage (stw_topic s) (stw_payload s) (stored_qos (stw_qos s)) (stw_retain s)
    (Properties_from (stw_properties s)).

Definition StoredSubscription_from (s : SessionSubscription) : StoredSubscription :=
  let o := ss_options s in
  MkStoredSubscription (ss_filter s) (QoS_as_u8 (so_qos o)) (so_no_local o) (so_retain_as_published o)
    (RetainHandling_as_u8 (so_retain_handling o)) (ss_subscription_id s).

Definition SessionSubscription_from (s : StoredSubscription) : SessionSubscription :=
  MkSessionSubscription (sts_filter s)
    (MkSubscriptionOptions (stored_qos (sts_qos s)) (sts_no_local s) (sts_retain_as_published s)
       (stored_retain_handling (sts_retain_handling s)))
    (sts_subscription_id s).

Definition StoredPendingMessage_from (c : Clock) (pm : PendingMessage) : StoredPendingMessage :=
  MkStoredPending (StoredPublish_from (pm_publish pm)) (instant_to_unix_secs c (pm_queued_at pm)).

Definition PendingMessage_from (c : Clock) (s : StoredPendingMessage) : PendingMessage :=
  MkPending (Publish_from (stpm_publish s)) (unix_secs_to_instant c (stpm_queued_at_secs s)).

Definition StoredInflightMessage_from (c : Clock) (m : InflightMessage) : StoredInflightMessage :=
  let qos2_state :=
    match if_qos2_state m with
    | None => 0
    | Some WaitingPubRec => 1
    | Some WaitingPubComp => 2
    end in
  MkStoredInflight (if_packet_id m) (StoredPublish_from (if_publish m)) qos2_state
    (instant_to_unix_secs c (if_sent_at m)) (if_retry_count m).

Definition InflightMessage_from (c : Clock) (s : StoredInflightMessage) : InflightMessage :=
  let qos2_state :=
    match sti_qos2_state s with
    | 1 => Some WaitingPubRec
    | 2 => Some WaitingPubComp
    | _ => None
    end in
  MkInflight (sti_packet_id s) (Publish_from (sti_publish s)) qos2_state
    (unix_secs_to_instant c (sti_sent_at_secs s)) (sti_retry_count s).

Definition from_session (c : Clock) (s : Session) : StoredSession :=
  {| st_client_id := s_client_id s;
     st_protocol_version := ProtocolVersion_as_u8 (s_protocol_version s);
     st_session_expiry_interval := s_session_expiry_interval s;
     st_keep_alive := s_keep_alive s;
     st_subscriptions := StoredSubscription_from <$> (map_to_list (s_subscriptions s)).*2;
     st_pending_messages := StoredPendingMessage_from c <$> s_pending_messages s;
     st_inflight_outgoing := StoredInflightMessage_from c <$> (map_to_list (s_inflight_outgoing s)).*2;
     st_inflight_incoming :=
       (fun e => MkStoredInflight e.1 (StoredPublish_from e.2) 0 (now_unix_secs c) 0)
         <$> map_to_list (s_inflight_incoming s);
     st_will := StoredWillMessage_from <$> s_will s;
     st_disconnected_at_secs := instant_to_unix_secs c <$> s_disconnected_at s;
     st_next_packet_id := 1 |}.

Definition StoredRetainedMessage_from (c : Clock) (rm : RetainedMessage) : StoredRetainedMessage :=
  MkStoredRetained (rm_topic rm) (rm_payload rm) (QoS_as_u8 (rm_qos rm))
    (StoredProperties_from (rm_properties rm)) (instant_to_unix_secs c (rm_timestamp rm)).

(** What [main] makes of a stored retained message at startup; the timestamp
    is the time of the start. *)
Definition restore_retained_message (now : Z) (topic : string) (s : StoredRetainedMessage) : RetainedMessage :=
  MkRetained topic (sr_payload s) (stored_qos (sr_qos s)) (Properties_from (sr_properties s)) now.

(** ** Operations ([backend.rs]) *)
Inductive PersistenceOp : Type :=
  | SetRetained (topic : string) (message : StoredRetainedMessage)
  | DeleteRetained (topic : string)
  | SetSession (client_id : string) (session : StoredSession)
  | DeleteSession (client_id : string)
  | SetUser (username : string) (user : StoredUser)
  | DeleteUser (username : string)
  | SetRole (name : string) (role : StoredRole)
  | DeleteRole (name : string).

Inductive PersistenceError : Type := Serialize | Deserialize | Storage.

(** ** The key-value store and the serializer *)
Inductive Partition : Type := Retained | Sessions | Users | Roles.

#[global] Instance Partition_eq_dec : EqDecision Partition.
Proof. solve_decision. Defined.

(** An item of a batch: insert the bytes or remove the key. *)
Definition BatchItem (B : Type) : Type := Partition * string * option B.

(** What the last item for a key does to it. *)
Definition apply_item {B} (p : Partition) (k : string) (cur : option B) (i : BatchItem B) : option B :=
  if bool_decide (i.1 = (p, k)) then i.2 else cur.

(** A batch is committed atomically and in order; iteration visits every entry
    of a partition once. *)
Class Keyspace (KS B : Type) : Type := {
  ks_get : Partition → string → KS → option B;
  ks_iter : Partition → KS → list (string * B);
  ks_commit : list (BatchItem B) → KS → KS;
  ks_get_commit p k items ks : ks_get p k (ks_commit items ks) = foldl (apply_item p k) (ks_get p k ks) items;
  ks_iter_nodup p ks : NoDup (ks_iter p ks).*1;
  ks_iter_get p k b ks : (k, b) ∈ ks_iter p ks ↔ ks_get p k ks = Some b;
}.

Class Bincode (A B : Type) : Type := {
  encode_to_vec : A → option B;
  decode_from_slice : B → option A;
  decode_encode_to_vec a b : encode_to_vec a = Some b → decode_from_slice b = Some a;
}.

(** ** The backend ([fjall.rs]) *)
Section backend.
Context {KS B : Type} `{!Keyspace KS B}.
Context `{!Bincode StoredRetainedMessage B, !Bincode StoredSession B, !Bincode StoredUser B, !Bincode StoredRole B}.

Definition serialize {A} `{!Bincode A B} (a : A) : outcome PersistenceError B := ok_or (encode_to_vec a) Serialize.
Definition deserialize {A} `{!Bincode A B} (b : B) : outcome PersistenceError A := ok_or (decode_from_slice b) Deserialize.

(** The bodies that the four kinds of entry share. [reads] and [writes] say
    whether the storage accepts the access, [fails_at] at which item an iteration
    fails, if it does. *)
Definition get_entry {A} `{!Bincode A B} (p : Partition) (reads : bool) (key : string) (ks : KS)
    : outcome PersistenceError (option A) :=
  if negb reads then Err Storage
  else
    match ks_get p key ks with
    | Some bytes => a ← deserialize bytes; Ok (Some a)
    | None => Ok None
    end.

Definition set_entry {A} `{!Bincode A B} (p : Partition) (writes : bool) (key : string) (a : A) (ks : KS)
    : outcome PersistenceError unit * KS :=
  match serialize a with
  | Ok bytes => if writes then (Ok tt, ks_commit [(p, key, Some bytes)] ks) else (Err Storage, ks)
  | Err e => (Err e, ks)
  | Panic => (Panic, ks)
  | NoFuel => (NoFuel, ks)
  end.

Definition delete_entry (p : Partition) (writes : bool) (key : string) (ks : KS) : outcome PersistenceError unit * KS :=
  if writes then (Ok tt, ks_commit [(p, key, None)] ks) else (Err Storage, ks).

Fixpoint list_entries_loop {A} `{!Bincode A B} (fails_at : option nat) (items : list (string * B))
    : outcome PersistenceError (list (string * A)) :=
  match fails_at, items with
  | _, [] => Ok []
  | Some O, _ :: _ => Err Storage
  | _, (key, value) :: items =>
      a ← deserialize value;
      result ← list_entries_loop (pred <$> fails_at) items;
      Ok ((key, a) :: result)
  end.

Definition list_entries {A} `{!Bincode A B} (p : Partition) (fails_at : option nat) (ks : KS)
    : outcome PersistenceError (list (string * A)) :=
  list_entries_loop fails_at (ks_iter p ks).

Definition get_retained : bool → string → KS → outcome PersistenceError (option StoredRetainedMessage) := get_entry Retained.
Definition set_retained : bool → string → StoredRetainedMessage → KS → outcome PersistenceError unit * KS := set_entry Retained.
Definition delete_retained : bool → string → KS → outcome PersistenceError unit * KS := delete_entry Retained.
Definition list_retained : option nat → KS → outcome PersistenceError (list (string * StoredRetainedMessage)) := list_entries Retained.

Definition get_stored_session : bool → string → KS → outcome PersistenceError (option StoredSession) := get_entry Sessions.
Definition set_session : bool → string → StoredSession → KS → outcome PersistenceError unit * KS := set_entry Sessions.
Definition delete_session : bool → string → KS → outcome PersistenceError unit * KS := delete_entry Sessions.
Definition list_sessions : option nat → KS → outcome PersistenceError (list (string * StoredSession)) := list_entries Sessions.

Definition get_user : bool → string → KS → outcome PersistenceError (option StoredUser) := get_entry Users.
Definition set_user : bool → string → StoredUser → KS → outcome PersistenceError unit * KS := set_entry Users.
Definition delete_user : bool → string → KS → outcome PersistenceError unit * KS := delete_entry Users.
Definition list_users : option nat → KS → outcome PersistenceError (list (string * StoredUser)) := list_entries Users.

Definition get_role : bool → string → KS → outcome PersistenceError (option StoredRole) := get_entry Roles.
Definition set_role : bool → string → StoredRole → KS → outcome PersistenceError unit * KS := set_entry Roles.
Definition delete_role : bool → string → KS → outcome PersistenceError unit * KS := delete_entry Roles.
Definition list_roles : option nat → KS → outcome PersistenceError (list (string * StoredRole)) := list_entries Roles.

(** [StorageBackend::load_all] ([backend.rs]). *)
Record LoadedData : Type := MkLoadedData {
  ld_retained : list (string * StoredRetainedMessage);
  ld_sessions : list (string * StoredSession);
  ld_users : list (string * StoredUser);
  ld_roles : list (string * StoredRole);
}.

Definition load_all (fails_at : Partition → option nat) (ks : KS) : outcome PersistenceError LoadedData :=
  retained ← list_retained (fails_at Retained) ks;
  sessions ← list_sessions (fails_at Sessions) ks;
  users ← list_users (fails_at Users) ks;
  roles ← list_roles (fails_at Roles) ks;
  Ok (MkLoadedData retained sessions users roles).

Definition op_item (op : PersistenceOp) : outcome PersistenceError (BatchItem B) :=
  match op with
  | SetRetained topic message => bytes ← serialize message; Ok (Retained, topic, Some bytes)
  | DeleteRetained topic => Ok (Retained, topic, None)
  | SetSession client_id session => bytes ← serialize session; Ok (Sessions, client_id, Some bytes)
  | DeleteSession client_id => Ok (Sessions, client_id, None)
  | SetUser username user => bytes ← serialize user; Ok (Users, username, Some bytes)
  | DeleteUser username => Ok (Users, username, None)
  | SetRole name role => bytes ← serialize role; Ok (Roles, name, Some bytes)
  | DeleteRole name => Ok (Roles, name, None)
  end.

Fixpoint batch_items (ops : list PersistenceOp) : outcome PersistenceError (list (BatchItem B)) :=
  match ops with
  | [] => Ok []
  | op :: ops => i ← op_item op; items ← batch_items ops; Ok (i :: items)
  end.

(** [commits]: whether the storage accepts the batch. *)
Definition batch_write (commits : bool) (ops : list PersistenceOp) (ks : KS) : outcome PersistenceError unit * KS :=
  match batch_items ops with
  | Ok items => if commits then (Ok tt, ks_commit items ks) else (Err Storage, ks)
  | Err e => (Err e, ks)
  | Panic => (Panic, ks)
  | NoFuel => (NoFuel, ks)
  end.

(** ** The manager and its writer loop ([mod.rs]) *)
Definition CHANNEL_CAPACITY : Z := 10000.

Record Manager : Type := MkManager {
  rx : list PersistenceOp;
  batch : list PersistenceOp;
  storage : KS;
  running : bool;
  signalled : bool;
}.

#[global] Instance Manager_eta : Eta Manager := fun m =>
  MkManager (rx m) (batch m) (storage m) (running m) (signalled m).

Definition Manager_new (ks : KS) : Manager := MkManager [] [] ks true false.

(** [try_send]: refused when the channel is full or the loop has ended. *)
Definition write_accepts (m : Manager) : bool := running m && (zlen (rx m) <? CHANNEL_CAPACITY).

Definition persistence_write (op : PersistenceOp) (m : Manager) : Manager :=
  if write_accepts m then m <| rx ::= (fun q => q ++ [op]) |> else m.

(** [backend.batch_write(std::mem::take(&mut batch))]; a failure is logged. *)
Definition flush_batch (commits : bool) (m : Manager) : Manager :=
  m <| batch := [] |> <| storage := (batch_write commits (batch m) (storage m)).2 |>.

Definition flush_nonempty (commits : bool) (m : Manager) : Manager :=
  if is_nil (batch m) then m else flush_batch commits m.

(** [shutdown_tx.send(())], which fails once the loop has ended. *)
Definition send_signal (m : Manager) : Manager := if running m then m <| signalled := true |> else m.

(** The branches of the [select!]; the channel is closed once the senders are
    gone and it is empty, and the last branch waits for the signal. *)
Inductive writer_event : Type := Received | SendersGone | IntervalTick | ShutdownSignal.

Definition writer_step (max_batch_size : Z) (ev : writer_event) (commits : bool) (m : Manager) : Manager :=
  if negb (running m) then m
  else
    match ev with
    | Received =>
        match rx m with
        | op :: q =>
            let m := m <| rx := q |> <| batch ::= (fun b => b ++ [op]) |> in
            if zlen (batch m) >=? max_batch_size then flush_batch commits m else m
        | [] => m
        end
    | SendersGone =>
        match rx m with
        | [] => (flush_nonempty commits m) <| running := false |>
        | _ :: _ => m
        end
    | IntervalTick => flush_nonempty commits m
    | ShutdownSignal =>
        if signalled m then (flush_nonempty commits m) <| running := false |> <| signalled := false |> else m
    end.

(** ** Runs of the manager

    Writes by the broker and the signal interleaved with the writer loop; [commits] says
    whether the storage accepts the batch that the event flushes, if any. *)
Inductive manager_action : Type :=
  | Write (op : PersistenceOp)
  | Writer (ev : writer_event) (commits : bool)
  | Signal.

Definition run_action (max : Z) (a : manager_action) (m : Manager) : Manager :=
  match a with
  | Write op => persistence_write op m
  | Writer ev commits => writer_step max ev commits m
  | Signal => send_signal m
  end.

(** What an action accepts into the channel and hands to the backend. *)
Definition accepts (a : manager_action) (m : Manager) : list PersistenceOp :=
  match a with
  | Write op => if write_accepts m then [op] else []
  | Writer _ _ | Signal => []
  end.

Definition hands_over (max : Z) (a : manager_action) (m : Manager) : list PersistenceOp :=
  match a with
  | Write _ | Signal => []
  | Writer ev _ =>
      if negb (running m) then []
      else
        match ev with
        | Received =>
            match rx m with
            | op :: _ => if zlen (batch m ++ [op]) >=? max then batch m ++ [op] else []
            | [] => []
            end
        | SendersGone => if is_nil (rx m) then batch m else []
        | IntervalTick => batch m
        | ShutdownSignal => if signalled m then batch m else []
        end
  end.

Definition committed (a : manager_action) : bool := match a with Writer _ c => c | _ => true end.

Fixpoint run_actions (max : Z) (acts : list manager_action) (m : Manager) : Manager :=
  match acts with [] => m | a :: acts => run_actions max acts (run_action max a m) end.

Fixpoint accepted (max : Z) (acts : list manager_action) (m : Manager) : list PersistenceOp :=
  match acts with [] => [] | a :: acts => accepts a m ++ accepted max acts (run_action max a m) end.

Fixpoint handed_over (max : Z) (acts : list manager_action) (m : Manager) : list (list PersistenceOp * bool) :=
  match acts with
  | [] => []
  | a :: acts => (hands_over max a m, committed a) :: handed_over max acts (run_action max a m)
  end.

(** The operations of the batches that the storage accepted. *)
Definition stored_ops (bs : list (list PersistenceOp * bool)) : list PersistenceOp :=
  mjoin ((fun b : list PersistenceOp * bool => if b.2 then b.1 else []) <$> bs).

Definition serializable (op : PersistenceOp) : Prop := ∃ i, op_item op = Ok i.

Definition apply_op (p : Partition) (k : string) (cur : option B) (op : PersistenceOp) : option B :=
  match op_item op with Ok i => apply_item p k cur i | _ => cur end.

Definition op_key (op : PersistenceOp) : Partition * string :=
  match op with
  | SetRetained k _ | DeleteRetained k => (Retained, k)
  | SetSession k _ | DeleteSession k => (Sessions, k)
  | SetUser k _ | DeleteUser k => (Users, k)
  | SetRole k _ | DeleteRole k => (Roles, k)
  end.

(** ** Lemmas *)
Lemma op_item_key op i : op_item op = Ok i → i.1 = op_key op.
Proof.
  destruct op; cbn; unfold serialize; try (by intros [= <-]);
    (destruct (encode_to_vec _); [by intros [= <-]|done]).
Qed.

Lemma batch_items_apply ops p k cur :
  Forall serializable ops →
  ∃ items, batch_items ops = Ok items ∧ foldl (apply_item p k) cur items = foldl (apply_op p k) cur ops.
Proof.
  intros Hf. revert cur. induction Hf as [|op ops [i Hi] _ IH]; intros cur; [by exists []|].
  destruct (IH (apply_item p k cur i)) as (items & Hb & He). exists (i :: items).
  cbn. unfold apply_op at 2. rewrite Hi, Hb. by rewrite <-He.
Qed.

Lemma flush_get commits m p k :
  Forall serializable (batch m) →
  ks_get p k (storage (flush_batch commits m)) =
    foldl (apply_op p k) (ks_get p k (storage m)) (if commits then batch m else []).
Proof.
  intros Hs. destruct (batch_items_apply (batch m) p k (ks_get p k (storage m)) Hs) as (items & Hb & He).
  unfold flush_batch, batch_write. cbn. rewrite Hb. destruct commits; cbn; [|done]. by rewrite ks_get_commit.
Qed.

Lemma flush_nonempty_spec commits m :
  flush_nonempty commits m = flush_batch commits m ∨ (batch m = [] ∧ flush_nonempty commits m = m).
Proof. unfold flush_nonempty. destruct (batch m); [by right|by left]. Qed.

Lemma action_queue max a m :
  batch m ++ rx m ++ accepts a m = hands_over max a m ++ batch (run_action max a m) ++ rx (run_action max a m).
Proof.
  destruct a as [op|ev c|]; cbn.
  - unfold persistence_write. destruct (write_accepts m); [done|by rewrite app_nil_r].
  - unfold writer_step. destruct (running m); cbn; [|by rewrite app_nil_r]. rewrite app_nil_r. destruct ev.
    + destruct (rx m) as [|op q] eqn:Hq; [by rewrite Hq|]. unfold set_field. cbn.
      destruct (_ >=? _); cbn; by rewrite <-app_assoc.
    + destruct (rx m) as [|op q] eqn:Hq; [|by rewrite Hq]. cbn.
      destruct (flush_nonempty_spec c m) as [->|[Hn ->]]; cbn; by rewrite ?Hn, Hq.
    + destruct (flush_nonempty_spec c m) as [->|[Hn ->]]; [done|]. by rewrite Hn.
    + destruct (signalled m); [|done]. destruct (flush_nonempty_spec c m) as [->|[Hn ->]]; [done|]. cbn. by rewrite Hn.
  - rewrite app_nil_r. unfold send_signal. by destruct (running m).
Qed.

Lemma action_get max a m p k :
  Forall serializable (batch m ++ rx m) →
  ks_get p k (storage (run_action max a m)) =
    foldl (apply_op p k) (ks_get p k (storage m)) (if committed a then hands_over max a m else []).
Proof.
  intros Hs. destruct a as [op|ev c|]; cbn.
  - unfold persistence_write. by destruct (write_accepts m).
  - unfold writer_step. destruct (running m); cbn; [|by destruct c]. apply Forall_app in Hs as [Hb Hq]. destruct ev.
    + destruct (rx m) as [|op q] eqn:Hrx; [by destruct c|]. apply Forall_cons in Hq as [Ho _].
      set (m1 := MkManager q (batch m ++ [op]) (storage m) (running m) (signalled m)).
      unfold set_field. cbn. fold m1. destruct (zlen (batch m ++ [op]) >=? max); [|by destruct c].
      rewrite flush_get; [done|]. apply Forall_app. split; [done|by constructor].
    + destruct (rx m); cbn; [|by destruct c].
      destruct (flush_nonempty_spec c m) as [->|[Hn ->]]; [by apply (flush_get c m)|by rewrite Hn; destruct c].
    + destruct (flush_nonempty_spec c m) as [->|[Hn ->]]; [by apply flush_get|by rewrite Hn; destruct c].
    + destruct (signalled m); [|by destruct c].
      destruct (flush_nonempty_spec c m) as [->|[Hn ->]]; [by apply (flush_get c m)|by rewrite Hn; destruct c].
  - unfold send_signal. by destruct (running m).
Qed.

Lemma stored_ops_cons b bs : stored_ops (b :: bs) = (if b.2 then b.1 else []) ++ stored_ops bs.
Proof. done. Qed.

Lemma run_queue max acts m :
  batch m ++ rx m ++ accepted max acts m =
    mjoin (handed_over max acts m).*1 ++ batch (run_actions max acts m) ++ rx (run_actions max acts m).
Proof.
  revert m. induction acts as [|a acts IH]; intros m; cbn [accepted handed_over run_actions fmap list_fmap]; [by rewrite app_nil_r|].
  rewrite mjoin_cons. cbn [fst]. rewrite <-(app_assoc (hands_over _ _ _)), <-IH.
  rewrite !app_assoc. rewrite <-(app_assoc (batch m)), (action_queue max a m). by rewrite !app_assoc.
Qed.

Lemma run_get max acts m p k :
  Forall serializable (batch m ++ rx m ++ accepted max acts m) →
  ks_get p k (storage (run_actions max acts m)) =
    foldl (apply_op p k) (ks_get p k (storage m)) (stored_ops (handed_over max acts m)).
Proof.
  revert m. induction acts as [|a acts IH]; intros m Hs; [done|].
  cbn [accepted run_actions handed_over] in *. rewrite stored_ops_cons, foldl_app. cbn [fst snd].
  rewrite <-(action_get max a m).
  - apply IH. rewrite !app_assoc, <-(app_assoc (batch m)), (action_queue max) in Hs.
    rewrite <-!app_assoc in Hs. by apply Forall_app in Hs as [_ Hs].
  - rewrite app_assoc in Hs. by apply Forall_app in Hs as [Hs _].
Qed.

Lemma action_bounds max a m :
  1 ≤ max → zlen (batch m) < max → zlen (rx m) ≤ CHANNEL_CAPACITY → (running m = false → batch m = []) →
  let m' := run_action max a m in
  zlen (batch m') < max ∧ zlen (rx m') ≤ CHANNEL_CAPACITY ∧ (running m' = false → batch m' = []).
Proof.
  intros Hmax Hb Hq Hr. destruct a as [op|ev c|]; cbn.
  - unfold persistence_write, write_accepts. destruct (running m) eqn:Hrun; cbn; [|by rewrite Hrun].
    destruct (Z.ltb_spec (zlen (rx m)) CHANNEL_CAPACITY); cbn; rewrite ?Hrun; [|done].
    split_and!; [done| |done]. rewrite zlen_app, zlen_cons, zlen_nil. llia.
  - unfold writer_step. destruct (running m) eqn:Hrun; cbn; [|by rewrite Hrun]. destruct ev.
    + destruct (rx m) as [|op q] eqn:Hrx; [by rewrite Hrun, Hrx|].
      rewrite zlen_cons in Hq. unfold set_field. cbn. rewrite Hrun.
      destruct (_ >=? _) eqn:Hg; cbn; rewrite ?Hrun; split_and!; try done; rewrite ?zlen_nil; llia.
    + destruct (rx m) as [|op q] eqn:Hrx; [|by rewrite Hrun, Hrx].
      destruct (flush_nonempty_spec c m) as [->|[He ->]]; cbn; rewrite ?Hrx; split_and!; try done; rewrite zlen_nil; lia.
    + destruct (flush_nonempty_spec c m) as [->|[He ->]]; cbn; rewrite ?Hrun; split_and!; try done; rewrite zlen_nil; lia.
    + destruct (signalled m); [|by rewrite Hrun].
      destruct (flush_nonempty_spec c m) as [->|[He ->]]; cbn; split_and!; try done; rewrite zlen_nil; lia.
  - unfold send_signal. destruct (running m) eqn:Hrun; cbn; by rewrite ?Hrun.
Qed.

Lemma run_bounds max acts m :
  1 ≤ max → zlen (batch m) < max → zlen (rx m) ≤ CHANNEL_CAPACITY → (running m = false → batch m = []) →
  let m' := run_actions max acts m in
  zlen (batch m') < max ∧ zlen (rx m') ≤ CHANNEL_CAPACITY ∧ (running m' = false → batch m' = []).
Proof.
  intros Hmax. revert m. induction acts as [|a acts IH]; intros m Hb Hq Hr; [done|].
  cbn [run_actions]. destruct (action_bounds max a m Hmax Hb Hq Hr) as (? & ? & ?). by apply IH.
Qed.

Lemma run_stopped max acts m : running m = false → run_actions max acts m = m.
Proof.
  intros Hr. induction acts as [|a acts IH]; [done|]. cbn [run_actions].
  replace (run_action max a m) with m; [done|]. destruct a as [op|ev c|]; cbn.
  - unfold persistence_write, write_accepts. by rewrite Hr.
  - unfold writer_step. by rewrite Hr.
  - unfold send_signal. by rewrite Hr.
Qed.

Lemma all_committed_stored bs :
  Forall (λ b : list PersistenceOp * bool, b.2 = true) bs → stored_ops bs = mjoin bs.*1.
Proof.
  induction 1 as [|b bs Hb _ IH]; [done|]. rewrite stored_ops_cons, Hb, IH.
  cbn [fmap list_fmap]. by rewrite mjoin_cons.
Qed.

Lemma handed_committed max acts m :
  Forall (λ a, committed a = true) acts →
  Forall (λ b : list PersistenceOp * bool, b.2 = true) (handed_over max acts m).
Proof.
  intros Hf. revert m. induction Hf as [|a acts Ha _ IH]; intros m; [constructor|].
  cbn. constructor; [done|apply IH].
Qed.

Lemma list_entries_loop_lookup {A} `{!Bincode A B} (items : list (string * B)) (entry : string → option A) :
  NoDup items.*1 → (∀ k b, (k, b) ∈ items → ∃ a, decode_from_slice b = Some a ∧ entry k = Some a) →
  ∃ l, list_entries_loop None items = Ok l ∧ l.*1 = items.*1 ∧ ∀ k a, (k, a) ∈ l → entry k = Some a.
Proof.
  intros Hn. induction items as [|[k b] items IH]; intros He; [exists []; split_and!; [done|done|set_solver]|].
  apply NoDup_cons in Hn as [_ Hn]. destruct (IH Hn) as (l & Hl & Hk & Hin); [intros; apply He; by right|].
  destruct (He k b) as (a & Hd & Ha); [left|]. exists ((k, a) :: l). cbn. unfold deserialize. rewrite Hd. cbn.
  rewrite Hl. cbn. split_and!; [done|by rewrite Hk|]. intros k' a' [[= -> ->]|Hi]%elem_of_cons; [done|by apply Hin].
Qed.
End backend.

(** The properties that are stored. *)
Definition kept_properties (p : Properties) : Properties := Properties_from (StoredProperties_from p).

Definition keep_stored (p : Publish) : Publish := p <| pub_properties ::= kept_properties |>.

(** The clocks run at the same rate. *)
Definition same_rate (c c' : Clock) : Prop :=
  instant_now c ≤ instant_now c' ∧ system_now c' - instant_now c' = system_now c - instant_now c.

Lemma stored_qos_as_u8 q : stored_qos (QoS_as_u8 q) = q.
Proof. by destruct q. Qed.

Lemma publish_roundtrip p : Publish_from (StoredPublish_from p) = keep_stored p.
Proof. unfold Publish_from. cbn. rewrite stored_qos_as_u8. by destruct p. Qed.

(** An instant survives storage up to less than a second. *)
Lemma instant_roundtrip c c' t :
  same_rate c c' → t ≤ instant_now c → 0 ≤ system_now c - (instant_now c - t) →
  Z.abs (unix_secs_to_instant c' (instant_to_unix_secs c t) - t) < 1000000000.
Proof.
  intros [Hle Hr] Ht H0. unfold instant_to_unix_secs, unix_secs_to_instant, now_unix_secs, duration_since, as_secs, from_secs.
  replace (t <=? instant_now c) with true by lia. rewrite Z.max_r by lia.
  replace (0 <=? _) with true by lia. rewrite (Z.max_r 0 (system_now c')) by lia.
  case_match; zdm.
Qed.

(** ** Retained messages across a restart *)
Definition is_retained_op (op : PersistenceOp) : bool :=
  match op with SetRetained _ _ | DeleteRetained _ => true | _ => false end.

(** A change of the retained messages as the broker makes it, with the clocks
    at that moment, and the operation it queues. *)
Record retained_update : Type := MkRetainedUpdate {
  ru_clock : Clock;
  ru_topic : string;
  ru_message : option RetainedMessage;
}.

Definition retained_op (u : retained_update) : PersistenceOp :=
  match ru_message u with
  | Some rm => SetRetained (ru_topic u) (StoredRetainedMessage_from (ru_clock u) rm)
  | None => DeleteRetained (ru_topic u)
  end.

Definition apply_update (retained : gmap string RetainedMessage) (u : retained_update) : gmap string RetainedMessage :=
  partial_alter (fun _ => ru_message u) (ru_topic u) retained.

Definition restored (now : Z) (topic : string) (rm : RetainedMessage) : RetainedMessage :=
  MkRetained topic (rm_payload rm) (rm_qos rm) (kept_properties (rm_properties rm)) now.

(** The startup loop of [main]. *)
Definition restore_retained (now : Z) (loaded : list (string * StoredRetainedMessage))
    : gmap string RetainedMessage :=
  foldl (fun m e => <[e.1 := restore_retained_message now e.1 e.2]> m) ∅ loaded.

Section restart.
Context {KS B : Type} `{!Keyspace KS B}.
Context `{!Bincode StoredRetainedMessage B, !Bincode StoredSession B, !Bincode StoredUser B, !Bincode StoredRole B}.

(** The bytes under a topic are those of the live message, stored at some time. *)
Definition stored_as (cur : option B) (live : option RetainedMessage) : Prop :=
  match live with
  | Some rm => ∃ c b, cur = Some b ∧ encode_to_vec (StoredRetainedMessage_from c rm) = Some b
  | None => cur = None
  end.

Lemma retained_ops_stored ops us topic cur live :
  Forall serializable ops → filter is_retained_op ops = retained_op <$> us → stored_as cur (live !! topic) →
  stored_as (foldl (apply_op Retained topic) cur ops) (foldl apply_update live us !! topic).
Proof.
  intros Hs. revert us cur live. induction Hs as [|op ops [i Hi] _ IH]; intros us cur live Hu Hc.
  { by destruct us. }
  cbn [foldl]. destruct (is_retained_op op) eqn:Hr.
  - rewrite filter_cons_True in Hu by (by rewrite Hr). destruct us as [|u us]; [done|].
    cbn [fmap list_fmap] in Hu. injection Hu as -> Hu. cbn [foldl]. apply IH; [done|].
    unfold apply_op. rewrite Hi. unfold apply_item, apply_update. destruct (ru_message u) as [rm|] eqn:Hm.
    + unfold retained_op in Hi. rewrite Hm in Hi. cbn in Hi. unfold serialize in Hi.
      destruct (encode_to_vec _) as [b|] eqn:Hb; [|done]. injection Hi as <-. cbn [fst snd].
      destruct (decide (ru_topic u = topic)) as [->|Hne].
      * rewrite bool_decide_eq_true_2 by done. rewrite lookup_partial_alter_eq. by exists (ru_clock u), b.
      * rewrite bool_decide_eq_false_2 by congruence. by rewrite lookup_partial_alter_ne.
    + unfold retained_op in Hi. rewrite Hm in Hi. injection Hi as <-. cbn [fst snd].
      destruct (decide (ru_topic u = topic)) as [->|Hne].
      * rewrite bool_decide_eq_true_2 by done. by rewrite lookup_partial_alter_eq.
      * rewrite bool_decide_eq_false_2 by congruence. by rewrite lookup_partial_alter_ne.
  - rewrite filter_cons_False in Hu by (rewrite Hr; tauto). apply IH; [done|].
    unfold apply_op. rewrite Hi. unfold apply_item. rewrite bool_decide_eq_false_2; [done|].
    rewrite (op_item_key _ _ Hi). by destruct op.
Qed.

(** What the startup loop makes of the stored entries. *)
Lemma restore_lookup now (l : list (string * StoredRetainedMessage)) topic :
  NoDup l.*1 →
  restore_retained now l !! topic = restore_retained_message now topic <$> (list_to_map l : gmap _ _) !! topic.
Proof.
  unfold restore_retained. induction l as [|[k s] l IH] using rev_ind; intros Hn; [done|].
  rewrite fmap_app in Hn. apply NoDup_app in Hn as (Hn & Hd & _). rewrite foldl_app. cbn [foldl fst snd].
  assert (Hk : k ∉ l.*1) by (intros H; apply (Hd k H); cbn; set_solver).
  rewrite list_to_map_snoc by done. destruct (decide (k = topic)) as [->|Hne].
  - by rewrite !lookup_insert_eq.
  - rewrite !lookup_insert_ne by done. by apply IH.
Qed.

Lemma list_retained_stored (ks : KS) (live : gmap string RetainedMessage) :
  (∀ topic, stored_as (ks_get Retained topic ks) (live !! topic)) →
  ∃ l, list_retained None ks = Ok l ∧ NoDup l.*1 ∧
    ∀ now topic, restore_retained now l !! topic = restored now topic <$> live !! topic.
Proof.
  intros Hs.
  destruct (list_entries_loop_lookup (ks_iter Retained ks)
    (λ k, b ← ks_get Retained k ks; decode_from_slice (A:=StoredRetainedMessage) b)) as (l & Hl & Hk & Hin).
  { apply ks_iter_nodup. }
  { intros k b Hkb%ks_iter_get. rewrite Hkb. specialize (Hs k). rewrite Hkb in Hs.
    destruct (live !! k) as [rm|]; [|done]. destruct Hs as (c & ? & [= <-] & He).
    apply decode_encode_to_vec in He. cbn. by rewrite He; eauto. }
  pose proof (ks_iter_nodup Retained ks) as Hn. rewrite <-Hk in Hn.
  exists l. split_and!; [done|done|]. intros now topic. rewrite restore_lookup by done. specialize (Hs topic).
  destruct (ks_get Retained topic ks) as [b|] eqn:Hg.
  - destruct (live !! topic) as [rm|]; [|done]. destruct Hs as (c & ? & [= <-] & He).
    assert (Hkey : topic ∈ l.*1).
    { rewrite Hk. apply list_elem_of_fmap. exists (topic, b). split; [done|by apply ks_iter_get]. }
    apply list_elem_of_fmap in Hkey as ([k a] & -> & Ha). cbn in *. rewrite (elem_of_list_to_map_1 _ _ a Hn Ha).
    apply Hin in Ha. rewrite Hg in Ha. cbn in Ha. apply decode_encode_to_vec in He. rewrite He in Ha.
    injection Ha as <-. cbn. unfold restore_retained_message, restored. cbn. by rewrite stored_qos_as_u8.
  - destruct (live !! topic) as [rm|]; [destruct Hs as (? & ? & ? & ?); done|]. cbn.
    rewrite not_elem_of_list_to_map_1; [done|]. rewrite Hk. intros ([k b] & -> & Hb)%list_elem_of_fmap.
    apply ks_iter_get in Hb. cbn in *. congruence.
Qed.
(** What the next start loads, when every change was accepted and committed and
    nothing is queued. *)
Lemma restart_loads max acts (ks : KS) live us :
  (∀ topic, stored_as (ks_get Retained topic ks) (live !! topic)) →
  Forall (λ a, committed a = true) acts →
  Forall serializable (accepted max acts (Manager_new ks)) →
  filter is_retained_op (accepted max acts (Manager_new ks)) = retained_op <$> us →
  let m := run_actions max acts (Manager_new ks) in
  batch m = [] → rx m = [] →
  ∃ l, list_retained None (storage m) = Ok l ∧
    ∀ now topic, restore_retained now l !! topic = restored now topic <$> foldl apply_update live us !! topic.
Proof.
  intros He Hc Hs Hu m Hb Hq.
  destruct (list_retained_stored (storage m) (foldl apply_update live us)) as (l & Hl & _ & Hr).
  - intros topic. unfold m. rewrite run_get by done. cbn [storage Manager_new].
    rewrite all_committed_stored by by apply handed_committed.
    pose proof (run_queue max acts (Manager_new ks)) as Ha. cbn [batch rx Manager_new] in Ha. fold m in Ha.
    rewrite Hb, Hq, !app_nil_r in Ha. cbn in Ha. rewrite <-Ha. by apply retained_ops_stored.
  - exists l. auto.
Qed.
End restart.

(** ** Theorems *)

(** Storage keeps what it promises of messages and subscriptions: reading
    back a stored message gives the message with the six stored kinds of
    property and none of the others, an in-flight message keeps its identifier,
    handshake state and retry count, a subscription is unchanged, and the
    sending time is off by less than a second while the clocks run evenly. *)
Theorem stored_roundtrip c c' (m : InflightMessage) (pm : PendingMessage) (w : WillMessage) (sub : SessionSubscription) :
  same_rate c c' → if_sent_at m ≤ instant_now c → 0 ≤ system_now c - (instant_now c - if_sent_at m) →
  let m' := InflightMessage_from c' (StoredInflightMessage_from c m) in
  if_packet_id m' = if_packet_id m ∧ if_qos2_state m' = if_qos2_state m ∧
  if_retry_count m' = if_retry_count m ∧ if_publish m' = keep_stored (if_publish m) ∧
  Z.abs (if_sent_at m' - if_sent_at m) < 1000000000 ∧
  pm_publish (PendingMessage_from c' (StoredPendingMessage_from c pm)) = keep_stored (pm_publish pm) ∧
  WillMessage_from (StoredWillMessage_from w) =
    MkWillMessage (wm_topic w) (wm_payload w) (wm_qos w) (wm_retain w) (kept_properties (wm_properties w)) ∧
  SessionSubscription_from (StoredSubscription_from sub) = sub.
Proof.
  intros Hc Ht H0 m'. split_and!.
  - done.
  - unfold m'. cbn. by destruct (if_qos2_state m) as [[]|].
  - done.
  - apply publish_roundtrip.
  - by apply instant_roundtrip.
  - apply publish_roundtrip.
  - unfold WillMessage_from. cbn. by rewrite stored_qos_as_u8.
  - destruct sub as [f [q nl rap rh] i]. unfold SessionSubscription_from. cbn. rewrite stored_qos_as_u8.
    by destruct rh.
Qed.

Definition example_clock (t : Z) : Clock := MkClock t (1700000000500000000 + t).

Lemma stored_roundtrip_witness :
  let m := MkInflight 7 (example_message (Some 30)) (Some WaitingPubComp) 2600000000 1 in
  if_sent_at (InflightMessage_from (example_clock 9100000000) (StoredInflightMessage_from (example_clock 5000000000) m))
    = 3100000000 ∧
  if_qos2_state (InflightMessage_from (example_clock 9100000000) (StoredInflightMessage_from (example_clock 5000000000) m))
    = Some WaitingPubComp.
Proof.
  intros m. split; [vm_compute; reflexivity|].
  destruct (stored_roundtrip (example_clock 5000000000) (example_clock 9100000000) m
    (MkPending (if_publish m) 0) (MkWillMessage "w" [] AtMostOnce false Properties_default)
    (MkSessionSubscription "f" SubscriptionOptions_default None)) as (_ & -> & _);
    [split; vm_compute; congruence|vm_compute; discriminate|vm_compute; discriminate|reflexivity].
Defined.

(** An in-memory key-value store and a serializer for the examples. *)
Inductive any : Type :=
  | AnyRetained (a : StoredRetainedMessage)
  | AnySession (a : StoredSession)
  | AnyUser (a : StoredUser)
  | AnyRole (a : StoredRole).

#[global] Instance retained_bincode : Bincode StoredRetainedMessage any.
Proof.
  by refine {| encode_to_vec a := Some (AnyRetained a);
    decode_from_slice b := match b with AnyRetained a => Some a | _ => None end |}; intros; simplify_eq/=.
Defined.
#[global] Instance session_bincode : Bincode StoredSession any.
Proof.
  by refine {| encode_to_vec a := Some (AnySession a);
    decode_from_slice b := match b with AnySession a => Some a | _ => None end |}; intros; simplify_eq/=.
Defined.
#[global] Instance user_bincode : Bincode StoredUser any.
Proof.
  by refine {| encode_to_vec a := Some (AnyUser a);
    decode_from_slice b := match b with AnyUser a => Some a | _ => None end |}; intros; simplify_eq/=.
Defined.
#[global] Instance role_bincode : Bincode StoredRole any.
Proof.
  by refine {| encode_to_vec a := Some (AnyRole a);
    decode_from_slice b := match b with AnyRole a => Some a | _ => None end |}; intros; simplify_eq/=.
Defined.

Definition memory_put {B} (ks : Partition → gmap string B) (i : BatchItem B) (p : Partition) : gmap string B :=
  if decide (p = i.1.1) then partial_alter (fun _ => i.2) i.1.2 (ks p) else ks p.

#[global] Program Instance memory_keyspace (B : Type) : Keyspace (Partition → gmap string B) B :=
  {| ks_get p k ks := ks p !! k;
     ks_iter p ks := map_to_list (ks p);
     ks_commit items ks := foldl memory_put ks items |}.
Next Obligation.
  intros B p k items ks; revert ks. induction items as [|i items IH]; intros ks; [done|]. cbn [foldl]. rewrite IH. f_equal.
  unfold memory_put, apply_item. destruct i as [[p' k'] b]. cbn [fst snd]. case_decide as Hp.
  - subst p'. destruct (decide (k' = k)) as [->|Hk].
    + rewrite bool_decide_eq_true_2 by done. by rewrite lookup_partial_alter_eq.
    + rewrite bool_decide_eq_false_2 by congruence. by rewrite lookup_partial_alter_ne.
  - rewrite bool_decide_eq_false_2 by congruence. done.
Qed.
Next Obligation. intros. apply NoDup_fst_map_to_list. Qed.
Next Obligation. intros. apply elem_of_map_to_list. Qed.

Definition memory_empty : Partition → gmap string any := fun _ => ∅.

Definition example_retained : RetainedMessage := MkRetained "a" [x01] AtLeastOnce Properties_default 0.

Definition example_updates : list retained_update :=
  [MkRetainedUpdate (example_clock 0) "a" (Some example_retained);
   MkRetainedUpdate (example_clock 1) "b" (Some example_retained);
   MkRetainedUpdate (example_clock 2) "b" None].

Definition example_actions : list manager_action :=
  (Write <$> (retained_op <$> example_updates)) ++
  [Writer Received true; Writer Received true; Writer Received true; Writer IntervalTick true].

(** The background writer loses and reorders nothing while it runs: for
    every interleaving of writes with the writer loop, the operations accepted
    into the channel are, in order, those handed to the backend, those of the
    current batch and those still queued; the storage holds exactly the effect
    of the batches it accepted; a batch never reaches the maximal size, and the
    queue never exceeds the capacity of the channel. *)
Theorem writer_loop_spec {KS B} `{!Keyspace KS B} `{!Bincode StoredRetainedMessage B, !Bincode StoredSession B,
    !Bincode StoredUser B, !Bincode StoredRole B} max acts (ks : KS) :
  1 ≤ max → Forall serializable (accepted max acts (Manager_new ks)) →
  let m := run_actions max acts (Manager_new ks) in
  let batches := handed_over max acts (Manager_new ks) in
  accepted max acts (Manager_new ks) = mjoin batches.*1 ++ batch m ++ rx m ∧
  (∀ p k, ks_get p k (storage m) = foldl (apply_op p k) (ks_get p k ks) (stored_ops batches)) ∧
  zlen (batch m) < max ∧ zlen (rx m) ≤ CHANNEL_CAPACITY.
Proof.
  intros Hmax Hs m batches.
  destruct (run_bounds max acts (Manager_new ks)) as (? & ? & _); [done|by cbn; rewrite zlen_nil; lia|done|done|].
  split_and!; [|intros p k|done|done].
  - apply (run_queue max acts (Manager_new ks)).
  - by apply (run_get max acts (Manager_new ks)).
Qed.

Lemma writer_loop_spec_witness :
  zlen (batch (run_actions (B:=any) 2 (take 5 example_actions) (Manager_new memory_empty))) = 0 ∧
  zlen (accepted (B:=any) 2 (take 5 example_actions) (Manager_new memory_empty)) = 3 ∧
  rx (run_actions (B:=any) 2 (take 5 example_actions) (Manager_new memory_empty)) = [DeleteRetained "b"].
Proof.
  destruct (writer_loop_spec (B:=any) 2 (take 5 example_actions) memory_empty) as (-> & _ & _ & _).
  - lia.
  - repeat constructor; eexists; reflexivity.
  - vm_compute. auto.
Defined.
