(* ===== verification/Cluster.v ===== *)
(** * Clusters of brokers

    [cluster/protocol.rs], [cluster/peer.rs] and [cluster/manager.rs]: the
    messages between nodes and their framing, the connection to a node, the
    connection from a node, and the manager, which keeps one connection to each
    node it learns of and offers the filters of its own subscribers. bincode and
    serde_json are interfaces with their round trip as law; chitchat, which
    spreads the states of the nodes, is the environment: a round of the watcher
    gets the snapshot as input. Socket addresses and their textual form are a
    parameter. *)

From S2P Require Import Prelude Protocol TopicValidation TopicMapper Persistence Remote.

(** ** The protocol *)
Definition CLUSTER_PROTOCOL_VERSION : Z := 1.

Module CM.

Inductive ClusterMessage : Type :=
  | Hello (node_id : string) (version : Z)
  | HelloAck (node_id : string) (version : Z)
  | Publish (topic : string) (payload : list byte) (qos : Z) (retain : bool) (origin_node : string)
  | SubscriptionSync (filters : list string)
  | SubscriptionUpdate (added removed : list string)
  | Ping
  | Pong
  | Goodbye.

End CM.
Abbreviation ClusterMessage := CM.ClusterMessage.

Definition type_name (m : ClusterMessage) : string :=
  match m with
  | CM.Hello _ _ => "Hello"
  | CM.HelloAck _ _ => "HelloAck"
  | CM.Publish _ _ _ _ _ => "Publish"
  | CM.SubscriptionSync _ => "SubscriptionSync"
  | CM.SubscriptionUpdate _ _ => "SubscriptionUpdate"
  | CM.Ping => "Ping"
  | CM.Pong => "Pong"
  | CM.Goodbye => "Goodbye"
  end.

Definition read_frame_length (data : list byte) : option Z :=
  match data with
  | a :: b :: c :: d :: _ => Some (u32_from_be (u8 a) (u8 b) (u8 c) (u8 d))
  | _ => None
  end.

(** The bytes of a vector from [i] to [j]. *)
Definition slice_bytes (i j : Z) (l : list byte) : list byte := take (Z.to_nat (j - i)) (drop (Z.to_nat i) l).

Module CC.

Inductive ClusterCommand : Type :=
  | Publish (topic : string) (payload : list byte) (qos : QoS) (retain : bool) (origin_node : string)
  | SyncSubscriptions (filters : list string)
  | UpdateSubscriptions (added removed : list string)
  | Shutdown.

End CC.
Abbreviation ClusterCommand := CC.ClusterCommand.

(** The size of [read_buf]. *)
Definition READ_BUF : Z := 65536.

(** One end of a TCP connection: what has arrived and is not read yet, whether
    that is all, the first [buf_offset] bytes of [read_buf], what was written
    and whether the other end still takes data. [cn_local] is the rest of the
    task's state. *)
Record Conn (X : Type) : Type := MkConn {
  cn_incoming : list byte;
  cn_eof : bool;
  cn_buf : list byte;
  cn_written : list (list byte);
  cn_writable : bool;
  cn_local : X;
}.
Arguments MkConn {X}.
Arguments cn_incoming {X}.
Arguments cn_eof {X}.
Arguments cn_buf {X}.
Arguments cn_written {X}.
Arguments cn_writable {X}.
Arguments cn_local {X}.

#[global] Instance Conn_eta {X} : Eta (Conn X) := fun c =>
  MkConn (cn_incoming c) (cn_eof c) (cn_buf c) (cn_written c) (cn_writable c) (cn_local c).

Section cluster.
Context `{!Bincode ClusterMessage (list byte)}.

Definition frame_message (msg : ClusterMessage) : option (list byte) :=
  payload ← encode_to_vec msg;
  Some (be_u32 (wrap_u32 (zlen payload)) ++ payload).

(** ** Reading frames, the same in both directions *)
Section frames.
Context {E X : Type} (io_error closed_error : E).

#[local] Abbreviation ctask := (task E (Conn X)).

Definition write_half (frame : list byte) : ctask unit := fun c =>
  if cn_writable c then (Ok tt, c <| cn_written ::= (fun l => l ++ [frame]) |>) else (Err io_error, c).

Definition write_ignoring (frame : list byte) : ctask unit := fun c => (Ok tt, (write_half frame c).2).

(** [if let Ok(frame) = frame_message(&msg) { .. }] *)
Definition if_framed (msg : ClusterMessage) (k : list byte → ctask unit) : ctask unit :=
  match frame_message msg with Some frame => k frame | None => mret tt end.

(** [read_half.read(&mut read_buf[offset..])] for a ready socket, when the
    operating system hands over up to [n] bytes. *)
Definition read_socket (offset n : Z) : ctask (list byte) := fun c =>
  let k := Z.to_nat (Z.min (Z.max 1 n) (READ_BUF - offset)) in
  (Ok (take k (cn_incoming c)), c <| cn_incoming ::= drop k |>).

Definition readable (c : Conn X) : bool :=
  negb (is_nil (cn_incoming c)) || cn_eof c || (READ_BUF - zlen (cn_buf c) <=? 0).

(** The loop over complete frames. [handle] returns [false] when the code around
    it returns. *)
Fixpoint process_frames (handle : ClusterMessage → ctask bool) (fuel : nat) : ctask bool :=
  match fuel with
  | O => lift NoFuel
  | S fuel =>
      buf ← asks cn_buf;
      if zlen buf <? 4 then mret true
      else
        match read_frame_length buf with
        | None => lift Panic
        | Some len =>
            if zlen buf <? 4 + len then mret true
            else
              match decode_from_slice (slice_bytes 4 (4 + len) buf) with
              | Some msg => handle msg
              | None => mret true
              end ≫= fun go_on : bool =>
              if go_on then
                update (fun c => c <| cn_buf ::= drop (Z.to_nat (4 + len)) |>);;
                process_frames handle fuel
              else mret false
        end
  end.

(** A turn of the message loop that reads; [closed] is what is done when the
    read returns 0. *)
Definition read_turn (handle : ClusterMessage → ctask bool) (closed : ctask bool) (n : Z) : ctask bool :=
  asks readable ≫= fun ready : bool =>
  if ready then
    offset ← asks (fun c => zlen (cn_buf c));
    data ← read_socket offset n;
    if is_nil data then closed
    else
      update (fun c => c <| cn_buf ::= (fun buf => buf ++ data) |>);;
      fuel ← asks (fun c => length (cn_buf c));
      process_frames handle (S fuel)
  else mret true.

(** The first message of a connection, from one read at the start of
    [read_buf]; the message loop starts over with [buf_offset] 0. *)
Definition first_message (read : io_result Z) (timeout_error : E) (error : string → E) : ctask ClusterMessage :=
  match read with
  | IoOk n =>
      data ← read_socket 0 n;
      if is_nil data then throw closed_error
      else
        match read_frame_length data with
        | None => throw (error "Invalid frame")
        | Some len =>
            if zlen data <? 4 + len then throw (error "Incomplete frame")
            else
              match decode_from_slice (slice_bytes 4 (4 + len) data) with
              | Some msg => mret msg
              | None => throw (error "Decode error")
              end
        end
  | IoError => throw io_error
  | IoTimeout => throw timeout_error
  end.
End frames.

Definition qos_level (qos : Z) : QoS :=
  if qos =? 0 then AtMostOnce else if qos =? 1 then AtLeastOnce else ExactlyOnce.

(** ** A connection to a node ([peer.rs]) *)
Section peer.
Context {SocketAddr S : Type}.
Context (inbound_callback : string → list byte → QoS → bool → string → S → S) (io_error : string).

Record ClusterPeer : Type := MkClusterPeer {
  cp_node_id : string;
  cp_peer_addr : SocketAddr;
  cp_status : RemotePeerStatus;
  cp_command_tx : option (CommandChannel ClusterCommand);
  cp_remote_subscriptions : gset string;
  cp_local_node_id : string;
}.

#[global] Instance ClusterPeer_eta : Eta ClusterPeer := fun p =>
  MkClusterPeer (cp_node_id p) (cp_peer_addr p) (cp_status p) (cp_command_tx p) (cp_remote_subscriptions p)
    (cp_local_node_id p).

Definition ClusterPeer_new (node_id : string) (peer_addr : SocketAddr) (local_node_id : string) : ClusterPeer :=
  MkClusterPeer node_id peer_addr RS.Disconnected None ∅ local_node_id.

Definition update_remote_subscriptions (filters : list string) (p : ClusterPeer) : ClusterPeer :=
  p <| cp_remote_subscriptions := list_to_set filters |>.

Definition peer_send (cmd : ClusterCommand) (p : ClusterPeer) : remote_result * ClusterPeer :=
  let '(r, tx) := send_command cmd (cp_command_tx p) in (r, p <| cp_command_tx := tx |>).

Definition send_subscription_sync (filters : list string) : ClusterPeer → remote_result * ClusterPeer :=
  peer_send (CC.SyncSubscriptions filters).

Definition send_subscription_update (added removed : list string) : ClusterPeer → remote_result * ClusterPeer :=
  peer_send (CC.UpdateSubscriptions added removed).

Definition ClusterPeer_spawn (p : ClusterPeer) : ClusterPeer := p <| cp_command_tx := Some (MkCommandChannel [] true true) |>.

Definition cluster_forward_publish (topic : string) (payload : list byte) (qos : QoS) (retain : bool) (p : ClusterPeer)
    : remote_result * ClusterPeer :=
  peer_send (CC.Publish topic payload qos retain (cp_local_node_id p)) p.

Definition cluster_notify_subscribe (filter : string) (qos : QoS) : ClusterPeer → remote_result * ClusterPeer :=
  peer_send (CC.UpdateSubscriptions [filter] []).

Definition cluster_notify_unsubscribe (filter : string) : ClusterPeer → remote_result * ClusterPeer :=
  peer_send (CC.UpdateSubscriptions [] [filter]).

Definition cluster_should_forward (p : ClusterPeer) (topic : string) : bool :=
  existsb (fun filter => topic_matches_filter topic filter) (elements (cp_remote_subscriptions p)).

Definition cluster_start (p : ClusterPeer) : remote_result * ClusterPeer := (Ok tt, p).
Definition cluster_stop (p : ClusterPeer) : remote_result * ClusterPeer := (Ok tt, (peer_send CC.Shutdown p).2).

#[global] Instance ClusterPeer_peer : RemotePeer ClusterPeer :=
  {| peer_name := cp_node_id;
     peer_status := cp_status;
     peer_forward_publish := cluster_forward_publish;
     peer_notify_subscribe := cluster_notify_subscribe;
     peer_notify_unsubscribe := cluster_notify_unsubscribe;
     peer_should_forward := cluster_should_forward;
     peer_start := cluster_start;
     peer_stop := cluster_stop |}.

(** The task of the connection has the peer and the local broker. *)
Record PeerState : Type := MkPeerState {
  ps_peer : ClusterPeer;
  ps_broker : S;
}.

#[global] Instance PeerState_eta : Eta PeerState := fun s => MkPeerState (ps_peer s) (ps_broker s).

#[local] Abbreviation ptask := (task RemoteError (Conn PeerState)).

Definition update_peer (f : ClusterPeer → ClusterPeer) : ptask unit :=
  update (fun c => c <| cn_local ::= (fun s => s <| ps_peer ::= f |>) |>).

Definition peer_write (frame : list byte) : ptask unit := write_half (ConnectionLost io_error) frame.
Definition peer_write_ignoring (frame : list byte) : ptask unit := write_ignoring (ConnectionLost io_error) frame.

(** The handshake. *)
Definition peer_handshake (read : io_result Z) : ptask unit :=
  local_node_id ← asks (fun c => cp_local_node_id (ps_peer (cn_local c)));
  match frame_message (CM.Hello local_node_id CLUSTER_PROTOCOL_VERSION) with
  | None => throw (RemoteOther "Encode error")
  | Some frame => peer_write frame
  end;;
  msg ← first_message (ConnectionLost io_error) (ConnectionLost "Connection closed") read RemoteTimeout RemoteOther;
  match msg with
  | CM.HelloAck _ version =>
      if negb (version =? CLUSTER_PROTOCOL_VERSION) then throw (Rejected "Protocol version mismatch")
      else update_peer (fun p => p <| cp_status := RS.Connected |>)
  | _ => throw (RemoteOther "Expected HelloAck")
  end.

Definition peer_handle_command (cmd : ClusterCommand) : ptask bool :=
  match cmd with
  | CC.Publish topic payload qos retain origin_node =>
      if_framed (CM.Publish topic payload (QoS_as_u8 qos) retain origin_node) peer_write;; mret true
  | CC.SyncSubscriptions filters => if_framed (CM.SubscriptionSync filters) peer_write_ignoring;; mret true
  | CC.UpdateSubscriptions added removed =>
      if_framed (CM.SubscriptionUpdate added removed) peer_write_ignoring;; mret true
  | CC.Shutdown => if_framed CM.Goodbye peer_write_ignoring;; mret false
  end.

Definition peer_handle_message (msg : ClusterMessage) : ptask bool :=
  match msg with
  | CM.Publish topic payload qos retain origin_node =>
      update (fun c => c <| cn_local ::= (fun s =>
        s <| ps_broker ::= inbound_callback topic payload (qos_level qos) retain origin_node |>) |>);;
      mret true
  | CM.SubscriptionSync filters => update_peer (update_remote_subscriptions filters);; mret true
  | CM.SubscriptionUpdate added removed =>
      update_peer (fun p => p <| cp_remote_subscriptions ::=
        (fun subs => (subs ∖ list_to_set removed) ∪ list_to_set added) |>);;
      mret true
  | CM.Ping => if_framed CM.Pong peer_write_ignoring;; mret true
  | CM.Goodbye => throw (ConnectionLost "Peer disconnected")
  | _ => mret true
  end.

(** What can happen in the message loop. *)
Inductive peer_event : Type :=
  | PCommand
  | PRead (n : Z)
  | PReadError
  | PTick.

Definition peer_step (e : peer_event) : ptask bool :=
  match e with
  | PCommand => fun c =>
      match try_recv <$> cp_command_tx (ps_peer (cn_local c)) with
      | Some (Received cmd, ch) =>
          (update_peer (fun p => p <| cp_command_tx := Some ch |>);; peer_handle_command cmd) c
      | _ => (Ok true, c)
      end
  | PRead n => read_turn peer_handle_message (throw (ConnectionLost "Connection closed")) n
  | PReadError => throw (ConnectionLost io_error)
  | PTick => if_framed CM.Ping peer_write;; mret true
  end.

Fixpoint peer_loop (events : list peer_event) : ptask bool :=
  match events with
  | [] => mret true
  | e :: events => peer_step e ≫= fun go_on : bool => if go_on then peer_loop events else mret false
  end.

(** [conn] is the new connection. *)
Definition peer_connect_and_run (tcp : io_result unit) (read : io_result Z) (events : list peer_event) : ptask bool :=
  match tcp with
  | IoOk _ => peer_handshake read;; peer_loop events
  | IoError => throw (ConnectionLost io_error)
  | IoTimeout => throw RemoteTimeout
  end.

(** After an attempt that ended with [r], as for a bridge, with a maximum of 30
    seconds. *)
Definition peer_loop_returns : ptask (option Z) :=
  update_peer (fun p => p <| cp_status := RS.Disconnected |> <| cp_command_tx ::= fmap drop_receiver |>);;
  mret None.

Definition peer_after_attempt (r : outcome RemoteError unit) (retry : Z) : ptask (option Z) :=
  match r with
  | Ok _ => peer_loop_returns
  | Err _ =>
      update_peer (fun p => p <| cp_status := RS.Backoff |>);;
      retry ← lift (next_retry retry (from_secs 30));
      tx ← asks (fun c => cp_command_tx (ps_peer (cn_local c)));
      match try_recv <$> tx with
      | Some (Received CC.Shutdown, _) | Some (ChannelClosed, _) | None => peer_loop_returns
      | Some (_, ch) => update_peer (fun p => p <| cp_command_tx := Some ch |>);; mret (Some retry)
      end
  | Panic => lift Panic
  | NoFuel => lift NoFuel
  end.

(** An attempt gets a new connection, with what arrives on it. *)
Record peer_attempt : Type := MkPeerAttempt {
  pa_tcp : io_result unit;
  pa_incoming : list byte;
  pa_eof : bool;
  pa_read : io_result Z;
  pa_events : list peer_event;
}.

Fixpoint peer_connection_loop (attempts : list peer_attempt) (retry : Z) : ptask (option Z) :=
  match attempts with
  | [] => mret (Some retry)
  | a :: attempts =>
      update_peer (fun p => p <| cp_status := RS.Connecting |>);;
      update (fun c => MkConn (pa_incoming a) (pa_eof a) [] [] true (cn_local c));;
      r ← attempt_result (peer_connect_and_run (pa_tcp a) (pa_read a) (pa_events a));
      match r with
      | Ok true => mret (Some retry)
      | r =>
          next ← peer_after_attempt (outcome_void r) retry;
          match next with
          | Some retry => peer_connection_loop attempts retry
          | None => mret None
          end
      end
  end.
End peer.

(** ** A connection from a node ([manager.rs]) *)
Section incoming.
Context {S : Type}.
Context (inbound_callback : string → list byte → QoS → bool → string → S → S) (io_error : string).

#[local] Abbreviation itask := (task string (Conn S)).

Definition send_message (msg : ClusterMessage) : itask unit :=
  match frame_message msg with
  | None => throw "Encode error"
  | Some frame => write_half io_error frame
  end.

(** Up to the message loop; [subs] is the content of [local_subs]. *)
Definition accept_handshake (local_node_id : string) (subs : gset string) (read : io_result Z) : itask unit :=
  msg ← first_message io_error "Connection closed" read "deadline has elapsed" id;
  match msg with
  | CM.Hello _ version =>
      if negb (version =? CLUSTER_PROTOCOL_VERSION) then throw "Protocol version mismatch" else mret tt
  | _ => throw "Expected Hello"
  end;;
  send_message (CM.HelloAck local_node_id CLUSTER_PROTOCOL_VERSION);;
  send_message (CM.SubscriptionSync (elements subs)).

Definition incoming_handle_message (msg : ClusterMessage) : itask bool :=
  match msg with
  | CM.Publish topic payload qos retain origin_node =>
      update (fun c => c <| cn_local ::= inbound_callback topic payload (qos_level qos) retain origin_node |>);;
      mret true
  | CM.Ping => if_framed CM.Pong (write_ignoring io_error);; mret true
  | CM.Goodbye => mret false
  | _ => mret true
  end.

(** The message loop for reads of the given sizes; [false] when the connection
    has ended. *)
Fixpoint incoming_loop (sizes : list Z) : itask bool :=
  match sizes with
  | [] => mret true
  | n :: sizes =>
      read_turn incoming_handle_message (mret false) n ≫= fun go_on : bool =>
      if go_on then incoming_loop sizes else mret false
  end.

Definition handle_incoming_peer (local_node_id : string) (subs : gset string) (read : io_result Z) (sizes : list Z) : itask bool :=
  accept_handshake local_node_id subs read;;
  incoming_loop sizes.
End incoming.

(** ** The manager *)
Class Json : Type := {
  json_to_string : list string → option string;
  json_from_str : string → option (list string);
  json_from_to l s : json_to_string l = Some s → json_from_str s = Some l;
}.

Section manager.
Context {SocketAddr : Type} (parse_addr : string → option SocketAddr) `{!Json}.

(** [cm_gossip_subscriptions] is the value of the key [subscriptions] in the
    node's own gossip state. *)
Record ClusterManager : Type := MkClusterManager {
  cm_node_id : string;
  cm_peers : gmap string (@ClusterPeer SocketAddr);
  cm_local_subscriptions : gset string;
  cm_gossip_peer_addr : string;
  cm_gossip_subscriptions : string;
}.

#[global] Instance ClusterManager_eta : Eta ClusterManager := fun m =>
  MkClusterManager (cm_node_id m) (cm_peers m) (cm_local_subscriptions m) (cm_gossip_peer_addr m) (cm_gossip_subscriptions m).

Definition ClusterManager_new (node_id peer_advertise_addr : string) : ClusterManager :=
  MkClusterManager node_id ∅ ∅ peer_advertise_addr "[]".

Definition peer_count (m : ClusterManager) : Z := Z.of_nat (size (cm_peers m)).
Definition connected_peer_count (m : ClusterManager) : Z :=
  zlen (filter (fun e : string * ClusterPeer => is_connected e.2) (map_to_list (cm_peers m))).

Definition update_subscriptions (filters : gset string) (m : ClusterManager) : ClusterManager :=
  m <| cm_local_subscriptions := filters |>
    <| cm_gossip_subscriptions := default "[]"%string (json_to_string (elements filters)) |>.

Definition add_subscription (filter : string) (m : ClusterManager) : ClusterManager :=
  update_subscriptions ({[filter]} ∪ cm_local_subscriptions m) m.

Definition remove_subscription (filter : string) (m : ClusterManager) : ClusterManager :=
  update_subscriptions (cm_local_subscriptions m ∖ {[filter]}) m.

(** Errors are logged. *)
Definition cluster_manager_forward (topic : string) (payload : list byte) (qos : QoS) (retain : bool) (m : ClusterManager)
    : ClusterManager :=
  m <| cm_peers ::= fmap (fun p =>
         if is_connected p && peer_should_forward p topic then (peer_forward_publish topic payload qos retain p).2 else p) |>.

Definition cluster_manager_stop (m : ClusterManager) : ClusterManager := m <| cm_peers ::= fmap (fun p => (peer_stop p).2) |>.

(** *** The watcher *)
Record NodeState : Type := MkNodeState {
  ns_node_id : string;
  ns_peer_addr : option string;
  ns_subscriptions : option string;
}.

Definition discover (local_node_id : string) (ns : NodeState) (s : gset string * gmap string (@ClusterPeer SocketAddr))
    : gset string * gmap string (@ClusterPeer SocketAddr) :=
  let '(known, peers) := s in
  if decide (ns_node_id ns ∈ known) then (known, peers)
  else
    ({[ns_node_id ns]} ∪ known,
     match ns_peer_addr ns ≫= parse_addr with
     | Some addr => <[ns_node_id ns := ClusterPeer_spawn (ClusterPeer_new (ns_node_id ns) addr local_node_id)]> peers
     | None => peers
     end).

Definition watch_node (local_node_id : string) (s : gset string * gmap string (@ClusterPeer SocketAddr)) (ns : NodeState)
    : gset string * gmap string (@ClusterPeer SocketAddr) :=
  if String.eqb (ns_node_id ns) local_node_id then s
  else
    let '(known, peers) := discover local_node_id ns s in
    match peers !! ns_node_id ns, ns_subscriptions ns ≫= json_from_str with
    | Some p, Some filters => (known, <[ns_node_id ns := update_remote_subscriptions filters p]> peers)
    | _, _ => (known, peers)
    end.

Definition remove_node (s : (gset string * gmap string (@ClusterPeer SocketAddr)) * list (@ClusterPeer SocketAddr)) (node_id : string)
    : (gset string * gmap string (@ClusterPeer SocketAddr)) * list (@ClusterPeer SocketAddr) :=
  let '((known, peers), stopped) := s in
  ((known ∖ {[node_id]}, delete node_id peers),
   match peers !! node_id with Some p => stopped ++ [(peer_stop p).2] | None => stopped end).

(** A round with the snapshot [nodes]: the known nodes, the peers, and those
    that were told to stop. *)
Definition gossip_round (local_node_id : string) (nodes : list NodeState)
    (s : gset string * gmap string (@ClusterPeer SocketAddr))
    : (gset string * gmap string (@ClusterPeer SocketAddr)) * list (@ClusterPeer SocketAddr) :=
  let '(known, peers) := foldl (watch_node local_node_id) s nodes in
  let current : gset string := list_to_set (ns_node_id <$> nodes) in
  let dead := filter (fun n => n ≠ local_node_id ∧ n ∉ current) (elements known) in
  foldl remove_node ((known, peers), []) dead.

(** What the other nodes learn of a manager. *)
Definition gossip_state (m : ClusterManager) : NodeState :=
  MkNodeState (cm_node_id m) (Some (cm_gossip_peer_addr m)) (Some (cm_gossip_subscriptions m)).
End manager.
End cluster.

(** ** Lemmas: streams of frames *)
Section streams.
Context `{!Bincode ClusterMessage (list byte)}.

Lemma frame_message_split m f rest :
  frame_message m = Some f → zlen f ≤ 2 ^ 32 →
  ∃ len, read_frame_length (f ++ rest) = Some len ∧ zlen f = 4 + len ∧ 0 ≤ len ∧
    decode_from_slice (slice_bytes 4 (4 + len) (f ++ rest)) = Some m.
Proof.
  unfold frame_message. intros (payload & Hp & Hf)%bind_Some Hl.
  assert (f = be_u32 (wrap_u32 (zlen payload)) ++ payload) as -> by congruence. clear Hf.
  rewrite zlen_app in Hl. change (zlen (be_u32 _)) with 4 in Hl.
  pose proof (Zle_0_nat (length payload)) as Hpos. change (0 ≤ zlen payload) in Hpos.
  assert (Hw : wrap_u32 (zlen payload) = zlen payload) by (unfold wrap_u32; apply Z.mod_small; lia).
  rewrite Hw. exists (zlen payload). split_and!; [| |lia|].
  - cbn [be_u32 app read_frame_length]. f_equal. apply u32_from_be_be. unfold is_u32. lia.
  - by rewrite zlen_app.
  - unfold slice_bytes. replace (4 + zlen payload - 4) with (zlen payload) by lia. cbn [be_u32 app].
    change (Z.to_nat 4) with 4%nat. cbn [skipn]. unfold zlen.
    rewrite Nat2Z.id, drop_0, take_app_length. by eapply decode_encode_to_vec.
Qed.

(** The length is read as soon as four bytes are there. *)
Lemma read_frame_length_prefix buf l : 4 ≤ zlen buf → read_frame_length (buf ++ l) = read_frame_length buf.
Proof. destruct buf as [|a [|b [|x [|d buf]]]]; cbn; unfold zlen; cbn; [lia..|done]. Qed.

Lemma read_frame_length_short buf : read_frame_length buf = None → zlen buf < 4.
Proof. destruct buf as [|a [|b [|x [|d buf]]]]; cbn; unfold zlen; cbn; [lia..|done]. Qed.

Section handler.
Context {E X : Type} (handle : ClusterMessage → task E (Conn X) bool) (closed : task E (Conn X) bool).
Context (act : ClusterMessage → X → X) (reply : ClusterMessage → list (list byte)).

(** What the messages [ms] do, handled in order. *)
Definition effects (ms : list ClusterMessage) (c : Conn X) : Conn X :=
  c <| cn_local ::= (fun x => foldl (fun x m => act m x) x ms) |> <| cn_written ::= (fun l => l ++ (ms ≫= reply)) |>.

Definition handled (m : ClusterMessage) : Prop := ∀ c, cn_writable c = true → handle m c = (Ok true, effects [m] c).

(** [fs] are the frames of [ms], and [buf] with [inc] after it is their stream. *)
Definition stream (ms : list ClusterMessage) (fs : list (list byte)) (buf inc : list byte) : Prop :=
  Forall2 (λ m f, frame_message m = Some f ∧ zlen f ≤ READ_BUF) ms fs ∧ buf ++ inc = concat fs.

(** [buf] does not hold the first frame. *)
Definition incomplete (fs : list (list byte)) (buf : list byte) : Prop :=
  match fs with [] => buf = [] | f :: _ => zlen buf < zlen f end.

Lemma effects_nil c : effects [] c = c.
Proof. destruct c. unfold effects. cbv [set_field]. cbn. by rewrite app_nil_r. Qed.

Lemma effects_cons m ms c : effects ms (effects [m] c) = effects (m :: ms) c.
Proof. destruct c. unfold effects. cbv [set_field]. cbn. by rewrite app_nil_r, <-app_assoc. Qed.

(** With less than a frame in the buffer nothing happens. *)
Lemma process_partial fuel m f l c :
  frame_message m = Some f → zlen f ≤ 2 ^ 32 → f = cn_buf c ++ l → zlen (cn_buf c) < zlen f →
  process_frames handle (S fuel) c = (Ok true, c).
Proof.
  intros Hm Hl Hf Hlt. cbn [process_frames]. unfold mbind at 1, task_bind at 1, asks at 1.
  destruct (Z.ltb_spec (zlen (cn_buf c)) 4); [done|].
  destruct (frame_message_split m f [] Hm Hl) as (len & Hr & Hz & _ & _).
  rewrite app_nil_r, Hf, read_frame_length_prefix in Hr by done. rewrite Hr.
  by rewrite (proj2 (Z.ltb_lt _ _)) by lia.
Qed.

(** A complete frame is handled and removed. *)
Lemma process_frame fuel m f l c :
  frame_message m = Some f → zlen f ≤ 2 ^ 32 → cn_buf c = f ++ l → cn_writable c = true → handled m →
  process_frames handle (S fuel) c = process_frames handle fuel (effects [m] (c <| cn_buf := l |>)).
Proof.
  intros Hm Hl Hb Hw Hh. cbn [process_frames]. unfold mbind at 1, task_bind at 1, asks at 1. rewrite Hb.
  destruct (frame_message_split m f l Hm Hl) as (len & Hr & Hz & Hpos & Hd).
  assert (4 + len ≤ zlen (f ++ l)) by (rewrite zlen_app; llia).
  rewrite (proj2 (Z.ltb_ge _ _)), Hr, (proj2 (Z.ltb_ge _ _)), Hd by lia.
  unfold mbind, task_bind. rewrite Hh by done. unfold update. f_equal. destruct c. unfold effects. cbv [set_field]. cbn in *.
  f_equal. subst. replace (Z.to_nat (4 + len)) with (length f) by (unfold zlen in *; lia). apply drop_app_length.
Qed.

Lemma process_frames_stream fuel ms fs c :
  Forall handled ms → stream ms fs (cn_buf c) (cn_incoming c) → (length (cn_buf c) < fuel)%nat → cn_writable c = true →
  ∃ ms1 ms2 fs2 buf, ms = ms1 ++ ms2 ∧ stream ms2 fs2 buf (cn_incoming c) ∧ incomplete fs2 buf ∧
    process_frames handle fuel c = (Ok true, effects ms1 (c <| cn_buf := buf |>)).
Proof.
  revert ms fs c. induction fuel as [|fuel IH]; intros ms fs c Hh [Hms Hb] Hf Hw; [lia|].
  destruct Hms as [|m f ms fs [Hm Hl'] Hms].
  { exists [], [], [], []. rewrite effects_nil. apply app_eq_nil in Hb as [Hb Hi]. split_and!; [done|by split|done|].
    destruct c; cbn in *. by subst. }
  assert (Hl : zlen f ≤ 2 ^ 32) by (unfold READ_BUF in Hl'; lia).
  cbn [concat] in Hb. apply Forall_cons in Hh as [Hh Hhs].
  destruct (decide (zlen (cn_buf c) < zlen f)) as [Hlt|Hge].
  - exists [], (m :: ms), (f :: fs), (cn_buf c). rewrite effects_nil. split_and!; [done|by split; [constructor|]|done|].
    destruct (app_eq_inv _ _ _ _ Hb) as [(k & Hk & _)|(k & Hk & _)].
    { rewrite Hk, zlen_app in Hlt. unfold zlen in Hlt. lia. }
    erewrite process_partial by done. by destruct c.
  - assert (∃ l, cn_buf c = f ++ l ∧ l ++ cn_incoming c = concat fs) as (l & Hl1 & Hl2).
    { destruct (app_eq_inv _ _ _ _ Hb) as [(k & Hk & Hk2)|(k & Hk & Hk2)]; [by exists k|]. exists [].
      rewrite Hk, zlen_app in Hge. destruct k; [|unfold zlen in Hge; cbn in Hge; lia]. rewrite app_nil_r in Hk. by rewrite app_nil_r. }
    erewrite process_frame by done.
    destruct (IH ms fs (effects [m] (c <| cn_buf := l |>))) as (ms1 & ms2 & fs2 & buf & -> & Hs & Hi & ->); [done|by split| |done|].
    { cbn. rewrite Hl1, length_app in Hf. destruct (frame_message_split m f [] Hm Hl) as (len & _ & Hz & ? & _). unfold zlen in Hz. lia. }
    exists (m :: ms1), ms2, fs2, buf. split_and!; [done|done|done|]. rewrite <-(effects_cons m ms1). by destruct c.
Qed.

(** Reads of the given sizes. *)
Fixpoint read_turns (sizes : list Z) : task E (Conn X) bool :=
  match sizes with
  | [] => mret true
  | n :: sizes => read_turn handle closed n ≫= fun go_on : bool => if go_on then read_turns sizes else mret false
  end.

Lemma stream_done ms fs buf : stream ms fs buf [] → incomplete fs buf → ms = [] ∧ fs = [] ∧ buf = [].
Proof.
  intros [Hms Hb] Hi. rewrite app_nil_r in Hb. destruct Hms as [|m f ms fs]; [done|]. cbn in Hb, Hi.
  rewrite Hb, zlen_app in Hi. llia.
Qed.

Lemma incomplete_space ms fs buf inc : stream ms fs buf inc → incomplete fs buf → zlen buf < READ_BUF.
Proof. intros [Hms _] Hi. destruct Hms as [|m f ms fs [_ Hl] _]; cbn in Hi; [by subst|lia]. Qed.

(** One read hands over at least a byte and handles what is complete. *)
Lemma read_turn_stream n ms fs c :
  Forall handled ms → stream ms fs (cn_buf c) (cn_incoming c) → incomplete fs (cn_buf c) → cn_writable c = true →
  cn_incoming c ≠ [] →
  ∃ ms1 ms2 fs2 buf inc, ms = ms1 ++ ms2 ∧ stream ms2 fs2 buf inc ∧ incomplete fs2 buf ∧ (length inc < length (cn_incoming c))%nat ∧
    read_turn handle closed n c = (Ok true, effects ms1 (c <| cn_buf := buf |> <| cn_incoming := inc |>)).
Proof.
  intros Hh Hs Hi Hw Hne. pose proof (incomplete_space _ _ _ _ Hs Hi) as Hsp. unfold read_turn.
  unfold mbind at 1, task_bind at 1, asks at 1. assert (readable c = true) as ->.
  { unfold readable. by destruct (cn_incoming c). }
  unfold mbind, task_bind, asks, read_socket, update. set (k := Z.to_nat _).
  assert (Hk : (0 < k)%nat) by (unfold k; lia). clearbody k.
  destruct (cn_incoming c) as [|b inc] eqn:Hinc; [done|]. destruct k as [|k]; [lia|]. cbn [take drop firstn skipn is_nil].
  set (c1 := c <| cn_incoming ::= drop (Datatypes.S k) |> <| cn_buf ::= (λ buf, buf ++ b :: take k inc) |>).
  destruct (process_frames_stream (Datatypes.S (length (cn_buf c1))) ms fs c1) as (ms1 & ms2 & fs2 & buf & Hms & Hs2 & Hi2 & Hp);
    [done| |lia|done|].
  { destruct Hs as [Hs Hb]. split; [done|]. unfold c1. cbn. rewrite Hinc. cbn. rewrite <-app_assoc, <-Hb. cbn. by rewrite take_drop. }
  exists ms1, ms2, fs2, buf, (drop k inc). split_and!; [done| |done| |].
  - unfold c1 in Hs2. cbn in Hs2. by rewrite Hinc in Hs2.
  - rewrite length_drop. cbn. lia.
  - etrans; [apply Hp|]. unfold c1. destruct c. cbn in *. by subst.
Qed.

Lemma read_turns_stream sizes ms fs c :
  Forall handled ms → stream ms fs (cn_buf c) (cn_incoming c) → incomplete fs (cn_buf c) → cn_writable c = true →
  cn_eof c = false → (length (cn_incoming c) ≤ length sizes)%nat →
  read_turns sizes c = (Ok true, effects ms (c <| cn_buf := [] |> <| cn_incoming := [] |>)).
Proof.
  revert ms fs c. induction sizes as [|n sizes IH]; intros ms fs c Hh Hs Hi Hw He Hl.
  all: destruct (decide (cn_incoming c = [])) as [Hn|Hn].
  all: try (rewrite Hn in Hs; destruct (stream_done _ _ _ Hs Hi) as (-> & -> & Hb)).
  - rewrite effects_nil. cbn. destruct c; cbn in *. by subst.
  - destruct (cn_incoming c); [done|cbn in Hl; lia].
  - cbn [read_turns]. unfold read_turn, mbind, task_bind, asks at 1. unfold readable. rewrite Hn, He, Hb. cbn.
    apply (IH [] []); [done|by split; [constructor|rewrite Hb, Hn]|done..|rewrite Hn; cbn; lia].
  - destruct (read_turn_stream n ms fs c Hh Hs Hi Hw Hn) as (ms1 & ms2 & fs2 & buf & inc & -> & Hs2 & Hi2 & Hlt & Hr).
    cbn [read_turns]. unfold mbind, task_bind. rewrite Hr. apply Forall_app in Hh as [_ Hh2].
    erewrite (IH ms2 fs2); [|done|done|done|done|done|cbn in *; lia].
    f_equal. destruct c. unfold effects. cbv [set_field]. cbn. f_equal; [by rewrite bind_app, app_assoc|by rewrite foldl_app].
Qed.
End handler.
End streams.

(** ** Properties *)
Section properties.
Context `{!Bincode ClusterMessage (list byte)} {SocketAddr S : Type}.
Context (inbound_callback : string → list byte → QoS → bool → string → S → S) (io_error : string).

(** The message between the nodes, and the command for it. *)
Definition relayed (origin : string) (m : message) : ClusterMessage :=
  CM.Publish (m_topic m) (m_payload m) (QoS_as_u8 (m_qos m)) (m_retain m) origin.

Definition relay_command (origin : string) (m : message) : ClusterCommand :=
  CC.Publish (m_topic m) (m_payload m) (m_qos m) (m_retain m) origin.

Definition relay_all (ms : list message) (p : @ClusterPeer SocketAddr) : ClusterPeer :=
  foldl (fun p m => (cluster_forward_publish (m_topic m) (m_payload m) (m_qos m) (m_retain m) p).2) p ms.

Lemma relay_all_queue ms p q :
  cp_command_tx p = Some (MkCommandChannel q true true) →
  relay_all ms p = p <| cp_command_tx := Some (MkCommandChannel (q ++ (relay_command (cp_local_node_id p) <$> ms)) true true) |>.
Proof.
  revert p q. induction ms as [|m ms IH]; intros p q Hq.
  - destruct p. cbn in *. by rewrite app_nil_r, Hq.
  - change (relay_all (m :: ms) p) with
      (relay_all ms (cluster_forward_publish (m_topic m) (m_payload m) (m_qos m) (m_retain m) p).2).
    unfold cluster_forward_publish, peer_send. rewrite Hq. cbn [send_command cc_open snd].
    erewrite IH by reflexivity. cbn. by rewrite <-app_assoc.
Qed.

Lemma relay_writes ms frames (c : Conn (@PeerState SocketAddr S)) origin :
  cp_command_tx (ps_peer (cn_local c)) = Some (MkCommandChannel (relay_command origin <$> ms) true true) → cn_writable c = true →
  Forall2 (λ m f, frame_message (relayed origin m) = Some f) ms frames →
  ∃ c', peer_loop inbound_callback io_error (replicate (length ms) PCommand) c = (Ok true, c') ∧ cn_written c' = cn_written c ++ frames.
Proof.
  intros Hq Hw Hf. revert c Hq Hw. induction Hf as [|m f ms frames Hm Hf IH]; intros c Hq Hw.
  - exists c. by rewrite app_nil_r.
  - cbn [length replicate peer_loop peer_step]. unfold mbind at 1, task_bind at 1. rewrite Hq. cbn [fmap option_fmap option_map list_fmap try_recv cc_queue].
    set (c1 := c <| cn_local ::= (λ s, s <| ps_peer ::= (λ p, p <| cp_command_tx := Some (MkCommandChannel (relay_command origin <$> ms) true true) |>) |>) |>
                 <| cn_written ::= (λ l, l ++ [f]) |>).
    destruct (IH c1) as (c' & Hc' & Hwr); [done|done|]. exists c'. split; [|by rewrite Hwr; unfold c1; cbn; rewrite <-app_assoc].
    unfold update_peer, update, mbind, task_bind. cbn [peer_handle_command relay_command]. unfold if_framed, mbind, task_bind.
    unfold relayed in Hm. rewrite Hm. unfold peer_write, write_half. cbn. rewrite Hw. exact Hc'.
Qed.

(** What a received message does to the local broker. *)
Definition received_by (m : ClusterMessage) (b : S) : S :=
  match m with
  | CM.Publish topic payload qos retain origin => inbound_callback topic payload (qos_level qos) retain origin b
  | _ => b
  end.

Lemma incoming_turns sizes :
  incoming_loop inbound_callback io_error sizes = read_turns (incoming_handle_message inbound_callback io_error) (mret false) sizes.
Proof. done. Qed.

Lemma incoming_handled origin m :
  handled (incoming_handle_message inbound_callback io_error) received_by (λ _, []) (relayed origin m).
Proof. intros c _. unfold effects. destruct c. cbv [set_field]. cbn. by rewrite app_nil_r. Qed.

Lemma qos_level_as_u8 q : qos_level (QoS_as_u8 q) = q.
Proof. by destruct q. Qed.

Lemma received_relayed origin ms b :
  foldl (λ b m, received_by m b) b (relayed origin <$> ms) =
  foldl (λ b m, inbound_callback (m_topic m) (m_payload m) (m_qos m) (m_retain m) origin b) b ms.
Proof. revert b. induction ms as [|m ms IH]; intros b; [done|]. cbn. by rewrite qos_level_as_u8, IH. Qed.

(** C24. Messages between the nodes of a cluster arrive: when a node forwards
    any messages to a peer whose connection is up and their frames fit the
    64 KiB buffer, the connection writes one frame for each; and however the
    network cuts this stream into reads, the node at the other end publishes
    exactly these messages, in order, with topic, payload, QoS and retain flag
    unchanged and the sender as origin. *)
Theorem cluster_delivers ms frames (a : Conn (@PeerState SocketAddr S)) (b : Conn S) :
  let origin := cp_local_node_id (ps_peer (cn_local a)) in
  cp_command_tx (ps_peer (cn_local a)) = Some (MkCommandChannel [] true true) → cn_writable a = true →
  Forall2 (λ m f, frame_message (relayed origin m) = Some f ∧ zlen f ≤ READ_BUF) ms frames →
  cn_buf b = [] → cn_writable b = true → cn_eof b = false →
  ∃ a', peer_loop inbound_callback io_error (replicate (length ms) PCommand)
          (a <| cn_local ::= (λ s, s <| ps_peer ::= relay_all ms |>) |>) = (Ok true, a') ∧
    cn_written a' = cn_written a ++ frames ∧
    ∀ sizes, cn_incoming b = concat frames → (length (concat frames) ≤ length sizes)%nat →
      incoming_loop inbound_callback io_error sizes b =
        (Ok true, b <| cn_incoming := [] |>
                    <| cn_local ::= (λ s, foldl (λ s m,
                          inbound_callback (m_topic m) (m_payload m) (m_qos m) (m_retain m) origin s) s ms) |>).
Proof.
  cbv zeta. set (origin := cp_local_node_id _). intros Hq Hw Hf Hb Hbw Hbe.
  destruct (relay_writes ms frames (a <| cn_local ::= (λ s, s <| ps_peer ::= relay_all ms |>) |>) origin) as (a' & Ha & Hwr);
    [|done|by eapply Forall2_impl; [exact Hf|]; intros ? ? []|].
  { change (ps_peer _) with (relay_all ms (ps_peer (cn_local a))). by rewrite (relay_all_queue ms _ [] Hq). }
  exists a'. split_and!; [done|done|]. intros sizes Hi Hs. rewrite incoming_turns.
  rewrite (read_turns_stream _ _ received_by (λ _, []) sizes (relayed origin <$> ms) frames b).
  - unfold effects. destruct b; cbn in *. cbv [set_field]. cbn. rewrite received_relayed. do 2 f_equal; [done|].
    assert (((relayed origin <$> ms) ≫= λ _, []) = @nil (list byte)) as ->; [|by rewrite app_nil_r].
    generalize (relayed origin <$> ms). by induction l.
  - apply Forall_fmap, Forall_true. intros m. apply incoming_handled.
  - rewrite Hb, Hi. split; [|done]. by apply Forall2_fmap_l.
  - rewrite Hb. destruct Hf as [|m f ms frames [Hm Hl] _]; [done|]. cbn.
    destruct (frame_message_split _ f [] Hm) as (len & _ & -> & ? & _); [unfold READ_BUF in Hl; lia|]. unfold zlen. cbn. lia.
  - done.
  - done.
  - by rewrite Hi.
Qed.

Lemma first_message_frame {E X} (io_err closed_err timeout_err : E) (error : string → E) n m f rest (c : Conn X) :
  frame_message m = Some f → zlen (f ++ rest) ≤ n → n ≤ READ_BUF → cn_incoming c = f ++ rest →
  first_message io_err closed_err (IoOk n) timeout_err error c = (Ok m, c <| cn_incoming := [] |>).
Proof.
  intros Hm Hn Hr Hi. assert (Hl : zlen f ≤ 2 ^ 32) by (rewrite zlen_app in Hn; unfold READ_BUF in Hr; llia).
  destruct (frame_message_split m f rest Hm Hl) as (len & Hlen & Hz & Hpos & Hd).
  unfold first_message, mbind, task_bind, read_socket. rewrite Hi.
  assert (Hk : (length (f ++ rest) ≤ Z.to_nat (Z.min (Z.max 1 n) (READ_BUF - 0)))%nat) by (unfold zlen in Hn; lia).
  rewrite take_ge by done. assert (is_nil (f ++ rest) = false) as ->.
  { destruct f; [unfold zlen in Hz; cbn in Hz; lia|done]. }
  rewrite Hlen, (proj2 (Z.ltb_ge _ _)), Hd by (rewrite zlen_app; llia).
  destruct c. cbn in *. subst. unfold mret, task_ret. cbv [set_field]. cbn. by rewrite drop_ge.
Qed.

(** The handshake between nodes loses the subscriptions it announces: the
    accepting node answers Hello with HelloAck and, right behind it, the sync of
    its filters; when both arrive in the same read, the connecting node is
    connected afterwards, has nothing left to read and has not changed what it
    knows of the other's subscriptions. *)
Theorem handshake_sync_lost node subs hello (a : Conn (@PeerState SocketAddr S)) (b : Conn S) na nb :
  let peer := ps_peer (cn_local a) in
  frame_message (CM.Hello (cp_local_node_id peer) CLUSTER_PROTOCOL_VERSION) = Some hello → zlen hello ≤ na ≤ READ_BUF →
  is_Some (frame_message (CM.HelloAck node CLUSTER_PROTOCOL_VERSION)) →
  is_Some (frame_message (CM.SubscriptionSync (elements subs))) →
  cn_writable a = true → cn_writable b = true → cn_written b = [] → cn_incoming b = hello →
  ∃ b', accept_handshake io_error node subs (IoOk na) b = (Ok tt, b') ∧
    (cn_incoming a = concat (cn_written b') → zlen (cn_incoming a) ≤ nb ≤ READ_BUF →
     ∃ a', peer_handshake io_error (IoOk nb) a = (Ok tt, a') ∧ cn_written a' = cn_written a ++ [hello] ∧
       cn_incoming a' = [] ∧ cn_buf a' = cn_buf a ∧ cn_local a' = (cn_local a) <| ps_peer ::= (λ p, p <| cp_status := RS.Connected |>) |>).
Proof.
  cbv zeta. intros Hh Hna [ack Hack] [sync Hsync] Haw Hbw Hbn Hbi.
  eexists. split.
  { unfold accept_handshake, mbind at 1, task_bind at 1.
    rewrite (first_message_frame _ _ _ _ na _ hello [] b Hh); [|rewrite app_nil_r; lia|lia|by rewrite app_nil_r].
    unfold mbind, task_bind. cbn [Z.eqb negb]. unfold send_message. rewrite Hack, Hsync. unfold write_half. cbn. rewrite Hbw. cbn. rewrite Hbw. reflexivity. }
  cbv [set_field]. cbn. rewrite Hbn. cbn. rewrite app_nil_r. intros Hai Hnb.
  eexists. split.
  { unfold peer_handshake, mbind at 1, task_bind at 1, asks. rewrite Hh. unfold peer_write, write_half.
    unfold mbind, task_bind. rewrite Haw. erewrite (first_message_frame _ _ _ _ nb _ ack sync); [|done|by rewrite <-Hai; lia|lia|done].
    cbn. reflexivity. }
  by destruct a.
Qed.

(** A buffer that holds only a part of a frame. *)
Lemma partial_of f rest (buf inc : list byte) :
  buf ++ inc = f ++ rest → zlen buf < zlen f → ∃ l, f = buf ++ l ∧ inc = l ++ rest ∧ l ≠ [].
Proof.
  intros Hb Hl. destruct (app_eq_inv _ _ _ _ Hb) as [(k & -> & _)|(k & -> & ->)].
  - rewrite zlen_app in Hl. llia.
  - exists k. split_and!; [done..|]. intros ->. rewrite app_nil_r in Hl. lia.
Qed.

Lemma oversized_turns m f rest sizes (b : Conn S) :
  frame_message m = Some f → READ_BUF < zlen f ≤ 2 ^ 32 → cn_buf b ++ cn_incoming b = f ++ rest → zlen (cn_buf b) ≤ READ_BUF →
  READ_BUF - zlen (cn_buf b) < Z.of_nat (length sizes) →
  ∃ b', incoming_loop inbound_callback io_error sizes b = (Ok false, b') ∧ cn_local b' = cn_local b.
Proof.
  intros Hm Hf. revert b. induction sizes as [|n sizes IH]; intros b Hb Hl Hs; [cbn in Hs; lia|].
  destruct (partial_of f rest _ _ Hb) as (l & Hfl & Hinc & Hne); [lia|].
  cbn [incoming_loop]. unfold mbind at 1, task_bind at 1. unfold read_turn. unfold mbind at 1, task_bind at 1, asks at 1.
  assert (readable b = true) as -> by (unfold readable; rewrite Hinc; by destruct l).
  unfold mbind, task_bind, asks, read_socket, update. set (k := Z.to_nat _).
  destruct (decide (zlen (cn_buf b) = READ_BUF)) as [Hfull|Hspace].
  { assert (k = 0%nat) as -> by (unfold k; lia). cbn. eexists. by split. }
  assert (Hk : (1 ≤ Z.of_nat k ≤ READ_BUF - zlen (cn_buf b))) by (unfold k; lia). clearbody k.
  assert (is_nil (take k (cn_incoming b)) = false) as ->.
  { rewrite Hinc. destruct k, l; [lia..|done|done]. }
  set (b1 := b <| cn_incoming ::= drop k |> <| cn_buf ::= (λ buf, buf ++ take k (cn_incoming b)) |>).
  assert (Hb1 : cn_buf b1 ++ cn_incoming b1 = f ++ rest) by (unfold b1; cbn; by rewrite <-app_assoc, take_drop).
  assert (Hl1 : zlen (cn_buf b) < zlen (cn_buf b1) ≤ READ_BUF).
  { unfold b1. cbn. rewrite Hinc. unfold zlen in *. rewrite length_app, length_take.
    destruct l; [done|]. cbn [app length]. lia. }
  destruct (partial_of f rest _ _ Hb1) as (l1 & Hf1 & _ & _); [lia|].
  rewrite (process_partial _ _ m f l1 b1) by (done || lia).
  destruct (IH b1) as (b' & Hr & Hloc); [done|lia|cbn [length] in Hs; lia|]. exists b'. split; [exact Hr|by rewrite Hloc].
Qed.

(** A message whose frame does not fit the 64 KiB buffer ends the connection
    instead of being delivered: after enough reads, however large, the
    receiving node takes the connection for closed and has published nothing. *)
Theorem cluster_oversized m f rest sizes (b : Conn S) :
  frame_message m = Some f → READ_BUF < zlen f ≤ 2 ^ 32 → cn_buf b = [] → cn_incoming b = f ++ rest →
  READ_BUF < Z.of_nat (length sizes) →
  ∃ b', incoming_loop inbound_callback io_error sizes b = (Ok false, b') ∧ cn_local b' = cn_local b.
Proof.
  intros Hm Hf Hb Hi Hs. apply (oversized_turns m f rest); rewrite ?Hb, ?Hi; [done..|by unfold zlen|unfold zlen; cbn; lia].
Qed.
End properties.

Section gossip.
Context {SocketAddr : Type} (parse_addr : string → option SocketAddr) `{!Json}.
Implicit Types (s : gset string * gmap string (@ClusterPeer SocketAddr)) (local : string) (ns : NodeState).

#[local] Abbreviation watch := (watch_node parse_addr).

Lemma watch_known local s ns :
  (watch local s ns).1 = s.1 ∪ (if decide (ns_node_id ns = local) then ∅ else {[ns_node_id ns]}).
Proof.
  unfold watch_node, discover. destruct s as [known peers]. destruct (decide (ns_node_id ns = local)) as [Hl|Hl].
  - rewrite (proj2 (String.eqb_eq _ _) Hl). set_solver.
  - rewrite (proj2 (String.eqb_neq _ _) Hl). case_decide; repeat case_match; cbn; set_solver.
Qed.

Lemma watch_other local s ns k : ns_node_id ns ≠ k → (watch local s ns).2 !! k = s.2 !! k.
Proof.
  intros Hk. unfold watch_node, discover. destruct s as [known peers]. destruct (String.eqb _ _); [done|].
  case_decide; repeat case_match; simplify_eq/=; by rewrite ?lookup_insert_ne by done.
Qed.

Lemma watch_self local s ns filters addr :
  ns_node_id ns ≠ local → ns_peer_addr ns ≫= parse_addr = Some addr → ns_subscriptions ns ≫= json_from_str = Some filters →
  (ns_node_id ns ∈ s.1 → is_Some (s.2 !! ns_node_id ns)) →
  ∃ p, (watch local s ns).2 !! ns_node_id ns = Some p ∧ cp_remote_subscriptions p = list_to_set filters.
Proof.
  intros Hl Ha Hf Hk. unfold watch_node, discover. destruct s as [known peers].
  rewrite (proj2 (String.eqb_neq _ _)), Ha, Hf by done. case_decide as Hin.
  - destruct (Hk Hin) as [p Hp]. cbn in Hp. rewrite Hp. cbn. rewrite lookup_insert_eq. by eexists.
  - rewrite lookup_insert_eq. cbn. rewrite lookup_insert_eq. by eexists.
Qed.

Lemma watch_fold_known local s nodes :
  (foldl (watch local) s nodes).1 = s.1 ∪ (list_to_set (ns_node_id <$> nodes) ∖ {[local]}).
Proof.
  revert s. induction nodes as [|ns nodes IH]; intros s; cbn; [set_solver|]. rewrite IH, watch_known. case_decide; set_solver.
Qed.

Lemma watch_fold_other local s nodes k : k ∉ ns_node_id <$> nodes → (foldl (watch local) s nodes).2 !! k = s.2 !! k.
Proof.
  revert s. induction nodes as [|ns nodes IH]; intros s Hk; [done|]. cbn in *. apply not_elem_of_cons in Hk as [H1 H2].
  rewrite IH by done. by apply watch_other.
Qed.

(** The removal of the dead nodes. *)
Lemma remove_dead dead (known : gset string) (peers : gmap string (@ClusterPeer SocketAddr)) stopped :
  let r := foldl remove_node ((known, peers), stopped) dead in
  r.1.1 = known ∖ list_to_set dead ∧ ∀ k, r.1.2 !! k = if decide (k ∈ dead) then None else peers !! k.
Proof.
  cbv zeta. revert known peers stopped. induction dead as [|d dead IH]; intros known peers stopped; cbn.
  - split; [set_solver|]. intros k. by rewrite decide_False by apply not_elem_of_nil.
  - match goal with |- context [foldl _ (?k, ?p, ?st) dead] => destruct (IH k p st) as [-> Hr] end. 
    split; [set_solver|]. intros k. rewrite Hr, lookup_delete.
    destruct (decide (k ∈ d :: dead)) as [Hk|Hk]; [apply elem_of_cons in Hk|apply not_elem_of_cons in Hk];
      repeat case_decide; naive_solver.
Qed.

(** The states of the watcher after rounds with the given snapshots, the last one
    first. In between the connections change what they know of their peers. *)
Inductive watched (local : string) : list (list NodeState) → gset string * gmap string (@ClusterPeer SocketAddr) → Prop :=
  | watched_start : watched local [] (∅, ∅)
  | watched_round rounds nodes s : watched local rounds s → watched local (nodes :: rounds) (gossip_round parse_addr local nodes s).1
  | watched_change rounds s peers :
      watched local rounds s → (∀ k, is_Some (peers !! k) ↔ is_Some (s.2 !! k)) → watched local rounds (s.1, peers).

(** A snapshot in which a node has an address, if it is there. *)
Definition addressed (id : string) (nodes : list NodeState) : Prop :=
  ∀ ns, ns ∈ nodes → ns_node_id ns = id → is_Some (ns_peer_addr ns ≫= parse_addr).

Lemma round_known local nodes s :
  local ∉ s.1 → (gossip_round parse_addr local nodes s).1.1 = list_to_set (ns_node_id <$> nodes) ∖ {[local]}.
Proof.
  intros Hl. unfold gossip_round. destruct (foldl _ s nodes) as [known peers] eqn:Hfold.
  assert (Hknown : known = s.1 ∪ (list_to_set (ns_node_id <$> nodes) ∖ {[local]})) by (by rewrite <-watch_fold_known, Hfold).
  set (dead := filter _ _). destruct (remove_dead dead known peers []) as [-> _]. apply set_eq. intros k.
  rewrite elem_of_difference, elem_of_list_to_set. unfold dead. rewrite list_elem_of_filter, elem_of_elements, Hknown.
  rewrite elem_of_union, elem_of_difference, elem_of_list_to_set, elem_of_singleton. clear -Hl.
  destruct (decide (k ∈ ns_node_id <$> nodes)), (decide (k = local)) as [->|]; tauto.
Qed.

(** What a round leaves of the peers. *)
Lemma round_peers local nodes s k :
  local ∉ s.1 → (is_Some (s.2 !! k) → k ∈ s.1) →
  (gossip_round parse_addr local nodes s).1.2 !! k =
    if decide (k ∈ ns_node_id <$> nodes) then (foldl (watch local) s nodes).2 !! k else None.
Proof.
  intros Hl Hk. unfold gossip_round. destruct (foldl _ s nodes) as [known peers] eqn:Hfold.
  assert (Hknown : known = s.1 ∪ (list_to_set (ns_node_id <$> nodes) ∖ {[local]})) by (by rewrite <-watch_fold_known, Hfold).
  set (dead := filter _ _). destruct (remove_dead dead known peers []) as [_ ->].
  assert (Hd : k ∈ dead ↔ k ∈ known ∧ k ≠ local ∧ k ∉ ns_node_id <$> nodes).
  { unfold dead. rewrite list_elem_of_filter, elem_of_elements, elem_of_list_to_set. tauto. }
  destruct (decide (k ∈ ns_node_id <$> nodes)) as [Hin|Hin]; [by rewrite decide_False by tauto|].
  case_decide as Hdead; [done|]. change peers with (known, peers).2. rewrite <-Hfold, watch_fold_other by done.
  apply eq_None_not_Some. intros Hs%Hk. apply Hdead, Hd. rewrite Hknown. set_solver.
Qed.

Lemma watched_known local rounds s :
  watched local rounds s → local ∉ s.1 ∧ ∀ k, is_Some (s.2 !! k) → k ∈ s.1.
Proof.
  induction 1 as [|rounds nodes s _ [Hl Hs]|rounds s peers _ [Hl Hs] Hp]; cbn.
  - split; [set_solver|]. intros k. rewrite lookup_empty. by intros [].
  - rewrite round_known by done. split; [set_solver|]. intros k. rewrite round_peers by auto. case_decide as Hk; [|by intros []].
    destruct (decide (k = local)) as [->|]; [|set_solver]. intros Hsome. exfalso. apply Hl, Hs.
    revert Hsome. clear Hs Hk. revert s Hl. induction nodes as [|ns nodes IH]; intros s Hl; [done|]. cbn. intros Hs%IH.
    + destruct (decide (ns_node_id ns = local)) as [E|E]; [|by rewrite watch_other in Hs].
      unfold watch_node in Hs. by rewrite (proj2 (String.eqb_eq _ _) E) in Hs.
    + rewrite watch_known. case_decide; set_solver.
  - split; [done|]. intros k Hk. by apply Hs, Hp.
Qed.

Lemma watch_addressed local s ns id :
  ns_node_id ns ≠ id ∨ is_Some (ns_peer_addr ns ≫= parse_addr) →
  (id ∈ s.1 → is_Some (s.2 !! id)) → id ∈ (watch local s ns).1 → is_Some ((watch local s ns).2 !! id).
Proof.
  intros Hns Hs. destruct (decide (ns_node_id ns = id)) as [<-|Hne].
  - destruct Hns as [|[addr Ha]]; [done|]. unfold watch_node, discover. destruct s as [known peers].
    destruct (String.eqb _ _); [exact Hs|]. rewrite Ha. case_decide as Hk; repeat case_match; simplify_eq/=;
      rewrite ?lookup_insert_eq; eauto.
  - rewrite watch_known, watch_other by done. intros [|Hk]%elem_of_union; [auto|]. case_decide; set_solver.
Qed.

Lemma watched_addressed local rounds s id :
  watched local rounds s → Forall (addressed id) rounds → id ∈ s.1 → is_Some (s.2 !! id).
Proof.
  induction 1 as [|rounds nodes s Hw IH|rounds s peers _ IH Hp]; intros Ha; [set_solver| |].
  - apply Forall_cons_1 in Ha as [Hn Ha]. pose proof (watched_known _ _ _ Hw) as [Hl Hs].
    rewrite round_known, round_peers by auto. intros [Hin%elem_of_list_to_set Hne]%elem_of_difference. rewrite decide_True by done.
    assert (Hk : id ∈ (foldl (watch local) s nodes).1) by (rewrite watch_fold_known; set_solver). specialize (IH Ha).
    clear Hw Hl Hs Hin Hne Ha. revert s IH Hk. induction nodes as [|ns nodes IHn]; intros s IH; [done|]. cbn.
    apply IHn; [intros ns' ?; apply Hn; by right|]. apply watch_addressed; [|done].
    destruct (decide (ns_node_id ns = id)); [right; apply Hn; [left|done]|by left].
  - intros Hin. apply Hp, IH; done.
Qed.

(** C28. The state that the nodes gossip makes the messages go where they are
    wanted: after a round of the watcher in which the snapshot holds what
    another node announced when it last set its filters, there is a peer for
    that node and a topic is to be forwarded to it exactly when one of these
    filters matches. The known nodes are those of the snapshot, and no peer is
    left for a node that is gone. This is after any rounds before in which the
    snapshots that had the node had a peer address for it that parses; when
    they had not, there is no peer ([late_address_ignored]). *)
Theorem gossip_routing local rounds nodes s filters addr (m : @ClusterManager SocketAddr) :
  let other := update_subscriptions filters m in
  let r := gossip_round parse_addr local nodes s in
  watched local rounds s → Forall (addressed (cm_node_id m)) rounds →
  NoDup (ns_node_id <$> nodes) → gossip_state other ∈ nodes → cm_node_id m ≠ local →
  parse_addr (cm_gossip_peer_addr m) = Some addr → is_Some (json_to_string (elements filters)) →
  (∃ p, r.1.2 !! cm_node_id m = Some p ∧
     ∀ topic, cluster_should_forward p topic = true ↔ ∃ f, f ∈ filters ∧ topic_matches_filter topic f = true) ∧
  r.1.1 = list_to_set (ns_node_id <$> nodes) ∖ {[local]} ∧
  ∀ k, k ∉ ns_node_id <$> nodes → r.1.2 !! k = None.
Proof.
  cbv zeta. intros Hw Hadr Hnd Hin Hne Ha [json Hj]. destruct (watched_known _ _ _ Hw) as [Hl Hs].
  split_and!; [|by apply round_known|intros k Hk; by rewrite round_peers, decide_False by auto].
  assert (Hid : cm_node_id m ∈ ns_node_id <$> nodes) by (apply list_elem_of_fmap; by eexists; split; [|exact Hin]).
  rewrite round_peers, decide_True by auto. clear Hid.
  apply list_elem_of_split in Hin as (n1 & n2 & ->). rewrite fmap_app, fmap_cons in Hnd. apply NoDup_app in Hnd as (_ & H12 & Hnd).
  apply NoDup_cons in Hnd as [H2 _]. cbn in H2, H12.
  assert (Hn1 : cm_node_id m ∉ ns_node_id <$> n1) by (intros Hi; by apply (H12 _ Hi); left).
  rewrite foldl_app. cbn [foldl]. rewrite watch_fold_other by done.
  destruct (watch_self local (foldl (watch local) s n1) (gossip_state (update_subscriptions filters m)) (elements filters) addr)
    as (p & Hp & Hsub); [done|done| | |].
  - cbn. rewrite Hj. cbn. by apply json_from_to.
  - rewrite watch_fold_known. cbn. intros Hk. rewrite watch_fold_other by done. apply (watched_addressed _ _ _ _ Hw Hadr).
    apply elem_of_union in Hk as [|[?%elem_of_list_to_set _]%elem_of_difference]; done.
  - exists p. split; [exact Hp|]. intros topic. unfold cluster_should_forward. rewrite Hsub, existsb_exists.
    setoid_rewrite <-list_elem_of_In. set_solver.
Qed.

(** A node that was first seen without an address gets no peer while it stays in
    the snapshots, whatever address they have for it later. *)
Theorem late_address_ignored local nodes s id :
  local ∉ s.1 → (∀ k, is_Some (s.2 !! k) → k ∈ s.1) → id ∈ s.1 → s.2 !! id = None → id ∈ ns_node_id <$> nodes →
  let r := gossip_round parse_addr local nodes s in id ∈ r.1.1 ∧ r.1.2 !! id = None.
Proof.
  cbv zeta. intros Hl Hs Hk Hn Hin. rewrite round_known, round_peers, decide_True by auto. split; [set_solver|].
  clear Hl Hs Hin. revert s Hk Hn. induction nodes as [|ns nodes IH]; intros s Hk Hn; [done|]. cbn. apply IH.
  - rewrite watch_known. set_solver.
  - destruct (decide (ns_node_id ns = id)) as [<-|]; [|by rewrite watch_other].
    unfold watch_node, discover. destruct s as [known peers]. destruct (String.eqb _ _); [done|].
    rewrite decide_True by done. cbn in Hn |- *. by rewrite Hn.
Qed.
End gossip.

(** ** Examples

    A serializer for a few messages: their number behind [pad] zeros. *)
#[global] Instance ClusterMessage_eq_dec : EqDecision ClusterMessage.
Proof. solve_decision. Defined.

Definition table_encode (table : list ClusterMessage) (pad : nat) (m : ClusterMessage) : option (list byte) :=
  '(i, _) ← list_find (m =.) table;
  if decide (Z.of_nat i < 256) then Some (replicate pad x00 ++ [to_u8 (Z.of_nat i)]) else None.

Definition table_decode (table : list ClusterMessage) (b : list byte) : option ClusterMessage :=
  i ← last b; table !! Z.to_nat (u8 i).

Lemma table_decode_encode table pad m b : table_encode table pad m = Some b → table_decode table b = Some m.
Proof.
  unfold table_encode, table_decode. intros ([i m'] & Hf & Hb)%bind_Some. apply list_find_Some in Hf as (Hi & <- & _).
  destruct (decide _); [|done]. simplify_eq. rewrite last_snoc. cbn. rewrite u8_to_u8, Z.mod_small by lia. by rewrite Nat2Z.id.
Qed.

Definition table_bincode (table : list ClusterMessage) (pad : nat) : Bincode ClusterMessage (list byte) :=
  {| encode_to_vec := table_encode table pad;
     decode_from_slice := table_decode table;
     decode_encode_to_vec := table_decode_encode table pad |}.

Definition sample_peer : Conn (@PeerState unit (list string)) :=
  MkConn [] false [] [] true
    (MkPeerState (MkClusterPeer "b" tt RS.Connected (Some (MkCommandChannel [] true true)) ∅ "a") []).

Definition sample_callback (topic : string) (payload : list byte) (qos : QoS) (retain : bool) (origin : string) (l : list string)
    : list string := l ++ [origin; topic].

Definition sample_messages : list message := [MkMessage "x" [x01] AtMostOnce false; MkMessage "y" [] ExactlyOnce true].

Lemma cluster_delivers_witness :
  let bincode := table_bincode (relayed "a" <$> sample_messages) 2 in
  let frames := [[x00; x00; x00; x03; x00; x00; x00]; [x00; x00; x00; x03; x00; x00; x01]] in
  let b := MkConn (concat frames) false [] [] true ["old"%string] in
  ∃ a', peer_loop sample_callback "reset" [PCommand; PCommand]
          (sample_peer <| cn_local ::= (λ s, s <| ps_peer ::= relay_all sample_messages |>) |>) = (Ok true, a') ∧
    cn_written a' = [] ++ frames ∧
    ∀ sizes, cn_incoming b = concat frames → (14 ≤ length sizes)%nat →
      incoming_loop sample_callback "reset" sizes b =
        (Ok true, MkConn [] false [] [] true ["old"; "a"; "x"; "a"; "y"]%string).
Proof.
  intros bincode frames b. apply (cluster_delivers sample_callback "reset" sample_messages frames sample_peer b); try reflexivity.
  repeat constructor; vm_compute; congruence.
Defined.

Lemma handshake_sync_lost_witness :
  let bincode := table_bincode [CM.Hello "a" 1; CM.HelloAck "b" 1; CM.SubscriptionSync ["t/#"%string]] 0 in
  let hello := [x00; x00; x00; x01; x00] in
  let a := sample_peer <| cn_incoming := [x00; x00; x00; x01; x01; x00; x00; x00; x01; x02] |> in
  let b := MkConn hello false [] [] true (@nil string) in
  ∃ b', accept_handshake "reset" "b" {["t/#"%string]} (IoOk 100) b = (Ok tt, b') ∧
    (cn_incoming a = concat (cn_written b') → zlen (cn_incoming a) ≤ 100 ≤ READ_BUF →
     ∃ a', peer_handshake "reset" (IoOk 100) a = (Ok tt, a') ∧ cn_written a' = cn_written a ++ [hello] ∧
       cn_incoming a' = [] ∧ cn_buf a' = cn_buf a ∧ cn_local a' = (cn_local a) <| ps_peer ::= (λ p, p <| cp_status := RS.Connected |>) |>).
Proof.
  intros bincode hello a b.
  apply (handshake_sync_lost "reset" "b" {["t/#"%string]} hello a b 100 100); try reflexivity.
  - vm_compute. split; congruence.
  - by eexists.
  - rewrite elements_singleton. by eexists.
Defined.

Lemma cluster_oversized_witness :
  let bincode := table_bincode [CM.Publish "x" [] 0 false "a"] (Z.to_nat 70000) in
  let frame := be_u32 70001 ++ replicate (Z.to_nat 70000) x00 ++ [x00] in
  let b := MkConn (frame ++ []) false [] [] true (@nil string) in
  ∃ b', incoming_loop sample_callback "reset" (replicate (Z.to_nat 65537) 4096) b = (Ok false, b') ∧ cn_local b' = [].
Proof.
  intros bincode frame b.
  apply (cluster_oversized sample_callback "reset" (CM.Publish "x" [] 0 false "a") frame [] (replicate (Z.to_nat 65537) 4096) b).
  - unfold frame_message. change (encode_to_vec _) with (Some (replicate (Z.to_nat 70000) x00 ++ [x00])). cbn [mbind option_bind].
    unfold frame. rewrite zlen_app. unfold zlen at 1. rewrite length_replicate, Z2Nat.id by lia. reflexivity.
  - unfold frame. rewrite !zlen_app. unfold zlen. rewrite length_replicate, Z2Nat.id by lia. cbn [length be_u32]. unfold READ_BUF. lia.
  - reflexivity.
  - reflexivity.
  - rewrite length_replicate. unfold READ_BUF. lia.
Defined.

(** Lists of strings as JSON, with every character escaped. *)
Definition quote : Ascii.ascii := "034".

Fixpoint escaped (s rest : string) : string :=
  match s with
  | EmptyString => String quote rest
  | String a s => String "\" (String a (escaped s rest))
  end.

Fixpoint json_items (l : list string) : string :=
  match l with [] => "]" | s :: l => String quote (escaped s (json_items l)) end.

Fixpoint parse_items (item : option string) (items : list string) (s : string) : option (list string) :=
  match item, s with
  | None, String a rest =>
      if Ascii.eqb a "]" then if is_empty rest then Some items else None
      else if Ascii.eqb a quote then parse_items (Some EmptyString) items rest else None
  | Some t, String a rest =>
      if Ascii.eqb a quote then parse_items None (items ++ [t]) rest
      else if Ascii.eqb a "\" then
        match rest with String b rest => parse_items (Some (String.append t (String b EmptyString))) items rest | EmptyString => None end
      else None
  | _, EmptyString => None
  end.

Lemma parse_escaped t s items rest :
  parse_items (Some t) items (escaped s rest) = parse_items None (items ++ [String.append t s]) rest.
Proof.
  revert t. induction s as [|a s IH]; intros t; cbn [escaped parse_items].
  - rewrite Ascii.eqb_refl. by rewrite append_nil_r.
  - cbn [Ascii.eqb]. rewrite IH, <-append_assoc. done.
Qed.

Lemma parse_json_items l items : parse_items None items (json_items l) = Some (items ++ l).
Proof.
  revert items. induction l as [|s l IH]; intros items; cbn [json_items]; [by rewrite app_nil_r|].
  cbn [parse_items Ascii.eqb]. rewrite parse_escaped, IH, <-app_assoc. done.
Qed.

Definition sample_json : Json.
Proof.
  refine {| json_to_string l := Some (String "[" (json_items l));
            json_from_str s := match s with String "[" s => parse_items None [] s | _ => None end |}.
  intros l s [= <-]. apply parse_json_items.
Defined.

Lemma gossip_routing_witness :
  let json := sample_json in
  let m := @ClusterManager_new string "b" "10.0.0.2:7947" in
  let before := [gossip_state m] in
  let s := (gossip_round (fun s => Some s) "a" before (∅, ∅)).1 in
  let r := gossip_round (fun s => Some s) "a" [gossip_state (update_subscriptions {["t/#"%string]} m)] s in
  (∃ p, r.1.2 !! "b"%string = Some p ∧
     ∀ topic, cluster_should_forward p topic = true ↔ ∃ f, f ∈ ({["t/#"%string]} : gset string) ∧ topic_matches_filter topic f = true) ∧
  r.1.1 = list_to_set ["b"%string] ∖ {["a"%string]} ∧
  ∀ k, k ∉ ["b"%string] → r.1.2 !! k = None.
Proof.
  intros json m before s.
  apply (gossip_routing (fun s => Some s) "a" [before] [gossip_state (update_subscriptions {["t/#"%string]} m)] s
    {["t/#"%string]} "10.0.0.2:7947" m); try reflexivity.
  - apply watched_round, watched_start.
  - apply Forall_cons_2; [|apply Forall_nil_2]. intros ns ->%list_elem_of_singleton _. by eexists.
  - apply NoDup_singleton.
  - by left.
  - discriminate.
  - rewrite elements_singleton. by eexists.
Defined.

Lemma late_address_ignored_witness :
  let json := sample_json in
  let s := (gossip_round (fun s => Some s) "a" [MkNodeState "b" None None] (∅, ∅)).1 in
  let r := gossip_round (fun s => Some s) "a" [MkNodeState "b" (Some "10.0.0.2:7947"%string) None] s in
  "b"%string ∈ r.1.1 ∧ r.1.2 !! "b"%string = (None : option (@ClusterPeer string)).
Proof.
  intros json s. destruct (watched_known (fun s => Some s) "a" _ _ (watched_round (fun s => Some s) "a" _ [MkNodeState "b" None None] _ (watched_start _ "a")))
    as [Hl Hk].
  apply (late_address_ignored (fun s => Some s) "a" [MkNodeState "b" (Some "10.0.0.2:7947"%string) None] s "b" Hl Hk).
  - apply (bool_decide_unpack _). vm_compute. exact I.
  - vm_compute. reflexivity.
  - by left.
Defined.
