(* ===== verification/Broker.v ===== *)
(** * The broker's shared state and message routing

    The state that the tasks of the broker share ([broker/mod.rs]: [Broker]) and
    the code that routes a message to its subscribers: [route_message]
    ([connection/publish.rs]), [route_will_message] ([connection/disconnect.rs]),
    [Broker::publish] and the inbound callbacks of the cluster and the bridges.

    Tasks run concurrently and only share state through locks, maps and
    channels, so a task is a [prog]: a sequence of atomic actions on the world,
    each with what follows from its result. An action is what the code does
    under one lock, one map operation or one channel operation. [run] executes a
    task without interruption; [System] executes many at once. A map is
    iterated in the order of [map_to_list]; Rust leaves that order open, and the
    theorems do not depend on it. *)

From S2P Require Import Prelude Protocol Codec Properties Packet Decode Encode.
From S2P Require Import TopicValidation TopicTrie SubscriptionStore Session Hooks Persistence.

(** ** Tasks *)
Inductive prog (S A : Type) : Type :=
  | Ret (a : A)
  | Act (B : Type) (f : S → B * S) (k : B → prog S A).
Arguments Ret {S A} a.
Arguments Act {S A B} f k.

Fixpoint prog_bind {S A B} (m : prog S A) (k : A → prog S B) : prog S B :=
  match m with
  | Ret a => k a
  | Act f k' => Act f (fun b => prog_bind (k' b) k)
  end.

#[global] Instance prog_ret {S} : MRet (prog S) := fun A a => Ret a.
#[global] Instance prog_mbind {S} : MBind (prog S) := fun A B k m => prog_bind m k.

(** The task alone, to its end. *)
Fixpoint run {S A} (m : prog S A) (s : S) : A * S :=
  match m with
  | Ret a => (a, s)
  | Act f k => let '(b, s) := f s in run (k b) s
  end.

(** ** Errors ([connection/mod.rs]) *)
Inductive IoError : Type := UnexpectedEof | ReadFailed | WriteFailed.

Module CE.

Inductive ConnectionError : Type :=
  | Io (e : IoError)
  | Protocol (e : ProtocolError)
  | Decode (e : DecodeError)
  | Timeout
  | Shutdown.

End CE.
Abbreviation ConnectionError := CE.ConnectionError.

(** ** Configuration, events ([broker/mod.rs]) *)

(** The settings that the modelled code reads. *)
Record BrokerConfig : Type := MkBrokerConfig {
  bc_max_connections : Z;
  bc_max_packet_size : Z;
  bc_default_keep_alive : Z;
  bc_max_keep_alive : Z;
  bc_receive_maximum : Z;
  bc_max_qos : QoS;
  bc_retain_available : bool;
  bc_wildcard_subscription_available : bool;
  bc_subscription_identifiers_available : bool;
  bc_shared_subscriptions_available : bool;
  bc_max_topic_alias : Z;
  bc_max_inflight : Z;
  bc_max_queued_messages : Z;
  bc_max_awaiting_rel : Z;
  bc_retry_interval : Z;
  bc_outbound_channel_capacity : Z;
  bc_max_topic_levels : Z;
}.

Definition BrokerConfig_default : BrokerConfig :=
  {| bc_max_connections := 100000;
     bc_max_packet_size := 1024 * 1024;
     bc_default_keep_alive := 60;
     bc_max_keep_alive := 65535;
     bc_receive_maximum := 65535;
     bc_max_qos := ExactlyOnce;
     bc_retain_available := true;
     bc_wildcard_subscription_available := true;
     bc_subscription_identifiers_available := true;
     bc_shared_subscriptions_available := true;
     bc_max_topic_alias := 65535;
     bc_max_inflight := 32;
     bc_max_queued_messages := 1000;
     bc_max_awaiting_rel := 100;
     bc_retry_interval := from_secs 30;
     bc_outbound_channel_capacity := 1024;
     bc_max_topic_levels := 0 |}.

Inductive BrokerEvent : Type :=
  | ClientConnected (client_id : string) (protocol_version : ProtocolVersion)
  | ClientDisconnected (client_id : string)
  | MessagePublished (topic : string) (payload : list byte) (qos : QoS) (retain : bool)
  | MessageDropped
  | SubscriptionAdded (filter : string) (client_id : string)
  | SubscriptionRemoved (filter : string) (client_id : string).

(** ** Connections *)

(** The [mpsc] channel of a connection: the packets waiting to be written to
    the socket. It closes when the connection's task ends. *)
Record Channel : Type := MkChannel {
  ch_queue : list Packet;
  ch_open : bool;
}.

Module St.

Inductive State : Type :=
  | Connecting
  | Connected (client_id : string) (session : nat).

End St.
Abbreviation State := St.State.

(** [Connection]: what belongs to one connection alone. The socket is the
    list of the writes to it and whether the peer still takes them; the write
    buffer is cleared before each use, so it is a value of the code that uses
    it. [c_keep_alive] and [c_deadline] are the variables of [run_connected]. *)
Record Connection : Type := MkConnection {
  c_state : State;
  c_decoder : Decoder;
  c_encoder : Encoder;
  c_read_buf : list byte;
  c_username : option string;
  c_channel : nat;
  c_written : list (list byte);
  c_writable : bool;
  c_keep_alive : Z;
  c_deadline : Z;
}.

#[global] Instance Channel_eta : Eta Channel := fun c => MkChannel (ch_queue c) (ch_open c).
#[global] Instance Connection_eta : Eta Connection := fun c =>
  MkConnection (c_state c) (c_decoder c) (c_encoder c) (c_read_buf c) (c_username c) (c_channel c)
    (c_written c) (c_writable c) (c_keep_alive c) (c_deadline c).

(** The task that publishes a will after its delay ([handle_disconnect]). *)
Record DelayedWill : Type := MkDelayedWill {
  dw_due : Z;
  dw_client_id : string;
  dw_session : nat;
  dw_disconnected_at : option Z;
}.

(** ** The world *)
Record World (W : Type) : Type := MkWorld {
  w_config : BrokerConfig;
  w_now : Z;
  w_epoch : Z;
  w_sessions : SessionStore;
  w_subscriptions : SubscriptionStore;
  w_retained : gmap string RetainedMessage;
  w_connections : gmap string nat;
  w_channels : gmap nat Channel;
  w_conns : gmap nat Connection;
  w_events : list BrokerEvent;
  w_persisted : option (list PersistenceOp);
  w_metrics : option (list Z);
  w_hooks : W;
  w_wills : list DelayedWill;
}.
Arguments MkWorld {W}.
Arguments w_config {W}. Arguments w_now {W}. Arguments w_epoch {W}. Arguments w_sessions {W}.
Arguments w_subscriptions {W}. Arguments w_retained {W}. Arguments w_connections {W}.
Arguments w_channels {W}. Arguments w_conns {W}. Arguments w_events {W}. Arguments w_persisted {W}.
Arguments w_metrics {W}. Arguments w_hooks {W}. Arguments w_wills {W}.

#[global] Instance World_eta {W} : Eta (World W) := fun w =>
  MkWorld (w_config w) (w_now w) (w_epoch w) (w_sessions w) (w_subscriptions w) (w_retained w)
    (w_connections w) (w_channels w) (w_conns w) (w_events w) (w_persisted w) (w_metrics w)
    (w_hooks w) (w_wills w).

Definition World_new {W} (config : BrokerConfig) (now epoch : Z) (persistence metrics : bool) (hooks : W) : World W :=
  {| w_config := config;
     w_now := now;
     w_epoch := epoch;
     w_sessions := SessionStore_new;
     w_subscriptions := SubscriptionStore_new;
     w_retained := ∅;
     w_connections := ∅;
     w_channels := ∅;
     w_conns := ∅;
     w_events := [];
     w_persisted := if persistence then Some [] else None;
     w_metrics := if metrics then Some [] else None;
     w_hooks := hooks;
     w_wills := [] |}.

Definition w_clock {W} (w : World W) : Clock := MkClock (w_now w) (w_now w + w_epoch w).

(** A handler is a task with a [Result<A, ConnectionError>]. *)
Definition handler (W A : Type) : Type := prog (World W) (outcome ConnectionError A).

#[global] Instance handler_ret {W} : MRet (handler W) := fun A a => Ret (Ok a).
#[global] Instance handler_bind {W} : MBind (handler W) := fun A B k m =>
  prog_bind m (fun r =>
    match r with
    | Ok a => k a
    | Err e => Ret (Err e)
    | Panic => Ret Panic
    | NoFuel => Ret NoFuel
    end).

(** ** Actions *)
Section actions.
Context {W : Type}.
Implicit Types w : World W.

Definition fail {A} (e : ConnectionError) : handler W A := Ret (Err e).

(** A total action on the world. *)
Definition action {B} (f : World W → B * World W) : handler W B := Act f (fun b => Ret (Ok b)).
Definition ask {B} (f : World W → B) : handler W B := action (fun w => (f w, w)).
Definition change (f : World W → World W) : handler W unit := action (fun w => (tt, f w)).

(** [Instant::now()] *)
Definition now : handler W Z := ask w_now.
Definition config : handler W BrokerConfig := ask w_config.

(** [session.write()]: [f] runs under the lock, with the time. A cell that is
    referred to exists. *)
Definition lock_session {B} (c : nat) (f : Z → Session → outcome ConnectionError (B * Session)) : handler W B :=
  Act (fun w =>
    match cells (w_sessions w) !! c with
    | Some s =>
        match f (w_now w) s with
        | Ok (b, s') => (Ok b, w <| w_sessions ::= modify_session c (fun _ => s') |>)
        | Err e => (Err e, w)
        | Panic => (Panic, w)
        | NoFuel => (NoFuel, w)
        end
    | None => (Panic, w)
    end) Ret.

Definition write_session {B} (c : nat) (f : Z → Session → B * Session) : handler W B :=
  lock_session c (fun t s => Ok (f t s)).
Definition update_session (c : nat) (f : Session → Session) : handler W unit :=
  write_session c (fun _ s => (tt, f s)).

(** [session.read()] *)
Definition read_session {B} (c : nat) (f : Session → B) : handler W B :=
  write_session c (fun _ s => (f s, s)).

Definition send_event (e : BrokerEvent) : handler W unit := change (fun w => w <| w_events ::= (fun l => l ++ [e]) |>).

(** [persistence.write(op)], where [op] reads the clocks. *)
Definition persist (op : Clock → PersistenceOp) : handler W unit :=
  change (fun w => w <| w_persisted ::= fmap (fun l => l ++ [op (w_clock w)]) |>).

(** [metrics.publish_sent(bytes)] *)
Definition publish_sent (bytes : Z) : handler W unit :=
  change (fun w => w <| w_metrics ::= fmap (fun l => l ++ [bytes]) |>).

(** [sender.try_send(packet)]: refused when the channel is full or closed. *)
Definition accepts_packet (w : World W) (ch : Channel) : bool :=
  ch_open ch && (zlen (ch_queue ch) <? bc_outbound_channel_capacity (w_config w)).

Definition try_send (n : nat) (p : Packet) (w : World W) : World W :=
  w <| w_channels ::= alter (fun ch =>
         if accepts_packet w ch then ch <| ch_queue ::= (fun q => q ++ [p]) |> else ch) n |>.

(** [if let Some(sender) = connections.get(client_id) { sender.try_send(p) }]:
    whether the client is registered. *)
Definition try_send_to (client_id : string) (p : Packet) : handler W bool :=
  action (fun w =>
    match w_connections w !! client_id with
    | Some n => (true, try_send n p w)
    | None => (false, w)
    end).

(** ** Sessions and subscriptions *)
Definition get_or_create_session (client_id : string) (v : ProtocolVersion) (clean_start : bool)
    (limits : SessionLimits) : handler W (nat * bool) :=
  let create :=
    action (fun w =>
      let '(r, st) := create_session (w_now w) client_id v limits (w_sessions w) in
      (r, w <| w_sessions := st |>)) in
  if clean_start then create
  else
    resumed ← action (fun w =>
      match sessions (w_sessions w) !! client_id with
      | Some c =>
          match cells (w_sessions w) !! c with
          | Some s =>
              if negb (is_expired (w_now w) s)
              then (Some c, w <| w_sessions ::= modify_session c (resume v) |>)
              else (None, w)
          | None => (None, w)
          end
      | None => (None, w)
      end);
    match resumed with
    | Some c => mret (c, true)
    | None => create
    end.

Definition disconnect_session (client_id : string) : handler W unit :=
  should_remove ← action (fun w =>
    match sessions (w_sessions w) !! client_id with
    | Some c =>
        let w := w <| w_sessions ::= modify_session c (mark_disconnected (w_now w)) |> in
        (bool_decide (s_session_expiry_interval <$> cells (w_sessions w) !! c = Some 0), w)
    | None => (false, w)
    end);
  if (should_remove : bool) then change (fun w => w <| w_sessions ::= remove_session client_id |>) else mret tt.

Definition matching_subscriptions (topic : string) : handler W (list SubscriptionStore.Subscription) :=
  action (fun w =>
    let '(subs, st) := store_matches topic (w_subscriptions w) in
    (subs, w <| w_subscriptions := st |>)).

(** ** Retained messages

    The block that stores or clears a retained message; it occurs with the same
    text wherever the broker takes in a message. *)
Definition update_retained (topic : string) (payload : list byte) (qos : QoS) (properties : Properties)
    : handler W unit :=
  if is_nil payload then
    change (fun w => w <| w_retained ::= delete topic |>);;
    persist (fun _ => DeleteRetained topic)
  else
    t ← now;
    let retained_msg := MkRetained topic payload qos properties t in
    change (fun w => w <| w_retained ::= <[topic := retained_msg]> |>);;
    persist (fun c => SetRetained topic (StoredRetainedMessage_from c retained_msg)).
End actions.

(** ** Routing *)

(** The derived order of [QoS]. *)
Definition qos_gt (a b : QoS) : bool := QoS_as_u8 a >? QoS_as_u8 b.

Record ClientSub : Type := MkClientSub {
  cs_qos : QoS;
  cs_retain_as_published : bool;
  cs_subscription_ids : list Z;
}.

#[global] Instance ClientSub_eta : Eta ClientSub := fun c =>
  MkClientSub (cs_qos c) (cs_retain_as_published c) (cs_subscription_ids c).

(** The updates of an entry by a further subscription of the same client. *)
Definition update_entry (entry : ClientSub) (sub : SubscriptionStore.Subscription) : ClientSub :=
  let entry := if qos_gt (SubscriptionStore.sub_qos sub) (cs_qos entry)
               then entry <| cs_qos := SubscriptionStore.sub_qos sub |> else entry in
  let entry := if retain_as_published sub then entry <| cs_retain_as_published := true |> else entry in
  match subscription_id sub with
  | Some id =>
      if existsb (Z.eqb id) (cs_subscription_ids entry) then entry
      else entry <| cs_subscription_ids ::= (fun ids => ids ++ [id]) |>
  | None => entry
  end.

(** One round of the deduplication loop of [route_message]. *)
Definition note_match (sender_id : string) (client_subs : gmap string ClientSub)
    (sub : SubscriptionStore.Subscription) : gmap string ClientSub :=
  if no_local sub && String.eqb (client_id sub) sender_id then client_subs
  else
    match client_subs !! client_id sub with
    | Some entry => <[client_id sub := update_entry entry sub]> client_subs
    | None =>
        <[client_id sub :=
            MkClientSub (SubscriptionStore.sub_qos sub) (retain_as_published sub)
              (option_list (subscription_id sub))]> client_subs
    end.

(** The same loop in [route_will_message]: [entry().or_insert()]. *)
Definition note_match_will (sender_id : string) (client_subs : gmap string ClientSub)
    (sub : SubscriptionStore.Subscription) : gmap string ClientSub :=
  if no_local sub && String.eqb (client_id sub) sender_id then client_subs
  else
    let entry := default (MkClientSub AtMostOnce false []) (client_subs !! client_id sub) in
    <[client_id sub := update_entry entry sub]> client_subs.

(** The copy of the message for one client. *)
Definition outgoing_for (publish : Publish) (sub_info : ClientSub) : Publish :=
  let outgoing := publish <| pub_qos := QoS_min (pub_qos publish) (cs_qos sub_info) |>
                          <| pub_dup := false |> <| pub_packet_id := None |> in
  let outgoing := if negb (cs_retain_as_published sub_info) then outgoing <| pub_retain := false |> else outgoing in
  outgoing <| pub_properties ::= (fun p =>
    p <| subscription_identifiers ::= (fun ids => ids ++ cs_subscription_ids sub_info) |>) |>.

Section routing.
Context {W : Type}.

(** Runs a handler for every element of a list; [?] stops at the first error. *)
Fixpoint for_all {A} (l : list A) (f : A → handler W unit) : handler W unit :=
  match l with
  | [] => mret tt
  | a :: l => f a;; for_all l f
  end.

(** The message goes to the client's channel, or into the queue of a session
    that is kept. *)
Definition deliver (client_id : string) (outgoing : Publish) : handler W unit :=
  registered ← try_send_to client_id (P.Publish outgoing);
  if (registered : bool) then mret tt
  else
    session ← ask (fun w => get_session client_id (w_sessions w));
    match session with
    | Some c =>
        dropped ← write_session c (fun t s =>
          if negb (s_clean_start s) then
            let '(r, s) := queue_message t outgoing s in (bool_decide (r = DroppedOldest), s)
          else (false, s));
        if (dropped : bool) then send_event MessageDropped else mret tt
    | None => mret tt
    end.

Definition published_event (publish : Publish) : BrokerEvent :=
  MessagePublished (pub_topic publish) (pub_payload publish) (pub_qos publish) (pub_retain publish).

Definition route_message (sender_id : string) (publish : Publish) : handler W unit :=
  matches ← matching_subscriptions (pub_topic publish);
  let client_subs := foldl (note_match sender_id) ∅ matches in
  for_all (map_to_list client_subs) (fun e => deliver e.1 (outgoing_for publish e.2));;
  send_event (published_event publish).

Definition route_will_message (sender_id : string) (publish : Publish) : handler W unit :=
  matches ← matching_subscriptions (pub_topic publish);
  let client_subs := foldl (note_match_will sender_id) ∅ matches in
  for_all (map_to_list client_subs) (fun e => deliver e.1 (outgoing_for publish e.2));;
  send_event (published_event publish).

(** ** Messages from the server, the cluster and the bridges *)
Definition note_qos (client_qos : gmap string QoS) (sub : SubscriptionStore.Subscription) : gmap string QoS :=
  let entry := default AtMostOnce (client_qos !! client_id sub) in
  <[client_id sub := if qos_gt (SubscriptionStore.sub_qos sub) entry
                     then SubscriptionStore.sub_qos sub else entry]> client_qos.

(** As [deliver], without the event for a dropped message. *)
Definition deliver_silently (client_id : string) (outgoing : Publish) : handler W unit :=
  registered ← try_send_to client_id (P.Publish outgoing);
  if (registered : bool) then mret tt
  else
    session ← ask (fun w => get_session client_id (w_sessions w));
    match session with
    | Some c =>
        write_session c (fun t s =>
          if negb (s_clean_start s) then (tt, (queue_message t outgoing s).2) else (tt, s))
    | None => mret tt
    end.

(** [Broker::publish] *)
Definition broker_publish (topic : string) (payload : list byte) (qos : QoS) (retain : bool) : handler W unit :=
  let publish := MkPublish false qos retain topic None payload Properties_default in
  (if retain then update_retained topic payload qos Properties_default else mret tt);;
  matches ← matching_subscriptions topic;
  for_all (map_to_list (foldl note_qos ∅ matches)) (fun e =>
    deliver_silently e.1 (publish <| pub_qos := QoS_min qos e.2 |>)).

(** The callbacks of [create_cluster_manager] and [create_bridge_manager] for
    messages from other brokers: their bodies are that of [publish]. *)
Definition cluster_inbound (topic : string) (payload : list byte) (qos : QoS) (retain : bool) (origin_node : string)
    : handler W unit := broker_publish topic payload qos retain.
Definition bridge_inbound (topic : string) (payload : list byte) (qos : QoS) (retain : bool) : handler W unit :=
  broker_publish topic payload qos retain.

(** [MessageRouter::try_send_to_client] ([router.rs]) *)
Definition try_send_to_client (client_id : string) (p : Packet) : handler W bool :=
  action (fun w =>
    match w_connections w !! client_id with
    | Some n => (match w_channels w !! n with Some ch => accepts_packet w ch | None => false end, try_send n p w)
    | None => (false, w)
    end).
End routing.
