(* ===== verification/Connection.v ===== *)
(** * The connection handlers

    [broker/connection/]: what the task of a connection does with each packet
    of its client, each packet from its channel, each timer and the end of the
    connection. A connection is named by its number in [w_conns] ([self]); a
    session by its cell. Metrics and logging other than the count of sent
    messages are left out. *)

From S2P Require Import Prelude Protocol Codec Properties Packet Decode Encode.
From S2P Require Import TopicValidation TopicTrie SubscriptionStore Session Hooks Persistence Broker.

Section connection.
Context {W : Type} (hooks : Hooks W).
Abbreviation handler := (Broker.handler W).

(** ** The connection's own state and socket *)
Definition ask_self {B} (self : nat) (f : Connection → B) : handler B :=
  Act (fun w => match w_conns w !! self with Some c => (Ok (f c), w) | None => (Panic, w) end) Ret.

Definition change_self (self : nat) (f : Connection → Connection) : handler unit :=
  change (fun w => w <| w_conns ::= alter f self |>).

Definition of_outcome {A} (r : outcome ConnectionError A) : handler A := Ret r.

(** [self.encoder.encode(&packet, &mut self.write_buf)] after [clear()], with
    the error as the handlers convert it. *)
Definition encode_packet (self : nat) (p : Packet) : handler (list byte) :=
  e ← ask_self self c_encoder;
  of_outcome (match encode e p [] with
              | (buf, Ok _) => Ok buf
              | (_, Err err) => Err (CE.Protocol (PE.Encode err))
              | (_, Panic) => Panic
              | (_, NoFuel) => NoFuel
              end).

(** [let _ = self.encoder.encode(..)]: what was written before an error stays in
    the buffer. *)
Definition encode_anyway (self : nat) (p : Packet) : handler (list byte) :=
  e ← ask_self self c_encoder;
  of_outcome (match encode e p [] with
              | (buf, Ok _) | (buf, Err _) => Ok buf
              | (_, Panic) => Panic
              | (_, NoFuel) => NoFuel
              end).

(** [self.stream.write_all(&buf).await?] *)
Definition write_all (self : nat) (buf : list byte) : handler unit :=
  Act (fun w =>
    match w_conns w !! self with
    | Some c =>
        if c_writable c then (Ok tt, w <| w_conns ::= <[self := c <| c_written ::= (fun l => l ++ [buf]) |>]> |>)
        else (Err (CE.Io WriteFailed), w)
    | None => (Panic, w)
    end) Ret.

Definition send_packet (self : nat) (p : Packet) : handler unit :=
  buf ← encode_packet self p;
  write_all self buf.

(** [let _ = ..] and [if encode(..).is_ok() { let _ = write }]: errors are
    ignored. *)
Definition ignore_errors (m : handler unit) : handler unit :=
  prog_bind m (fun r => Ret (match r with Err _ => Ok tt | r => r end)).

Definition violation {A} (msg : string) : handler A := fail (CE.Protocol (PE.ProtocolViolation msg)).

(** ** Acknowledgements ([qos.rs]) *)
Definition handle_puback (session : nat) (puback : PubAck) : handler unit :=
  update_session session (fun s =>
    increment_send_quota (s <| s_inflight_outgoing ::= delete (puback_packet_id puback) |>)).

Definition handle_pubrec (self session : nat) (pubrec : PubRec) : handler unit :=
  update_session session (fun s =>
    s <| s_inflight_outgoing ::=
           alter (fun m => m <| if_qos2_state := Some WaitingPubComp |>) (pubrec_packet_id pubrec) |>);;
  send_packet self (P.PubRel (PubRel_new (pubrec_packet_id pubrec))).

Definition handle_pubrel (self : nat) (client_id : string) (session : nat) (pubrel : PubRel) : handler unit :=
  publish ← write_session session (fun _ s =>
    (s_inflight_incoming s !! pubrel_packet_id pubrel,
     s <| s_inflight_incoming ::= delete (pubrel_packet_id pubrel) |>));
  send_packet self (P.PubComp (PubComp_new (pubrel_packet_id pubrel)));;
  match publish with
  | Some publish => route_message client_id publish
  | None => mret tt
  end.

Definition handle_pubcomp (session : nat) (pubcomp : PubComp) : handler unit :=
  update_session session (fun s =>
    increment_send_quota (s <| s_inflight_outgoing ::= delete (pubcomp_packet_id pubcomp) |>)).

(** An in-flight message to send again. *)
Definition resend (e : Z * InflightMessage) : Z * Publish * option Qos2State :=
  (e.1, if_publish e.2, if_qos2_state e.2).

Definition mark_resent (t : Z) (m : InflightMessage) : InflightMessage :=
  m <| if_retry_count ::= (fun n => wrap_u32 (n + 1)) |> <| if_sent_at := t |>.

(** The body of the loops that send in-flight messages again. *)
Definition resend_one (self : nat) (max_packet_size : Z) (r : Z * Publish * option Qos2State) : handler unit :=
  let '(packet_id, publish, qos2_state) := r in
  match qos2_state with
  | None | Some WaitingPubRec =>
      let publish := publish <| pub_dup := true |> <| pub_packet_id := Some packet_id |> in
      buf ← encode_packet self (P.Publish publish);
      if zlen buf <=? max_packet_size then write_all self buf else mret tt
  | Some WaitingPubComp => send_packet self (P.PubRel (PubRel_new packet_id))
  end.

Definition needs_retry (t retry_interval : Z) (e : Z * InflightMessage) : bool :=
  duration_since t (if_sent_at e.2) >=? retry_interval.

Definition retry_unacked_messages (self session : nat) : handler unit :=
  t ← now;
  cfg ← config;
  to_retry ← write_session session (fun _ s =>
    let due := filter (fun e => needs_retry t (bc_retry_interval cfg) e) (map_to_list (s_inflight_outgoing s)) in
    (resend <$> due,
     s <| s_inflight_outgoing ::= fmap (fun m =>
            if duration_since t (if_sent_at m) >=? bc_retry_interval cfg then mark_resent t m else m) |>));
  max_packet_size ← read_session session s_max_packet_size;
  for_all to_retry (resend_one self max_packet_size).

(** ** Packets from the channel ([mod.rs]) *)

(** What becomes of a message that is to be sent: QoS 0 goes out as it is; the
    others need quota and room among the in-flight messages, where they are
    stored under an identifier. *)
Inductive sending : Type :=
  | SendNow (publish : Publish)
  | QueuedFor (dropped : bool).

Definition store_inflight (t : Z) (packet_id : Z) (publish : Publish) (s : Session) : Session :=
  s <| s_inflight_outgoing ::=
         <[packet_id := MkInflight packet_id publish
             (if bool_decide (pub_qos publish = ExactlyOnce) then Some WaitingPubRec else None) t 0]> |>.

(** [queue_message(publish) == QueueResult::DroppedOldest] *)
Definition queue_for_later (t : Z) (publish : Publish) (s : Session) : sending * Session :=
  let '(r, s) := queue_message t publish s in (QueuedFor (bool_decide (r = DroppedOldest)), s).

Definition prepare_outgoing (t : Z) (publish : Publish) (s : Session) : outcome ConnectionError (sending * Session) :=
  let '(ok, s) := decrement_send_quota s in
  if negb ok then Ok (queue_for_later t publish s)
  else if Z.of_nat (size (s_inflight_outgoing s)) >=? s_max_inflight s
  then Ok (queue_for_later t publish (increment_send_quota s))
  else
    '(publish, s) ←
      (if is_none (pub_packet_id publish) then
         '(id, s) ← next_packet_id s;
         Ok (publish <| pub_packet_id := Some id |>, s)
       else Ok (publish, s));
    match pub_packet_id publish with
    | Some packet_id => Ok (SendNow publish, store_inflight t packet_id publish s)
    | None => Ok (SendNow publish, s)
    end.

(** Encodes and writes a message unless it is too large for the client. *)
Definition write_publish (self : nat) (max_packet_size : Z) (publish : Publish) : handler unit :=
  buf ← encode_packet self (P.Publish publish);
  if zlen buf >? max_packet_size then mret tt
  else write_all self buf;; publish_sent (zlen buf).

Definition handle_outgoing_packet (self session : nat) (packet : Packet) : handler unit :=
  match packet with
  | P.Disconnect _ =>
      buf ← encode_anyway self packet;
      ignore_errors (write_all self buf);;
      fail CE.Shutdown
  | P.Publish publish =>
      max_packet_size ← read_session session s_max_packet_size;
      prepared ←
        (if negb (bool_decide (pub_qos publish = AtMostOnce))
         then lock_session session (fun t s => prepare_outgoing t publish s)
         else mret (SendNow publish));
      match prepared with
      | SendNow publish => write_publish self max_packet_size publish
      | QueuedFor dropped => if (dropped : bool) then send_event MessageDropped else mret tt
      end
  | _ => send_packet self packet
  end.

(** ** PUBLISH ([publish.rs]) *)

(** The acknowledgement of a refused message, if its QoS asks for one. *)
Definition refuse_publish (self : nat) (publish : Publish) (reason_code : ReasonCode) : handler unit :=
  if negb (bool_decide (pub_qos publish = AtMostOnce)) then
    packet_id ← of_outcome (unwrap (pub_packet_id publish));
    send_packet self
      (if bool_decide (pub_qos publish = AtLeastOnce)
       then P.PubAck (MkPubAck packet_id reason_code Properties_default)
       else P.PubRec (MkPubRec packet_id reason_code Properties_default))
  else mret tt.

Definition handle_topic_alias (session : nat) (publish : Publish) : handler Publish :=
  match topic_alias (pub_properties publish) with
  | Some alias =>
      if is_empty (pub_topic publish) then
        topic ← read_session session (resolve_topic_alias alias);
        match topic with
        | Some topic => mret (publish <| pub_topic := topic |>)
        | None => violation "unknown topic alias"
        end
      else
        update_session session (register_topic_alias alias (pub_topic publish));;
        mret publish
  | None => mret publish
  end.

Definition publish_allowed (self : nat) (client_id : string) (publish : Publish) : handler HookResult :=
  username ← ask_self self c_username;
  action (fun w =>
    let '(r, h) := on_publish_check hooks client_id username (pub_topic publish) (pub_qos publish)
                     (pub_retain publish) (w_hooks w) in
    (r, w <| w_hooks := h |>)).

Definition retain_publish (publish : Publish) : handler unit :=
  cfg ← config;
  if pub_retain publish && bc_retain_available cfg
  then update_retained (pub_topic publish) (pub_payload publish) (pub_qos publish) (pub_properties publish)
  else mret tt.

(** The QoS 2 branch: the message is kept until PUBREL. *)
Definition receive_qos2 (self session : nat) (publish : Publish) : handler unit :=
  packet_id ← of_outcome (unwrap (pub_packet_id publish));
  limit_exceeded ← read_session session (fun s =>
    Z.of_nat (size (s_inflight_incoming s)) >=? s_max_awaiting_rel s);
  if (limit_exceeded : bool)
  then send_packet self (P.PubRec (MkPubRec packet_id RC.QuotaExceeded Properties_default))
  else
    update_session session (fun s => s <| s_inflight_incoming ::= <[packet_id := publish]> |>);;
    send_packet self (P.PubRec (PubRec_new packet_id));;
    retain_publish publish.

Definition handle_publish (self : nat) (client_id : string) (session : nat) (publish : Publish) : handler unit :=
  cfg ← config;
  match validate_topic_name_with_max_levels (pub_topic publish) (bc_max_topic_levels cfg) with
  | Ok _ =>
      publish ← handle_topic_alias session publish;
      acl_result ← publish_allowed self client_id publish;
      match acl_result with
      | HookOk false => refuse_publish self publish RC.NotAuthorized
      | HookErr _ => refuse_publish self publish RC.UnspecifiedError
      | HookOk true =>
          match pub_qos publish with
          | ExactlyOnce => receive_qos2 self session publish
          | AtLeastOnce =>
              packet_id ← of_outcome (unwrap (pub_packet_id publish));
              send_packet self (P.PubAck (PubAck_new packet_id));;
              retain_publish publish;;
              route_message client_id publish
          | AtMostOnce =>
              retain_publish publish;;
              route_message client_id publish
          end
      end
  | _ => refuse_publish self publish RC.TopicNameInvalid
  end.

(** ** SUBSCRIBE and UNSUBSCRIBE ([subscribe.rs]) *)

(** Whether a retained message is sent, and how: not when it has expired;
    otherwise with the remaining expiry interval. *)
Definition retained_publish (t : Z) (qos : QoS) (sub_id : option Z) (rm : RetainedMessage) : option Publish :=
  let elapsed := elapsed_secs t (rm_timestamp rm) in
  let expired :=
    match message_expiry_interval (rm_properties rm) with
    | Some expiry => elapsed >=? expiry
    | None => false
    end in
  if expired then None
  else
    let properties := rm_properties rm in
    let properties :=
      match message_expiry_interval properties with
      | Some expiry => properties <| message_expiry_interval := Some (Z.max 0 (expiry - elapsed)) |>
      | None => properties
      end in
    let properties := properties <| subscription_identifiers ::= (fun ids => ids ++ option_list sub_id) |> in
    Some (MkPublish false (QoS_min (rm_qos rm) qos) true (rm_topic rm) None (rm_payload rm) properties).

Definition send_retained (self session : nat) (qos : QoS) (sub_id : option Z) (rm : RetainedMessage) : handler unit :=
  t ← now;
  match retained_publish t qos sub_id rm with
  | None => mret tt
  | Some publish =>
      publish ←
        (if negb (bool_decide (pub_qos publish = AtMostOnce)) then
           id ← lock_session session (fun _ s => next_packet_id s);
           mret (publish <| pub_packet_id := Some id |>)
         else mret publish);
      buf ← encode_packet self (P.Publish publish);
      write_all self buf;;
      publish_sent (zlen buf)
  end.

Definition send_retained_messages (self : nat) (f : string) (qos : QoS) (session : nat) (sub_id : option Z)
    : handler unit :=
  matching_retained ← ask (fun w =>
    (filter (fun e => topic_matches_filter e.1 f) (map_to_list (w_retained w))).*2);
  for_all matching_retained (send_retained self session qos sub_id).

(** The outcome for one filter: the reason code and what is needed to decide
    about retained messages. *)
Record sub_outcome : Type := MkSubOutcome {
  so_granted : QoS;
  so_existed : bool;
  so_handling : RetainHandling;
  so_filter : string;
  so_reason : ReasonCode;
}.

Definition refuse_filter (f : string) (reason : ReasonCode) : sub_outcome :=
  MkSubOutcome AtMostOnce false DoNotSend f reason.

Definition granted_reason (q : QoS) : ReasonCode :=
  match q with
  | AtMostOnce => RC.Success
  | AtLeastOnce => RC.GrantedQoS1
  | ExactlyOnce => RC.GrantedQoS2
  end.

Definition subscribe_allowed (self : nat) (client_id : string) (sub : Packet.Subscription) : handler HookResult :=
  username ← ask_self self c_username;
  action (fun w =>
    let '(r, h) := on_subscribe_check hooks client_id username (Packet.sub_filter sub)
                     (so_qos (sub_options sub)) (w_hooks w) in
    (r, w <| w_hooks := h |>)).

(** The part of the loop after the checks: the subscription is granted. *)
Definition grant_subscription (client_id : string) (session : nat) (sub_id : option Z) (sub : Packet.Subscription)
    : handler sub_outcome :=
  cfg ← config;
  let f := Packet.sub_filter sub in
  let options := sub_options sub in
  let granted_qos := QoS_min (so_qos options) (bc_max_qos cfg) in
  existed ← read_session session (fun s => is_some (s_subscriptions s !! f));
  change (fun w => w <| w_subscriptions ::= subscribe f
    (SubscriptionStore.MkSubscription client_id granted_qos (so_no_local options)
       (so_retain_as_published options) sub_id None) |>);;
  update_session session (add_subscription f options sub_id);;
  send_event (SubscriptionAdded f client_id);;
  mret (MkSubOutcome granted_qos existed (so_retain_handling options) f (granted_reason granted_qos)).

Definition subscribe_one (self : nat) (client_id : string) (session : nat) (sub_id : option Z)
    (sub : Packet.Subscription) : handler sub_outcome :=
  cfg ← config;
  let f := Packet.sub_filter sub in
  match validate_topic_filter_with_max_levels f (bc_max_topic_levels cfg) with
  | Ok _ =>
      if negb (bc_wildcard_subscription_available cfg) && (contains "+" f || contains "#" f)
      then mret (refuse_filter f RC.WildcardSubsNotSupported)
      else
        acl_result ← subscribe_allowed self client_id sub;
        match acl_result with
        | HookOk true => grant_subscription client_id session sub_id sub
        | HookOk false => mret (refuse_filter f RC.NotAuthorized)
        | HookErr _ => mret (refuse_filter f RC.UnspecifiedError)
        end
  | _ => mret (refuse_filter f RC.TopicFilterInvalid)
  end.

Fixpoint subscribe_all (self : nat) (client_id : string) (session : nat) (sub_id : option Z)
    (subs : list Packet.Subscription) : handler (list sub_outcome) :=
  match subs with
  | [] => mret []
  | sub :: subs =>
      o ← subscribe_one self client_id session sub_id sub;
      os ← subscribe_all self client_id session sub_id subs;
      mret (o :: os)
  end.

Definition should_send_retained (o : sub_outcome) : bool :=
  is_success (so_reason o) &&
  match so_handling o with
  | SendAtSubscribe => true
  | SendAtSubscribeIfNew => negb (so_existed o)
  | DoNotSend => false
  end.

Definition handle_subscribe (self : nat) (client_id : string) (session : nat) (subscribe : Subscribe) : handler unit :=
  let sub_id := head (subscription_identifiers (subscribe_properties subscribe)) in
  outcomes ← subscribe_all self client_id session sub_id (subscribe_subscriptions subscribe);
  send_packet self (P.SubAck (MkSubAck (subscribe_packet_id subscribe) (so_reason <$> outcomes) Properties_default));;
  for_all outcomes (fun o =>
    if should_send_retained o
    then send_retained_messages self (so_filter o) (so_granted o) session sub_id
    else mret tt).

Definition unsubscribe_one (client_id : string) (session : nat) (f : string) : handler bool :=
  removed ← action (fun w =>
    let '(st, removed) := unsubscribe f client_id (w_subscriptions w) in
    (removed, w <| w_subscriptions := st |>));
  update_session session (fun s => (remove_subscription f s).2);;
  (if (removed : bool) then send_event (SubscriptionRemoved f client_id) else mret tt);;
  mret removed.

Fixpoint unsubscribe_filters_loop (client_id : string) (session : nat) (filters : list string) : handler (list bool) :=
  match filters with
  | [] => mret []
  | f :: filters =>
      removed ← unsubscribe_one client_id session f;
      rest ← unsubscribe_filters_loop client_id session filters;
      mret (removed :: rest)
  end.

Definition handle_unsubscribe (self : nat) (client_id : string) (session : nat) (unsubscribe : Unsubscribe)
    : handler unit :=
  v ← ask_self self (fun c => default V5 (protocol_version (c_decoder c)));
  removed ← unsubscribe_filters_loop client_id session (Packet.unsubscribe_filters unsubscribe);
  let reason_codes :=
    if bool_decide (v = V5)
    then (fun r : bool => if r then RC.Success else RC.NoSubscriptionExisted) <$> removed
    else [] in
  send_packet self (P.UnsubAck (MkUnsubAck (unsubscribe_packet_id unsubscribe) reason_codes Properties_default)).

(** ** CONNECT ([connect.rs]) *)

(** [{:x}] of a [u64]: at most sixteen digits. *)
Definition hex_digit (d : Z) : Ascii.ascii := Ascii.ascii_of_N (Z.to_N (if d <? 10 then 48 + d else 87 + d)).

Fixpoint hex_digits (fuel : nat) (v : Z) (acc : string) : string :=
  match fuel with
  | O => acc
  | S fuel =>
      let acc := String (hex_digit (v mod 16)) acc in
      if v <? 16 then acc else hex_digits fuel (v / 16) acc
  end.

Definition generated_client_id (rand : Z) : string := String.append "roker-" (hex_digits 16 rand EmptyString).

(** A CONNACK that refuses the connection. *)
Definition refuse_connect (self : nat) (reason_code : ReasonCode) (msg : string) : handler unit :=
  send_packet self (P.ConnAck (MkConnAck false reason_code Properties_default));;
  violation msg.

Definition authenticate (self : nat) (client_id : string) (connect : Connect) : handler HookResult :=
  action (fun w =>
    let '(r, h) := on_authenticate hooks client_id (conn_username connect) (conn_password connect) (w_hooks w) in
    (r, w <| w_hooks := h |>)).

(** The parameters of the connection, put into the session. *)
Definition apply_connect (cfg : BrokerConfig) (connect : Connect) (t : Z) (s : Session) : Session :=
  let props := conn_properties connect in
  let s := s <| s_clean_start := conn_clean_start connect |>
             <| s_keep_alive := if conn_keep_alive connect =? 0 then bc_default_keep_alive cfg
                                else Z.min (conn_keep_alive connect) (bc_max_keep_alive cfg) |> in
  let s :=
    if bool_decide (conn_protocol_version connect = V5) then
      let s :=
        match session_expiry_interval props with
        | Some interval => s <| s_session_expiry_interval := interval |>
        | None => if negb (conn_clean_start connect) then s <| s_session_expiry_interval := 4294967295 |> else s
        end in
      let s :=
        match receive_maximum props with
        | Some max => s <| s_receive_maximum := max |> <| s_send_quota := max |>
        | None => s
        end in
      let s :=
        match maximum_packet_size props with
        | Some max => s <| s_max_packet_size := max |>
        | None => s
        end in
      match topic_alias_maximum props with
      | Some max => s <| s_topic_alias_maximum := max |>
      | None => s
      end
    else s <| s_session_expiry_interval := if negb (conn_clean_start connect) then 4294967295 else 0 |> in
  let s :=
    match conn_will connect with
    | Some will =>
        let s := s <| s_will := Some (MkWillMessage (will_topic will) (will_payload will) (will_qos will)
                                        (will_retain will) (will_properties will)) |> in
        match will_delay_interval (will_properties will) with
        | Some delay => s <| s_will_delay_interval := delay |>
        | None => s
        end
    | None => s
    end in
  touch t s.

Definition flag (b : bool) : option Z := Some (if b then 1 else 0).

Definition connack_for (cfg : BrokerConfig) (connect : Connect) (client_id : string) (session_present : bool)
    : ConnAck :=
  let properties :=
    if bool_decide (conn_protocol_version connect = V5) then
      let p := Properties_default <| receive_maximum := Some (bc_receive_maximum cfg) |> in
      let p := if negb (bool_decide (bc_max_qos cfg = ExactlyOnce))
               then p <| maximum_qos := Some (QoS_as_u8 (bc_max_qos cfg)) |> else p in
      let p := p <| retain_available := flag (bc_retain_available cfg) |>
                 <| maximum_packet_size := Some (wrap_u32 (bc_max_packet_size cfg)) |>
                 <| topic_alias_maximum := Some (bc_max_topic_alias cfg) |>
                 <| wildcard_subscription_available := flag (bc_wildcard_subscription_available cfg) |>
                 <| subscription_identifier_available := flag (bc_subscription_identifiers_available cfg) |>
                 <| shared_subscription_available := flag (bc_shared_subscriptions_available cfg) |> in
      if is_empty (conn_client_id connect) then p <| assigned_client_identifier := Some client_id |> else p
    else Properties_default in
  MkConnAck (session_present && negb (conn_clean_start connect)) RC.Success properties.

(** One message of the queue: as in [handle_outgoing_packet], except that the
    identifier is always a new one. *)
Definition prepare_pending (t : Z) (publish : Publish) (s : Session) : outcome ConnectionError (sending * Session) :=
  let '(ok, s) := decrement_send_quota s in
  if negb ok then Ok (queue_for_later t publish s)
  else if Z.of_nat (size (s_inflight_outgoing s)) >=? s_max_inflight s
  then Ok (queue_for_later t publish (increment_send_quota s))
  else
    '(id, s) ← next_packet_id s;
    let publish := publish <| pub_packet_id := Some id |> in
    Ok (SendNow publish, store_inflight t id publish s).

Definition send_pending_one (self session : nat) (max_packet_size : Z) (publish : Publish) : handler unit :=
  prepared ←
    (if negb (bool_decide (pub_qos publish = AtMostOnce))
     then lock_session session (fun t s => prepare_pending t publish s)
     else mret (SendNow publish));
  match prepared with
  | SendNow publish => write_publish self max_packet_size publish
  | QueuedFor dropped => if (dropped : bool) then send_event MessageDropped else mret tt
  end.

Definition send_pending_messages (self session : nat) : handler unit :=
  '(pending, max_packet_size) ← write_session session (fun t s =>
    let '(pending, s) := drain_pending_messages t s in ((pending, s_max_packet_size s), s));
  for_all pending (send_pending_one self session max_packet_size).

Definition resend_inflight_messages (self session : nat) : handler unit :=
  '(to_resend, max_packet_size) ← write_session session (fun t s =>
    ((resend <$> map_to_list (s_inflight_outgoing s), s_max_packet_size s),
     s <| s_inflight_outgoing ::= fmap (mark_resent t) |>));
  for_all to_resend (resend_one self max_packet_size).

Definition send_retained_for_existing_subscriptions (self session : nat) : handler unit :=
  subs ← read_session session (fun s => (map_to_list (s_subscriptions s)).*2);
  for_all subs (fun sub =>
    send_retained_messages self (ss_filter sub) (so_qos (ss_options sub)) session (ss_subscription_id sub)).

Definition SessionTakenOver : Packet := P.Disconnect (MkDisconnect RC.SessionTakenOver Properties_default).

(** The rest of [handle_connect] for an admitted client. *)
Definition establish (self : nat) (connect : Connect) (client_id : string) : handler unit :=
  cfg ← config;
  try_send_to client_id SessionTakenOver;;
  '(session, session_present) ←
    get_or_create_session client_id (conn_protocol_version connect) (conn_clean_start connect)
      (MkLimits (bc_max_queued_messages cfg) (bc_max_inflight cfg) (bc_max_awaiting_rel cfg));
  (if conn_clean_start connect
   then change (fun w => w <| w_subscriptions ::= unsubscribe_all client_id |>) else mret tt);;
  write_session session (fun t s => (tt, apply_connect cfg connect t s));;
  channel ← ask_self self c_channel;
  change (fun w => w <| w_connections ::= <[client_id := channel]> |>);;
  send_packet self (P.ConnAck (connack_for cfg connect client_id session_present));;
  change_self self (fun c => c <| c_state := St.Connected client_id session |>);;
  send_event (ClientConnected client_id (conn_protocol_version connect));;
  send_pending_messages self session;;
  if (session_present : bool) then
    resend_inflight_messages self session;;
    send_retained_for_existing_subscriptions self session
  else mret tt.

(** [rand] is what [rand_id()] returns. *)
Definition handle_connect (self : nat) (rand : Z) (connect : Connect) : handler unit :=
  let v := conn_protocol_version connect in
  change_self self (fun c =>
    c <| c_decoder ::= (fun d => Decoder_set_protocol_version d v) |> <| c_encoder := Encoder_new v |>);;
  if is_empty (conn_client_id connect) && negb (conn_clean_start connect)
  then refuse_connect self RC.ClientIdNotValid "empty client ID with clean_start=false"
  else
    let client_id := if is_empty (conn_client_id connect) then generated_client_id rand else conn_client_id connect in
    auth_result ← authenticate self client_id connect;
    match auth_result with
    | HookOk false => refuse_connect self RC.NotAuthorized "authentication failed"
    | HookErr _ => refuse_connect self RC.UnspecifiedError "authentication error"
    | HookOk true =>
        change_self self (fun c => c <| c_username := conn_username connect |>);;
        cfg ← config;
        is_takeover ← ask (fun w => is_some (w_connections w !! client_id));
        count ← ask (fun w => Z.of_nat (size (w_connections w)));
        if negb is_takeover && (count >=? bc_max_connections cfg)
        then refuse_connect self RC.ServerUnavailable "max connections reached"
        else establish self connect client_id
    end.

(** ** The end of a connection ([disconnect.rs]) *)
Definition will_publish (will : WillMessage) : Publish :=
  MkPublish false (wm_qos will) (wm_retain will) (wm_topic will) None (wm_payload will) (wm_properties will).

(** The delayed task: only for the disconnection that started it, and only if
    the session is still the client's. *)
Definition publish_delayed_will (d : DelayedWill) : handler unit :=
  current ← ask (fun w => get_session (dw_client_id d) (w_sessions w));
  should_publish ←
    (if bool_decide (current = Some (dw_session d)) then
       read_session (dw_session d) (fun s =>
         bool_decide (s_state s = Disconnected) && is_some (s_will s)
         && bool_decide (s_disconnected_at s = dw_disconnected_at d))
     else mret false);
  if (should_publish : bool) then
    will ← write_session (dw_session d) (fun _ s => (s_will s, s <| s_will := None |>));
    match will with
    | Some will =>
        retain_publish (will_publish will);;
        ignore_errors (route_will_message (dw_client_id d) (will_publish will))
    | None => mret tt
    end
  else mret tt.

(** The will of a connection that ends without one of the normal reasons. *)
Definition publish_will_message (client_id : string) (session : nat) (will : WillMessage) (delay : Z) : handler unit :=
  if delay >? 0 then
    disconnected_at ← read_session session s_disconnected_at;
    change (fun w => w <| w_wills ::= (fun l =>
      l ++ [MkDelayedWill (w_now w + from_secs delay) client_id session disconnected_at]) |>)
  else
    retain_publish (will_publish will);;
    ignore_errors (route_message client_id (will_publish will));;
    update_session session (fun s => s <| s_will := None |>).

Definition persist_session (client_id : string) (session : nat) : handler unit :=
  s ← read_session session id;
  if negb (s_clean_start s) && (s_session_expiry_interval s >? 0)
  then persist (fun c => SetSession client_id (from_session c s))
  else if s_clean_start s || (s_session_expiry_interval s =? 0)
  then persist (fun _ => DeleteSession client_id)
  else mret tt.

Definition handle_disconnect (client_id : string) (session : nat) (publish_will : bool) : handler unit :=
  change (fun w => w <| w_connections ::= delete client_id |>);;
  '(clean_start, will, delay) ← read_session session (fun s => (s_clean_start s, s_will s, s_will_delay_interval s));
  (if (clean_start : bool)
   then change (fun w => w <| w_subscriptions ::= unsubscribe_all client_id |>) else mret tt);;
  disconnect_session client_id;;
  (if publish_will then
     match will with
     | Some will => publish_will_message client_id session will delay
     | None => mret tt
     end
   else update_session session (fun s => s <| s_will := None |>));;
  persist_session client_id session;;
  send_event (ClientDisconnected client_id).

(** ** The packets of a connected client ([mod.rs]) *)
Definition handle_packet (self : nat) (client_id : string) (session : nat) (packet : Packet) : handler unit :=
  match packet with
  | P.Connect _ => violation "duplicate CONNECT"
  | P.Publish publish => handle_publish self client_id session publish
  | P.PubAck puback => handle_puback session puback
  | P.PubRec pubrec => handle_pubrec self session pubrec
  | P.PubRel pubrel => handle_pubrel self client_id session pubrel
  | P.PubComp pubcomp => handle_pubcomp session pubcomp
  | P.Subscribe subscribe => handle_subscribe self client_id session subscribe
  | P.Unsubscribe unsubscribe => handle_unsubscribe self client_id session unsubscribe
  | P.PingReq => send_packet self P.PingResp
  | P.Disconnect disconnect =>
      handle_disconnect client_id session (bool_decide (disconnect_reason_code disconnect = RC.DisconnectWithWill));;
      fail CE.Shutdown
  | _ => mret tt
  end.

(** ** The task of a connection *)

(** [self.decoder.decode(&self.read_buf)], which may set the protocol version;
    a packet is taken out of the buffer. *)
Definition decode_next (self : nat) : handler (outcome DecodeError (option Packet)) :=
  Act (fun w =>
    match w_conns w !! self with
    | Some c =>
        let '(d, r) := decode (c_decoder c) (c_read_buf c) in
        let c := c <| c_decoder := d |> in
        match r with
        | Ok (Some (p, n)) =>
            (Ok (Ok (Some p)), w <| w_conns ::= <[self := c <| c_read_buf ::= drop (Z.to_nat n) |>]> |>)
        | Ok None => (Ok (Ok None), w <| w_conns ::= <[self := c]> |>)
        | Err e => (Ok (Err e), w <| w_conns ::= <[self := c]> |>)
        | Panic => (Panic, w)
        | NoFuel => (NoFuel, w)
        end
    | None => (Panic, w)
    end) Ret.

Definition receive (self : nat) (data : list byte) : handler unit :=
  change_self self (fun c => c <| c_read_buf ::= (fun b => b ++ data) |>).

(** One round of [read_connect] after more data: whether the client is
    connected now. *)
Definition read_connect (self : nat) (rand : Z) (data : list byte) : handler bool :=
  receive self data;;
  r ← decode_next self;
  match r with
  | Ok (Some (P.Connect connect)) => handle_connect self rand connect;; mret true
  | Ok (Some _) => violation "first packet must be CONNECT"
  | Ok None => mret false
  | Err e =>
      v ← ask_self self (fun c => protocol_version (c_decoder c));
      (if bool_decide (v = Some V5) then
         change_self self (fun c => c <| c_encoder := Encoder_new V5 |>);;
         let reason_code :=
           match e with
           | DE.InvalidProtocolVersion _ => RC.UnsupportedProtocolVersion
           | _ => RC.MalformedPacket
           end in
         ignore_errors (send_packet self (P.ConnAck (MkConnAck false reason_code Properties_default)))
       else mret tt);;
      fail (CE.Decode e)
  | Panic => of_outcome Panic
  | NoFuel => of_outcome NoFuel
  end.

(** [Instant + Duration] panics when the result is out of range (signed 64-bit
    seconds); [Duration::from_secs(u64::MAX)] stands for no timeout. *)
Definition instant_add (t d : Z) : outcome ConnectionError Z :=
  if t + d <? from_secs (2 ^ 63) then Ok (t + d) else Panic.

Definition keep_alive_timeout (secs : Z) : Z := if secs >? 0 then secs * 1500000000 else from_secs (2 ^ 64 - 1).

Definition reset_deadline (self : nat) : handler unit :=
  t ← now;
  k ← ask_self self c_keep_alive;
  deadline ← of_outcome (instant_add t k);
  change_self self (fun c => c <| c_deadline := deadline |>).

(** The beginning of [run_connected]; [tokio::time::interval] panics on a zero
    period. *)
Definition start_connected (self session : nat) : handler unit :=
  secs ← read_session session s_keep_alive;
  change_self self (fun c => c <| c_keep_alive := keep_alive_timeout secs |>);;
  cfg ← config;
  (if bc_retry_interval cfg =? 0 then of_outcome Panic else mret tt);;
  reset_deadline self.

(** [if let Err(e) = self.handle_packet(..)]: only an orderly disconnection has
    already been handled. *)
Definition handle_packet_errors (client_id : string) (session : nat) (m : handler unit) : handler unit :=
  prog_bind m (fun r =>
    match r with
    | Err CE.Shutdown => fail CE.Shutdown
    | Err e => handle_disconnect client_id session true;; fail e
    | r => of_outcome r
    end).

(** The loop over the packets in the buffer; every packet takes two bytes or
    more. *)
Fixpoint process_packets (fuel self : nat) (client_id : string) (session : nat) : handler unit :=
  match fuel with
  | O => of_outcome NoFuel
  | S fuel =>
      r ← decode_next self;
      match r with
      | Ok (Some packet) =>
          write_session session (fun t s => (tt, touch t s));;
          reset_deadline self;;
          handle_packet_errors client_id session (handle_packet self client_id session packet);;
          process_packets fuel self client_id session
      | Ok None => mret tt
      | Err e => fail (CE.Decode e)
      | Panic => of_outcome Panic
      | NoFuel => of_outcome NoFuel
      end
  end.

(** The branches of the [select!] of [run_connected]. *)
Inductive conn_event : Type :=
  | SocketData (data : list byte)
  | SocketEof
  | SocketError
  | ChannelPacket
  | RetryTick
  | KeepAliveTimeout.

(** [Ok true]: the loop goes on; [Ok false]: [run_connected] returns [Ok(())]. *)
Definition on_event (self : nat) (client_id : string) (session : nat) (ev : conn_event) : handler bool :=
  match ev with
  | SocketEof => handle_disconnect client_id session true;; mret false
  | SocketError => handle_disconnect client_id session true;; fail (CE.Io ReadFailed)
  | SocketData data =>
      receive self data;;
      fuel ← ask_self self (fun c => S (length (c_read_buf c)));
      process_packets fuel self client_id session;;
      mret true
  | ChannelPacket =>
      packet ← action (fun w =>
        match w_conns w !! self with
        | Some c =>
            match w_channels w !! c_channel c with
            | Some ch => (head (ch_queue ch), w <| w_channels ::= <[c_channel c := ch <| ch_queue ::= tail |>]> |>)
            | None => (None, w)
            end
        | None => (None, w)
        end);
      match packet with
      | Some packet => handle_outgoing_packet self session packet;; mret true
      | None => mret true
      end
  | RetryTick => retry_unacked_messages self session;; mret true
  | KeepAliveTimeout =>
      v ← ask_self self (fun c => protocol_version (c_decoder c));
      (if bool_decide (v = Some V5)
       then ignore_errors (send_packet self (P.Disconnect (MkDisconnect RC.KeepAliveTimeout Properties_default)))
       else mret tt);;
      handle_disconnect client_id session true;;
      fail CE.Timeout
  end.

(** [mpsc::channel] panics for a capacity of zero and for one above
    [Semaphore::MAX_PERMITS], which is [usize::MAX >> 3]. *)
Definition MAX_PERMITS : Z := 2 ^ 61 - 1.

Definition channel_capacity_ok (capacity : Z) : bool := (1 <=? capacity) && (capacity <=? MAX_PERMITS).

(** A connection with its channel. *)
Definition new_connection (self : nat) (w : World W) : World W :=
  w <| w_conns ::= <[self := MkConnection St.Connecting
                       (with_max_packet_size Decoder_new (bc_max_packet_size (w_config w)))
                       (Encoder_new V5) [] None self [] true 0 0]> |>
    <| w_channels ::= <[self := MkChannel [] true]> |>.

(** [Connection::new] *)
Definition accept_connection (self : nat) (w : World W) : outcome ConnectionError (World W) :=
  if channel_capacity_ok (bc_outbound_channel_capacity (w_config w)) then Ok (new_connection self w) else Panic.

(** The end of the task: the receiver of the channel is dropped. *)
Definition drop_connection (self : nat) (w : World W) : World W :=
  match w_conns w !! self with
  | Some c => w <| w_conns ::= delete self |>
                <| w_channels ::= alter (fun ch => ch <| ch_open := false |> <| ch_queue := [] |>) (c_channel c) |>
  | None => w
  end.
End connection.
