(* ===== verification/Routing.v ===== *)
(** * Theorems about routing

    The message that each client gets from [route_message], where it goes, and
    the agreement of the two routing functions. *)

From S2P Require Import Prelude Protocol Codec Properties Packet.
From S2P Require Import TopicValidation TopicTrie SubscriptionStore Session Hooks Persistence Broker.

(** ** Lemmas: running tasks *)
Lemma run_bind {S A B} (m : prog S A) (k : A → prog S B) s :
  run (prog_bind m k) s = let '(a, s) := run m s in run (k a) s.
Proof.
  revert s. induction m as [a|C f k' IH]; intros s; [done|]. cbn. destruct (f s) as [c s']. apply IH.
Qed.

Section handlers.
Context {W : Type}.
Implicit Types w : World W.

Lemma run_handler_bind {A B} (m : handler W A) (k : A → handler W B) w :
  run (m ≫= k) w =
    match run m w with
    | (Ok a, w) => run (k a) w
    | (Err e, w) => (Err e, w)
    | (Panic, w) => (Panic, w)
    | (NoFuel, w) => (NoFuel, w)
    end.
Proof.
  unfold mbind, handler_bind. rewrite run_bind. destruct (run m w) as [[a|e| |] w']; done.
Qed.

Lemma run_mret {A} (a : A) w : run (mret a : handler W A) w = (Ok a, w).
Proof. done. Qed.

Lemma run_action {B} (f : World W → B * World W) w : run (action f) w = (Ok (f w).1, (f w).2).
Proof. unfold action. cbn. by destruct (f w). Qed.

Lemma run_lock_session {B} c (f : Z → Session → outcome ConnectionError (B * Session)) w s :
  cells (w_sessions w) !! c = Some s →
  run (lock_session c f) w =
    match f (w_now w) s with
    | Ok (b, s') => (Ok b, w <| w_sessions ::= modify_session c (fun _ => s') |>)
    | Err e => (Err e, w)
    | Panic => (Panic, w)
    | NoFuel => (NoFuel, w)
    end.
Proof. intros Hs. unfold lock_session. cbn. rewrite Hs. by destruct (f (w_now w) s) as [[]| | |]. Qed.
End handlers.

(** ** The message for a client *)
Definition QoS_max (a b : QoS) : QoS := if qos_gt b a then b else a.

(** The matching subscriptions that count for a client: with no-local, a
    client does not get its own messages. *)
Definition relevant (sender_id client : string) (sub : SubscriptionStore.Subscription) : bool :=
  String.eqb (client_id sub) client && negb (no_local sub && String.eqb client sender_id).

(** The distinct elements in the order of their first occurrence. *)
Fixpoint distinct (seen : list Z) (l : list Z) : list Z :=
  match l with
  | [] => seen
  | id :: l => distinct (if existsb (Z.eqb id) seen then seen else seen ++ [id]) l
  end.

(** What the subscriptions of one client amount to. *)
Definition summary (subs : list SubscriptionStore.Subscription) : option ClientSub :=
  match subs with
  | [] => None
  | _ :: _ =>
      Some (MkClientSub (foldl QoS_max AtMostOnce (SubscriptionStore.sub_qos <$> subs))
              (existsb retain_as_published subs) (distinct [] (omap subscription_id subs)))
  end.

Lemma update_entry_eq q r ids sub :
  update_entry (MkClientSub q r ids) sub =
    MkClientSub (QoS_max q (SubscriptionStore.sub_qos sub)) (r || retain_as_published sub)
      (distinct ids (option_list (subscription_id sub))).
Proof.
  unfold update_entry, QoS_max. cbn. destruct (qos_gt _ q), (retain_as_published sub), (subscription_id sub) as [id|];
    unfold set_field; cbn; rewrite ?orb_true_r, ?orb_false_r; try done; destruct (existsb _ ids); done.
Qed.

Lemma foldl_update_entry subs q r ids :
  foldl update_entry (MkClientSub q r ids) subs =
    MkClientSub (foldl QoS_max q (SubscriptionStore.sub_qos <$> subs)) (r || existsb retain_as_published subs)
      (distinct ids (omap subscription_id subs)).
Proof.
  revert q r ids. induction subs as [|sub subs IH]; intros q r ids; cbn [foldl]; [by rewrite orb_false_r|].
  rewrite update_entry_eq, IH. cbn. rewrite orb_assoc. f_equal. by destruct (subscription_id sub).
Qed.

Lemma summary_eq subs :
  summary subs =
    match subs with [] => None | _ => Some (foldl update_entry (MkClientSub AtMostOnce false []) subs) end.
Proof. destruct subs; [done|]. by rewrite foldl_update_entry. Qed.

Lemma note_match_will_lookup sender subs m client :
  foldl (note_match_will sender) m subs !! client =
    match filter (relevant sender client) subs with
    | [] => m !! client
    | rs => Some (foldl update_entry (default (MkClientSub AtMostOnce false []) (m !! client)) rs)
    end.
Proof.
  revert m. induction subs as [|sub subs IH]; intros m; [done|]. cbn [foldl]. rewrite IH. clear IH.
  unfold note_match_will. set (m' := if no_local sub && _ then m else _).
  assert (Hm' : m' !! client = if relevant sender client sub
    then Some (update_entry (default (MkClientSub AtMostOnce false []) (m !! client)) sub) else m !! client).
  { unfold m', relevant. destruct (String.eqb_spec (client_id sub) client) as [<-|Hne]; cbn.
    - destruct (no_local sub && _); cbn; [done|]. by rewrite lookup_insert_eq.
    - destruct (no_local sub && _); cbn; [done|]. by rewrite lookup_insert_ne. }
  rewrite Hm', filter_cons. destruct (relevant sender client sub) eqn:Hr; cbn.
  - rewrite decide_True by done. by destruct (filter _ subs).
  - rewrite decide_False by (rewrite ?Hr; tauto). done.
Qed.

Lemma note_match_eq sender m sub : note_match sender m sub = note_match_will sender m sub.
Proof.
  unfold note_match, note_match_will. destruct (_ && _); [done|].
  destruct (m !! client_id sub) as [e|]; [done|]. cbn. rewrite update_entry_eq. cbn. do 2 f_equal.
  - unfold QoS_max. by destruct (SubscriptionStore.sub_qos sub).
  - by destruct (subscription_id sub).
Qed.

Lemma note_match_fold sender m subs :
  foldl (note_match sender) m subs = foldl (note_match_will sender) m subs.
Proof. apply foldl_ext_elem. intros. apply note_match_eq. Qed.

(** The table of [route_message] has exactly the clients with a relevant
    subscription, each with the summary of them. *)
Lemma client_subs_lookup sender subs client :
  foldl (note_match sender) ∅ subs !! client = summary (filter (relevant sender client) subs).
Proof.
  rewrite note_match_fold, note_match_will_lookup, lookup_empty, summary_eq. by destruct (filter _ subs).
Qed.

(** ** Where a message goes *)
Section delivery.
Context {W : Type}.
Implicit Types w : World W.

(** What is known of a client: its channel, if it is registered, and its
    session. *)
Definition channel_of w (client : string) : option Channel :=
  n ← w_connections w !! client; w_channels w !! n.

(** No two clients share a channel. *)
Definition connections_inj w : Prop :=
  ∀ client client' n, w_connections w !! client = Some n → w_connections w !! client' = Some n → client = client'.

Definition enqueue (capacity : Z) (p : Publish) (ch : Channel) : Channel :=
  if ch_open ch && (zlen (ch_queue ch) <? capacity)
  then ch <| ch_queue ::= (fun q => q ++ [P.Publish p]) |> else ch.

(** The message is queued in a session that is kept. *)
Definition keep_message (t : Z) (p : Publish) (s : Session) : Session :=
  if s_clean_start s then s else (queue_message t p s).2.

Definition drops_message (p : Publish) (s : Session) : bool :=
  negb (s_clean_start s) && (zlen (s_pending_messages s) >=? s_max_pending_messages s).

Definition deliver_world (client : string) (p : Publish) w : World W :=
  match w_connections w !! client with
  | Some n => try_send n (P.Publish p) w
  | None =>
      match sessions (w_sessions w) !! client with
      | Some c =>
          let w' := w <| w_sessions ::= modify_session c (keep_message (w_now w) p) |> in
          if from_option (drops_message p) false (cells (w_sessions w) !! c)
          then w' <| w_events ::= (fun l => l ++ [MessageDropped]) |> else w'
      | None => w
      end
  end.

Lemma set_sessions_ext (F G : SessionStore → SessionStore) w :
  F (w_sessions w) = G (w_sessions w) → w <| w_sessions ::= F |> = w <| w_sessions ::= G |>.
Proof. intros E. unfold set_field. by rewrite E. Qed.

Lemma run_write_session {B} c (f : Z → Session → B * Session) w s :
  cells (w_sessions w) !! c = Some s →
  run (write_session c f) w =
    (Ok (f (w_now w) s).1, w <| w_sessions ::= modify_session c (fun s => (f (w_now w) s).2) |>).
Proof.
  intros Hs. unfold write_session. rewrite (run_lock_session _ _ _ _ Hs). destruct (f (w_now w) s) as [b s'] eqn:Hf.
  cbn [fst]. f_equal. apply set_sessions_ext, (modify_ext _ _ _ _ s Hs). by rewrite Hf.
Qed.

Lemma run_ask {B} (f : World W → B) w : run (ask f) w = (Ok (f w), w).
Proof. done. Qed.

Lemma run_change (f : World W → World W) w : run (change f) w = (Ok tt, f w).
Proof. done. Qed.

Lemma run_send_event (e : BrokerEvent) w : run (send_event e) w = (Ok tt, w <| w_events ::= (fun l => l ++ [e]) |>).
Proof. done. Qed.

Lemma sessions_cell w client c :
  sessions_wf (w_sessions w) → sessions (w_sessions w) !! client = Some c →
  ∃ s, cells (w_sessions w) !! c = Some s ∧ s_client_id s = client.
Proof. intros Hwf Hc%(sw_cells _ Hwf). cbn in Hc. apply fmap_Some in Hc as (s & ? & ->). by exists s. Qed.

Lemma run_deliver client p w :
  sessions_wf (w_sessions w) → run (deliver client p) w = (Ok tt, deliver_world client p w).
Proof.
  intros Hwf. unfold deliver, deliver_world, try_send_to. rewrite run_handler_bind, run_action.
  destruct (w_connections w !! client) as [n|]; [done|]. cbn [fst snd].
  rewrite run_handler_bind, run_ask. unfold get_session. destruct (sessions (w_sessions w) !! client) as [c|] eqn:Hc; [|done].
  destruct (sessions_cell w client c Hwf Hc) as (s & Hs & _).
  rewrite run_handler_bind, (run_write_session _ _ _ _ Hs), Hs. cbn [from_option].
  unfold keep_message, drops_message. rewrite queue_message_eq. destruct (s_clean_start s) eqn:Hcl; cbn [negb andb fst snd].
  - rewrite run_mret. f_equal. apply set_sessions_ext, (modify_ext _ _ _ _ s Hs). by rewrite Hcl.
  - set (full := zlen (s_pending_messages s) >=? s_max_pending_messages s).
    replace (bool_decide (_ = DroppedOldest)) with full by (by destruct full).
    set (w' := w <| w_sessions ::= _ |>).
    replace w' with (w <| w_sessions ::= modify_session c (keep_message (w_now w) p) |>).
    + by destruct full.
    + apply set_sessions_ext, (modify_ext _ _ _ _ s Hs). unfold keep_message. rewrite Hcl. cbn [negb].
      by destruct (queue_message (w_now w) p s).
Qed.

Lemma deliver_world_frame client p w :
  let w' := deliver_world client p w in
  w_connections w' = w_connections w ∧ w_config w' = w_config w ∧ w_now w' = w_now w ∧
  w_subscriptions w' = w_subscriptions w ∧ w_retained w' = w_retained w ∧ w_conns w' = w_conns w ∧
  w_hooks w' = w_hooks w ∧ w_persisted w' = w_persisted w.
Proof.
  cbn. unfold deliver_world. destruct (w_connections w !! client); [done|].
  destruct (sessions (w_sessions w) !! client); [|done]. by destruct (from_option _ _ _).
Qed.

Lemma deliver_world_channels client p w :
  w_channels (deliver_world client p w) =
    match w_connections w !! client with
    | Some n => alter (enqueue (bc_outbound_channel_capacity (w_config w)) p) n (w_channels w)
    | None => w_channels w
    end.
Proof.
  unfold deliver_world. destruct (w_connections w !! client); [done|].
  destruct (sessions (w_sessions w) !! client); [|done]. by destruct (from_option _ _ _).
Qed.

Lemma deliver_world_channel client p w client' :
  connections_inj w →
  channel_of (deliver_world client p w) client' =
    if decide (client = client') then enqueue (bc_outbound_channel_capacity (w_config w)) p <$> channel_of w client'
    else channel_of w client'.
Proof.
  intros Hinj. destruct (deliver_world_frame client p w) as (Hc & _). unfold channel_of.
  rewrite Hc, deliver_world_channels. destruct (w_connections w !! client) as [n|] eqn:Hn.
  - destruct (decide (client = client')) as [<-|Hne].
    + rewrite Hn. cbn. by rewrite lookup_alter_eq.
    + destruct (w_connections w !! client') as [n'|] eqn:Hn'; [|done]. cbn. rewrite lookup_alter_ne; [done|].
      intros ->. by apply Hne, (Hinj _ _ n').
  - destruct (decide (client = client')) as [<-|]; [by rewrite Hn|done].
Qed.

Lemma deliver_world_sessions client p w :
  w_sessions (deliver_world client p w) =
    match w_connections w !! client, sessions (w_sessions w) !! client with
    | None, Some c => modify_session c (keep_message (w_now w) p) (w_sessions w)
    | _, _ => w_sessions w
    end.
Proof.
  unfold deliver_world. destruct (w_connections w !! client); [done|].
  destruct (sessions (w_sessions w) !! client); [|done]. by destruct (from_option _ _ _).
Qed.

Lemma keep_message_wf t p s : session_wf s → session_wf (keep_message t p s).
Proof. intros Hs. unfold keep_message. destruct (s_clean_start s); [done|]. by apply wf_queue_message. Qed.

Lemma keep_message_client t p s : s_client_id (keep_message t p s) = s_client_id s.
Proof. unfold keep_message. destruct (s_clean_start s); [done|]. by rewrite queue_message_eq. Qed.

Lemma deliver_world_wf client p w :
  sessions_wf (w_sessions w) → sessions_wf (w_sessions (deliver_world client p w)).
Proof.
  intros Hwf. rewrite deliver_world_sessions. destruct (w_connections w !! client); [done|].
  destruct (sessions _ !! client); [|done].
  apply modify_wf; [intros; by apply keep_message_wf|apply keep_message_client|done].
Qed.

Lemma session_of_modify st c f client :
  sessions_wf st →
  session_of (modify_session c f st) client =
    if decide (sessions st !! client = Some c) then f <$> session_of st client else session_of st client.
Proof.
  intros Hwf. unfold session_of. change (sessions (modify_session c f st)) with (sessions st).
  destruct (sessions st !! client) as [c'|]; [|by destruct (decide _)]. cbn [mbind option_bind].
  rewrite lookup_modify. destruct (decide (c = c')) as [<-|Hne].
  - by rewrite decide_True.
  - by rewrite decide_False by congruence.
Qed.

Lemma deliver_world_session client p w client' :
  sessions_wf (w_sessions w) →
  session_of (w_sessions (deliver_world client p w)) client' =
    if decide (client = client' ∧ w_connections w !! client' = None)
    then keep_message (w_now w) p <$> session_of (w_sessions w) client' else session_of (w_sessions w) client'.
Proof.
  intros Hwf. rewrite deliver_world_sessions. destruct (w_connections w !! client) as [n|] eqn:Hn.
  - rewrite decide_False; [done|]. intros [<- ?]. congruence.
  - destruct (sessions (w_sessions w) !! client) as [c|] eqn:Hc.
    + rewrite session_of_modify by done. destruct (decide (client = client')) as [<-|Hne].
      * by rewrite decide_True, decide_True.
      * rewrite decide_False by (intros Hc'; by apply Hne, (sessions_inj _ _ _ c Hwf)). by rewrite decide_False by tauto.
    + destruct (decide _) as [[<- _]|]; [|done]. unfold session_of. by rewrite Hc.
Qed.

(** ** Delivery to many clients *)
Definition deliver_all {A} (msg : A → Publish) (l : list (string * A)) w : World W :=
  foldl (fun w e => deliver_world e.1 (msg e.2) w) w l.

Lemma deliver_all_cons {A} (msg : A → Publish) e l w :
  deliver_all msg (e :: l) w = deliver_all msg l (deliver_world e.1 (msg e.2) w).
Proof. done. Qed.

Lemma run_deliver_all {A} (msg : A → Publish) l w :
  sessions_wf (w_sessions w) →
  run (for_all l (fun e => deliver e.1 (msg e.2))) w = (Ok tt, deliver_all msg l w) ∧
  sessions_wf (w_sessions (deliver_all msg l w)).
Proof.
  revert w. induction l as [|e l IH]; intros w Hwf; [done|]. cbn [for_all].
  rewrite run_handler_bind, run_deliver by done. rewrite deliver_all_cons. by apply IH, deliver_world_wf.
Qed.

Lemma deliver_all_frame {A} (msg : A → Publish) l w :
  let w' := deliver_all msg l w in
  w_connections w' = w_connections w ∧ w_config w' = w_config w ∧ w_now w' = w_now w ∧
  w_subscriptions w' = w_subscriptions w ∧ w_retained w' = w_retained w ∧ w_conns w' = w_conns w ∧
  w_hooks w' = w_hooks w ∧ w_persisted w' = w_persisted w.
Proof.
  revert w. induction l as [|e l IH]; intros w; [done|]. rewrite deliver_all_cons. cbv zeta.
  destruct (IH (deliver_world e.1 (msg e.2) w)) as (-> & -> & -> & -> & -> & -> & -> & ->).
  apply deliver_world_frame.
Qed.

(** Every client of the list gets its message, the others nothing. *)
Lemma deliver_all_client {A} (msg : A → Publish) l w client :
  sessions_wf (w_sessions w) → connections_inj w → NoDup l.*1 →
  let w' := deliver_all msg l w in
  match (list_to_map l : gmap string A) !! client with
  | Some a =>
      channel_of w' client = enqueue (bc_outbound_channel_capacity (w_config w)) (msg a) <$> channel_of w client ∧
      session_of (w_sessions w') client =
        (if decide (w_connections w !! client = None)
         then keep_message (w_now w) (msg a) <$> session_of (w_sessions w) client
         else session_of (w_sessions w) client)
  | None => channel_of w' client = channel_of w client ∧
            session_of (w_sessions w') client = session_of (w_sessions w) client
  end.
Proof.
  revert w. induction l as [|[cl a] l IH]; intros w Hwf Hinj Hnd; [done|].
  cbn [fmap list_fmap] in Hnd. apply NoDup_cons in Hnd as [Hcl Hnd]. cbn [fst] in Hcl. cbv zeta.
  rewrite deliver_all_cons. cbn [fst snd].
  destruct (deliver_world_frame cl (msg a) w) as (Ec & Eg & En & _).
  assert (Hinj' : connections_inj (deliver_world cl (msg a) w)) by (unfold connections_inj; by rewrite Ec).
  specialize (IH _ (deliver_world_wf cl (msg a) w Hwf) Hinj' Hnd).
  cbv zeta in IH. rewrite Ec, Eg, En, deliver_world_channel, deliver_world_session in IH by done.
  rewrite list_to_map_cons.
  destruct (decide (cl = client)) as [->|Hne].
  - rewrite lookup_insert_eq. apply not_elem_of_list_to_map_1 in Hcl.
    rewrite Hcl in IH. destruct IH as [-> ->]. split; [done|]. destruct (decide (w_connections w !! client = None)).
    + by rewrite decide_True.
    + by rewrite decide_False by tauto.
  - rewrite lookup_insert_ne by done. rewrite (decide_False (P := cl = client ∧ _)) in IH by tauto. exact IH.
Qed.

Definition routed (sender : string) (publish : Publish) w : World W :=
  let r := store_matches (pub_topic publish) (w_subscriptions w) in
  (deliver_all (outgoing_for publish) (map_to_list (foldl (note_match sender) ∅ r.1)) (w <| w_subscriptions := r.2 |>))
    <| w_events ::= (fun l => l ++ [published_event publish]) |>.

Lemma run_matching topic w :
  run (matching_subscriptions topic) w =
    (Ok (store_matches topic (w_subscriptions w)).1,
     w <| w_subscriptions := (store_matches topic (w_subscriptions w)).2 |>).
Proof. unfold matching_subscriptions. rewrite run_action. by destruct (store_matches _ _). Qed.

Lemma run_route_message sender publish w :
  sessions_wf (w_sessions w) → run (route_message sender publish) w = (Ok tt, routed sender publish w).
Proof.
  intros Hwf. unfold route_message. rewrite run_handler_bind, run_matching. cbv zeta. rewrite run_handler_bind.
  set (w1 := w <| w_subscriptions := _ |>).
  match goal with |- context [for_all ?l _] =>
    destruct (run_deliver_all (outgoing_for publish) l w1 Hwf) as [-> _] end.
  done.
Qed.

Lemma routed_wf sender publish w :
  sessions_wf (w_sessions w) → sessions_wf (w_sessions (routed sender publish w)).
Proof. intros Hwf. unfold routed. cbn. by apply (run_deliver_all (outgoing_for publish)). Qed.

Lemma routed_frame sender publish w :
  let w' := routed sender publish w in
  w_subscriptions w' = (store_matches (pub_topic publish) (w_subscriptions w)).2 ∧
  last (w_events w') = Some (published_event publish) ∧ w_connections w' = w_connections w ∧
  w_retained w' = w_retained w ∧ w_config w' = w_config w ∧ w_now w' = w_now w ∧ w_conns w' = w_conns w ∧
  w_persisted w' = w_persisted w.
Proof.
  cbv zeta. unfold routed. set (l := map_to_list _). set (w1 := w <| w_subscriptions := _ |>).
  destruct (deliver_all_frame (outgoing_for publish) l w1) as (E1 & E2 & E3 & E4 & E5 & E6 & _ & E7).
  unfold set_field. cbn. rewrite E1, E2, E3, E4, E5, E6, E7, last_snoc. done.
Qed.

(** The copy for a client with these relevant subscriptions. *)
Definition copy_for (publish : Publish) (subs : list SubscriptionStore.Subscription) : Publish :=
  MkPublish false (QoS_min (pub_qos publish) (foldl QoS_max AtMostOnce (SubscriptionStore.sub_qos <$> subs)))
    (pub_retain publish && existsb retain_as_published subs) (pub_topic publish) None (pub_payload publish)
    ((pub_properties publish) <| subscription_identifiers ::=
       (fun ids => ids ++ distinct [] (omap subscription_id subs)) |>).

Lemma routed_client sender publish w client :
  sessions_wf (w_sessions w) → connections_inj w →
  let w' := routed sender publish w in
  match filter (relevant sender client) (store_matches (pub_topic publish) (w_subscriptions w)).1 with
  | [] => channel_of w' client = channel_of w client ∧
          session_of (w_sessions w') client = session_of (w_sessions w) client
  | subs =>
      let copy := copy_for publish subs in
      channel_of w' client = enqueue (bc_outbound_channel_capacity (w_config w)) copy <$> channel_of w client ∧
      session_of (w_sessions w') client =
        (if decide (w_connections w !! client = None)
         then keep_message (w_now w) copy <$> session_of (w_sessions w) client
         else session_of (w_sessions w) client)
  end.
Proof.
  intros Hwf Hinj w'. set (matches := (store_matches _ _).1).
  set (w1 := w <| w_subscriptions := (store_matches (pub_topic publish) (w_subscriptions w)).2 |>).
  pose proof (deliver_all_client (outgoing_for publish) (map_to_list (foldl (note_match sender) ∅ matches))
    w1 client Hwf Hinj (NoDup_fst_map_to_list _)) as H.
  rewrite list_to_map_to_list, client_subs_lookup in H. unfold summary in H.
  destruct (filter (relevant sender client) matches) as [|sub subs]; [exact H|].
  unfold outgoing_for in H. cbn [cs_qos cs_retain_as_published cs_subscription_ids] in H.
  unfold copy_for. by destruct publish, (existsb retain_as_published (sub :: subs)), pub_retain.
Qed.
End delivery.

(** ** Routing and the subscription store *)

(** A stored subscription without a share group is among the matches of every
    topic that its filter matches. *)
Lemma stored_subscription_matches topic f sub s :
  store_wf s → validate_topic_name topic = Ok tt → valid_filter f → topic_matches_filter topic f = true →
  sub ∈ subs_at f s → share_group sub = None → sub ∈ (store_matches topic s).1.
Proof.
  intros Hwf (_ & _ & _ & Hp & Hh & _)%validate_topic_name_ok Hf Hm Hsub Hg.
  assert (Hd : sub ∈ filter (λ x, share_group x = None) (store_matches topic s).1);
    [|by apply list_elem_of_filter in Hd as [_ ?]].
  rewrite store_matches_direct by done. apply list_elem_of_filter. split; [done|].
  destruct (matches_entries topic (trie s) Hp Hh) as (l & -> & _ & Hl).
  unfold subs_at in Hsub. destruct (get_mut f (trie s)) as [subs|] eqn:Hget; [|by apply not_elem_of_nil in Hsub].
  apply list_elem_of_join. exists subs. split; [done|]. apply (list_elem_of_fmap_2 snd l (f, subs)). apply Hl.
  done.
Qed.

Lemma QoS_max_le a b : QoS_as_u8 a ≤ QoS_as_u8 (QoS_max a b) ∧ QoS_as_u8 b ≤ QoS_as_u8 (QoS_max a b).
Proof. unfold QoS_max, qos_gt. destruct a, b; vm_compute; split; discriminate. Qed.

Lemma foldl_QoS_max_le q0 qs q :
  q = q0 ∨ q ∈ qs → QoS_as_u8 q ≤ QoS_as_u8 (foldl QoS_max q0 qs).
Proof.
  revert q0 q. induction qs as [|q' qs IH]; intros q0 q Hq.
  - destruct Hq as [->|Hq]; [done|]. by apply not_elem_of_nil in Hq.
  - cbn [foldl]. pose proof (QoS_max_le q0 q'). pose proof (IH _ (QoS_max q0 q') (or_introl eq_refl)).
    destruct Hq as [->|[->|Hq]%elem_of_cons]; [lia|lia|]. apply IH. by right.
Qed.

Lemma distinct_elem ids l id : id ∈ distinct ids l ↔ id ∈ ids ∨ id ∈ l.
Proof.
  revert ids. induction l as [|x l IH]; intros ids; cbn [distinct]; [set_solver|]. rewrite IH.
  destruct (existsb (Z.eqb x) ids) eqn:He; [|set_solver].
  apply existsb_exists in He as (y & Hy & ->%Z.eqb_eq). apply list_elem_of_In in Hy. set_solver.
Qed.

Lemma distinct_NoDup ids l : NoDup ids → NoDup (distinct ids l).
Proof.
  revert ids. induction l as [|x l IH]; intros ids Hn; cbn [distinct]; [done|]. apply IH.
  destruct (existsb (Z.eqb x) ids) eqn:He; [done|]. apply NoDup_app. split_and!; [done| |apply NoDup_singleton].
  intros y Hy ->%list_elem_of_singleton. apply Bool.not_true_iff_false in He. apply He, existsb_exists.
  exists x. split; [by apply list_elem_of_In|apply Z.eqb_refl].
Qed.

(** ** Theorems *)

(** C5. Routing gives every client its due: after [route_message], a client with
    at least one relevant matching subscription has been offered one copy of the
    message, so it has at most one. If the client is registered the copy goes
    into its channel when that is open and has room, and is lost otherwise; if
    it is not, the copy goes into the queue of its session, if it has one that
    did not start clean, where it replaces the oldest message when the queue is
    full. The copy has the lower of the QoS of the message and the highest one
    subscribed, the retain flag only if a subscription asks for it, no packet
    identifier, and the distinct identifiers of all its matching subscriptions.
    Every other client is left alone, and the message is announced. *)
Theorem route_message_spec {W} sender publish (w : World W) :
  sessions_wf (w_sessions w) → connections_inj w →
  let matches := (store_matches (pub_topic publish) (w_subscriptions w)).1 in
  ∃ w', run (route_message sender publish) w = (Ok tt, w') ∧
    w_subscriptions w' = (store_matches (pub_topic publish) (w_subscriptions w)).2 ∧
    last (w_events w') = Some (published_event publish) ∧ w_connections w' = w_connections w ∧
    w_retained w' = w_retained w ∧ sessions_wf (w_sessions w') ∧
    ∀ client,
      match filter (relevant sender client) matches with
      | [] => channel_of w' client = channel_of w client ∧
              session_of (w_sessions w') client = session_of (w_sessions w) client
      | subs =>
          let copy := copy_for publish subs in
          channel_of w' client = enqueue (bc_outbound_channel_capacity (w_config w)) copy <$> channel_of w client ∧
          session_of (w_sessions w') client =
            (if decide (w_connections w !! client = None)
             then keep_message (w_now w) copy <$> session_of (w_sessions w) client
             else session_of (w_sessions w) client)
      end.
Proof.
  intros Hwf Hinj matches. exists (routed sender publish w).
  destruct (routed_frame sender publish w) as (Hs & He & Hc & Hr & _).
  split_and!; [by apply run_route_message|done|done|done|done|by apply routed_wf|].
  intros client. by apply routed_client.
Qed.

Definition route_sub (client : string) (q : QoS) (id : Z) : SubscriptionStore.Subscription :=
  SubscriptionStore.MkSubscription client q false false (Some id) None.

(** A registered client [c2] with two matching subscriptions. *)
Definition example_world : World unit :=
  (World_new BrokerConfig_default 0 0 false false tt)
    <| w_subscriptions := subscribe "a/#" (route_sub "c2" AtMostOnce 6)
                            (subscribe "a/+" (route_sub "c2" AtLeastOnce 5) SubscriptionStore_new) |>
    <| w_connections := {[ "c2"%string := 1%nat ]} |>
    <| w_channels := {[ 1%nat := MkChannel [] true ]} |>.

Definition example_publish : Publish := MkPublish false ExactlyOnce true "a/b" (Some 9) [x68] Properties_default.

Lemma example_world_wf :
  sessions_wf (w_sessions example_world) ∧ connections_inj example_world ∧ store_wf (w_subscriptions example_world).
Proof.
  split_and!; [apply sessions_wf_new| |].
  - intros client client' n H H'. unfold example_world, set_field in H, H'. cbn [w_connections] in H, H'.
    by apply lookup_singleton_Some in H as [<- _], H' as [<- _].
  - exact (proj1 (run_ops_wf [OpSubscribe "a/+" (route_sub "c2" AtLeastOnce 5);
      OpSubscribe "a/#" (route_sub "c2" AtMostOnce 6)] _ store_wf_new eq_refl)).
Qed.

Lemma route_message_spec_witness :
  ∃ w', run (route_message "c1" example_publish) example_world = (Ok tt, w') ∧
    channel_of w' "c2" = Some (MkChannel
      [P.Publish (MkPublish false AtLeastOnce false "a/b" None [x68]
         (Properties_default <| subscription_identifiers := [6; 5] |>))] true) ∧
    channel_of w' "c1" = None.
Proof.
  destruct (route_message_spec "c1" example_publish example_world) as (w' & Hr & _ & _ & _ & _ & _ & Hc).
  - apply example_world_wf.
  - apply example_world_wf.
  - exists w'. split; [exact Hr|]. split.
    + specialize (Hc "c2"%string). vm_compute in Hc. exact (proj1 Hc).
    + specialize (Hc "c1"%string). vm_compute in Hc. exact (proj1 Hc).
Defined.

(** A subscriber whose channel has room gets its copy. *)
Lemma routed_reaches {W} sender publish (w : World W) f sub ch :
  let copy := copy_for publish (filter (relevant sender (client_id sub))
                (store_matches (pub_topic publish) (w_subscriptions w)).1) in
  sessions_wf (w_sessions w) → connections_inj w → store_wf (w_subscriptions w) →
  validate_topic_name (pub_topic publish) = Ok tt → valid_filter f →
  topic_matches_filter (pub_topic publish) f = true →
  sub ∈ subs_at f (w_subscriptions w) → share_group sub = None →
  (no_local sub = true → client_id sub ≠ sender) →
  channel_of w (client_id sub) = Some ch → ch_open ch = true →
  zlen (ch_queue ch) < bc_outbound_channel_capacity (w_config w) →
  channel_of (routed sender publish w) (client_id sub) = Some (ch <| ch_queue := ch_queue ch ++ [P.Publish copy] |>) ∧
  QoS_as_u8 (QoS_min (pub_qos publish) (SubscriptionStore.sub_qos sub)) ≤ QoS_as_u8 (pub_qos copy)
    ≤ QoS_as_u8 (pub_qos publish) ∧
  (∀ id, subscription_id sub = Some id → id ∈ subscription_identifiers (pub_properties copy)).
Proof.
  intros copy Hwf Hinj Hst Ht Hf Hm Hsub Hg Hnl Hch Hopen Hroom. subst copy.
  pose proof (stored_subscription_matches _ _ _ _ Hst Ht Hf Hm Hsub Hg) as Hin.
  pose proof (routed_client sender publish w (client_id sub) Hwf Hinj) as Hr. cbv zeta in Hr.
  set (subs := filter (relevant sender (client_id sub)) _) in *.
  assert (Hrel : sub ∈ subs).
  { apply list_elem_of_filter. split; [|done]. unfold relevant. rewrite String.eqb_refl. cbn.
    destruct (no_local sub) eqn:Hl; [|done]. cbn. by rewrite (proj2 (String.eqb_neq _ _) (Hnl eq_refl)). }
  destruct subs as [|x subs'] eqn:Hsubs; [by apply not_elem_of_nil in Hrel|]. rewrite <-Hsubs in *.
  destruct Hr as [-> _]. rewrite Hch. cbn [fmap option_fmap option_map]. unfold enqueue. rewrite Hopen. cbn [andb].
  replace (_ <? _) with true by lia. split_and!; [done|..].
  - cbn. pose proof (foldl_QoS_max_le AtMostOnce (SubscriptionStore.sub_qos <$> subs) (SubscriptionStore.sub_qos sub)
      (or_intror (list_elem_of_fmap_2 _ _ _ Hrel))). unfold QoS_min. zcase; lia.
  - cbn. unfold QoS_min. zcase; lia.
  - intros id Hid. cbn. apply elem_of_app. right. apply distinct_elem. right.
    apply list_elem_of_omap. by exists sub.
Qed.

(** C14. Every subscriber is reached: whoever has a subscription, without a share
    group, whose filter matches the topic gets the message into its channel if
    that is open and has room (unless it sent the message itself and asked not
    to get its own); with topic and payload unchanged, at the lower of the QoS
    of the message and that of the subscription or a higher one, never above
    that of the message, and marked with the identifier of the subscription. *)
Theorem subscriber_reached {W} sender publish (w : World W) f sub ch :
  sessions_wf (w_sessions w) → connections_inj w → store_wf (w_subscriptions w) →
  validate_topic_name (pub_topic publish) = Ok tt → valid_filter f →
  topic_matches_filter (pub_topic publish) f = true →
  sub ∈ subs_at f (w_subscriptions w) → share_group sub = None →
  (no_local sub = true → client_id sub ≠ sender) →
  channel_of w (client_id sub) = Some ch → ch_open ch = true →
  zlen (ch_queue ch) < bc_outbound_channel_capacity (w_config w) →
  ∃ w' copy, run (route_message sender publish) w = (Ok tt, w') ∧
    channel_of w' (client_id sub) = Some (ch <| ch_queue := ch_queue ch ++ [P.Publish copy] |>) ∧
    pub_topic copy = pub_topic publish ∧ pub_payload copy = pub_payload publish ∧
    QoS_as_u8 (QoS_min (pub_qos publish) (SubscriptionStore.sub_qos sub)) ≤ QoS_as_u8 (pub_qos copy)
      ≤ QoS_as_u8 (pub_qos publish) ∧
    (∀ id, subscription_id sub = Some id → id ∈ subscription_identifiers (pub_properties copy)).
Proof.
  intros Hwf Hinj Hst Ht Hf Hm Hsub Hg Hnl Hch Hopen Hroom.
  destruct (routed_reaches sender publish w f sub ch) as (Hr & Hq & Hid); [done..|].
  eexists (routed sender publish w), _. split; [by apply run_route_message|].
  split; [exact Hr|]. split_and!; [done|done|apply Hq|apply Hq|exact Hid].
Qed.

Lemma subscriber_reached_witness :
  ∃ w' copy, run (route_message "c1" example_publish) example_world = (Ok tt, w') ∧
    channel_of w' "c2" = Some (MkChannel [P.Publish copy] true) ∧
    pub_topic copy = "a/b"%string ∧ 1 ≤ QoS_as_u8 (pub_qos copy) ≤ 2.
Proof.
  destruct example_world_wf as (H1 & H2 & H3).
  destruct (subscriber_reached "c1" example_publish example_world "a/+" (route_sub "c2" AtLeastOnce 5)
    (MkChannel [] true) H1 H2 H3) as (w' & copy & Hr & Hc & Ht & _ & Hq & _);
    [reflexivity|vm_compute; reflexivity|vm_compute; reflexivity|vm_compute; left|reflexivity|discriminate
    |vm_compute; reflexivity|reflexivity|vm_compute; reflexivity|].
  exists w', copy. split_and!; [exact Hr|exact Hc|exact Ht|apply Hq|apply Hq].
Defined.

Lemma run_route_will_message {W} sender publish (w : World W) :
  run (route_will_message sender publish) w = run (route_message sender publish) w.
Proof.
  unfold route_will_message, route_message. rewrite !run_handler_bind, run_matching. by rewrite note_match_fold.
Qed.

(** The two routing functions agree: [route_will_message], which the delayed
    will task uses, does exactly what [route_message] does. *)
Theorem route_will_message_equiv {W} sender publish (w : World W) :
  run (route_will_message sender publish) w = run (route_message sender publish) w.
Proof. apply run_route_will_message. Qed.
