(* ===== verification/Handlers.v ===== *)
(** * Theorems about the handlers

    What the handlers do when they run alone: the QoS 2 handshake of a
    receiver. *)

From S2P Require Import Prelude Protocol Codec Properties Packet Decode Encode.
From S2P Require Import TopicValidation TopicTrie SubscriptionStore Session Hooks Persistence Broker Connection Routing.

(** ** Lemmas: maps *)
Lemma map_size_alter {A} (f : A → A) i (m : gmap Z A) : size (alter f i m) = size m.
Proof. rewrite <-!(size_dom (D := gset Z)). by rewrite dom_alter_L. Qed.

(** ** Lemmas: the connection's own actions *)
Section self.
Context {W : Type}.
Implicit Types w : World W.

Lemma run_ask_self {B} self (f : Connection → B) w c :
  w_conns w !! self = Some c → run (ask_self self f) w = (Ok (f c), w).
Proof. intros Hc. unfold ask_self. cbn. by rewrite Hc. Qed.

Lemma run_read_session {B} s (f : Session → B) w x :
  cells (w_sessions w) !! s = Some x → run (read_session s f) w = (Ok (f x), w).
Proof.
  intros Hs. unfold read_session. rewrite (run_write_session _ _ _ _ Hs). f_equal.
  unfold set_field, modify_session, set_field. cbn. destruct w as [? ? ? [se ce ne]]. cbn in *. do 2 f_equal.
  apply map_eq. intros c. rewrite lookup_alter. by destruct (decide _) as [<-|]; [rewrite Hs|].
Qed.

Lemma run_update_session s (f : Session → Session) w x :
  cells (w_sessions w) !! s = Some x →
  run (update_session s f) w = (Ok tt, w <| w_sessions ::= modify_session s f |>).
Proof. intros Hs. unfold update_session. by rewrite (run_write_session _ _ _ _ Hs). Qed.

(** The world after a write to the socket. *)
Definition wrote (self : nat) (buf : list byte) w : World W :=
  w <| w_conns ::= alter (fun c => c <| c_written ::= (fun l => l ++ [buf]) |>) self |>.

Lemma run_write_all self buf w c :
  w_conns w !! self = Some c → c_writable c = true → run (write_all self buf) w = (Ok tt, wrote self buf w).
Proof.
  intros Hc Hw. unfold write_all. cbn. rewrite Hc, Hw. cbn. f_equal. unfold wrote, set_field. f_equal.
  apply map_eq. intros i. rewrite lookup_alter, lookup_insert. destruct (decide _) as [<-|]; [by rewrite Hc|done].
Qed.

Lemma run_encode self p w c buf :
  w_conns w !! self = Some c → encode (c_encoder c) p [] = (buf, Ok tt) →
  run (encode_packet self p) w = (Ok buf, w).
Proof. intros Hc He. unfold encode_packet. rewrite run_handler_bind, (run_ask_self _ _ _ _ Hc). cbn. by rewrite He. Qed.

Lemma run_send_packet self p w c buf :
  w_conns w !! self = Some c → c_writable c = true → encode (c_encoder c) p [] = (buf, Ok tt) →
  run (send_packet self p) w = (Ok tt, wrote self buf w).
Proof.
  intros Hc Hw He. unfold send_packet. rewrite run_handler_bind, (run_encode _ _ _ _ _ Hc He).
  by apply (run_write_all _ _ _ c).
Qed.

Lemma run_send_packet_broken self p w c buf :
  w_conns w !! self = Some c → c_writable c = false → encode (c_encoder c) p [] = (buf, Ok tt) →
  run (send_packet self p) w = (Err (CE.Io WriteFailed), w).
Proof.
  intros Hc Hw He. unfold send_packet. rewrite run_handler_bind, (run_encode _ _ _ _ _ Hc He).
  unfold write_all. cbn. by rewrite Hc, Hw.
Qed.

Lemma wrote_self self buf w c :
  w_conns w !! self = Some c →
  w_conns (wrote self buf w) !! self = Some (c <| c_written ::= (fun l => l ++ [buf]) |>).
Proof. intros Hc. unfold wrote, set_field. cbn. by rewrite lookup_alter_eq, Hc. Qed.
End self.

(** Acknowledgements can always be encoded. *)
Lemma encode_ack_ok e first id r : ∃ buf, encode_ack e first id r Properties_default [] = (buf, Ok tt).
Proof.
  exists (encode_ack e first id r Properties_default []).1.
  assert ((encode_ack e first id r Properties_default []).2 = Ok tt) as <-; [|apply surjective_pairing].
  destruct e as [[]]; destruct r; vm_compute; reflexivity.
Qed.

(** ** Lemmas: what routing leaves alone *)
Section frame.
Context {W : Type}.
Implicit Types w : World W.

Definition published_message : Type := string * list byte * QoS * bool.

Definition announced (e : BrokerEvent) : option published_message :=
  match e with MessagePublished t p q r => Some (t, p, q, r) | _ => None end.

(** The messages that have been routed, in order. *)
Definition published w : list published_message := omap announced (w_events w).

Definition message_of (p : Publish) : published_message := (pub_topic p, pub_payload p, pub_qos p, pub_retain p).

(** Nothing but the queue of a session changes. *)
Definition only_pending (s s' : Session) : Prop := s' = s <| s_pending_messages := s_pending_messages s' |>.

Definition cells_only_pending w w' : Prop :=
  ∀ c s, cells (w_sessions w) !! c = Some s → ∃ s', cells (w_sessions w') !! c = Some s' ∧ only_pending s s'.

Lemma only_pending_refl s : only_pending s s.
Proof. by destruct s. Qed.

Lemma only_pending_trans s1 s2 s3 : only_pending s1 s2 → only_pending s2 s3 → only_pending s1 s3.
Proof. unfold only_pending, set_field. intros -> ->. by destruct s1. Qed.

Lemma cells_only_pending_trans w1 w2 w3 :
  cells_only_pending w1 w2 → cells_only_pending w2 w3 → cells_only_pending w1 w3.
Proof.
  intros H12 H23 c s Hs. destruct (H12 c s Hs) as (s2 & Hs2 & ?). destruct (H23 c s2 Hs2) as (s3 & ? & ?).
  exists s3. split; [done|]. by eapply only_pending_trans.
Qed.

Lemma keep_message_only_pending t p s : only_pending s (keep_message t p s).
Proof.
  unfold keep_message. destruct (s_clean_start s); [apply only_pending_refl|].
  rewrite queue_message_eq. by destruct s.
Qed.

Lemma deliver_world_leaves client p w :
  cells_only_pending w (deliver_world client p w) ∧ published (deliver_world client p w) = published w.
Proof.
  split.
  - intros c s Hs. rewrite deliver_world_sessions.
    destruct (w_connections w !! client); [by exists s; auto using only_pending_refl|].
    destruct (sessions _ !! client) as [c'|]; [|by exists s; auto using only_pending_refl].
    rewrite lookup_modify, Hs. destruct (decide _); [|by exists s; auto using only_pending_refl].
    eexists. split; [done|]. apply keep_message_only_pending.
  - unfold deliver_world. destruct (w_connections w !! client); [done|].
    destruct (sessions _ !! client); [|done]. destruct (from_option _ _ _); [|done].
    unfold published, set_field. cbn. rewrite omap_app. cbn. by rewrite app_nil_r.
Qed.

Lemma deliver_all_leaves {A} (msg : A → Publish) l w :
  cells_only_pending w (deliver_all msg l w) ∧ published (deliver_all msg l w) = published w.
Proof.
  revert w. induction l as [|e l IH]; intros w; [split; [intros c s ?; exists s; auto using only_pending_refl|done]|].
  rewrite deliver_all_cons. destruct (IH (deliver_world e.1 (msg e.2) w)) as [Hc ->].
  destruct (deliver_world_leaves e.1 (msg e.2) w) as [Hc1 ->]. split; [|done]. by eapply cells_only_pending_trans.
Qed.

(** Routing announces the message once and changes no session but its queue. *)
Lemma routed_leaves sender publish w :
  cells_only_pending w (routed sender publish w) ∧
  published (routed sender publish w) = published w ++ [message_of publish].
Proof.
  unfold routed. set (l := map_to_list _). set (w1 := w <| w_subscriptions := _ |>).
  destruct (deliver_all_leaves (outgoing_for publish) l w1) as [Hc Hp]. split; [exact Hc|].
  unfold published, set_field. cbn. rewrite omap_app. cbn. f_equal. exact Hp.
Qed.
End frame.

(** ** The QoS 2 handshake *)

(** What a client sends for QoS 2, and the abstract receiver: a table of the
    messages that wait for their release. *)
Inductive qos2_packet : Type :=
  | Q2Publish (publish : Publish)
  | Q2Release (packet_id : Z).

Definition qos2_receive (limit : Z) (waiting : gmap Z Publish) (x : qos2_packet) : option Publish * gmap Z Publish :=
  match x with
  | Q2Publish publish =>
      (None, if Z.of_nat (size waiting) >=? limit then waiting
             else match pub_packet_id publish with Some id => <[id := publish]> waiting | None => waiting end)
  | Q2Release id => (waiting !! id, delete id waiting)
  end.

(** The messages that a sequence of packets releases. *)
Fixpoint qos2_released (limit : Z) (waiting : gmap Z Publish) (xs : list qos2_packet) : list Publish :=
  match xs with
  | [] => []
  | x :: xs => let '(r, waiting) := qos2_receive limit waiting x in option_list r ++ qos2_released limit waiting xs
  end.

Section qos2.
Context {W : Type} (hooks : Hooks W) (self : nat) (client : string) (session : nat).
Implicit Types w : World W.

Definition qos2_handle (x : qos2_packet) : handler W unit :=
  match x with
  | Q2Publish publish => handle_publish hooks self client session publish
  | Q2Release id => handle_pubrel self client session (PubRel_new id)
  end.

(** A QoS 2 message that passes the checks of [handle_publish]. *)
Definition qos2_valid (cfg : BrokerConfig) (x : qos2_packet) : Prop :=
  match x with
  | Q2Publish p =>
      pub_qos p = ExactlyOnce ∧ (∃ id, pub_packet_id p = Some id ∧ is_packet_id id) ∧
      validate_topic_name_with_max_levels (pub_topic p) (bc_max_topic_levels cfg) = Ok tt ∧
      ∀ u h, (on_publish_check hooks client u (pub_topic p) (pub_qos p) (pub_retain p) h).1 = HookOk true
  | Q2Release _ => True
  end.

(** The connection and its session, with the messages that wait. *)
Definition qos2_state (cfg : BrokerConfig) (limit : Z) (waiting : gmap Z Publish) w : Prop :=
  w_config w = cfg ∧ sessions_wf (w_sessions w) ∧
  (∃ c, w_conns w !! self = Some c ∧ c_writable c = true) ∧
  ∃ s, cells (w_sessions w) !! session = Some s ∧ s_inflight_incoming s = waiting ∧ s_max_awaiting_rel s = limit.

(** The fields that the QoS 2 state depends on. *)
Lemma qos2_state_same cfg limit waiting w w' :
  w_config w' = w_config w → w_sessions w' = w_sessions w → w_conns w' = w_conns w →
  qos2_state cfg limit waiting w → qos2_state cfg limit waiting w'.
Proof. unfold qos2_state. intros -> -> ->. done. Qed.

Lemma qos2_state_modify cfg limit waiting waiting' f w :
  (∀ s, session_wf s → session_wf (f s)) → (∀ s, s_client_id (f s) = s_client_id s) →
  (∀ s, s_inflight_incoming s = waiting → s_inflight_incoming (f s) = waiting' ∧
        s_max_awaiting_rel (f s) = s_max_awaiting_rel s) →
  qos2_state cfg limit waiting w →
  qos2_state cfg limit waiting' (w <| w_sessions ::= modify_session session f |>).
Proof.
  intros Hf1 Hf2 Hf3 (Hcfg & Hwf & Hc & s & Hs & Hw & Hl). split_and!; [done|by apply modify_wf|done|].
  exists (f s). destruct (Hf3 s Hw) as [-> ->]. split_and!; [|done|done].
  change (cells (modify_session session f (w_sessions w)) !! session = Some (f s)).
  by rewrite lookup_modify, decide_True, Hs.
Qed.

Lemma qos2_state_wrote cfg limit waiting buf w :
  qos2_state cfg limit waiting w → qos2_state cfg limit waiting (wrote self buf w).
Proof.
  intros (Hcfg & Hwf & (c & Hc & Hw) & Hs). split_and!; [done|done| |done].
  eexists. split; [by apply wrote_self|done].
Qed.

Lemma run_qos2_send cfg limit waiting p w :
  (∀ e, ∃ buf, encode e p [] = (buf, Ok tt)) → qos2_state cfg limit waiting w →
  ∃ buf, run (send_packet self p) w = (Ok tt, wrote self buf w).
Proof.
  intros He (_ & _ & (c & Hc & Hw) & _). destruct (He (c_encoder c)) as [buf Hb]. exists buf.
  by apply (run_send_packet self p w c buf).
Qed.

Lemma run_retain_publish publish w :
  ∃ w', run (retain_publish publish) w = (Ok tt, w') ∧ w_config w' = w_config w ∧ w_sessions w' = w_sessions w ∧
    w_conns w' = w_conns w ∧ published w' = published w.
Proof.
  unfold retain_publish, config. rewrite run_handler_bind, run_ask.
  destruct (pub_retain publish && bc_retain_available (w_config w)); [|by exists w].
  unfold update_retained. destruct (is_nil (pub_payload publish)); eexists; split; [reflexivity|done|reflexivity|done].
Qed.

Lemma run_topic_alias cfg limit waiting publish w :
  pub_topic publish ≠ EmptyString → qos2_state cfg limit waiting w →
  ∃ w', run (handle_topic_alias session publish) w = (Ok publish, w') ∧ qos2_state cfg limit waiting w' ∧
    published w' = published w.
Proof.
  intros Ht Hst. unfold handle_topic_alias. destruct (topic_alias (pub_properties publish)) as [alias|]; [|by exists w].
  replace (is_empty (pub_topic publish)) with false by (by destruct (pub_topic publish)).
  pose proof Hst as (_ & _ & _ & s & Hs & _). rewrite run_handler_bind, (run_update_session _ _ _ _ Hs).
  eexists. split_and!; [reflexivity| |done].
  by apply (qos2_state_modify cfg limit waiting); [intros; by apply (session_wf_same s0)|..].
Qed.

Lemma run_publish_allowed cfg limit waiting p w :
  (∀ u h, (on_publish_check hooks client u (pub_topic p) (pub_qos p) (pub_retain p) h).1 = HookOk true) →
  qos2_state cfg limit waiting w →
  ∃ w', run (publish_allowed hooks self client p) w = (Ok (HookOk true), w') ∧
    qos2_state cfg limit waiting w' ∧ published w' = published w.
Proof.
  intros Ha Hst. pose proof Hst as (_ & _ & (c & Hc & _) & _). unfold publish_allowed.
  rewrite run_handler_bind, (run_ask_self _ _ _ _ Hc), run_action.
  specialize (Ha (c_username c) (w_hooks w)). destruct (on_publish_check _ _ _ _ _ _ _) as [r h]. cbn in Ha |- *. subst r.
  eexists. split_and!; [reflexivity|by eapply qos2_state_same|done].
Qed.

Lemma run_receive_qos2 cfg limit waiting p id w :
  pub_packet_id p = Some id → is_packet_id id → pub_qos p = ExactlyOnce → qos2_state cfg limit waiting w →
  ∃ w', run (receive_qos2 self session p) w = (Ok tt, w') ∧
    qos2_state cfg limit (qos2_receive limit waiting (Q2Publish p)).2 w' ∧ published w' = published w.
Proof.
  intros Hp Hid Hq Hst. pose proof Hst as (_ & _ & _ & s & Hs & Hw & Hl). unfold receive_qos2. rewrite Hp.
  rewrite run_handler_bind. cbn [of_outcome unwrap run]. rewrite run_handler_bind, (run_read_session _ _ _ _ Hs), Hw, Hl.
  cbn [qos2_receive snd]. rewrite Hp. destruct (Z.of_nat (size waiting) >=? limit).
  - destruct (run_qos2_send cfg limit waiting (P.PubRec (MkPubRec id RC.QuotaExceeded Properties_default)) w) as [buf ->];
      [intros e; apply encode_ack_ok|done|]. eexists. split_and!; [reflexivity|by apply qos2_state_wrote|done].
  - rewrite run_handler_bind, (run_update_session _ _ _ _ Hs).
    set (w1 := w <| w_sessions ::= _ |>).
    assert (Hst1 : qos2_state cfg limit (<[id := p]> waiting) w1).
    { apply (qos2_state_modify cfg limit waiting); [intros; by apply wf_received|done|by intros s0 <-|done]. }
    rewrite run_handler_bind.
    destruct (run_qos2_send cfg limit (<[id := p]> waiting) (P.PubRec (PubRec_new id)) w1) as [buf ->]; [intros e; apply encode_ack_ok|done|].
    destruct (run_retain_publish p (wrote self buf w1)) as (w' & -> & E1 & E2 & E3 & E4).
    exists w'. split_and!; [done| |done]. by eapply qos2_state_same, qos2_state_wrote.
Qed.

Lemma run_qos2_publish cfg limit waiting p w :
  qos2_valid cfg (Q2Publish p) → qos2_state cfg limit waiting w →
  ∃ w', run (handle_publish hooks self client session p) w = (Ok tt, w') ∧
    qos2_state cfg limit (qos2_receive limit waiting (Q2Publish p)).2 w' ∧ published w' = published w.
Proof.
  intros (Hq & (id & Hp & Hid) & Hv & Ha) Hst. unfold handle_publish, config.
  rewrite run_handler_bind, run_ask. pose proof Hst as (-> & _). rewrite Hv.
  pose proof Hv as (Ht & _)%validate_topic_name_ok.
  destruct (run_topic_alias cfg limit waiting p w Ht Hst) as (w1 & Hr1 & Hst1 & <-). rewrite run_handler_bind, Hr1.
  destruct (run_publish_allowed cfg limit waiting p w1 Ha Hst1) as (w2 & Hr2 & Hst2 & <-). rewrite run_handler_bind, Hr2.
  rewrite Hq. by apply (run_receive_qos2 cfg limit waiting p id).
Qed.

Lemma run_qos2_release cfg limit waiting id w :
  qos2_state cfg limit waiting w →
  ∃ w', run (handle_pubrel self client session (PubRel_new id)) w = (Ok tt, w') ∧
    qos2_state cfg limit (delete id waiting) w' ∧
    published w' = published w ++ (message_of <$> option_list (waiting !! id)).
Proof.
  intros Hst. pose proof Hst as (_ & _ & _ & s & Hs & Hw & Hl). unfold handle_pubrel.
  rewrite run_handler_bind, (run_write_session _ _ _ _ Hs). cbn [fst snd pubrel_packet_id PubRel_new]. rewrite Hw.
  set (w1 := w <| w_sessions ::= _ |>).
  assert (Hst1 : qos2_state cfg limit (delete id waiting) w1).
  { apply (qos2_state_modify cfg limit waiting); [intros; by apply wf_released|done|by intros s0 <-|done]. }
  rewrite run_handler_bind.
  destruct (run_qos2_send cfg limit (delete id waiting) (P.PubComp (PubComp_new id)) w1) as [buf ->]; [intros e; apply encode_ack_ok|done|].
  pose proof (qos2_state_wrote cfg limit _ buf w1 Hst1) as Hst2. set (w2 := wrote self buf w1) in *.
  change (published w) with (published w2). destruct (waiting !! id) as [p|]; cbn [option_list fmap list_fmap].
  - destruct Hst2 as (H1 & Hwf & H3 & s2 & Hs2 & Hw2 & Hl2). rewrite run_route_message by done.
    destruct (routed_leaves client p w2) as [Hc Hp]. exists (routed client p w2). split_and!; [done| |done].
    destruct (routed_frame client p w2) as (_ & _ & _ & _ & Eg & _ & Ec & _).
    split_and!; [by rewrite Eg|by apply routed_wf|by rewrite Ec|].
    destruct (Hc _ _ Hs2) as (s3 & Hs3 & Hop). exists s3. split_and!; [done|by rewrite Hop|by rewrite Hop].
  - exists w2. split_and!; [done|done|by rewrite app_nil_r].
Qed.

Lemma run_qos2_sequence cfg limit xs waiting w :
  Forall (qos2_valid cfg) xs → qos2_state cfg limit waiting w →
  ∃ w', run (for_all xs qos2_handle) w = (Ok tt, w') ∧
    published w' = published w ++ (message_of <$> qos2_released limit waiting xs).
Proof.
  intros Hf. revert waiting w. induction Hf as [|x xs Hx _ IH]; intros waiting w Hst.
  { exists w. split; [done|]. by rewrite app_nil_r. }
  cbn [for_all qos2_released]. rewrite run_handler_bind.
  assert (∃ w1, run (qos2_handle x) w = (Ok tt, w1) ∧ qos2_state cfg limit (qos2_receive limit waiting x).2 w1 ∧
    published w1 = published w ++ (message_of <$> option_list (qos2_receive limit waiting x).1))
    as (w1 & -> & Hst1 & Hp1).
  { destruct x as [p|id]; cbn [qos2_handle].
    - destruct (run_qos2_publish cfg limit waiting p w Hx Hst) as (w1 & ? & ? & ?). exists w1.
      split_and!; [done|done|]. by rewrite app_nil_r.
    - by apply run_qos2_release. }
  destruct (IH _ _ Hst1) as (w' & -> & Hp'). exists w'. split; [done|]. rewrite Hp', Hp1.
  destruct (qos2_receive limit waiting x) as [r waiting']. cbn [fst snd]. by rewrite fmap_app, app_assoc.
Qed.
End qos2.

(** ** The sessions of handlers *)

Section flow.
Context {W : Type} (self session : nat).
Implicit Types w : World W.

Definition session_at w : option Session := cells (w_sessions w) !! session.

(** The handlers that do not touch sessions. *)
Definition keeps_sessions {A} (m : handler W A) : Prop := ∀ w, w_sessions (run m w).2 = w_sessions w.

Lemma keeps_bind {A B} (m : handler W A) (k : A → handler W B) :
  keeps_sessions m → (∀ a, keeps_sessions (k a)) → keeps_sessions (m ≫= k).
Proof.
  intros Hm Hk w. rewrite run_handler_bind. specialize (Hm w). destruct (run m w) as [[a|e| |] w']; cbn in *; [|done..].
  by rewrite Hk.
Qed.

Lemma keeps_encode p : keeps_sessions (encode_packet self p).
Proof.
  apply keeps_bind; [|done]. intros w. unfold ask_self. cbn. by destruct (w_conns w !! self).
Qed.

Lemma keeps_write_all buf : keeps_sessions (write_all self buf).
Proof. intros w. unfold write_all. cbn. destruct (w_conns w !! self) as [c|]; [|done]. by destruct (c_writable c). Qed.

Lemma keeps_send_packet p : keeps_sessions (send_packet self p).
Proof. apply keeps_bind; [apply keeps_encode|intros; apply keeps_write_all]. Qed.

Lemma keeps_write_publish n p : keeps_sessions (write_publish self n p).
Proof.
  apply keeps_bind; [apply keeps_encode|]. intros buf. destruct (_ >? _); [done|].
  apply keeps_bind; [apply keeps_write_all|done].
Qed.

Lemma wf_store_inflight t id p s :
  is_packet_id id → pub_packet_id p = Some id → pub_qos p ≠ AtMostOnce → s_inflight_outgoing s !! id = None →
  Z.of_nat (size (s_inflight_outgoing s)) < s_max_inflight s → session_wf s → session_wf (store_inflight t id p s).
Proof.
  intros Hid Hp Hq Hn Hlt []. split; cbn; try done.
  - apply map_Forall_insert_2; [|done]. split_and!; [done|done|done|done|]. cbn.
    intros ->. by rewrite bool_decide_eq_true_2 by done.
  - rewrite map_size_insert_None by done. lia.
Qed.

Lemma session_at_modify f w s :
  session_at w = Some s → session_at (w <| w_sessions ::= modify_session session f |>) = Some (f s).
Proof.
  intros Hs. change (cells (modify_session session f (w_sessions w)) !! session = Some (f s)).
  rewrite lookup_modify, decide_True by done. unfold session_at in Hs. by rewrite Hs.
Qed.

End flow.

(** ** Theorems *)

(** C6. QoS 2 messages are routed exactly once: for every sequence of PUBLISH
    and PUBREL packets that a client sends with QoS 2 (repetitions and
    unexpected releases included), the broker routes exactly the messages that
    the abstract receiver releases: nothing when a message arrives, however
    often, and the last stored message once when its identifier is released. *)
Theorem qos2_exactly_once {W} (hooks : Hooks W) self client session cfg limit xs (w : World W) :
  qos2_state self session cfg limit ∅ w → Forall (qos2_valid hooks client cfg) xs →
  ∃ w', run (for_all xs (qos2_handle hooks self client session)) w = (Ok tt, w') ∧
    published w' = published w ++ (message_of <$> qos2_released limit ∅ xs).
Proof. intros Hst Hf. by apply run_qos2_sequence with cfg. Qed.

(** A connection [0] of the client [c1] with the session [0]. *)
Definition connected_world : World unit :=
  (new_connection 0 (World_new BrokerConfig_default 0 0 false false tt))
    <| w_sessions := (create_session 0 "c1" V5 SessionLimits_default SessionStore_new).2 |>
    <| w_connections := {[ "c1"%string := 0%nat ]} |>.

Lemma connected_world_wf : sessions_wf (w_sessions connected_world).
Proof. apply (create_wf 0 "c1" V5 SessionLimits_default SessionStore_new); [cbn; lia|apply sessions_wf_new]. Qed.

Definition qos2_message (payload : list byte) : Publish :=
  MkPublish false ExactlyOnce false "a/b" (Some 7) payload Properties_default.

Lemma qos2_exactly_once_witness :
  ∃ w', run (for_all [Q2Publish (qos2_message [x01]); Q2Publish (qos2_message [x01]); Q2Release 7; Q2Release 7]
               (qos2_handle DefaultHooks 0 "c1" 0)) connected_world = (Ok tt, w') ∧
    published w' = [("a/b"%string, [x01], ExactlyOnce, false)].
Proof.
  apply (qos2_exactly_once DefaultHooks 0 "c1" 0 BrokerConfig_default 100
    [Q2Publish (qos2_message [x01]); Q2Publish (qos2_message [x01]); Q2Release 7; Q2Release 7] connected_world).
  - split_and!; [reflexivity|apply connected_world_wf| |].
    + eexists. split; reflexivity.
    + eexists. split_and!; reflexivity.
  - repeat constructor; exists 7; unfold is_packet_id; split; lia || reflexivity.
Defined.
