(* ===== verification/Wills.v ===== *)
(** * Theorems about the end of a connection

    Wills, delayed wills, and what a connection leaves behind. *)

From S2P Require Import Prelude Protocol Codec Properties Packet Decode Encode Wire CodecTheorems.
From S2P Require Import TopicValidation TopicTrie SubscriptionStore Session Hooks Persistence Broker Connection Routing Handlers.

Section wills.
Context {W : Type}.
Implicit Types w : World W.

(** ** Lemmas: sessions *)
Lemma run_disconnect_session client w :
  run (disconnect_session client) w = (Ok tt, w <| w_sessions ::= disconnect (w_now w) client |>).
Proof.
  unfold disconnect_session, disconnect. rewrite run_handler_bind, run_action.
  destruct (sessions (w_sessions w) !! client) as [c|] eqn:Hc; cbn [fst snd].
  - change (cells (w_sessions (w <| w_sessions ::= modify_session c (mark_disconnected (w_now w)) |>)))
      with (cells (modify_session c (mark_disconnected (w_now w)) (w_sessions w))).
    destruct (bool_decide _) eqn:Hb.
    + rewrite run_change. unfold set_field. cbn. rewrite Hc. unfold set_field in Hb. cbn in Hb. by rewrite Hb.
    + rewrite run_mret. unfold set_field. cbn. rewrite Hc. unfold set_field in Hb. cbn in Hb. by rewrite Hb.
  - rewrite run_mret. unfold set_field. cbn. rewrite Hc. by destruct w.
Qed.

Lemma run_get_or_create client v clean limits w :
  run (get_or_create_session client v clean limits) w =
    (Ok (get_or_create (w_now w) client v clean limits (w_sessions w)).1,
     w <| w_sessions := (get_or_create (w_now w) client v clean limits (w_sessions w)).2 |>).
Proof.
  unfold get_or_create_session, get_or_create. destruct clean; [done|]. rewrite run_handler_bind, run_action.
  destruct (sessions (w_sessions w) !! client) as [c|]; [|done].
  destruct (cells (w_sessions w) !! c) as [s|]; [|done]. by destruct (negb _).
Qed.

Lemma disconnect_cell t client c st s :
  sessions st !! client = Some c → cells st !! c = Some s →
  cells (disconnect t client st) !! c = Some (mark_disconnected t s).
Proof.
  intros Hc Hs. unfold disconnect. rewrite Hc.
  assert (H : cells (modify_session c (mark_disconnected t) st) !! c = Some (mark_disconnected t s))
    by (by rewrite lookup_modify, decide_True, Hs).
  by destruct (bool_decide _).
Qed.

Lemma routed_wills sender publish w : w_wills (routed sender publish w) = w_wills w.
Proof.
  unfold routed. set (l := map_to_list _). set (w1 := w <| w_subscriptions := _ |>).
  change (w_wills (deliver_all (outgoing_for publish) l w1) = w_wills w1). generalize w1. clear w1.
  induction l as [|e l IH]; intros w1; [done|]. rewrite deliver_all_cons, IH. unfold deliver_world.
  destruct (w_connections w1 !! e.1); [done|]. destruct (sessions _ !! e.1); [|done]. by destruct (from_option _ _ _).
Qed.

(** What the parts of [handle_disconnect] before and after the will leave of
    the world. *)
Record will_frame w w' : Prop := {
  wf_published : published w' = published w;
  wf_wills : w_wills w' = w_wills w;
  wf_connections : w_connections w' = w_connections w;
}.

Lemma run_persist_session client c w s :
  cells (w_sessions w) !! c = Some s →
  ∃ w', run (persist_session client c) w = (Ok tt, w') ∧ will_frame w w' ∧ w_sessions w' = w_sessions w.
Proof.
  intros Hs. unfold persist_session. rewrite run_handler_bind, (run_read_session _ _ _ _ Hs).
  destruct (negb _ && _); [eexists; split; [reflexivity|done]|].
  destruct (_ || _); eexists; (split; [reflexivity|done]).
Qed.

Lemma run_farewell client c w s :
  cells (w_sessions w) !! c = Some s →
  ∃ w', run (persist_session client c;; send_event (ClientDisconnected client)) w = (Ok tt, w') ∧
    will_frame w w' ∧ w_sessions w' = w_sessions w.
Proof.
  intros Hs. rewrite run_handler_bind. destruct (run_persist_session client c w s Hs) as (w1 & -> & [] & Es).
  rewrite run_send_event. eexists. split; [reflexivity|]. split; [|done].
  constructor; [|done..]. unfold published, set_field. cbn. by rewrite omap_app, app_nil_r.
Qed.

(** A will that is due now: retained if it asks for it, and routed. *)
Lemma run_announce_will sender p w :
  sessions_wf (w_sessions w) →
  ∃ w', run (retain_publish p;; ignore_errors (route_message sender p)) w = (Ok tt, w') ∧
    published w' = published w ++ [message_of p] ∧ w_wills w' = w_wills w ∧
    w_connections w' = w_connections w ∧ cells_only_pending w w'.
Proof.
  intros Hwf. rewrite run_handler_bind.
  assert (∃ w1, run (retain_publish p) w = (Ok tt, w1) ∧ w_sessions w1 = w_sessions w ∧
    published w1 = published w ∧ w_wills w1 = w_wills w ∧ w_connections w1 = w_connections w)
    as (w1 & -> & Es & Ep & Ew & Ec).
  { unfold retain_publish, config. rewrite run_handler_bind, run_ask.
    destruct (_ && _); [|by exists w]. unfold update_retained.
    destruct (is_nil _); eexists; (split; [reflexivity|done]). }
  unfold ignore_errors. rewrite run_bind, run_route_message by (by rewrite Es). cbn [run].
  destruct (routed_leaves sender p w1) as [Hc Hp]. unfold cells_only_pending in Hc. rewrite Es in Hc.
  destruct (routed_frame sender p w1) as (_ & _ & Hcon & _).
  eexists. split_and!; [reflexivity|by rewrite Hp, Ep|by rewrite routed_wills|by rewrite Hcon|done].
Qed.

Lemma run_immediate_will client c will delay w s :
  delay ≤ 0 → sessions_wf (w_sessions w) → cells (w_sessions w) !! c = Some s →
  ∃ w', run (publish_will_message client c will delay) w = (Ok tt, w') ∧
    published w' = published w ++ [message_of (will_publish will)] ∧ w_wills w' = w_wills w ∧
    w_connections w' = w_connections w ∧
    ∃ s', cells (w_sessions w') !! c = Some s' ∧ s_will s' = None.
Proof.
  intros Hd Hwf Hs. unfold publish_will_message. destruct (Z.gtb_spec delay 0); [lia|].
  destruct (run_announce_will client (will_publish will) w Hwf) as (w1 & Hr & Ep & Ew & Ec & Hc).
  destruct (Hc c s Hs) as (s' & Hs' & _). rewrite run_handler_bind in Hr. rewrite run_handler_bind.
  destruct (run (retain_publish (will_publish will)) w) as [[[]| | |] w0]; [|done..].
  rewrite run_handler_bind, Hr, (run_update_session _ _ _ _ Hs').
  eexists. split_and!; [reflexivity|done..|]. eexists. split; [by apply (session_at_modify c _ _ s')|done].
Qed.

Lemma run_delayed_will client c will delay w s :
  0 < delay → cells (w_sessions w) !! c = Some s →
  run (publish_will_message client c will delay) w =
    (Ok tt, w <| w_wills ::= (fun l => l ++ [MkDelayedWill (w_now w + from_secs delay) client c (s_disconnected_at s)]) |>).
Proof.
  intros Hd Hs. unfold publish_will_message. destruct (Z.gtb_spec delay 0); [|lia].
  by rewrite run_handler_bind, (run_read_session _ _ _ _ Hs).
Qed.

(** The first half of [handle_disconnect]: the client is unregistered and its
    session is disconnected. *)
Definition unregistered (client : string) (clean_start : bool) w : World W :=
  let w := w <| w_connections ::= delete client |> in
  let w := if clean_start then w <| w_subscriptions ::= unsubscribe_all client |> else w in
  w <| w_sessions ::= disconnect (w_now w) client |>.

Lemma unregistered_frame client b w :
  w_sessions (unregistered client b w) = disconnect (w_now w) client (w_sessions w) ∧
  published (unregistered client b w) = published w ∧ w_wills (unregistered client b w) = w_wills w ∧
  w_connections (unregistered client b w) = delete client (w_connections w) ∧ w_now (unregistered client b w) = w_now w.
Proof. by destruct b. Qed.

(** Its second half: what becomes of the will. *)
Definition settle_will client c (publish_will : bool) (s : Session) : handler W unit :=
  if publish_will then
    match s_will s with
    | Some will => publish_will_message client c will (s_will_delay_interval s)
    | None => mret tt
    end
  else update_session c (fun s => s <| s_will := None |>).

Lemma run_handle_disconnect client c publish_will w s :
  cells (w_sessions w) !! c = Some s →
  run (handle_disconnect client c publish_will) w =
  run (settle_will client c publish_will s;;
       persist_session client c;;
       send_event (ClientDisconnected client)) (unregistered client (s_clean_start s) w).
Proof.
  intros Hs. unfold handle_disconnect. rewrite run_handler_bind, run_change, run_handler_bind.
  set (w1 := w <| w_connections ::= delete client |>).
  rewrite (run_read_session c _ w1 s Hs), run_handler_bind. unfold unregistered. fold w1.
  destruct (s_clean_start s).
  - by rewrite run_change, run_handler_bind, run_disconnect_session.
  - by rewrite run_mret, run_handler_bind, run_disconnect_session.
Qed.

(** The will of the session in a cell. *)
Definition will_at c w : option WillMessage := cells (w_sessions w) !! c ≫= s_will.

(** What a disconnection owes the subscribers of a will. *)
Definition will_outcome client c (will : option WillMessage) (delay : Z) w w' : Prop :=
  match will with
  | Some will =>
      if delay >? 0 then
        published w' = published w ∧ will_at c w' = Some will ∧
        w_wills w' = w_wills w ++ [MkDelayedWill (w_now w + from_secs delay) client c (Some (w_now w))]
      else published w' = published w ++ [message_of (will_publish will)] ∧ will_at c w' = None ∧ w_wills w' = w_wills w
  | None => published w' = published w ∧ will_at c w' = None ∧ w_wills w' = w_wills w
  end.

(** The middle of [handle_disconnect], on a session that has just been marked
    as disconnected. *)
Lemma run_will client c (publish_will : bool) w s :
  sessions_wf (w_sessions w) → cells (w_sessions w) !! c = Some s → s_disconnected_at s = Some (w_now w) →
  ∃ w', run (settle_will client c publish_will s) w = (Ok tt, w') ∧
    w_connections w' = w_connections w ∧ is_Some (cells (w_sessions w') !! c) ∧
    will_outcome client c (if publish_will then s_will s else None) (s_will_delay_interval s) w w'.
Proof.
  intros Hwf Hs Hd. unfold settle_will, will_outcome, will_at. destruct publish_will.
  - destruct (s_will s) as [will|] eqn:Hw; [|by exists w; rewrite run_mret, Hs; split_and!; eauto].
    destruct (Z.gtb_spec (s_will_delay_interval s) 0).
    + rewrite (run_delayed_will _ _ _ _ _ _ H Hs), Hd. eexists. split; [reflexivity|].
      set (w1 := w <| w_wills ::= _ |>). split_and!; [done|by exists s|done| |done].
      change (cells (w_sessions w) !! c ≫= s_will = Some will). by rewrite Hs.
    + destruct (run_immediate_will client c will _ _ _ H Hwf Hs) as (w' & -> & ? & ? & ? & s' & Hs' & ?).
      exists w'. rewrite Hs'. split_and!; eauto.
  - rewrite (run_update_session _ _ _ _ Hs). eexists. split; [reflexivity|].
    assert (Hc := session_at_modify c (fun s => s <| s_will := None |>) w s Hs). unfold session_at in Hc.
    split_and!; [done|by eexists|done| |done]. by rewrite Hc.
Qed.
End wills.

(** ** Lemmas: the ends of a connection *)
Section ends.
Context {W : Type} (hooks : Hooks W).
Implicit Types w : World W.

(** How a connection ends as the broker sees it: the client closes the socket,
    the read fails, the client is silent for too long, or it says DISCONNECT. *)
Inductive ending : Type :=
  | Closed
  | Lost
  | TimedOut
  | Says (disconnect : Disconnect).

Definition end_connection (self : nat) (client : string) (c : nat) (e : ending) : handler W bool :=
  match e with
  | Closed => on_event hooks self client c SocketEof
  | Lost => on_event hooks self client c SocketError
  | TimedOut => on_event hooks self client c KeepAliveTimeout
  | Says d => handle_packet hooks self client c (P.Disconnect d);; mret true
  end.

(** What [run_connected] returns. *)
Definition end_result (e : ending) : outcome ConnectionError bool :=
  match e with
  | Closed => Ok false
  | Lost => Err (CE.Io ReadFailed)
  | TimedOut => Err CE.Timeout
  | Says _ => Err CE.Shutdown
  end.

(** The will that is due: none after a DISCONNECT, unless it asks for it. *)
Definition due_will (e : ending) (will : option WillMessage) : option WillMessage :=
  match e with
  | Says d => if bool_decide (disconnect_reason_code d = RC.DisconnectWithWill) then will else None
  | _ => will
  end.

Lemma run_disconnected client c publish_will w s :
  sessions_wf (w_sessions w) → sessions (w_sessions w) !! client = Some c → cells (w_sessions w) !! c = Some s →
  ∃ w', run (handle_disconnect client c publish_will) w = (Ok tt, w') ∧
    w_connections w' = delete client (w_connections w) ∧
    will_outcome client c (if publish_will then s_will s else None) (s_will_delay_interval s) w w'.
Proof.
  intros Hwf Hc Hs. rewrite (run_handle_disconnect _ _ _ _ _ Hs), run_handler_bind.
  destruct (unregistered_frame client (s_clean_start s) w) as (Es & Ep & Ew & Ec & Et).
  set (w1 := unregistered client (s_clean_start s) w) in *.
  assert (Hs1 : cells (w_sessions w1) !! c = Some (mark_disconnected (w_now w) s)) by (rewrite Es; by apply disconnect_cell).
  assert (Hwf1 : sessions_wf (w_sessions w1)) by (rewrite Es; by apply disconnect_wf).
  destruct (run_will client c publish_will w1 _ Hwf1 Hs1) as (w2 & Hr2 & Ec2 & [s2 Hs2] & Ho); [by rewrite Et|].
  change (settle_will client c publish_will (mark_disconnected (w_now w) s))
    with (settle_will (W := W) client c publish_will s) in Hr2. rewrite Hr2.
  destruct (run_farewell client c w2 s2 Hs2) as (w3 & Hr & [Fp Fw Fc] & Fs).
  exists w3. split; [done|]. split; [congruence|].
  unfold will_outcome, will_at in *. by rewrite Fp, Fw, Fs, <-Ep, <-Ew, <-Et.
Qed.

(** A packet that is sent, or not, whatever happens to it. *)
Lemma run_send_anyway self p w :
  is_Some (w_conns w !! self) → ∃ f, run (ignore_errors (send_packet self p)) w = (Ok tt, w <| w_conns ::= f |>).
Proof.
  intros [c Hc]. unfold ignore_errors, send_packet. rewrite run_bind, run_handler_bind. unfold encode_packet.
  rewrite run_handler_bind, (run_ask_self _ _ _ _ Hc). cbn [run of_outcome].
  pose proof (encode_safe (c_encoder c) p []) as Hp. destruct (encode (c_encoder c) p []) as [buf [[]|e| |]]; cbn in Hp; try done.
  - cbn. rewrite Hc. destruct (c_writable c); cbn; [by eexists|]. exists id. by destruct w.
  - exists id. by destruct w.
Qed.

(** The DISCONNECT for a client that is silent touches only the socket. *)
Lemma run_timeout self client c w :
  is_Some (w_conns w !! self) →
  ∃ f, run (on_event hooks self client c KeepAliveTimeout) w =
    run (handle_disconnect client c true;; fail CE.Timeout) (w <| w_conns ::= f |>).
Proof.
  intros Hc. cbn [on_event]. destruct Hc as [conn Hc]. rewrite run_handler_bind, (run_ask_self _ _ _ _ Hc), run_handler_bind.
  destruct (bool_decide _).
  - destruct (run_send_anyway self (P.Disconnect (MkDisconnect RC.KeepAliveTimeout Properties_default)) w) as [f ->];
      [by eexists|]. by exists f.
  - exists id. rewrite run_mret. by destruct w.
Qed.

End ends.

(** ** Theorems *)

(** C15. When a client closes its connection, the read fails, the client is
    silent for too long or it says DISCONNECT, the end of the connection
    completes: the client is unregistered, and its will is forgotten after a
    DISCONNECT with any reason but 0x04; otherwise it is published exactly once
    and forgotten when it has no delay, and scheduled, still pending, when it
    has one. *)
Theorem will_on_disconnect {W} (hooks : Hooks W) self client c e (w : World W) s :
  is_Some (w_conns w !! self) →
  sessions_wf (w_sessions w) → sessions (w_sessions w) !! client = Some c → cells (w_sessions w) !! c = Some s →
  ∃ w', run (end_connection hooks self client c e) w = (end_result e, w') ∧
    w_connections w' = delete client (w_connections w) ∧
    will_outcome client c (due_will e (s_will s)) (s_will_delay_interval s) w w'.
Proof.
  intros Hconn Hwf Hc Hs.
  destruct e as [| | |d]; cbn [end_connection end_result due_will].
  - destruct (run_disconnected client c true w s) as (w' & Hr & Ho); [done..|].
    exists w'. split; [cbn [on_event]; by rewrite run_handler_bind, Hr|done].
  - destruct (run_disconnected client c true w s) as (w' & Hr & Ho); [done..|].
    exists w'. split; [cbn [on_event]; by rewrite run_handler_bind, Hr|done].
  - destruct (run_timeout hooks self client c w Hconn) as [f ->].
    destruct (run_disconnected client c true (w <| w_conns ::= f |>) s) as (w' & Hr & Ho); [done..|].
    exists w'. split; [by rewrite run_handler_bind, Hr|done].
  - set (b := bool_decide (disconnect_reason_code d = RC.DisconnectWithWill)).
    destruct (run_disconnected client c b w s) as (w' & Hr & Ho); [done..|].
    exists w'. split; [|done]. cbn [handle_packet]. fold b. by rewrite run_handler_bind, run_handler_bind, Hr.
Qed.

(** The client [c1] with a will, connected. *)
Definition example_will : WillMessage := MkWillMessage "a/gone" [x01] AtLeastOnce false Properties_default.

Definition will_world (delay expiry : Z) : World unit :=
  connected_world <| w_sessions ::= modify_session 0 (fun s =>
    s <| s_will := Some example_will |> <| s_will_delay_interval := delay |> <| s_session_expiry_interval := expiry |>) |>.

Lemma will_world_wf delay expiry : sessions_wf (w_sessions (will_world delay expiry)).
Proof. apply modify_wf; [|done|apply connected_world_wf]. intros s. by apply session_wf_same. Qed.

Lemma will_on_disconnect_witness :
  ∃ w', run (end_connection DefaultHooks 0 "c1" 0 (Says (MkDisconnect RC.DisconnectWithWill Properties_default)))
          (will_world 0 0) = (Err CE.Shutdown, w') ∧ w_connections w' = ∅ ∧
    published w' = [("a/gone"%string, [x01], AtLeastOnce, false)].
Proof.
  edestruct (will_on_disconnect DefaultHooks 0 "c1" 0 (Says (MkDisconnect RC.DisconnectWithWill Properties_default))
    (will_world 0 0)) as (w' & Hr & Hc & Ho);
    [eexists; reflexivity|apply will_world_wf|reflexivity|reflexivity|].
  destruct (Ho : published w' = [("a/gone"%string, [x01], AtLeastOnce, false)] ∧ _) as [Hp _].
  exists w'. split_and!; [exact Hr|rewrite Hc; reflexivity|exact Hp].
Defined.

(** A connection that ends because of a malformed packet is only dropped: the
    will is not published, and the client stays registered and its session
    connected. *)
Theorem malformed_end {W} (hooks : Hooks W) self client c data (w : World W) conn err :
  w_conns w !! self = Some conn → (decode (c_decoder conn) (c_read_buf conn ++ data)).2 = Err err →
  ∃ w', run (on_event hooks self client c (SocketData data)) w = (Err (CE.Decode err), w') ∧
    published w' = published w ∧ w_wills w' = w_wills w ∧ w_connections w' = w_connections w ∧
    w_sessions w' = w_sessions w.
Proof.
  intros Hc He. cbn [on_event]. rewrite run_handler_bind. unfold receive, change_self. rewrite run_change.
  set (w1 := w <| w_conns ::= _ |>). assert (Hc1 : w_conns w1 !! self = Some (conn <| c_read_buf ::= (fun b => b ++ data) |>)).
  { unfold w1, set_field. cbn. by rewrite lookup_alter, decide_True, Hc. }
  rewrite run_handler_bind, (run_ask_self _ _ _ _ Hc1), run_handler_bind. cbn [process_packets]. rewrite run_handler_bind.
  unfold decode_next. cbn [run]. rewrite Hc1.
  change (decode _ _) with (decode (c_decoder conn) (c_read_buf conn ++ data)).
  destruct (decode (c_decoder conn) (c_read_buf conn ++ data)) as [d r]. cbn in He. subst r. cbn. eexists. by split_and!.
Qed.

Lemma malformed_end_witness :
  ∃ w', run (on_event DefaultHooks 0 "c1" 0 (SocketData [x00; x00])) (will_world 0 0)
          = (Err (CE.Decode (DE.InvalidPacketType 0)), w') ∧ published w' = [].
Proof.
  destruct (malformed_end DefaultHooks 0 "c1" 0 [x00; x00] (will_world 0 0)
    (MkConnection St.Connecting (with_max_packet_size Decoder_new 1048576) (Encoder_new V5) [] None 0 [] true 0 0)
    (DE.InvalidPacketType 0)) as (w' & Hr & Hp & _);
    [reflexivity|vm_compute; reflexivity|]. exists w'. split; [exact Hr|exact Hp].
Defined.

(** The delayed will is published when its task finds the session it was
    scheduled for, still disconnected since then, with the will pending. *)
Definition will_due {W} (d : DelayedWill) (w : World W) : bool :=
  bool_decide (sessions (w_sessions w) !! dw_client_id d = Some (dw_session d)) &&
  match cells (w_sessions w) !! dw_session d with
  | Some s => bool_decide (s_state s = Disconnected) && is_some (s_will s) &&
              bool_decide (s_disconnected_at s = dw_disconnected_at d)
  | None => false
  end.

Section delayed.
Context {W : Type}.
Implicit Types w : World W.

Lemma run_publish_delayed_will d w :
  sessions_wf (w_sessions w) →
  ∃ w', run (publish_delayed_will d) w = (Ok tt, w') ∧
    published w' = published w ++
      (if will_due d w then option_list (message_of ∘ will_publish <$> will_at (dw_session d) w) else []) ∧
    (will_due d w = true → will_at (dw_session d) w' = None) ∧
    (will_due d w = false → w' = w).
Proof.
  intros Hwf. unfold publish_delayed_will, will_due, get_session, will_at. rewrite run_handler_bind, run_ask, run_handler_bind.
  destruct (bool_decide _) eqn:Hb; cbn [andb]; [|exists w; rewrite app_nil_r; by split_and!].
  apply bool_decide_eq_true in Hb. destruct (cells (w_sessions w) !! dw_session d) as [s|] eqn:Hs.
  2:{ pose proof (sw_cells _ Hwf _ _ Hb) as H. cbn in H. by rewrite Hs in H. }
  rewrite (run_read_session _ _ _ _ Hs). destruct (_ && _) eqn:Hdue; [|exists w; rewrite app_nil_r; by split_and!].
  destruct (s_will s) as [will|] eqn:Hw; [|by rewrite andb_false_r in Hdue].
  rewrite run_handler_bind, (run_write_session _ _ _ _ Hs), Hw.
  set (w1 := w <| w_sessions ::= _ |>).
  assert (Hs1 : cells (w_sessions w1) !! dw_session d = Some (s <| s_will := None |>))
    by (by apply (session_at_modify _ _ _ s)).
  assert (Hwf1 : sessions_wf (w_sessions w1)).
  { apply modify_wf; [|done..]. intros s0. by apply session_wf_same. }
  destruct (run_announce_will (dw_client_id d) (will_publish will) w1 Hwf1) as (w2 & Hr & Ep & _ & _ & Hc).
  exists w2. split_and!; [| |intros _|intros [=]]; [|cbn; by rewrite Hw, Ep|].
  - cbn [fst]. rewrite <-Hr, !run_handler_bind. destruct (run (retain_publish (will_publish will)) w1) as [[[]| | |] w0]; [|done..].
    unfold ignore_errors. by rewrite !run_bind, run_route_will_message.
  - destruct (Hc _ _ Hs1) as (s2 & -> & ->). done.
Qed.

Lemma will_due_pending d w : will_due d w = true → is_Some (will_at (dw_session d) w).
Proof.
  unfold will_due, will_at. destruct (cells _ !! _) as [s|]; [|by rewrite andb_false_r]. cbn.
  destruct (s_will s); [by eexists|]. by rewrite andb_false_r, andb_false_r.
Qed.

(** A client that comes back, with its session or with a new one, leaves no
    delayed will of an earlier connection due. *)
Lemma reconnect_not_due client v clean limits w d :
  sessions_wf (w_sessions w) → dw_client_id d = client → is_Some (cells (w_sessions w) !! dw_session d) →
  will_due d (run (get_or_create_session client v clean limits) w).2 = false.
Proof.
  intros Hwf <- Hd. rewrite run_get_or_create. cbn [snd].
  set (st := (get_or_create _ _ _ _ _ _).2). change (will_due d _) with
    (bool_decide (sessions st !! dw_client_id d = Some (dw_session d)) &&
     match cells st !! dw_session d with
     | Some s => bool_decide (s_state s = Disconnected) && is_some (s_will s) &&
                 bool_decide (s_disconnected_at s = dw_disconnected_at d)
     | None => false
     end).
  assert (Hnew : ∀ t v limits, bool_decide (sessions (create_session t (dw_client_id d) v limits (w_sessions w)).2
    !! dw_client_id d = Some (dw_session d)) = false).
  { intros. apply bool_decide_eq_false. cbn. rewrite lookup_insert_eq. intros [= E].
    rewrite (sw_fresh _ Hwf) in Hd; [by destruct Hd|lia]. }
  subst st. unfold get_or_create. destruct clean; [by rewrite Hnew|].
  destruct (sessions (w_sessions w) !! dw_client_id d) as [c|] eqn:Hc; [|by rewrite Hnew].
  destruct (cells (w_sessions w) !! c) as [s|] eqn:Hs; [|by rewrite Hnew].
  destruct (negb _); [|by rewrite Hnew]. cbn [snd].
  change (sessions (modify_session c (resume v) (w_sessions w))) with (sessions (w_sessions w)). rewrite Hc.
  destruct (bool_decide _) eqn:Hb; [|done]. apply bool_decide_eq_true in Hb as [= ->].
  by rewrite lookup_modify, decide_True, Hs.
Qed.
End delayed.

(** One action of a task: what is left of it, and the world. Between the
    actions of a task the others may change the world. *)
Definition act {W A} (m : handler W A) (w : World W) : handler W A * World W :=
  match m with
  | Act f k => (k (f w).1, (f w).2)
  | Ret r => (Ret r, w)
  end.

(** The task once it has taken the will. *)
Definition announce {W} (d : DelayedWill) (will : WillMessage) : handler W unit :=
  retain_publish (will_publish will);;
  ignore_errors (route_will_message (dw_client_id d) (will_publish will)).

(** What the second action of the task looks at. *)
Definition still_gone {W} (d : DelayedWill) (w : World W) : bool :=
  match cells (w_sessions w) !! dw_session d with
  | Some s => bool_decide (s_state s = Disconnected) && is_some (s_will s) &&
              bool_decide (s_disconnected_at s = dw_disconnected_at d)
  | None => false
  end.

Lemma act_write {W A B} c (f : Z → Session → B * Session) (k : B → handler W A) (w : World W) s :
  cells (w_sessions w) !! c = Some s →
  act (write_session c f ≫= k) w =
    (k (f (w_now w) s).1, w <| w_sessions ::= modify_session c (fun _ => (f (w_now w) s).2) |>).
Proof. intros Hs. unfold write_session, lock_session. cbn. rewrite Hs. by destruct (f (w_now w) s). Qed.

Lemma act_read {W A B} c (f : Session → B) (k : B → handler W A) (w : World W) s :
  cells (w_sessions w) !! c = Some s → act (read_session c f ≫= k) w = (k (f s), w).
Proof.
  intros Hs. unfold read_session. rewrite (act_write _ _ _ _ _ Hs). f_equal.
  pose proof (run_read_session (W := W) c f w s Hs) as Hr. unfold read_session in Hr.
  rewrite (run_write_session _ _ _ _ Hs) in Hr. injection Hr as Hr. rewrite <-Hr at 2.
  apply set_sessions_ext, (modify_ext _ _ _ _ s Hs). done.
Qed.

(** The first three actions of the task, in the worlds it finds: two checks
    that change nothing, and the will taken. *)
Lemma delayed_will_actions {W} d (w1 w2 w3 : World W) s2 s3 :
  cells (w_sessions w2) !! dw_session d = Some s2 → cells (w_sessions w3) !! dw_session d = Some s3 →
  let '(m1, w1') := act (publish_delayed_will d) w1 in
  let '(m2, w2') := act m1 w2 in
  let '(m3, w3') := act m2 w3 in
  w1' = w1 ∧
  if bool_decide (sessions (w_sessions w1) !! dw_client_id d = Some (dw_session d)) then
    w2' = w2 ∧
    if still_gone d w2 then
      m3 = match s_will s3 with Some will => announce d will | None => mret tt end ∧
      w3' = w3 <| w_sessions ::= modify_session (dw_session d) (fun _ => s3 <| s_will := None |>) |>
    else m2 = mret tt
  else m1 = mret tt.
Proof.
  intros H2 H3. unfold still_gone. rewrite H2.
  set (k := fun b : bool => if b then will ← write_session (dw_session d) (fun _ s => (s_will s, s <| s_will := None |>));
    match will with Some will => announce d will | None => mret tt end else (mret tt : handler W unit)).
  assert (E : act (publish_delayed_will d) w1 = (if bool_decide (sessions (w_sessions w1) !! dw_client_id d = Some (dw_session d))
    then read_session (dw_session d) (fun s => bool_decide (s_state s = Disconnected) && is_some (s_will s)
         && bool_decide (s_disconnected_at s = dw_disconnected_at d)) ≫= k else mret tt, w1)).
  { cbn. unfold get_session. by destruct (bool_decide (sessions _ !! _ = _)). }
  rewrite E. destruct (bool_decide (sessions _ !! _ = _)); [|done].
  rewrite (act_read _ _ _ _ _ H2). destruct (_ && _ && _); cbn [k]; [|done].
  by rewrite (act_write _ _ _ _ _ H3).
Qed.

(** C16. A delayed will. When its task runs without interruption, the will is
    published once if the session it was scheduled for is still the client's,
    disconnected since then, with the will pending, and no other task of the
    session is due then; otherwise nothing happens. When the client came back
    before the task began, with or without its old session, the task publishes
    nothing. And whatever others do between its actions, the task checks,
    without changing anything, and only if both checks succeeded it takes the
    will that the session holds then, in one action that leaves none behind,
    and publishes what it took. *)
Theorem delayed_will_once {W} d (w : World W) :
  sessions_wf (w_sessions w) → is_Some (cells (w_sessions w) !! dw_session d) →
  (∃ w', run (publish_delayed_will d) w = (Ok tt, w') ∧
     published w' = published w ++
       (if will_due d w then option_list (message_of ∘ will_publish <$> will_at (dw_session d) w) else []) ∧
     ∀ d', dw_session d' = dw_session d → will_due d w = true → will_due d' w' = false) ∧
  (∀ v clean limits w1, 0 ≤ lim_max_inflight limits →
     (run (get_or_create_session (dw_client_id d) v clean limits) w).2 = w1 →
     run (publish_delayed_will d) w1 = (Ok tt, w1)) ∧
  (∀ w2 w3, is_Some (cells (w_sessions w2) !! dw_session d) → is_Some (cells (w_sessions w3) !! dw_session d) →
     let '(m1, w') := act (publish_delayed_will d) w in
     let '(m2, w2') := act m1 w2 in
     let '(m3, w3') := act m2 w3 in
     w' = w ∧ w2' = w2 ∧
     if bool_decide (sessions (w_sessions w) !! dw_client_id d = Some (dw_session d)) && still_gone d w2
     then m3 = match will_at (dw_session d) w3 with Some will => announce d will | None => mret tt end ∧
          will_at (dw_session d) w3' = None ∧ published w3' = published w3
     else m3 = mret tt ∧ w3' = w3).
Proof.
  intros Hwf Hd. split_and!.
  - destruct (run_publish_delayed_will d w Hwf) as (w' & Hr & Hp & Hn & _). exists w'. split_and!; [done..|].
    intros d' Ed Hdue. destruct (will_due d' w') eqn:Hd'; [|done]. apply will_due_pending in Hd' as [x Hx].
    rewrite Ed, (Hn Hdue) in Hx. done.
  - intros v clean limits w1 Hl Hw1. assert (Hn := reconnect_not_due _ v clean limits w d Hwf eq_refl Hd). rewrite Hw1 in Hn.
    destruct (run_publish_delayed_will d w1) as (w' & -> & _ & _ & Hsame); [|by rewrite Hsame].
    rewrite <-Hw1, run_get_or_create. by apply get_or_create_wf.
  - intros w2 w3 [s2 H2] [s3 H3]. pose proof (delayed_will_actions d w w2 w3 s2 s3 H2 H3) as Ha.
    destruct (act _ w) as [m1 w']. destruct (act m1 w2) as [m2 w2'] eqn:E2. destruct (act m2 w3) as [m3 w3'] eqn:E3.
    destruct Ha as [-> Ha]. split; [done|]. destruct (bool_decide _).
    + destruct Ha as [-> Ha]. split; [done|]. cbn [andb]. destruct (still_gone d w2).
      * destruct Ha as [-> ->]. unfold will_at. rewrite H3. split_and!; [done| |done].
        by rewrite (session_at_modify (dw_session d) _ w3 s3 H3 : cells _ !! _ = _).
      * subst m2. cbn in E3. by injection E3 as <- <-.
    + subst m1. cbn in E2. injection E2 as <- <-. cbn in E3. by injection E3 as <- <-.
Qed.

Lemma delayed_will_once_witness :
  ∃ w1 d, run (handle_disconnect "c1" 0 true) (will_world 5 60) = (Ok tt, w1) ∧ w_wills w1 = [d] ∧
    ∃ w2, run (publish_delayed_will d) w1 = (Ok tt, w2) ∧
      published w2 = [("a/gone"%string, [x01], AtLeastOnce, false)].
Proof.
  eexists _, (MkDelayedWill _ _ _ _). split; [vm_compute; reflexivity|]. split; [reflexivity|].
  match goal with |- ∃ _, run (publish_delayed_will ?d) ?w = _ ∧ _ =>
    destruct (delayed_will_once d w) as [(w2 & Hr & Hp & _) _] end.
  - apply (disconnect_wf 0 "c1" (w_sessions (will_world 5 60))), will_world_wf.
  - eexists; reflexivity.
  - exists w2. split; [exact Hr|exact Hp].
Defined.

(** The checks and the take are separate actions: a client that comes back in
    between does not stop its will. *)
Example returned_will_published :
  let w1 := (run (handle_disconnect "c1" 0 true) (will_world 5 60)).2 in
  let w2 := (run (get_or_create_session "c1" V5 false SessionLimits_default) w1).2 in
  match w_wills w1 with
  | [d] =>
      let m := (act (act (publish_delayed_will d) w1).1 w1).1 in
      (s_state <$> cells (w_sessions w2) !! 0%nat) = Some Connected ∧
      published (run m w2).2 = [("a/gone"%string, [x01], AtLeastOnce, false)]
  | _ => False
  end.
Proof. vm_compute. split; reflexivity. Qed.

(** A delayed will of a session that ends with its connection is lost: the
    session is removed at the disconnection, so that the task of the will finds
    it gone, although the end of the session is what should publish it. *)
Theorem delayed_will_lost {W} client c (w : World W) s will :
  sessions_wf (w_sessions w) → sessions (w_sessions w) !! client = Some c → cells (w_sessions w) !! c = Some s →
  s_will s = Some will → 0 < s_will_delay_interval s → s_session_expiry_interval s = 0 →
  ∃ w' d, run (handle_disconnect client c true) w = (Ok tt, w') ∧ w_wills w' = w_wills w ++ [d] ∧
    published w' = published w ∧ run (publish_delayed_will d) w' = (Ok tt, w').
Proof.
  intros Hwf Hc Hs Hw Hd He. rewrite (run_handle_disconnect _ _ _ _ _ Hs), run_handler_bind.
  unfold settle_will. rewrite Hw.
  destruct (unregistered_frame client (s_clean_start s) w) as (Es & Ep & Ew & Ec & Et).
  set (w1 := unregistered client (s_clean_start s) w) in *.
  assert (Hs1 : cells (w_sessions w1) !! c = Some (mark_disconnected (w_now w) s)) by (rewrite Es; by apply disconnect_cell).
  rewrite (run_delayed_will _ _ _ _ _ _ Hd Hs1). set (d := MkDelayedWill _ _ _ _). set (w2 := w1 <| w_wills ::= _ |>).
  destruct (run_farewell client c w2 _ Hs1) as (w3 & Hr & [Fp Fw Fc] & Fs).
  exists w3, d. split_and!; [done|by rewrite Fw, <-Ew|by rewrite Fp, <-Ep|].
  assert (Hgone : sessions (w_sessions w3) !! client = None).
  { rewrite Fs. change (w_sessions w2) with (w_sessions w1). rewrite Es. unfold disconnect. rewrite Hc.
    rewrite bool_decide_eq_true_2 by (rewrite lookup_modify, decide_True, Hs by done; cbn; by rewrite <-He).
    cbn. by rewrite lookup_delete_eq. }
  unfold publish_delayed_will, get_session. rewrite run_handler_bind, run_ask. cbn [dw_client_id d]. rewrite Hgone.
  done.
Qed.

Lemma delayed_will_lost_witness :
  ∃ w' d, run (handle_disconnect "c1" 0 true) (will_world 5 0) = (Ok tt, w') ∧ w_wills w' = [d] ∧
    published w' = [] ∧ run (publish_delayed_will d) w' = (Ok tt, w').
Proof.
  eapply (delayed_will_lost "c1" 0 (will_world 5 0));
    [apply will_world_wf|reflexivity|reflexivity|reflexivity|reflexivity|reflexivity].
Defined.
