(* ===== verification/Retained.v ===== *)
(** * Retained messages across a restart

    The retained messages that the broker holds, the operations it queues for
    the storage, and what the next start makes of them. *)

From S2P Require Import Prelude Protocol Codec Properties Packet Decode Encode Wire CodecTheorems.
From S2P Require Import TopicValidation TopicTrie SubscriptionStore Session Hooks Persistence Broker Connection Routing Handlers Wills.

Section retained.
Context {W : Type}.
Implicit Types w : World W.

(** A message at its time. *)
Definition retain_at (x : Z * Publish) : handler W unit :=
  change (fun w => w <| w_now := x.1 |>);;
  retain_publish x.2.

(** ** Lemmas *)

(** A message changes the map and queues the operation of the same change. *)
Lemma run_retain_at p w :
  ∃ us w', run (retain_publish p) w = (Ok tt, w') ∧
    w_retained w' = foldl apply_update (w_retained w) us ∧
    w_persisted w' = (λ l, l ++ (retained_op <$> us)) <$> w_persisted w.
Proof.
  unfold retain_publish, config. rewrite run_handler_bind, run_ask.
  destruct (pub_retain p && bc_retain_available (w_config w)).
  2:{ exists [], w. rewrite run_mret. split_and!; [done|done|]. destruct (w_persisted w); cbn; [|done]. by rewrite app_nil_r. }
  unfold update_retained. destruct (is_nil (pub_payload p)).
  - exists [MkRetainedUpdate (w_clock w) (pub_topic p) None]. eexists. split; [reflexivity|done].
  - exists [MkRetainedUpdate (w_clock w) (pub_topic p)
      (Some (MkRetained (pub_topic p) (pub_payload p) (pub_qos p) (pub_properties p) (w_now w)))].
    eexists. split; [reflexivity|done].
Qed.

Lemma run_retain_all ps w :
  ∃ us w', run (for_all ps retain_at) w = (Ok tt, w') ∧
    w_retained w' = foldl apply_update (w_retained w) us ∧
    w_persisted w' = (λ l, l ++ (retained_op <$> us)) <$> w_persisted w.
Proof.
  revert w. induction ps as [|x ps IH]; intros w.
  { exists [], w. split_and!; [done|done|]. destruct (w_persisted w); cbn; [|done]. by rewrite app_nil_r. }
  cbn [for_all]. rewrite run_handler_bind. unfold retain_at at 1. rewrite run_handler_bind, run_change.
  destruct (run_retain_at x.2 (w <| w_now := x.1 |>)) as (us1 & w1 & -> & Er1 & Ep1).
  destruct (IH w1) as (us & w' & -> & Er & Ep). exists (us1 ++ us), w'. split; [done|].
  rewrite Er, Er1, Ep, Ep1, foldl_app, fmap_app. split; [done|]. cbn.
  destruct (w_persisted w); cbn; [|done]. by rewrite app_assoc.
Qed.
End retained.

(** ** Theorems *)

(** C22. Retained messages survive a restart. The broker takes in messages one
    after the other, with the storage holding what it had retained before; if
    the queue accepted the operations of its retained changes (and any others),
    every batch was committed and all of them are written, loading at the next
    start gives for every topic the message that the broker retained, with its
    payload, QoS and the stored kinds of property, and nothing for the other
    topics. *)
Theorem retained_survives_restart {W KS B} `{!Keyspace KS B} `{!Bincode StoredRetainedMessage B, !Bincode StoredSession B,
    !Bincode StoredUser B, !Bincode StoredRole B} max acts (ks : KS) ps (w w' : World W) ops now :
  (∀ topic, stored_as (ks_get Retained topic ks) (w_retained w !! topic)) →
  w_persisted w = Some [] → run (for_all ps retain_at) w = (Ok tt, w') → w_persisted w' = Some ops →
  filter is_retained_op (accepted max acts (Manager_new ks)) = ops →
  Forall (λ a, committed a = true) acts →
  Forall serializable (accepted max acts (Manager_new ks)) →
  let m := run_actions max acts (Manager_new ks) in
  batch m = [] → rx m = [] →
  ∃ l, list_retained None (storage m) = Ok l ∧
    ∀ topic, restore_retained now l !! topic = restored now topic <$> w_retained w' !! topic.
Proof.
  intros He Hp Hr Hops Hacc Hc Hs m Hb Hq. destruct (run_retain_all ps w) as (us & w1 & Hr1 & Er & Ep).
  rewrite Hr in Hr1. injection Hr1 as <-. rewrite Hp, Hops in Ep. injection Ep as Ep. cbn in Ep.
  destruct (restart_loads max acts ks (w_retained w) us He Hc Hs) as (l & Hl & Hres); [by rewrite Hacc, Ep|done|done|].
  exists l. split; [done|]. intros topic. by rewrite Hres, Er.
Qed.

Definition retaining_world : World unit := World_new BrokerConfig_default 0 1700000000500000000 true false tt.

Definition retained_message (topic : string) (payload : list byte) : Publish :=
  MkPublish false AtLeastOnce true topic None payload Properties_default.

Definition retained_messages : list (Z * Publish) :=
  [(0, retained_message "a" [x01]); (1, retained_message "b" [x02]); (2, retained_message "b" [])].

Definition retained_end : World unit := (run (for_all retained_messages retain_at) retaining_world).2.

Definition retained_actions : list manager_action :=
  (Write <$> default [] (w_persisted retained_end)) ++
  [Writer Received true; Writer Received true; Writer Received true; Writer IntervalTick true].

Lemma retained_survives_restart_witness :
  ∃ l, list_retained None (storage (run_actions (B:=any) 2 retained_actions (Manager_new memory_empty))) = Ok l ∧
    restore_retained 9 l !! "a"%string = Some (MkRetained "a" [x01] AtLeastOnce Properties_default 9) ∧
    restore_retained 9 l !! "b"%string = None.
Proof.
  destruct (retained_survives_restart (B:=any) 2 retained_actions memory_empty retained_messages retaining_world
    retained_end (default [] (w_persisted retained_end)) 9) as (l & Hl & Hr).
  - reflexivity.
  - reflexivity.
  - vm_compute. reflexivity.
  - vm_compute. reflexivity.
  - vm_compute. reflexivity.
  - vm_compute. repeat constructor.
  - vm_compute. repeat constructor; eexists; reflexivity.
  - vm_compute. reflexivity.
  - vm_compute. reflexivity.
  - exists l. split; [exact Hl|]. rewrite !Hr. split; vm_compute; reflexivity.
Defined.

(** The change of the map and the queued operation are two actions: when two
    connections retain messages for one topic, the broker can keep one of them
    and the storage the other. *)
Example racing_publishers :
  let '(a, w) := act (act (act (retain_publish (retained_message "a" [x01])) retaining_world).1 retaining_world).1
                   retaining_world in
  let w := (run (retain_publish (retained_message "a" [x02])) w).2 in
  let w := (run a w).2 in
  rm_payload <$> w_retained w !! "a"%string = Some [x02] ∧
  match w_persisted w with
  | Some [SetRetained _ m1; SetRetained _ m2] => sr_payload m1 = [x02] ∧ sr_payload m2 = [x01]
  | _ => False
  end.
Proof. vm_compute. by split_and!. Qed.
