(* ===== verification/Delivery.v ===== *)
(** * From the publisher to the subscriber's socket

    The components together: a message that is routed reaches the channel of a
    subscriber's connection, and the task of that connection writes bytes that
    the client decodes to the message. *)

From S2P Require Import Prelude Protocol Codec Properties Packet Decode Encode Wire CodecTheorems.
From S2P Require Import TopicValidation TopicTrie SubscriptionStore Session Hooks Persistence Broker Connection Routing Handlers.

(** The message as the client gets it: with the identifier it was given, and
    without properties before v5.0. *)
Definition sent_as (v : ProtocolVersion) (id : option Z) (p : Publish) : Publish :=
  p <| pub_packet_id := id |>
    <| pub_properties := match v with V5 => pub_properties p | V311 => Properties_default end |>.

(** A message that PUBLISH can carry to a client of version [v]. *)
Definition deliverable (v : ProtocolVersion) (p : Publish) : Prop :=
  pub_dup p = false ∧ pub_packet_id p = None ∧ mqtt_string (pub_topic p) = true ∧
  contains "+" (pub_topic p) = false ∧ contains "#" (pub_topic p) = false ∧
  (v = V5 → encodable_props (pub_properties p)).

(** The identifier belongs to the QoS. *)
Definition id_for (q : QoS) (id : option Z) : Prop :=
  match q with
  | AtMostOnce => id = None
  | _ => ∃ i, id = Some i ∧ is_packet_id i
  end.

(** ** Lemmas: the bytes *)
Lemma encode_sent_as e id p buf :
  encode e (P.Publish (p <| pub_packet_id := id |>)) buf = encode e (P.Publish (sent_as (enc_protocol_version e) id p)) buf.
Proof. destruct e as [[]]; reflexivity. Qed.

Lemma sent_encodable v id p : deliverable v p → id_for (pub_qos p) id → encodable v (P.Publish (sent_as v id p)).
Proof.
  intros (Hd & _ & Ht & H1 & H2 & Hp) Hid. split; [|by destruct v]. split_and!; try done.
  - cbn. destruct (pub_qos p), id as [i|]; cbn in Hid; try done; destruct Hid as (j & [= <-] & Hj) || destruct Hid as (j & Hj & _);
      try done; unfold is_packet_id, is_u16 in *; split_and!; (done || lia).
  - destruct v; [|by apply Hp]. done.
Qed.

Lemma zlen_sent_body v id p :
  zlen (publish_body v (sent_as v id p)) ≤ zlen (publish_body v (sent_as v None p)) + 2.
Proof. unfold publish_body. rewrite !zlen_app. cbn. destruct id; cbn; unfold zlen; cbn; lia. Qed.

(** The packet is written in one piece that decodes to it. *)
Lemma sent_bytes e d id p :
  deliverable (enc_protocol_version e) p → id_for (pub_qos p) id → protocol_version d = Some (enc_protocol_version e) →
  zlen (publish_body (enc_protocol_version e) (sent_as (enc_protocol_version e) None p)) + 2 ≤ max_packet_size d →
  max_packet_size d ≤ MAX_REMAINING_LENGTH →
  ∃ bs, encode e (P.Publish (p <| pub_packet_id := id |>)) [] = (bs, Ok tt) ∧
    zlen bs ≤ 7 + zlen (publish_body (enc_protocol_version e) (sent_as (enc_protocol_version e) None p)) ∧
    ∀ more, decode d (bs ++ more) = (d, Ok (Some (P.Publish (sent_as (enc_protocol_version e) id p), zlen bs))).
Proof.
  set (v := enc_protocol_version e). intros Hp Hid Hd Hs Hm. exists (packet_bytes v (P.Publish (sent_as v id p))).
  pose proof (zlen_sent_body v id p) as Hl. pose proof (sent_encodable v id p Hp Hid) as Henc.
  assert (Hv : is_var_int (zlen (packet_body v (P.Publish (sent_as v id p))))).
  { cbn [packet_body]. unfold is_var_int. pose proof (zlen_nonneg (publish_body v (sent_as v id p))). lia. }
  split_and!.
  - rewrite encode_sent_as. by apply emits_encode.
  - unfold packet_bytes. rewrite zlen_cons, zlen_app, zlen_var_int_bytes by done. cbn [packet_body].
    pose proof (variable_int_len_range (zlen (publish_body v (sent_as v id p)))). lia.
  - intros more. rewrite decode_packet_bytes; [done..|cbn [packet_body]; fold v in Hs; lia|done].
Qed.

(** ** Lemmas: the connection's task *)

(** There is quota and room: the message is stored under a fresh identifier. *)
Lemma prepare_sends t p s :
  session_wf s → limits_ok s → pub_packet_id p = None → 0 < s_send_quota s →
  Z.of_nat (size (s_inflight_outgoing s)) < s_max_inflight s →
  ∃ id n, is_packet_id id ∧
    prepare_outgoing t p s = Ok (SendNow (p <| pub_packet_id := Some id |>),
      store_inflight t id (p <| pub_packet_id := Some id |>)
        (s <| s_send_quota ::= Z.pred |> <| s_next_packet_id := n |>)).
Proof.
  intros Hwf Hl Hp Hq Hroom. unfold prepare_outgoing, decrement_send_quota.
  destruct (Z.gtb_spec (s_send_quota s) 0); [|lia]. cbn [negb].
  set (s1 := s <| s_send_quota ::= Z.pred |>). change (s_inflight_outgoing s1) with (s_inflight_outgoing s).
  change (s_max_inflight s1) with (s_max_inflight s).
  destruct (Z.geb_spec (Z.of_nat (size (s_inflight_outgoing s))) (s_max_inflight s)); [lia|].
  rewrite Hp. cbn [is_none is_some negb].
  destruct (next_packet_id_ok (E := ConnectionError) s1) as (id & n & -> & Hid & _ & _);
    [apply Hwf|apply (ids_available s Hwf Hl)|]. by exists id, n.
Qed.

Section outgoing.
Context {W : Type} (hooks : Hooks W).
Implicit Types w : World W.

(** The subscriber can take the message: there is quota and room if its QoS
    asks for an acknowledgement. *)
Definition can_send (p : Publish) (s : Session) : Prop :=
  session_wf s ∧ limits_ok s ∧
  (pub_qos p ≠ AtMostOnce → 0 < s_send_quota s ∧ Z.of_nat (size (s_inflight_outgoing s)) < s_max_inflight s).

(** The message is recorded as in flight under its identifier. *)
Definition in_flight (p : Publish) (id : option Z) (s : Session) : Prop :=
  match id with
  | Some i => ∃ m, s_inflight_outgoing s !! i = Some m ∧ if_publish m = p <| pub_packet_id := Some i |>
  | None => True
  end.

Lemma run_write_publish self size p w c bs :
  w_conns w !! self = Some c → c_writable c = true → encode (c_encoder c) (P.Publish p) [] = (bs, Ok tt) → zlen bs ≤ size →
  ∃ w', run (write_publish self size p) w = (Ok tt, w') ∧
    w_conns w' !! self = Some (c <| c_written ::= (fun l => l ++ [bs]) |>) ∧ w_sessions w' = w_sessions w.
Proof.
  intros Hc Hw He Hs. unfold write_publish. rewrite run_handler_bind, (run_encode _ _ _ _ _ Hc He).
  rewrite Z.gtb_ltb. destruct (Z.ltb_spec size (zlen bs)); [lia|]. rewrite run_handler_bind, (run_write_all _ _ _ _ Hc Hw).
  eexists. split; [reflexivity|]. split; [|done]. cbn. by rewrite lookup_alter_eq, Hc.
Qed.

(** [p] fits into what the client and its decoder [d] accept. *)
Definition fits (p : Publish) (v : ProtocolVersion) (s : Session) (d : Decoder) : Prop :=
  let n := zlen (publish_body v (sent_as v None p)) in
  7 + n ≤ s_max_packet_size s ∧ n + 2 ≤ max_packet_size d ∧ max_packet_size d ≤ MAX_REMAINING_LENGTH.

Lemma run_outgoing self session p w c s d :
  w_conns w !! self = Some c → c_writable c = true → cells (w_sessions w) !! session = Some s → can_send p s →
  deliverable (enc_protocol_version (c_encoder c)) p → protocol_version d = Some (enc_protocol_version (c_encoder c)) →
  fits p (enc_protocol_version (c_encoder c)) s d →
  ∃ w' id bs s', run (handle_outgoing_packet self session (P.Publish p)) w = (Ok tt, w') ∧
    w_conns w' !! self = Some (c <| c_written ::= (fun l => l ++ [bs]) |>) ∧
    cells (w_sessions w') !! session = Some s' ∧ in_flight p id s' ∧ id_for (pub_qos p) id ∧
    ∀ more, decode d (bs ++ more) =
      (d, Ok (Some (P.Publish (sent_as (enc_protocol_version (c_encoder c)) id p), zlen bs))).
Proof.
  set (v := enc_protocol_version (c_encoder c)). intros Hc Hw Hs (Hwf & Hl & Hroom) Hp Hd (Hf1 & Hf2 & Hf3).
  pose proof Hp as (_ & Hid & _). cbn [handle_outgoing_packet]. rewrite run_handler_bind, (run_read_session _ _ _ _ Hs).
  destruct (decide (pub_qos p = AtMostOnce)) as [Hq|Hq].
  - rewrite Hq. cbn [bool_decide]. rewrite bool_decide_eq_true_2 by done. cbn [negb]. rewrite run_handler_bind, run_mret.
    assert (Hnone : id_for (pub_qos p) None) by by rewrite Hq.
    destruct (sent_bytes (c_encoder c) d None p Hp Hnone Hd Hf2 Hf3) as (bs & Henc & Hlen & Hdec).
    replace (p <| pub_packet_id := None |>) with p in Henc by (by destruct p; cbn in Hid; subst).
    destruct (run_write_publish self (s_max_packet_size s) p w c bs Hc Hw Henc) as (w' & Hr & Hc' & Hs'); [fold v in Hlen; lia|].
    exists w', None, bs, s. rewrite Hs'. by split_and!.
  - destruct (Hroom Hq) as [Hq1 Hq2]. rewrite bool_decide_eq_false_2 by done. cbn [negb]. rewrite run_handler_bind.
    destruct (prepare_sends (w_now w) p s Hwf Hl Hid Hq1 Hq2) as (id & n & Hpid & Hprep).
    rewrite (run_lock_session _ _ _ _ Hs), Hprep. set (w1 := w <| w_sessions ::= _ |>).
    assert (Hsome : id_for (pub_qos p) (Some id)) by (destruct (pub_qos p); cbn; eauto; done).
    destruct (sent_bytes (c_encoder c) d (Some id) p Hp Hsome Hd Hf2 Hf3) as (bs & Henc & Hlen & Hdec).
    destruct (run_write_publish self (s_max_packet_size s) (p <| pub_packet_id := Some id |>) w1 c bs Hc Hw Henc)
      as (w' & Hr & Hc' & Hs'); [fold v in Hlen; lia|].
    eexists w', (Some id), bs, _. split_and!; [exact Hr|done| | |done|done].
    + rewrite Hs'. by apply (session_at_modify session _ w s).
    + cbn. rewrite lookup_insert_eq. by eexists.
Qed.

Lemma routed_sessions sender publish w : sessions (w_sessions (routed sender publish w)) = sessions (w_sessions w).
Proof.
  unfold routed. set (l := map_to_list _). set (w1 := w <| w_subscriptions := _ |>).
  change (sessions (w_sessions (deliver_all (outgoing_for publish) l w1)) = sessions (w_sessions w1)). generalize w1. clear w1.
  induction l as [|e l IH]; intros w1; [done|]. rewrite deliver_all_cons, IH. unfold deliver_world.
  destruct (w_connections w1 !! e.1); [done|]. destruct (sessions _ !! e.1); [|done]. by destruct (from_option _ _ _).
Qed.

(** The head of the channel goes out. *)
Lemma run_channel_packet self client session w c ch p q :
  w_conns w !! self = Some c → w_channels w !! c_channel c = Some ch → ch_queue ch = p :: q →
  run (on_event hooks self client session ChannelPacket) w =
    run (handle_outgoing_packet self session p;; mret true)
      (w <| w_channels ::= <[c_channel c := ch <| ch_queue := q |>]> |>).
Proof.
  intros Hc Hch Hq. destruct ch as [queue open]. cbn in Hq. subst queue. cbn [on_event]. rewrite run_handler_bind, run_action, Hc, Hch. reflexivity.
Qed.
End outgoing.

(** ** Theorem *)

(** C4. Delivery from end to end: a message on a topic that a stored
    subscription matches (one without a share group, and not one with No Local
    of the sender itself), published while the subscriber is connected, is
    routed, taken out of the channel by the task of the subscriber's connection
    and written as bytes that the subscriber decodes to the published topic
    and payload, at the lower of the QoS of the message and that of the
    subscription or a higher one, never above that of the message; above
    QoS 0 it is recorded as in flight under the identifier it was sent with.
    The channel is open and empty before and has capacity, the connection takes
    what is written, neither the send quota nor the in-flight limit is used up,
    and the copy can be encoded and fits the packet size of both sides. *)
Theorem message_delivered {W} (hooks : Hooks W) sender publish (w : World W) f sub self session s c d :
  let client := client_id sub in
  let v := enc_protocol_version (c_encoder c) in
  let copy := copy_for publish (filter (relevant sender client) (store_matches (pub_topic publish) (w_subscriptions w)).1) in
  sessions_wf (w_sessions w) → connections_inj w → store_wf (w_subscriptions w) →
  validate_topic_name (pub_topic publish) = Ok tt → valid_filter f → topic_matches_filter (pub_topic publish) f = true →
  sub ∈ subs_at f (w_subscriptions w) → share_group sub = None → (no_local sub = true → client ≠ sender) →
  w_connections w !! client = Some self → w_conns w !! self = Some c → c_channel c = self → c_writable c = true →
  w_channels w !! self = Some (MkChannel [] true) → 0 < bc_outbound_channel_capacity (w_config w) →
  sessions (w_sessions w) !! client = Some session → cells (w_sessions w) !! session = Some s →
  can_send copy s → deliverable v copy → protocol_version d = Some v → fits copy v s d →
  ∃ w1 w2 id bs s', run (route_message sender publish) w = (Ok tt, w1) ∧
    run (on_event hooks self client session ChannelPacket) w1 = (Ok true, w2) ∧
    w_conns w2 !! self = Some (c <| c_written ::= (fun l => l ++ [bs]) |>) ∧
    (∀ more, decode d (bs ++ more) = (d, Ok (Some (P.Publish (sent_as v id copy), zlen bs)))) ∧
    pub_topic copy = pub_topic publish ∧ pub_payload copy = pub_payload publish ∧
    QoS_as_u8 (QoS_min (pub_qos publish) (SubscriptionStore.sub_qos sub)) ≤ QoS_as_u8 (pub_qos copy)
      ≤ QoS_as_u8 (pub_qos publish) ∧
    cells (w_sessions w2) !! session = Some s' ∧ in_flight copy id s'.
Proof.
  intros client v copy Hwf Hinj Hst Ht Hf Hm Hsub Hg Hnl Hcon Hc Hcc Hw Hch Hcap Hse Hs Hcan Hdel Hd Hfit.
  assert (Hcho : channel_of w client = Some (MkChannel [] true)) by (unfold channel_of; rewrite Hcon; exact Hch).
  destruct (routed_reaches sender publish w f sub (MkChannel [] true)) as (Hr & Hq & _); [done..|].
  set (w1 := routed sender publish w) in *. fold client in Hr, Hq. fold copy in Hr, Hq.
  destruct (routed_frame sender publish w) as (_ & _ & Econ & _ & _ & _ & Ec & _). fold w1 in Econ, Ec.
  assert (Hch1 : w_channels w1 !! c_channel c = Some (MkChannel [P.Publish copy] true)).
  { unfold channel_of in Hr. rewrite Econ, Hcon in Hr. by rewrite Hcc. }
  assert (Hs1 : cells (w_sessions w1) !! session = Some s).
  { pose proof (routed_client sender publish w client Hwf Hinj) as Hcl. cbv zeta in Hcl. fold w1 in Hcl.
    unfold session_of in Hcl. rewrite (routed_sessions sender publish w : sessions (w_sessions w1) = _), Hse in Hcl. cbn [mbind option_bind] in Hcl.
    destruct (filter _ _); [by rewrite (proj2 Hcl)|]. rewrite (proj2 Hcl), decide_False by (by rewrite Hcon). done. }
  set (w1' := w1 <| w_channels ::= <[c_channel c := MkChannel [] true]> |>).
  assert (Hc1 : w_conns w1' !! self = Some c) by (change (w_conns w1 !! self = Some c); by rewrite Ec).
  destruct (run_outgoing self session copy w1' c s d Hc1 Hw Hs1 Hcan Hdel Hd Hfit) as (w2 & id & bs & s' & Hr2 & Hc2 & Hs2 & Hfl & _ & Hdec).
  exists w1, w2, id, bs, s'. split_and!; [by apply run_route_message| |done|done|done|done|apply Hq|apply Hq|done|done].
  rewrite (run_channel_packet hooks self client session w1 c (MkChannel [P.Publish copy] true) (P.Publish copy) []);
    [|by rewrite Ec|done|done].
  change (run (handle_outgoing_packet self session (P.Publish copy);; mret true) w1' = (Ok true, w2)).
  by rewrite run_handler_bind, Hr2.
Qed.

(** The client [c2], subscribed to [a/+], on connection [1]. *)
Definition delivery_world : World unit :=
  (new_connection 1 (World_new BrokerConfig_default 0 0 false false tt))
    <| w_subscriptions := subscribe "a/+" (route_sub "c2" AtLeastOnce 5) SubscriptionStore_new |>
    <| w_sessions := (create_session 0 "c2" V5 SessionLimits_default SessionStore_new).2 |>
    <| w_connections := {[ "c2"%string := 1%nat ]} |>.

Lemma delivery_world_wf :
  sessions_wf (w_sessions delivery_world) ∧ connections_inj delivery_world ∧ store_wf (w_subscriptions delivery_world).
Proof.
  split_and!.
  - apply (create_wf 0 "c2" V5 SessionLimits_default SessionStore_new); [cbn; lia|apply sessions_wf_new].
  - intros client client' n H H'. unfold delivery_world, set_field in H, H'. cbn [w_connections] in H, H'.
    by apply lookup_singleton_Some in H as [<- _], H' as [<- _].
  - exact (proj1 (run_ops_wf [OpSubscribe "a/+" (route_sub "c2" AtLeastOnce 5)] _ store_wf_new eq_refl)).
Qed.

Definition delivery_connection : Connection :=
  MkConnection St.Connecting (with_max_packet_size Decoder_new 1048576) (Encoder_new V5) [] None 1 [] true 0 0.

Definition delivered_copy : Publish :=
  MkPublish false AtLeastOnce false "a/b" None [x68] (Properties_default <| subscription_identifiers := [5] |>).

Lemma delivery_copy :
  copy_for example_publish (filter (relevant "c1" "c2") (store_matches "a/b" (w_subscriptions delivery_world)).1) = delivered_copy.
Proof. vm_compute. reflexivity. Qed.

Lemma delivered_copy_deliverable : deliverable V5 delivered_copy.
Proof.
  split_and!; try reflexivity. intros _. split; [|vm_compute; split; congruence].
  change (Forall wf_item [PV.SubscriptionIdentifier 5]). apply Forall_cons_2; [split; [vm_compute; split|]; congruence|apply Forall_nil_2].
Qed.

Lemma delivery_can_send : can_send delivered_copy (Session_new 0 "c2" V5 SessionLimits_default).
Proof.
  split_and!; [apply session_wf_new; cbn; lia|vm_compute; congruence|].
  intros _. split; vm_compute; reflexivity.
Qed.

Lemma message_delivered_witness :
  ∃ w1 w2 id bs c', run (route_message "c1" example_publish) delivery_world = (Ok tt, w1) ∧
    run (on_event DefaultHooks 1 "c2" 0 ChannelPacket) w1 = (Ok true, w2) ∧
    w_conns w2 !! 1%nat = Some c' ∧ c_written c' = [bs] ∧
    decode (MkDecoder 1000 (Some V5)) bs =
      (MkDecoder 1000 (Some V5), Ok (Some (P.Publish (delivered_copy <| pub_packet_id := id |>), zlen bs))).
Proof.
  destruct delivery_world_wf as (H1 & H2 & H3).
  pose proof (message_delivered DefaultHooks "c1" example_publish delivery_world "a/+" (route_sub "c2" AtLeastOnce 5) 1 0
    (Session_new 0 "c2" V5 SessionLimits_default) delivery_connection (MkDecoder 1000 (Some V5))) as H.
  cbv zeta in H. change (client_id _) with "c2"%string in H. change (pub_topic example_publish) with "a/b"%string in H.
  rewrite delivery_copy in H.
  destruct H as (w1 & w2 & id & bs & s' & Hr1 & Hr2 & Hc & Hd & _);
    [exact H1|exact H2|exact H3|reflexivity|reflexivity|vm_compute; reflexivity|vm_compute; left|reflexivity|discriminate
    |reflexivity|reflexivity|reflexivity|reflexivity|reflexivity|reflexivity|reflexivity|reflexivity
    |apply delivery_can_send|apply delivered_copy_deliverable|reflexivity| |].
  - vm_compute. split_and!; congruence.
  - specialize (Hd []). rewrite app_nil_r in Hd. eexists w1, w2, id, bs, _. split_and!; [exact Hr1|exact Hr2|exact Hc|reflexivity|exact Hd].
Defined.
