(* ===== verification/Metrics.v ===== *)
(** * Metrics and the $SYS topics

    [metrics/mod.rs], the task that turns the broker's events into metrics
    ([broker/mod.rs]) and the periodic $SYS messages ([broker/sys_topics.rs]).
    Counters and gauges of the prometheus library are integers, those with
    labels maps from the label; the histograms are never observed. The version
    of the crate, a constant of the build, is a parameter. *)

From S2P Require Import Prelude Protocol Codec Properties Packet Decode Encode TopicValidation TopicTrie SubscriptionStore.
From S2P Require Import Session Hooks Persistence Broker Routing.
From stdpp Require Import pretty.
#[local] Open Scope Z_scope.

Record Metrics : Type := MkMetrics {
  connections_total : Z;
  connections_current : Z;
  connections_maximum : Z;
  connections_by_protocol : gmap string Z;
  sessions_expired_total : Z;
  messages_total_received : Z;
  messages_total_sent : Z;
  messages_received_total : gmap string Z;
  messages_sent_total : gmap string Z;
  messages_bytes_received : Z;
  messages_bytes_sent : Z;
  publish_messages_received : Z;
  publish_messages_sent : Z;
  publish_messages_dropped : Z;
  subscriptions_current : Z;
  subscriptions_total : Z;
  unsubscriptions_total : Z;
  retained_messages_current : Z;
  retained_bytes_current : Z;
  cluster_peers_current : Z;
  cluster_messages_forwarded : Z;
  cluster_messages_received : Z;
  connections_rejected_total : gmap string Z;
  ips_banned_current : Z;
  ips_tracked_current : Z;
}.

#[global] Instance Metrics_eta : Eta Metrics := fun m =>
  MkMetrics (connections_total m) (connections_current m) (connections_maximum m) (connections_by_protocol m)
    (sessions_expired_total m) (messages_total_received m) (messages_total_sent m) (messages_received_total m)
    (messages_sent_total m) (messages_bytes_received m) (messages_bytes_sent m) (publish_messages_received m)
    (publish_messages_sent m) (publish_messages_dropped m) (subscriptions_current m) (subscriptions_total m)
    (unsubscriptions_total m) (retained_messages_current m) (retained_bytes_current m) (cluster_peers_current m)
    (cluster_messages_forwarded m) (cluster_messages_received m) (connections_rejected_total m) (ips_banned_current
    m) (ips_tracked_current m).

Definition Metrics_new : Metrics :=
  {| connections_total := 0;
     connections_current := 0;
     connections_maximum := 0;
     connections_by_protocol := ∅;
     sessions_expired_total := 0;
     messages_total_received := 0;
     messages_total_sent := 0;
     messages_received_total := ∅;
     messages_sent_total := ∅;
     messages_bytes_received := 0;
     messages_bytes_sent := 0;
     publish_messages_received := 0;
     publish_messages_sent := 0;
     publish_messages_dropped := 0;
     subscriptions_current := 0;
     subscriptions_total := 0;
     unsubscriptions_total := 0;
     retained_messages_current := 0;
     retained_bytes_current := 0;
     cluster_peers_current := 0;
     cluster_messages_forwarded := 0;
     cluster_messages_received := 0;
     connections_rejected_total := ∅;
     ips_banned_current := 0;
     ips_tracked_current := 0 |}.

(** [with_label_values(&[label]).inc()] *)
Definition inc_label (d : Z) (label : string) (m : gmap string Z) : gmap string Z := <[label := default 0 (m !! label) + d]> m.

Definition client_connected (protocol : string) (m : Metrics) : Metrics :=
  let m := m <| connections_total ::= (Z.add 1) |> <| connections_current ::= (Z.add 1) |>
             <| connections_by_protocol ::= inc_label 1 protocol |> in
  if connections_current m >? connections_maximum m then m <| connections_maximum := connections_current m |> else m.

Definition client_disconnected (protocol : string) (m : Metrics) : Metrics :=
  m <| connections_current ::= Z.pred |> <| connections_by_protocol ::= inc_label (-1) protocol |>.

Definition message_received (msg_type : string) (bytes : Z) (m : Metrics) : Metrics :=
  m <| messages_received_total ::= inc_label 1 msg_type |> <| messages_bytes_received ::= (Z.add bytes) |>.

Definition message_sent (msg_type : string) (bytes : Z) (m : Metrics) : Metrics :=
  m <| messages_sent_total ::= inc_label 1 msg_type |> <| messages_bytes_sent ::= (Z.add bytes) |>.

Definition subscription_added (m : Metrics) : Metrics :=
  m <| subscriptions_current ::= (Z.add 1) |> <| subscriptions_total ::= (Z.add 1) |>.

Definition subscription_removed (m : Metrics) : Metrics :=
  m <| subscriptions_current ::= Z.pred |> <| unsubscriptions_total ::= (Z.add 1) |>.

Definition retained_message_stored (bytes : Z) (m : Metrics) : Metrics :=
  m <| retained_messages_current ::= (Z.add 1) |> <| retained_bytes_current ::= (Z.add bytes) |>.

Definition retained_message_removed (bytes : Z) (m : Metrics) : Metrics :=
  m <| retained_messages_current ::= Z.pred |> <| retained_bytes_current ::= (fun b => b - bytes) |>.

Definition cluster_peer_connected (m : Metrics) : Metrics := m <| cluster_peers_current ::= (Z.add 1) |>.
Definition cluster_peer_disconnected (m : Metrics) : Metrics := m <| cluster_peers_current ::= Z.pred |>.
Definition cluster_message_forwarded (m : Metrics) : Metrics := m <| cluster_messages_forwarded ::= (Z.add 1) |>.
Definition cluster_message_received (m : Metrics) : Metrics := m <| cluster_messages_received ::= (Z.add 1) |>.

Definition publish_received (bytes : Z) (m : Metrics) : Metrics :=
  m <| publish_messages_received ::= (Z.add 1) |> <| messages_total_received ::= (Z.add 1) |>
    <| messages_bytes_received ::= (Z.add bytes) |>.

Definition publish_sent (bytes : Z) (m : Metrics) : Metrics :=
  m <| publish_messages_sent ::= (Z.add 1) |> <| messages_total_sent ::= (Z.add 1) |>
    <| messages_bytes_sent ::= (Z.add bytes) |>.

Definition publish_dropped (m : Metrics) : Metrics := m <| publish_messages_dropped ::= (Z.add 1) |>.
Definition packet_received (m : Metrics) : Metrics := m <| messages_total_received ::= (Z.add 1) |>.
Definition packet_sent (m : Metrics) : Metrics := m <| messages_total_sent ::= (Z.add 1) |>.
Definition session_expired (m : Metrics) : Metrics := m <| sessions_expired_total ::= (Z.add 1) |>.
Definition connection_rejected (reason : string) (m : Metrics) : Metrics :=
  m <| connections_rejected_total ::= inc_label 1 reason |>.
Definition update_flapping_stats (banned_ips tracked_ips : Z) (m : Metrics) : Metrics :=
  m <| ips_banned_current := banned_ips |> <| ips_tracked_current := tracked_ips |>.

(** ** The task that collects them *)
Definition protocol_label (v : ProtocolVersion) : string := match v with V311 => "v3.1.1" | V5 => "v5.0" end.

Definition metrics_event (m : Metrics) (e : BrokerEvent) : Metrics :=
  match e with
  | ClientConnected _ v => client_connected (protocol_label v) m
  | ClientDisconnected _ => m <| connections_current ::= Z.pred |>
  | MessagePublished _ payload _ _ => publish_received (zlen payload) m
  | MessageDropped => publish_dropped m
  | SubscriptionAdded _ _ => subscription_added m
  | SubscriptionRemoved _ _ => subscription_removed m
  end.

(** ** The $SYS topics *)

(** The topics with their values, for the values of the metrics and the counts
    of the stores. *)
Definition sys_metrics (m : Metrics) (disconnected_count messages_stored shared_subs_count : Z) : list (string * Z) :=
  [("$SYS/broker/clients/connected", connections_current m);
   ("$SYS/broker/clients/total", connections_total m);
   ("$SYS/broker/clients/active", connections_current m);
   ("$SYS/broker/clients/inactive", disconnected_count);
   ("$SYS/broker/clients/disconnected", disconnected_count);
   ("$SYS/broker/clients/expired", sessions_expired_total m);
   ("$SYS/broker/clients/maximum", connections_maximum m);
   ("$SYS/broker/subscriptions/count", subscriptions_current m);
   ("$SYS/broker/shared_subscriptions/count", shared_subs_count);
   ("$SYS/broker/retained messages/count", retained_messages_current m);
   ("$SYS/broker/bytes/received", messages_bytes_received m);
   ("$SYS/broker/bytes/sent", messages_bytes_sent m);
   ("$SYS/broker/messages/received", messages_total_received m);
   ("$SYS/broker/messages/sent", messages_total_sent m);
   ("$SYS/broker/messages/stored", messages_stored);
   ("$SYS/broker/publish/bytes/received", messages_bytes_received m);
   ("$SYS/broker/publish/bytes/sent", messages_bytes_sent m);
   ("$SYS/broker/publish/messages/received", publish_messages_received m);
   ("$SYS/broker/publish/messages/sent", publish_messages_sent m);
   ("$SYS/broker/publish/messages/dropped", publish_messages_dropped m);
   ("$SYS/broker/store/messages/count", retained_messages_current m);
   ("$SYS/broker/store/messages/bytes", retained_bytes_current m)]%string.

Section sys_topics.
Context {W : Type}.
Implicit Types w : World W.

(** Retained, with QoS 0. *)
Definition publish_sys (topic value : string) : handler W unit := broker_publish topic (as_bytes value) AtMostOnce true.

Definition publish_sys_topics (version : string) (metrics : option Metrics) (start_time : Z) : handler W unit :=
  t ← now;
  publish_sys "$SYS/broker/version" version;;
  publish_sys "$SYS/broker/uptime" (pretty ((t - start_time) / from_secs 1));;
  disconnected_count ← ask (fun w => count_disconnected (w_now w) (w_sessions w));
  messages_stored ← ask (fun w => total_queued_messages (w_sessions w));
  shared_subs_count ← ask (fun w => shared_subscription_count (w_subscriptions w));
  match metrics with
  | Some m => for_all (sys_metrics m disconnected_count messages_stored shared_subs_count)
                (fun e => publish_sys e.1 (pretty e.2))
  | None => mret tt
  end.
End sys_topics.

(** ** Lemmas: counting events *)
Definition count (P : BrokerEvent → bool) (es : list BrokerEvent) : Z := zlen (filter (fun e => P e) es).

Definition is_connect (e : BrokerEvent) : bool := match e with ClientConnected _ _ => true | _ => false end.
Definition is_connect_with (v : ProtocolVersion) (e : BrokerEvent) : bool :=
  match e with ClientConnected _ v' => bool_decide (v' = v) | _ => false end.
Definition is_disconnect (e : BrokerEvent) : bool := match e with ClientDisconnected _ => true | _ => false end.
Definition is_added (e : BrokerEvent) : bool := match e with SubscriptionAdded _ _ => true | _ => false end.
Definition is_removed (e : BrokerEvent) : bool := match e with SubscriptionRemoved _ _ => true | _ => false end.
Definition is_published (e : BrokerEvent) : bool := match e with MessagePublished _ _ _ _ => true | _ => false end.
Definition payload_size (e : BrokerEvent) : Z := match e with MessagePublished _ p _ _ => zlen p | _ => 0 end.

Lemma count_snoc P es e : count P (es ++ [e]) = count P es + if P e then 1 else 0.
Proof.
  unfold count. rewrite filter_app, zlen_app. f_equal. cbn. destruct (P e) eqn:HP; cbn.
  - rewrite decide_True by done. done.
  - by rewrite decide_False by (by intros []).
Qed.

Lemma inc_label_lookup d l m l' : default 0 (inc_label d l m !! l') = default 0 (m !! l') + if decide (l = l') then d else 0.
Proof. unfold inc_label. rewrite lookup_insert. case_decide; subst; cbn; lia. Qed.

Lemma protocol_label_inj v v' : protocol_label v = protocol_label v' → v = v'.
Proof. by destruct v, v'. Qed.

Definition collect (es : list BrokerEvent) : Metrics := foldl metrics_event Metrics_new es.

Lemma collect_snoc es e : collect (es ++ [e]) = metrics_event (collect es) e.
Proof. unfold collect. by rewrite foldl_app. Qed.

Lemma collect_counts es :
  let m := collect es in
  connections_total m = count is_connect es ∧
  connections_current m = count is_connect es - count is_disconnect es ∧
  subscriptions_current m = count is_added es - count is_removed es ∧
  publish_messages_received m = count is_published es ∧
  messages_bytes_received m = sum_size payload_size es ∧
  ∀ v, default 0 (connections_by_protocol m !! protocol_label v) = count (is_connect_with v) es.
Proof.
  induction es as [|e es IH] using rev_ind; [by split_and!; try intros []|]. cbv zeta in *.
  destruct IH as (H1 & H2 & H3 & H4 & H5 & H6). rewrite collect_snoc, sum_size_app. rewrite !count_snoc.
  setoid_rewrite count_snoc.
  destruct e; cbn [metrics_event]; unfold client_connected, publish_received, publish_dropped, subscription_added,
    subscription_removed; try destruct (_ >? _); cbn.
  all: split_and!; [lia..|].
  all: intros v; rewrite ?inc_label_lookup, H6; try lia.
  all: case_bool_decide; case_decide as Hd; subst; try lia; by (apply protocol_label_inj in Hd || destruct Hd).
Qed.

(** The maximum is that of the numbers before. *)
Lemma collect_maximum es :
  (∀ k, connections_current (collect (take k es)) ≤ connections_maximum (collect es)) ∧
  ∃ k, connections_maximum (collect es) = connections_current (collect (take k es)).
Proof.
  induction es as [|e es [IH1 [k0 IH2]]] using rev_ind; [split; [by intros []|by exists 0%nat]|].
  assert (Hm : connections_maximum (collect (es ++ [e])) =
    Z.max (connections_maximum (collect es)) (connections_current (collect (es ++ [e])))).
  { specialize (IH1 (length es)). rewrite firstn_all in IH1. rewrite collect_snoc. destruct e; cbn [metrics_event];
      unfold client_connected, publish_received, publish_dropped, subscription_added, subscription_removed; cbn in *; try lia.
    rewrite Z.gtb_ltb. destruct (Z.ltb_spec (connections_maximum (collect es)) (1 + connections_current (collect es))); cbn; lia. }
  rewrite Hm. split.
  - intros k. destruct (decide (k ≤ length es)%nat) as [Hk|Hk].
    + rewrite take_app_le by done. specialize (IH1 k). lia.
    + rewrite take_ge by (rewrite length_app; cbn; lia). lia.
  - destruct (Z.max_spec (connections_maximum (collect es)) (connections_current (collect (es ++ [e])))) as [[_ ->]|[_ ->]].
    + exists (length (es ++ [e])). by rewrite firstn_all.
    + exists (k0 `min` length es)%nat. rewrite take_app_le by lia. rewrite IH2. do 2 f_equal.
      destruct (Nat.min_spec k0 (length es)) as [[? ->]|[? ->]]; [done|]. by rewrite !take_ge by lia.
Qed.

(** What the metrics say after any events: the current numbers of
    connections and subscriptions are those added minus those removed, the
    received messages and bytes are those published, and the maximum is the
    largest number of connections there has been. The connections by protocol
    version are never taken back: they count all connections ever made. *)
Theorem metrics_account es :
  let m := collect es in
  connections_total m = count is_connect es ∧
  connections_current m = count is_connect es - count is_disconnect es ∧
  subscriptions_current m = count is_added es - count is_removed es ∧
  publish_messages_received m = count is_published es ∧
  messages_bytes_received m = sum_size payload_size es ∧
  (∀ k, connections_current (collect (take k es)) ≤ connections_maximum m) ∧
  (∃ k, connections_maximum m = connections_current (collect (take k es))) ∧
  ∀ v, default 0 (connections_by_protocol m !! protocol_label v) = count (is_connect_with v) es.
Proof.
  cbv zeta. destruct (collect_counts es) as (? & ? & ? & ? & ? & ?). destruct (collect_maximum es). done.
Qed.

(** ** The $SYS messages *)
Section sys_lemmas.
Context {W : Type}.
Implicit Types w : World W.

(** What publishing by the server leaves alone. *)
Record sys_frame w w' : Prop := {
  sf_sessions : sessions_wf (w_sessions w) → sessions_wf (w_sessions w');
  sf_events : w_events w' = w_events w;
  sf_now : w_now w' = w_now w;
}.

Lemma sys_frame_refl w : sys_frame w w.
Proof. by constructor. Qed.

Lemma sys_frame_trans w1 w2 w3 : sys_frame w1 w2 → sys_frame w2 w3 → sys_frame w1 w3.
Proof. intros [] []. constructor; [auto|congruence..]. Qed.

Lemma run_deliver_silently client p w :
  sessions_wf (w_sessions w) →
  ∃ w', run (deliver_silently client p) w = (Ok tt, w') ∧ sys_frame w w' ∧ w_retained w' = w_retained w.
Proof.
  intros Hwf. unfold deliver_silently, try_send_to. rewrite run_handler_bind, run_action.
  destruct (w_connections w !! client) as [n|]; cbn [fst snd]; [by eexists; split_and!; [reflexivity|constructor|]|].
  rewrite run_handler_bind, run_ask. unfold get_session.
  destruct (sessions (w_sessions w) !! client) as [c|] eqn:Hc; [|by eexists; split_and!; [reflexivity|constructor|]].
  destruct (sessions_cell w client c Hwf Hc) as (s & Hs & _). rewrite (run_write_session _ _ _ _ Hs).
  eexists. split_and!; [by destruct (negb _)|constructor; [|done..]|done]. intros _. apply modify_wf; [| |done].
  - intros s' Hs'. destruct (negb _); [by apply wf_queue_message|done].
  - intros s'. destruct (negb _); [by rewrite queue_message_eq|done].
Qed.

(** What a $SYS message does to the retained messages. *)
Definition retain_sys (t : Z) (r : gmap string RetainedMessage) (e : string * string) : gmap string RetainedMessage :=
  if is_nil (as_bytes e.2) then delete e.1 r
  else <[e.1 := MkRetained e.1 (as_bytes e.2) AtMostOnce Properties_default t]> r.

Lemma run_deliver_silently_all {A} (msg : A → Publish) (l : list (string * A)) w :
  sessions_wf (w_sessions w) →
  ∃ w', run (for_all l (fun e => deliver_silently e.1 (msg e.2))) w = (Ok tt, w') ∧ sys_frame w w' ∧ w_retained w' = w_retained w.
Proof.
  revert w. induction l as [|e l IH]; intros w Hwf; [by exists w; split_and!; [done|apply sys_frame_refl|done]|].
  cbn [for_all]. rewrite run_handler_bind. destruct (run_deliver_silently e.1 (msg e.2) w Hwf) as (w1 & -> & Hf & Hr).
  destruct (IH w1) as (w2 & -> & Hf2 & Hr2); [by apply Hf|]. exists w2. split_and!; [done|by eapply sys_frame_trans|congruence].
Qed.

Lemma run_publish_sys topic value w :
  sessions_wf (w_sessions w) →
  ∃ w', run (publish_sys topic value) w = (Ok tt, w') ∧ sys_frame w w' ∧
    w_retained w' = retain_sys (w_now w) (w_retained w) (topic, value).
Proof.
  intros Hwf. unfold publish_sys, broker_publish. cbv zeta. rewrite run_handler_bind.
  assert (∃ w1, run (update_retained topic (as_bytes value) AtMostOnce Properties_default) w = (Ok tt, w1) ∧ sys_frame w w1 ∧
    w_retained w1 = retain_sys (w_now w) (w_retained w) (topic, value)) as (w1 & -> & Hf1 & Hr1).
  { unfold update_retained, retain_sys. cbn [fst snd]. destruct (is_nil _); eexists; (split; [reflexivity|split; [by constructor|done]]). }
  rewrite run_handler_bind, run_matching.
  set (w2 := w1 <| w_subscriptions := _ |>). set (l := map_to_list _).
  destruct (run_deliver_silently_all (λ q, (MkPublish false AtMostOnce true topic None (as_bytes value) Properties_default)
    <| pub_qos := QoS_min AtMostOnce q |>) l w2) as (w3 & Hrun & Hf3 & Hr3); [by apply Hf1|].
  exists w3. split_and!; [exact Hrun| |by rewrite Hr3].
  eapply sys_frame_trans; [exact Hf1|]. destruct Hf3. by constructor.
Qed.

Lemma for_all_fmap {A B} (f : A → B) (l : list A) (k : B → handler W unit) :
  for_all l (fun a => k (f a)) = for_all (f <$> l) k.
Proof. induction l as [|a l IH]; [done|]. cbn [for_all fmap list_fmap]. by rewrite IH. Qed.

Lemma run_publish_all (l : list (string * string)) w :
  sessions_wf (w_sessions w) →
  ∃ w', run (for_all l (fun e => publish_sys e.1 e.2)) w = (Ok tt, w') ∧ sys_frame w w' ∧
    w_retained w' = foldl (retain_sys (w_now w)) (w_retained w) l.
Proof.
  revert w. induction l as [|[topic value] l IH]; intros w Hwf; [by exists w; split_and!; [done|apply sys_frame_refl|done]|].
  cbn [for_all fst snd]. rewrite run_handler_bind. destruct (run_publish_sys topic value w Hwf) as (w1 & -> & Hf & Hr).
  destruct (IH w1) as (w2 & -> & Hf2 & Hr2); [by apply Hf|]. exists w2. split_and!; [done|by eapply sys_frame_trans|].
  cbn [foldl]. by rewrite Hr2, Hr, (sf_now _ _ Hf).
Qed.

Lemma run_publish_metrics (l : list (string * Z)) w :
  sessions_wf (w_sessions w) →
  ∃ w', run (for_all l (fun e => publish_sys e.1 (pretty e.2))) w = (Ok tt, w') ∧ sys_frame w w' ∧
    w_retained w' = foldl (retain_sys (w_now w)) (w_retained w) (prod_map id pretty <$> l).
Proof. intros Hwf. destruct (run_publish_all (prod_map id pretty <$> l) w Hwf) as (w' & Hr & H). rewrite <-for_all_fmap in Hr. by exists w'. Qed.

Lemma retain_sys_lookup t l r topic :
  NoDup l.*1 →
  foldl (retain_sys t) r l !! topic =
    match (list_to_map l : gmap string string) !! topic with
    | Some value => retain_sys t r (topic, value) !! topic
    | None => r !! topic
    end.
Proof.
  revert r. induction l as [|[k v] l IH]; intros r Hnd; [done|]. apply NoDup_cons in Hnd as [Hk Hnd]. cbn [foldl list_to_map foldr].
  rewrite IH by done. unfold uncurry. cbn [fst snd]. destruct (decide (k = topic)) as [->|Hne].
  - rewrite lookup_insert_eq. by rewrite (not_elem_of_list_to_map_1 l topic).
  - rewrite lookup_insert_ne by done. destruct (list_to_map l !! topic); unfold retain_sys; cbn [fst snd];
      repeat case_match; by rewrite ?lookup_insert_eq, ?lookup_delete_eq, ?lookup_insert_ne, ?lookup_delete_ne.
Qed.

(** The $SYS topics and their values; [w1] is the state in which the counts of
    the stores are taken. *)
Definition sys_values (version uptime : string) (metrics : option Metrics) (t : Z) w1 : list (string * string) :=
  ("$SYS/broker/version"%string, version) :: ("$SYS/broker/uptime"%string, uptime) ::
  match metrics with
  | Some m => prod_map id pretty <$> sys_metrics m (count_disconnected t (w_sessions w1))
                (total_queued_messages (w_sessions w1)) (shared_subscription_count (w_subscriptions w1))
  | None => []
  end.

Lemma sys_values_nodup version uptime metrics t w1 : NoDup (sys_values version uptime metrics t w1).*1.
Proof. apply (bool_decide_unpack _). destruct metrics; vm_compute; exact I. Qed.

Lemma run_two (a b : handler W unit) w wa wb :
  run a w = (Ok tt, wa) → run b wa = (Ok tt, wb) →
  run (a;; b) w = (Ok tt, wb) ∧
  ∀ (f g h : World W → Z) (k : Z → Z → Z → handler W unit),
    run (a;; b;; x ← ask f; y ← ask g; z ← ask h; k x y z) w = run (k (f wb) (g wb) (h wb)) wb.
Proof. intros Ha Hb. split; intros; rewrite !run_handler_bind, Ha, ?run_handler_bind, Hb; done. Qed.

Lemma foldl_two {A B} (f : A → B → A) x a b l : foldl f x (a :: b :: l) = foldl f (f (f x a) b) l.
Proof. done. Qed.

Lemma run_sys_rest version uptime metrics w wa wb :
  sys_frame w wa → sys_frame wa wb →
  w_retained wa = retain_sys (w_now w) (w_retained w) ("$SYS/broker/version"%string, version) →
  w_retained wb = retain_sys (w_now wa) (w_retained wa) ("$SYS/broker/uptime"%string, uptime) →
  sessions_wf (w_sessions w) →
  ∃ w', run (match metrics with
    | Some m => for_all (sys_metrics m (count_disconnected (w_now wb) (w_sessions wb)) (total_queued_messages (w_sessions wb))
        (shared_subscription_count (w_subscriptions wb))) (fun e => publish_sys e.1 (pretty e.2))
    | None => (mret tt : handler W unit) end) wb = (Ok tt, w') ∧ w_events w' = w_events w ∧
    w_retained w' = foldl (retain_sys (w_now w)) (w_retained w) (sys_values version uptime metrics (w_now w) wb).
Proof.
  intros Hfa Hfb Hra Hrb Hwf. assert (Hn : w_now wb = w_now w) by (by rewrite (sf_now _ _ Hfb), (sf_now _ _ Hfa)).
  unfold sys_values. destruct metrics as [m|].
  - rewrite Hn. set (l := sys_metrics _ _ _ _). clearbody l.
    destruct (run_publish_metrics l wb) as (w' & -> & Hf & Hr); [by apply Hfb, Hfa|]. exists w'. split_and!; [done| |].
    + by rewrite (sf_events _ _ Hf), (sf_events _ _ Hfb), (sf_events _ _ Hfa).
    + by rewrite foldl_two, Hr, Hrb, Hra, Hn, (sf_now _ _ Hfa).
  - exists wb. split_and!; [done|by rewrite (sf_events _ _ Hfb), (sf_events _ _ Hfa)|]. by rewrite foldl_two, Hrb, Hra, (sf_now _ _ Hfa).
Qed.

Lemma retain_sys_value t r topic (o : option string) :
  match o with Some value => retain_sys t r (topic, value) !! topic | None => r !! topic end =
  match o with
  | Some EmptyString => None
  | Some value => Some (MkRetained topic (as_bytes value) AtMostOnce Properties_default t)
  | None => r !! topic
  end.
Proof. destruct o as [[|a value]|]; [| |done]; unfold retain_sys; cbn; by rewrite ?lookup_delete_eq, ?lookup_insert_eq. Qed.

#[local] Opaque publish_sys.

(** One round of $SYS messages completes, leaves exactly one retained
    message under each $SYS topic, with the value of its metric in decimal,
    and leaves the other retained messages and the broker's events alone, so
    that bridges and cluster do not forward it. *)
Theorem sys_topics_retained version metrics start_time w :
  sessions_wf (w_sessions w) →
  let uptime := pretty ((w_now w - start_time) / from_secs 1) in
  let w1 := (run (publish_sys "$SYS/broker/version" version;; publish_sys "$SYS/broker/uptime" uptime) w).2 in
  ∃ w', run (publish_sys_topics version metrics start_time) w = (Ok tt, w') ∧ w_events w' = w_events w ∧
    ∀ topic, w_retained w' !! topic =
      match (list_to_map (sys_values version uptime metrics (w_now w) w1) : gmap string string) !! topic with
      | Some EmptyString => None
      | Some value => Some (MkRetained topic (as_bytes value) AtMostOnce Properties_default (w_now w))
      | None => w_retained w !! topic
      end.
Proof.
  intros Hwf uptime. destruct (run_publish_sys "$SYS/broker/version" version w Hwf) as (wa & Ha & Hfa & Hra).
  destruct (run_publish_sys "$SYS/broker/uptime" uptime wa) as (wb & Hb & Hfb & Hrb); [by apply Hfa|].
  destruct (run_two _ _ _ _ _ Ha Hb) as [-> Hrun]. cbn [snd].
  unfold publish_sys_topics, now. rewrite run_handler_bind, run_ask, Hrun. clear Hrun Ha Hb. cbv beta.
  destruct (run_sys_rest version uptime metrics w wa wb Hfa Hfb Hra Hrb Hwf) as (w' & Hrun & He & Hr).
  exists w'. split; [exact Hrun|]. split; [exact He|].
  intros topic. rewrite Hr, retain_sys_lookup by apply sys_values_nodup. apply retain_sys_value.
Qed.
End sys_lemmas.

Lemma sys_topics_retained_witness :
  let w : World unit := World_new BrokerConfig_default (from_secs 7) 0 false true tt in
  let w1 := (run (publish_sys "$SYS/broker/version" "1.0";; publish_sys "$SYS/broker/uptime" (pretty 7)) w).2 in
  ∃ w', run (publish_sys_topics "1.0" (Some Metrics_new) 0) w = (Ok tt, w') ∧ w_events w' = [] ∧
    ∀ topic, w_retained w' !! topic =
      match (list_to_map (sys_values "1.0" (pretty 7) (Some Metrics_new) (from_secs 7) w1) : gmap string string) !! topic with
      | Some EmptyString => None
      | Some value => Some (MkRetained topic (as_bytes value) AtMostOnce Properties_default (from_secs 7))
      | None => None
      end.
Proof.
  intros w. change (pretty 7) with (pretty ((w_now w - 0) / from_secs 1)).
  apply (sys_topics_retained "1.0" (Some Metrics_new) 0 w). apply sessions_wf_new.
Defined.
