(* ===== verification/Federation.v ===== *)
(** * The broker among other brokers

    The tasks of [broker/mod.rs] that pass the broker's events to the bridges
    and to the cluster, and the callbacks through which messages from other
    brokers come in: together they forward every message that is published here
    once, and none that came in on the broker's own connections to others. *)

From S2P Require Import Prelude Protocol Codec Properties Packet Decode Encode Wire CodecTheorems TopicValidation.
From S2P Require Import TopicTrie SubscriptionStore TopicMapper Remote Bridge Session Hooks Persistence Cluster Broker Routing.

(** ** The listeners *)
Definition bridge_event (m : BridgeManager) (e : BrokerEvent) : BridgeManager :=
  match e with
  | MessagePublished topic payload qos retain => manager_forward_publish topic payload qos retain m
  | _ => m
  end.

Section listeners.
Context {SocketAddr : Type} `{!Json}.

Definition cluster_event (m : @ClusterManager SocketAddr) (e : BrokerEvent) : ClusterManager :=
  match e with
  | MessagePublished topic payload qos retain => cluster_manager_forward topic payload qos retain m
  | SubscriptionAdded filter _ => add_subscription filter m
  | SubscriptionRemoved filter _ => remove_subscription filter m
  | _ => m
  end.
End listeners.

(** The callbacks run in the task of the bridge or the cluster connection. *)
Section callbacks.
Context {W : Type}.

Definition bridge_callback (topic : string) (payload : list byte) (qos : QoS) (retain : bool) (w : World W) : World W :=
  (run (bridge_inbound topic payload qos retain) w).2.

Definition cluster_callback (topic : string) (payload : list byte) (qos : QoS) (retain : bool) (origin_node : string) (w : World W)
    : World W := (run (cluster_inbound topic payload qos retain origin_node) w).2.
End callbacks.

(** ** Lemmas: tasks that leave something alone *)

(** No action of the task, whatever happens between them, changes [obs]. *)
Inductive silent {S A O : Type} (obs : S → O) : prog S A → Prop :=
  | silent_ret a : silent obs (Ret a)
  | silent_act B (f : S → B * S) k : (∀ s, obs (f s).2 = obs s) → (∀ b, silent obs (k b)) → silent obs (Act f k).

Lemma silent_prog_bind {S A B O} (obs : S → O) (m : prog S A) (k : A → prog S B) :
  silent obs m → (∀ a, silent obs (k a)) → silent obs (prog_bind m k).
Proof. intros Hm Hk. induction Hm; cbn; [apply Hk|]. by constructor. Qed.

Lemma silent_run {S A O} (obs : S → O) (m : prog S A) s : silent obs m → obs (run m s).2 = obs s.
Proof.
  intros Hm. revert s. induction Hm as [|B f k Hf Hk IH]; intros s; [done|]. cbn. specialize (Hf s).
  destruct (f s) as [b s']. by rewrite IH.
Qed.

Section silent_handlers.
Context {W : Type}.

Lemma silent_bind {A B} (m : handler W A) (k : A → handler W B) :
  silent w_events m → (∀ a, silent w_events (k a)) → silent w_events (m ≫= k).
Proof. intros Hm Hk. apply silent_prog_bind; [done|]. intros []; [apply Hk|constructor..]. Qed.

Lemma silent_mret {A} (a : A) : silent w_events (mret a : handler W A).
Proof. constructor. Qed.

Lemma silent_action {B} (f : World W → B * World W) : (∀ w, w_events (f w).2 = w_events w) → silent w_events (action f).
Proof. intros Hf. constructor; [done|]. constructor. Qed.

Lemma silent_write_session {B} c (f : Z → Session → B * Session) : silent w_events (write_session c f : handler W B).
Proof.
  constructor; [|constructor]. intros w. destruct (cells _ !! c); [|done]. by destruct (f _ _).
Qed.

Lemma silent_for_all {A} (l : list A) (k : A → handler W unit) : (∀ a, silent w_events (k a)) → silent w_events (for_all l k).
Proof. intros Hk. induction l; [apply silent_mret|]. by apply silent_bind. Qed.

Lemma silent_broker_publish topic payload qos retain : silent w_events (broker_publish topic payload qos retain : handler W unit).
Proof.
  unfold broker_publish. cbv zeta. apply silent_bind; [|intros _; apply silent_bind; [|intros matches; apply silent_for_all; intros e]].
  - destruct retain; [|apply silent_mret]. unfold update_retained.
    destruct (is_nil payload); repeat (apply silent_bind; [|intros ?]); by apply silent_action.
  - apply silent_action. intros w. by destruct (store_matches _ _).
  - unfold deliver_silently. apply silent_bind; [|intros []; [apply silent_mret|apply silent_bind; [|intros [c|]]]].
    + apply silent_action. intros w. by destruct (w_connections w !! _).
    + by apply silent_action.
    + apply silent_write_session.
    + apply silent_mret.
Qed.
End silent_handlers.

(** A task of a connection that keeps [obs]. *)
Definition keeps {E T O A} (obs : T → O) (m : task E T A) : Prop := ∀ t, obs (m t).2 = obs t.

Section keeps.
Context {E T O : Type} (obs : T → O).

Lemma keeps_task_bind {A B} (m : task E T A) (k : A → task E T B) : keeps obs m → (∀ a, keeps obs (k a)) → keeps obs (m ≫= k).
Proof.
  intros Hm Hk t. specialize (Hm t). unfold mbind, task_bind. destruct (m t) as [[a| | |] t']; cbn in *; try done.
  by rewrite Hk.
Qed.

Lemma keeps_ret {A} (a : A) : keeps obs (mret a : task E T A).
Proof. done. Qed.
Lemma keeps_throw {A} e : keeps obs (throw e : task E T A).
Proof. done. Qed.
Lemma keeps_asks {A} (f : T → A) : keeps obs (asks f : task E T A).
Proof. done. Qed.
Lemma keeps_lift {A} (r : outcome E A) : keeps obs (lift r : task E T A).
Proof. done. Qed.
Lemma keeps_update f : (∀ t, obs (f t) = obs t) → keeps obs (update f : task E T unit).
Proof. intros Hf t. apply Hf. Qed.
End keeps.

Create HintDb keeps.
#[export] Hint Resolve keeps_ret keeps_throw keeps_asks keeps_lift : keeps.

Ltac solve_keeps := intros; repeat first
  [ solve [auto with keeps nocore] | apply keeps_task_bind; [|intros ?] | apply keeps_update; done | case_match ].

Section inbound.
Context {W : Type} (io_error : string).

Lemma bridge_callback_silent topic payload qos retain (w : World W) : w_events (bridge_callback topic payload qos retain w) = w_events w.
Proof. apply silent_run, silent_broker_publish. Qed.

Lemma cluster_callback_silent topic payload qos retain origin (w : World W) :
  w_events (cluster_callback topic payload qos retain origin w) = w_events w.
Proof. apply silent_run, silent_broker_publish. Qed.

(** *** A bridge *)
#[local] Abbreviation bridge_obs := (fun t : @BridgeTask (World W) => w_events (bt_broker t)).

Lemma keeps_bridge_write buf : keeps bridge_obs (Bridge.write_half io_error buf).
Proof. intros t. unfold Bridge.write_half. by destruct (bt_writable t). Qed.

Lemma keeps_bridge_ignoring buf : keeps bridge_obs (Bridge.write_ignoring io_error buf).
Proof. intros t. unfold Bridge.write_ignoring, Bridge.write_half. by destruct (bt_writable t). Qed.

Lemma keeps_if_encodes p k : (∀ buf, keeps bridge_obs (k buf)) → keeps bridge_obs (if_encodes p k).
Proof. intros Hk t. unfold if_encodes, encode_v5. destruct (encode _ _ _) as [buf [| | |]]; [apply Hk|done..]. Qed.

Lemma keeps_decode_read data : keeps bridge_obs (decode_read data).
Proof. intros t. unfold decode_read. by destruct (decode _ _). Qed.

Lemma keeps_call topic payload qos retain : keeps bridge_obs (call_inbound bridge_callback topic payload qos retain).
Proof. apply keeps_update. intros t. apply bridge_callback_silent. Qed.

#[local] Hint Resolve keeps_bridge_write keeps_bridge_ignoring keeps_decode_read keeps_call : keeps.

Lemma keeps_handle_command cmd : keeps bridge_obs (handle_command io_error cmd).
Proof. destruct cmd; cbn [handle_command]; (apply keeps_task_bind; [apply keeps_if_encodes|]); solve_keeps. Qed.

Lemma keeps_loop_step e : keeps bridge_obs (loop_step bridge_callback io_error e).
Proof.
  destruct e as [|data| | |b]; cbn [loop_step].
  - intros t. destruct (bcl_command_tx _) as [ch|]; [|done]. destruct (try_recv ch) as [[cmd| |] ch']; [|done..].
    etrans; [exact (keeps_handle_command cmd _)|done].
  - unfold handle_read, handle_bridge_packet. repeat first [apply keeps_if_encodes | progress solve_keeps].
  - solve_keeps.
  - unfold keepalive_tick. apply keeps_task_bind; [apply keeps_if_encodes|]; solve_keeps.
  - done.
Qed.

Lemma keeps_message_loop events : keeps bridge_obs (message_loop bridge_callback io_error events).
Proof.
  induction events as [|e events IH]; [done|]. cbn [message_loop]. apply keeps_task_bind; [apply keeps_loop_step|]. by intros [].
Qed.

(** *** Connections of a cluster *)
Section frames.
Context `{!Bincode ClusterMessage (list byte)} {E X O : Type} (obs : X → O) (err : E).

#[local] Abbreviation conn_obs := (fun c : Conn X => obs (cn_local c)).

Lemma keeps_write frame : keeps conn_obs (Cluster.write_half err frame).
Proof. intros t. unfold Cluster.write_half. by destruct (cn_writable t). Qed.

Lemma keeps_ignoring frame : keeps conn_obs (Cluster.write_ignoring err frame).
Proof. intros t. unfold Cluster.write_ignoring, Cluster.write_half. by destruct (cn_writable t). Qed.

Lemma keeps_if_framed msg (k : list byte → task E (Conn X) unit) :
  (∀ frame, keeps conn_obs (k frame)) → keeps conn_obs (if_framed msg k).
Proof. intros Hk. unfold if_framed. by destruct (frame_message msg). Qed.

Lemma keeps_process handle fuel : (∀ m, keeps conn_obs (handle m)) → keeps (E := E) conn_obs (process_frames handle fuel).
Proof. intros Hh. induction fuel as [|fuel IH]; [done|]. cbn [process_frames]. solve_keeps. Qed.

Lemma keeps_read_turn handle closed n :
  (∀ m, keeps conn_obs (handle m)) → keeps conn_obs closed → keeps (E := E) conn_obs (read_turn handle closed n).
Proof.
  intros Hh Hc. unfold read_turn. pose proof (keeps_process handle) as Hp.
  assert (∀ o, keeps (E := E) conn_obs (read_socket o n)) by done. solve_keeps.
Qed.
End frames.

Section cluster_connections.
Context `{!Bincode ClusterMessage (list byte)} {SocketAddr : Type}.

#[local] Hint Resolve keeps_write keeps_ignoring : keeps.

Lemma keeps_incoming sizes : keeps (λ c, w_events (cn_local c)) (incoming_loop (@cluster_callback W) io_error sizes).
Proof.
  induction sizes as [|n sizes IH]; [done|]. cbn [incoming_loop]. apply keeps_task_bind; [|by intros []].
  apply (keeps_read_turn w_events); [|done]. intros []; cbn [incoming_handle_message]; try done.
  - apply keeps_task_bind; [|done]. apply keeps_update. intros c. apply cluster_callback_silent.
  - apply keeps_task_bind; [|done]. apply (keeps_if_framed w_events). intros. apply keeps_ignoring.
Qed.

Lemma keeps_update_peer (f : @ClusterPeer SocketAddr → ClusterPeer) :
  keeps (λ c : Conn (@PeerState SocketAddr (World W)), w_events (ps_broker (cn_local c))) (update_peer f).
Proof. by apply keeps_update. Qed.

Lemma keeps_peer_loop events :
  keeps (λ c : Conn (@PeerState SocketAddr (World W)), w_events (ps_broker (cn_local c))) (peer_loop cluster_callback io_error events).
Proof.
  pose proof (keeps_write (λ s : @PeerState SocketAddr (World W), w_events (ps_broker s)) (ConnectionLost io_error)) as Hw.
  pose proof (keeps_ignoring (λ s : @PeerState SocketAddr (World W), w_events (ps_broker s)) (ConnectionLost io_error)) as Hi.
  pose proof (keeps_if_framed (E := RemoteError) (λ s : @PeerState SocketAddr (World W), w_events (ps_broker s))) as Hf.
  induction events as [|e events IH]; [done|]. cbn [peer_loop]. apply keeps_task_bind; [|by intros []].
  destruct e as [|n| |]; cbn [peer_step].
  - intros c. destruct (cp_command_tx _) as [ch|]; [|done]. cbn. destruct (try_recv ch) as [[cmd| |] ch']; [|done..].
    refine (keeps_task_bind _ _ _ (keeps_update_peer _) _ c). intros _. destruct cmd; cbn [peer_handle_command];
      (apply keeps_task_bind; [apply Hf|done]); [apply Hw|apply Hi..].
  - apply (keeps_read_turn (λ s, w_events (ps_broker s))); [|done]. intros []; cbn [peer_handle_message]; try done.
    + apply keeps_task_bind; [|done]. apply keeps_update. intros c. apply cluster_callback_silent.
    + apply keeps_task_bind; [apply Hf, Hi|done].
  - done.
  - apply keeps_task_bind; [apply Hf, Hw|done].
Qed.
End cluster_connections.
End inbound.

(** ** Properties *)

(** C25. What comes in on this broker's own connections to other brokers is not
    passed on: no action of the callbacks, however they interleave with the rest
    of the broker, sends an event, and whatever a bridge of this broker or a
    connection of the cluster, in either direction, receives and does in its
    loop, the broker's events, the only input of the tasks that forward, stay
    the same. This says nothing of a message that another broker's bridge
    publishes here: it comes as that of a client, and is forwarded
    ([mutual_bridges_loop]). *)
Theorem inbound_not_forwarded `{!Bincode ClusterMessage (list byte)} {W SocketAddr : Type} (io_error : string) :
  (∀ topic payload qos retain origin,
     silent w_events (bridge_inbound (W := W) topic payload qos retain) ∧
     silent w_events (cluster_inbound (W := W) topic payload qos retain origin)) ∧
  (∀ events (t : @BridgeTask (World W)),
     w_events (bt_broker (message_loop bridge_callback io_error events t).2) = w_events (bt_broker t)) ∧
  (∀ sizes (c : Conn (World W)),
     w_events (cn_local (incoming_loop cluster_callback io_error sizes c).2) = w_events (cn_local c)) ∧
  (∀ events (c : Conn (@PeerState SocketAddr (World W))),
     w_events (ps_broker (cn_local (peer_loop cluster_callback io_error events c).2)) = w_events (ps_broker (cn_local c))).
Proof.
  split_and!.
  - intros. split; apply silent_broker_publish.
  - apply keeps_message_loop.
  - apply keeps_incoming.
  - apply keeps_peer_loop.
Qed.

Section forwarding.
Context {W SocketAddr : Type} `{!Json}.
Implicit Types w : World W.

Lemma deliver_all_events {A} (msg : A → Publish) l w :
  ∃ es, w_events (deliver_all msg l w) = w_events w ++ es ∧ Forall (.= MessageDropped) es.
Proof.
  revert w. induction l as [|e l IH]; intros w; [by exists []; rewrite app_nil_r|]. rewrite deliver_all_cons.
  destruct (IH (deliver_world e.1 (msg e.2) w)) as (es & -> & Hes).
  assert (∃ es1, w_events (deliver_world e.1 (msg e.2) w) = w_events w ++ es1 ∧ Forall (.= MessageDropped) es1) as (es1 & -> & Hes1).
  { unfold deliver_world. destruct (w_connections w !! _); [by exists []; rewrite app_nil_r|].
    destruct (sessions _ !! _); [|by exists []; rewrite app_nil_r].
    destruct (from_option _ _ _); [by exists [MessageDropped]; split; [|repeat constructor]|by exists []; rewrite app_nil_r]. }
  exists (es1 ++ es). by rewrite app_assoc, Forall_app.
Qed.

Lemma ignored_events {M} (listen : M → BrokerEvent → M) es m :
  (∀ m, listen m MessageDropped = m) → Forall (.= MessageDropped) es → foldl listen m es = m.
Proof. intros Hl. induction 1 as [|e es -> _ IH]; [done|]. cbn. by rewrite Hl. Qed.

(** C26. A message that is routed here, from a client or as a will, is offered to
    the other brokers once: the events that routing adds make the listeners
    forward exactly this message, to every bridge whose rules want it and every
    node with a matching subscription, and do nothing else. *)
Theorem routed_message_forwarded sender p w (bridges : BridgeManager) (cluster : @ClusterManager SocketAddr) :
  sessions_wf (w_sessions w) →
  ∃ w' es, run (route_message sender p) w = (Ok tt, w') ∧ w_events w' = w_events w ++ es ∧
    foldl bridge_event bridges es = manager_forward_publish (pub_topic p) (pub_payload p) (pub_qos p) (pub_retain p) bridges ∧
    foldl cluster_event cluster es = cluster_manager_forward (pub_topic p) (pub_payload p) (pub_qos p) (pub_retain p) cluster.
Proof.
  intros Hwf. rewrite run_route_message by done. unfold routed. set (w1 := w <| w_subscriptions := _ |>). set (l := map_to_list _).
  destruct (deliver_all_events (outgoing_for p) l w1) as (es & He & Hes).
  eexists _, (es ++ [published_event p]). split; [reflexivity|]. split.
  - cbn. rewrite He. by rewrite <-app_assoc.
  - rewrite !foldl_app, (ignored_events bridge_event es), (ignored_events cluster_event es) by done. by split.
Qed.
End forwarding.

Lemma routed_message_forwarded_witness :
  let w : World unit := World_new BrokerConfig_default 0 0 false false tt in
  let p := MkPublish false AtMostOnce false "site/a" None [x61] Properties_default in
  let bridge := BridgeClient_spawn (BridgeClient_new sample_bridge) <| bcl_status := RS.Connected |> in
  let json := sample_json in
  ∃ w' es, run (route_message "c" p) w = (Ok tt, w') ∧ w_events w' = [] ++ es ∧
    foldl bridge_event [bridge] es = manager_forward_publish "site/a" [x61] AtMostOnce false [bridge] ∧
    foldl cluster_event (@ClusterManager_new unit "a" "x") es =
      cluster_manager_forward "site/a" [x61] AtMostOnce false (ClusterManager_new "a" "x").
Proof.
  intros w p bridge json. apply (routed_message_forwarded "c" p w [bridge] (ClusterManager_new "a" "x")). apply sessions_wf_new.
Defined.

(** Two brokers with bridges to each other that forward the same topics: the
    message that one sends out comes to the other as the publish of a client,
    whose bridge sends it out again unchanged. Nothing marks it. *)
Example mutual_bridges_loop :
  let rules := (BridgeConfig_default "other") <| br_forwards := [MkForwardRule "site/#" "site/#" DirOut 1 true] |> in
  let bridge := BridgeClient_spawn (BridgeClient_new rules) <| bcl_status := RS.Connected |> in
  let w : World unit := World_new BrokerConfig_default 0 0 false false tt in
  let p := MkPublish false AtLeastOnce false "site/a" (Some 1) [x61] Properties_default in
  bcl_command_tx <$> foldl bridge_event [bridge] (w_events (run (route_message "other" p) w).2) =
    [Some (MkCommandChannel [BC.Publish (pub_topic p) (pub_payload p) (pub_qos p) (pub_retain p)] true true)].
Proof. vm_compute. reflexivity. Qed.
