(* ===== verification/Events.v ===== *)
(** * The event loops

    The broker's events go through a broadcast channel to the tasks of
    [Broker::run] ([broker/mod.rs]) that forward them to the bridges, keep the
    cluster informed and count metrics. Each loop takes events before it looks at
    the shutdown signal, and goes on when it learns that it has missed some. The
    channel of tokio is the class [Broadcast] with its documented behaviour. The
    second part follows the events of subscriptions to the filters that a node
    announces to its cluster. *)

From S2P Require Import Prelude Protocol Codec Properties Packet Decode Encode TopicValidation TopicTrie SubscriptionStore.
From S2P Require Import TopicMapper Remote Bridge Session Hooks Persistence Cluster Broker Connection Routing Handlers Metrics Federation.
#[local] Open Scope nat_scope.

(** ** The channel *)
Inductive RecvResult (T : Type) : Type :=
  | Received (e : T)
  | Lagged (n : nat)
  | Pending
  | Closed.
Arguments Received {T} e.
Arguments Lagged {T} n.
Arguments Pending {T}.
Arguments Closed {T}.

(** [bc_sent] is everything ever sent and [bc_next] the number of the event that
    a receiver takes next; a new receiver begins at the end. *)
Class Broadcast (Ch Rx T : Type) : Type := {
  bc_capacity : Ch → nat;
  bc_open : Ch → bool;
  bc_sent : Ch → list T;
  bc_send : T → Ch → Ch;
  bc_subscribe : Ch → Rx;
  bc_next : Rx → nat;
  bc_recv : Ch → Rx → RecvResult T * Rx;
}.

(** A receiver that is more than the capacity behind is told how many it has
    missed and continues with the oldest event that is kept. *)
Class BroadcastLaws {Ch Rx T} `{!Broadcast Ch Rx T} : Prop := {
  capacity_send : ∀ e c, bc_capacity (bc_send e c) = bc_capacity c;
  open_send : ∀ e c, bc_open (bc_send e c) = bc_open c;
  sent_send : ∀ e c, bc_sent (bc_send e c) = bc_sent c ++ [e];
  next_subscribe : ∀ c, bc_next (bc_subscribe c) = length (bc_sent c);
  recv_ready : ∀ c r e, bc_sent c !! bc_next r = Some e → length (bc_sent c) ≤ bc_next r + bc_capacity c →
    ∃ r', bc_recv c r = (Received e, r') ∧ bc_next r' = S (bc_next r);
  recv_lagged : ∀ c r, bc_next r + bc_capacity c < length (bc_sent c) →
    ∃ r', bc_recv c r = (Lagged (length (bc_sent c) - bc_capacity c - bc_next r), r') ∧
      bc_next r' = length (bc_sent c) - bc_capacity c;
  recv_drained : ∀ c r, length (bc_sent c) ≤ bc_next r →
    bc_recv c r = (if bc_open c then Pending else Closed, r);
}.

(** ** A loop *)
Section loop.
Context {Ch Rx T M : Type} `{!Broadcast Ch Rx T}.

(** [lp_missed] adds up what the loop logs. *)
Record Loop : Type := MkLoop {
  lp_channel : Ch;
  lp_rx : Rx;
  lp_manager : M;
  lp_signal : bool;
  lp_running : bool;
  lp_missed : nat;
}.

Definition Loop_new (c : Ch) (m : M) : Loop := MkLoop c (bc_subscribe c) m false true 0.

Inductive Turn : Type :=
  | TSend (e : T)
  | TShutdown
  | TPoll.

(** One round of the [select!]: events first, then the signal. *)
Definition poll (on_event : M → T → M) (on_shutdown : M → M) (l : Loop) : Loop :=
  match bc_recv (lp_channel l) (lp_rx l) with
  | (Received e, r) => MkLoop (lp_channel l) r (on_event (lp_manager l) e) (lp_signal l) true (lp_missed l)
  | (Lagged n, r) => MkLoop (lp_channel l) r (lp_manager l) (lp_signal l) true (lp_missed l + n)
  | (Closed, r) => MkLoop (lp_channel l) r (lp_manager l) (lp_signal l) false (lp_missed l)
  | (Pending, r) =>
      if lp_signal l then MkLoop (lp_channel l) r (on_shutdown (lp_manager l)) true false (lp_missed l)
      else MkLoop (lp_channel l) r (lp_manager l) false true (lp_missed l)
  end.

Definition loop_turn (on_event : M → T → M) (on_shutdown : M → M) (l : Loop) (t : Turn) : Loop :=
  match t with
  | TSend e => MkLoop (bc_send e (lp_channel l)) (lp_rx l) (lp_manager l) (lp_signal l) (lp_running l) (lp_missed l)
  | TShutdown => MkLoop (lp_channel l) (lp_rx l) (lp_manager l) true (lp_running l) (lp_missed l)
  | TPoll => if lp_running l then poll on_event on_shutdown l else l
  end.

Definition run_loop (on_event : M → T → M) (on_shutdown : M → M) (l : Loop) (ts : list Turn) : Loop :=
  foldl (loop_turn on_event on_shutdown) l ts.
End loop.
Arguments Loop : clear implicits.
Arguments Turn : clear implicits.

(** ** The three loops of [run] *)
Definition bridge_loop {Ch Rx} `{!Broadcast Ch Rx BrokerEvent} : Loop Ch Rx BridgeManager → list (Turn BrokerEvent) → Loop Ch Rx BridgeManager :=
  run_loop bridge_event manager_stop_all.

Definition cluster_loop {Ch Rx} `{!Broadcast Ch Rx BrokerEvent} {SocketAddr} `{!Json} :
    Loop Ch Rx (@ClusterManager SocketAddr) → list (Turn BrokerEvent) → Loop Ch Rx (@ClusterManager SocketAddr) :=
  run_loop cluster_event cluster_manager_stop.

Definition metrics_loop {Ch Rx} `{!Broadcast Ch Rx BrokerEvent} : Loop Ch Rx Metrics → list (Turn BrokerEvent) → Loop Ch Rx Metrics :=
  run_loop metrics_event id.

(** ** Lemmas: what a loop has handled *)
Section loop_lemmas.
Context {Ch Rx T M : Type} `{!Broadcast Ch Rx T} {Laws : BroadcastLaws}.
Context (on_event : M → T → M) (on_shutdown : M → M) (c0 : Ch) (m0 : M).
Implicit Types l : Loop Ch Rx M.

Abbreviation go := (run_loop on_event on_shutdown).

(** The events sent since the loop began. *)
Definition since l : list T := drop (length (bc_sent c0)) (bc_sent (lp_channel l)).
Definition taken l : nat := bc_next (lp_rx l) - length (bc_sent c0).

Record tracks l (handled : list T) : Prop := {
  tr_manager : lp_manager l = foldl on_event m0 handled ∨
    lp_running l = false ∧ lp_signal l = true ∧ lp_manager l = on_shutdown (foldl on_event m0 handled);
  tr_running : lp_running l = true → lp_manager l = foldl on_event m0 handled;
  tr_sublist : handled `sublist_of` take (taken l) (since l);
  tr_count : length handled + lp_missed l = taken l;
  tr_begin : length (bc_sent c0) ≤ bc_next (lp_rx l);
  tr_end : bc_next (lp_rx l) ≤ length (bc_sent (lp_channel l));
  tr_capacity : bc_capacity (lp_channel l) = bc_capacity c0;
}.

Lemma tracks_new : tracks (Loop_new c0 m0) [].
Proof.
  split; cbn; rewrite ?next_subscribe; try done; [by left|apply sublist_nil_l|]. unfold taken. cbn. rewrite next_subscribe. lia.
Qed.



Lemma take_sublist_le {A} i j (k : list A) : i ≤ j → take i k `sublist_of` take j k.
Proof. intros Hij. replace (take i k) with (take i (take j k)) by (rewrite take_take; f_equal; lia). apply sublist_take. Qed.

Lemma tracks_poll l handled : lp_running l = true → tracks l handled → ∃ handled', tracks (poll on_event on_shutdown l) handled'.
Proof.
  intros Hr [Hm Hm' Hs Hc Hb He Hk]. specialize (Hm' Hr). unfold poll.
  destruct (decide (bc_next (lp_rx l) + bc_capacity (lp_channel l) < length (bc_sent (lp_channel l)))) as [Hlag|Hlag].
  - destruct (recv_lagged _ _ Hlag) as (r & -> & En). exists handled. split; cbn; try done; [by left|..]; unfold taken in *; cbn; rewrite ?En.
    + etrans; [exact Hs|]. apply take_sublist_le. lia.
    + lia.
    + lia.
    + lia.
  - destruct (bc_sent (lp_channel l) !! bc_next (lp_rx l)) as [e|] eqn:Ee.
    + destruct (recv_ready _ _ _ Ee) as (r & -> & En); [lia|]. exists (handled ++ [e]).
      split; cbn; try done; [left|intros _|..]; unfold taken in *; cbn; rewrite ?En.
      * by rewrite foldl_app, Hm'.
      * by rewrite foldl_app, Hm'.
      * replace (S (bc_next (lp_rx l)) - length (bc_sent c0)) with (S (bc_next (lp_rx l) - length (bc_sent c0))) by lia.
        rewrite (take_S_r _ _ e); [by apply sublist_app|]. unfold since. rewrite lookup_drop.
        by replace (length (bc_sent c0) + _) with (bc_next (lp_rx l)) by lia.
      * rewrite length_app. cbn. lia.
      * lia.
      * apply lookup_lt_Some in Ee. lia.
    + apply lookup_ge_None in Ee. rewrite recv_drained by done. exists handled.
      destruct (bc_open _); [destruct (lp_signal l)|]; split; cbn; try done; [right; by rewrite Hm'|by left..].
Qed.

Lemma tracks_turn l t handled : tracks l handled → ∃ handled', tracks (loop_turn on_event on_shutdown l t) handled'.
Proof.
  intros Ht. destruct t as [e| |]; cbn.
  - exists handled. destruct Ht as [Hm Hm' Hs Hc Hb He Hk]. split; cbn; try done.
    + unfold taken, since in *. cbn. rewrite sent_send, drop_app_le by lia. rewrite take_app_le by (rewrite length_drop; lia). exact Hs.
    + rewrite sent_send, length_app. cbn. lia.
    + by rewrite capacity_send.
  - exists handled. destruct Ht as [Hm Hm' Hs Hc Hb He Hk]. split; cbn; try done. destruct Hm as [?|(? & _ & ?)]; [by left|by right].
  - destruct (lp_running l) eqn:Hr; [by eapply tracks_poll|by exists handled].
Qed.

Lemma tracks_run ts : ∃ handled, tracks (go (Loop_new c0 m0) ts) handled.
Proof.
  unfold run_loop. induction ts as [|t ts [h IH]] using rev_ind; [exists []; apply tracks_new|].
  rewrite foldl_app. cbn. by eapply tracks_turn.
Qed.

(** A loop that polls often enough misses nothing: between polls the events
    that wait stay within the capacity. *)
Fixpoint keeps_up (capacity waiting : nat) (ts : list (Turn T)) : bool :=
  match ts with
  | [] => true
  | TSend _ :: ts => keeps_up capacity (S waiting) ts
  | TShutdown :: ts => keeps_up capacity waiting ts
  | TPoll :: ts => (waiting <=? capacity) && keeps_up capacity (pred waiting) ts
  end.

Definition waiting l : nat := length (bc_sent (lp_channel l)) - bc_next (lp_rx l).

Lemma poll_received l e :
  bc_sent (lp_channel l) !! bc_next (lp_rx l) = Some e → waiting l ≤ bc_capacity (lp_channel l) →
  ∃ r, poll on_event on_shutdown l = MkLoop (lp_channel l) r (on_event (lp_manager l) e) (lp_signal l) true (lp_missed l) ∧
    bc_next r = S (bc_next (lp_rx l)).
Proof.
  intros He Hw. unfold waiting in Hw. pose proof (lookup_lt_Some _ _ _ He).
  destruct (recv_ready _ _ _ He) as (r & E & En); [lia|]. exists r. unfold poll. by rewrite E.
Qed.

Lemma poll_drained l :
  length (bc_sent (lp_channel l)) ≤ bc_next (lp_rx l) →
  lp_missed (poll on_event on_shutdown l) = lp_missed l ∧ lp_rx (poll on_event on_shutdown l) = lp_rx l ∧
  lp_channel (poll on_event on_shutdown l) = lp_channel l.
Proof. intros Hd. unfold poll. rewrite recv_drained by done. by destruct (bc_open _); [destruct (lp_signal l)|]. Qed.

Lemma keeps_up_missed ts l w :
  bc_capacity (lp_channel l) = bc_capacity c0 → (lp_running l = true → waiting l ≤ w) →
  keeps_up (bc_capacity c0) w ts = true → lp_missed (go l ts) = lp_missed l.
Proof.
  revert l w. induction ts as [|t ts IH]; intros l w Hk Hw Hts; [done|]. unfold run_loop. cbn [foldl]. fold (go).
  destruct t as [e| |]; cbn [keeps_up] in Hts.
  - etrans; [eapply (IH _ (S w))|]; cbn; [by rewrite capacity_send| |done|done].
    intros Hr. specialize (Hw Hr). unfold waiting in *. cbn. rewrite sent_send, length_app. cbn. lia.
  - by etrans; [eapply (IH _ w)|].
  - apply andb_true_iff in Hts as [Hle%Nat.leb_le Hts]. cbn. destruct (lp_running l) eqn:Hr; [|etrans; [by eapply (IH _ (pred w)); rewrite ?Hr|done]].
    specialize (Hw eq_refl). destruct (bc_sent (lp_channel l) !! bc_next (lp_rx l)) as [e|] eqn:Ee.
    + destruct (poll_received l e Ee) as (r & -> & En); [lia|]. etrans; [eapply (IH _ (pred w)); [done| |done]|done].
      intros _. unfold waiting in *. cbn. rewrite En. lia.
    + apply lookup_ge_None in Ee. destruct (poll_drained l Ee) as (Em & Er & Ech).
      etrans; [eapply (IH _ (pred w)); [by rewrite Ech| |done]|done]. intros _. unfold waiting. rewrite Er, Ech. lia.
Qed.

(** A loop stops only at a poll that finds nothing left. *)
Lemma stops_drained ts :
  lp_running (go (Loop_new c0 m0) ts) = false →
  ∃ ts1 ts2, ts = ts1 ++ TPoll :: ts2 ∧ taken (go (Loop_new c0 m0) ts) = length (since (go (Loop_new c0 m0) ts1)).
Proof.
  induction ts as [|t ts IH] using rev_ind; [done|]. unfold run_loop in *. rewrite foldl_app. cbn.
  set (l := foldl _ _ ts) in *. intros Hr. destruct (lp_running l) eqn:Hl.
  - destruct t; cbn in Hr; try congruence. rewrite Hl in Hr. exists ts, []. split; [done|]. cbn. rewrite Hl. fold l.
    destruct (tracks_run ts) as [h Ht]. unfold run_loop in Ht. fold l in Ht.
    destruct (decide (length (bc_sent (lp_channel l)) ≤ bc_next (lp_rx l))) as [Hd|Hd].
    + destruct (poll_drained l Hd) as (_ & Er & _). unfold taken, since. rewrite Er, length_drop. pose proof (tr_end _ _ Ht). lia.
    + exfalso. unfold poll in Hr. destruct (decide (bc_next (lp_rx l) + bc_capacity (lp_channel l) < length (bc_sent (lp_channel l)))) as [Hlag|Hlag].
      * by destruct (recv_lagged _ _ Hlag) as (r & E & _); rewrite E in Hr.
      * destruct (lookup_lt_is_Some_2 (bc_sent (lp_channel l)) (bc_next (lp_rx l))) as [e Ee]; [lia|].
        by destruct (recv_ready _ _ _ Ee) as (r & E & _); [lia|]; rewrite E in Hr.
  - destruct (IH eq_refl) as (ts1 & ts2 & -> & E). exists ts1, (ts2 ++ [t]). split; [by rewrite <- app_assoc|].
    rewrite <- E. destruct t; cbn; rewrite ?Hl; done.
Qed.

(** Enough polls take everything that waits. *)
Lemma polls_drain n l handled :
  tracks l handled → lp_running l = true → waiting l ≤ bc_capacity c0 → waiting l ≤ n →
  taken (go l (replicate n TPoll)) = length (since l).
Proof.
  revert l handled. induction n as [|n IH]; intros l h Ht Hr Hw Hn.
  - unfold taken, since, waiting in *. rewrite length_drop. pose proof (tr_begin _ _ Ht). pose proof (tr_end _ _ Ht). cbn. lia.
  - cbn. rewrite Hr. destruct (bc_sent (lp_channel l) !! bc_next (lp_rx l)) as [e|] eqn:Ee.
    + destruct (tracks_poll l h Hr Ht) as [h' Ht']. pose proof (lookup_lt_Some _ _ _ Ee).
      destruct (poll_received l e Ee) as (r & E & En); [by rewrite (tr_capacity _ _ Ht)|]. rewrite E in Ht' |- *.
      etrans; [eapply IH; [exact Ht'|done|..]|done]; unfold waiting in *; cbn; rewrite En; lia.
    + apply lookup_ge_None in Ee. destruct (poll_drained l Ee) as (_ & Er & Ech).
      destruct (tracks_poll l h Hr Ht) as [h' Ht']. destruct (lp_running (poll on_event on_shutdown l)) eqn:Hp.
      * etrans; [eapply IH; [exact Ht'|done|..]|unfold since; by rewrite Ech]; unfold waiting; rewrite Er, Ech; lia.
      * assert (∀ k l, lp_running l = false → go l (replicate k TPoll) = l) as Hstop.
        { induction k as [|k IHk]; intros l' Hl'; [done|]. cbn. rewrite Hl'. by apply IHk. }
        unfold run_loop in Hstop. unfold run_loop. rewrite Hstop by done. unfold taken, since. rewrite Er, length_drop.
        pose proof (tr_end _ _ Ht). pose proof (tr_begin _ _ Ht). lia.
Qed.
End loop_lemmas.

Lemma sublist_full {A} (l k : list A) : l `sublist_of` k → length k ≤ length l → l = k.
Proof.
  induction 1 as [|x l k Hs IH|x l k Hs IH]; cbn; intros Hle; [done| |].
  - f_equal. apply IH. lia.
  - apply sublist_length in Hs. lia.
Qed.

(** C27. What a listener of events gets. Whatever the schedule of sends, polls and
    the signal, the loop has handled, in order, some of the events sent since it
    began, and has counted all others before its position as missed. If never
    more events than the capacity of the channel wait for it when it polls, it
    handles all of them; as many polls as events wait take every one. A loop that
    stops has first taken all events sent before. *)
Theorem event_loop {Ch Rx T M : Type} `{!Broadcast Ch Rx T} `{!BroadcastLaws} (on_event : M → T → M) (on_shutdown : M → M)
    (c0 : Ch) (m0 : M) ts :
  let l := run_loop on_event on_shutdown (Loop_new c0 m0) ts in
  ∃ handled,
    (lp_manager l = foldl on_event m0 handled ∨
     lp_running l = false ∧ lp_signal l = true ∧ lp_manager l = on_shutdown (foldl on_event m0 handled)) ∧
    handled `sublist_of` take (taken c0 l) (since c0 l) ∧ length handled + lp_missed l = taken c0 l ∧
    (keeps_up (bc_capacity c0) 0 ts = true → handled = take (taken c0 l) (since c0 l)) ∧
    (lp_running l = true → waiting l ≤ bc_capacity c0 →
      taken c0 (run_loop on_event on_shutdown l (replicate (waiting l) TPoll)) = length (since c0 l)) ∧
    (lp_running l = false → ∃ ts1 ts2, ts = ts1 ++ TPoll :: ts2 ∧
      taken c0 l = length (since c0 (run_loop on_event on_shutdown (Loop_new c0 m0) ts1))).
Proof.
  cbv zeta. destruct (tracks_run on_event on_shutdown c0 m0 ts) as [handled Ht]. exists handled.
  set (l := run_loop _ _ _ ts) in *. split; [apply Ht|]. split; [apply Ht|]. split; [apply Ht|]. split_and!.
  - intros Hk. assert (lp_missed l = 0) as Hm.
    { unfold l. erewrite (keeps_up_missed on_event on_shutdown c0 ts); [done|done| |exact Hk].
      intros _. unfold waiting. cbn. rewrite next_subscribe. lia. }
    pose proof (tr_count _ _ _ _ _ _ Ht) as Hc. rewrite Hm in Hc.
    apply sublist_full; [apply Ht|]. rewrite length_take. pose proof (tr_end _ _ _ _ _ _ Ht).
    unfold taken, since in *. rewrite length_drop. lia.
  - intros Hr Hw. by eapply polls_drain.
  - intros Hr. by apply stops_drained.
Qed.

(** ** The filters that a node announces *)
Section announced.
Context {SocketAddr : Type} `{!Json}.
Implicit Types m : @ClusterManager SocketAddr.

Definition is_removal (f : string) (e : BrokerEvent) : bool :=
  match e with SubscriptionRemoved g _ => String.eqb g f | _ => false end.

Lemma cluster_event_filters m e f :
  f ∈ cm_local_subscriptions (cluster_event m e) ↔
  (∃ c, e = SubscriptionAdded f c) ∨ (f ∈ cm_local_subscriptions m ∧ is_removal f e = false).
Proof.
  destruct e as [| | | |g c|g c]; cbn; try (split; [by right|intros [[? [=]]|[? _]]; done]).
  - rewrite elem_of_union, elem_of_singleton. split; [intros [->|?]; [left; by exists c|by right]|].
    intros [[? [= -> ->]]|[? _]]; [by left|by right].
  - rewrite elem_of_difference, elem_of_singleton. destruct (String.eqb_spec g f) as [->|Hne].
    + split; [intros [_ []]; done|]. intros [[? [=]]|[_ [=]]].
    + split; [intros [? _]; by right|]. intros [[? [=]]|[? _]]. split; [done|congruence].
Qed.

(** The announced filters are those whose last event is a subscription. *)
Lemma cluster_filters m es f :
  f ∈ cm_local_subscriptions (foldl cluster_event m es) ↔
  (∃ es1 c es2, es = es1 ++ SubscriptionAdded f c :: es2 ∧ Forall (λ e, is_removal f e = false) es2) ∨
  (f ∈ cm_local_subscriptions m ∧ Forall (λ e, is_removal f e = false) es).
Proof.
  induction es as [|e es IH] using rev_ind; cbn.
  - split; [by right|]. intros [(es1 & ? & ? & E & _)|[? _]]; [by destruct es1|done].
  - rewrite foldl_app. cbn. rewrite cluster_event_filters, IH, Forall_app, Forall_singleton. split.
    + intros [[c ->]|[[(es1 & c & es2 & -> & H2)|[Hm H2]] He]].
      * left. exists es, c, []. by split.
      * left. exists es1, c, (es2 ++ [e]). rewrite <- app_assoc. split; [done|].
        apply Forall_app. split; [done|by constructor].
      * by right.
    + intros [(es1 & c & es2 & E & H2)|(Hm & Hes & He)]; [|right; split; [by right|done]].
      destruct es2 as [|e2 es2 _] using rev_ind.
      * apply app_inj_tail in E as [-> ->]. left. by exists c.
      * rewrite app_comm_cons, app_assoc in E. apply app_inj_tail in E as [-> ->].
        rewrite Forall_app, Forall_singleton in H2. destruct H2 as [H2 He]. right. split; [left; by exists es1, c, es2|done].
Qed.

(** The gossip value of a node holds its filters. *)
Definition announces m (l : list string) : Prop :=
  ns_subscriptions (gossip_state m) ≫= json_from_str = Some l ∧ list_to_set l = cm_local_subscriptions m.

Lemma announces_update filters m :
  (∀ l, is_Some (json_to_string l)) → ∃ l, announces (update_subscriptions filters m) l.
Proof.
  intros Hj. destruct (Hj (elements filters)) as [json E]. exists (elements filters). unfold announces. cbn. rewrite E. cbn.
  split; [by apply json_from_to|apply list_to_set_elements_L].
Qed.

Lemma announces_event m e :
  (∀ l, is_Some (json_to_string l)) → (∃ l, announces m l) → ∃ l, announces (cluster_event m e) l.
Proof. intros Hj Hm. destruct e; try done; by apply announces_update. Qed.

Lemma announces_events m es :
  (∀ l, is_Some (json_to_string l)) → (∃ l, announces m l) → ∃ l, announces (foldl cluster_event m es) l.
Proof. intros Hj. revert m. induction es as [|e es IH]; intros m Hm; [done|]. by apply IH, announces_event. Qed.

(** A shared filter, announced with its [$share] prefix, matches no ordinary topic. *)
Lemma shared_filter_matches f topic :
  is_Some (parse_shared_subscription f) → starts_with "$" topic = false → topic_matches_filter topic f = false.
Proof.
  intros [gf Hf] Ht. unfold parse_shared_subscription in Hf.
  destruct (strip_prefix "$share/" f) as [rest|] eqn:Es; [|done]. apply strip_prefix_some in Es as ->.
  destruct (topic_matches_filter topic _) eqn:E; [exfalso|done]. unfold topic_matches_filter in E. rewrite Ht in E. cbn [andb] in E.
  change (String.append "$share/" ?x) with (String.append "$share" (String "/" x)) in E.
  rewrite split_append in E by done. apply match_levels_spec in E. inversion E as [| | |l fs ts _ E1 E2].
  destruct topic as [|a topic]; [done|]. cbn in Ht, E2.
  destruct (Ascii.eqb_spec a "$") as [->|Hne]; [done|]. destruct (Ascii.eqb a "/"); [done|]. destruct (split "/" topic); congruence.
Qed.
End announced.

(** The events of a subscription that is granted, and of one that is given up. *)
Lemma grant_subscription_events {W} client session sub_id sub (w : World W) x :
  cells (w_sessions w) !! session = Some x →
  w_events (Broker.run (grant_subscription client session sub_id sub) w).2 =
    w_events w ++ [SubscriptionAdded (Packet.sub_filter sub) client].
Proof.
  intros Hx. unfold grant_subscription. rewrite run_handler_bind. unfold config. rewrite run_ask. cbv zeta.
  rewrite run_handler_bind, (run_read_session _ _ _ _ Hx), run_handler_bind, run_change, run_handler_bind.
  erewrite run_update_session by exact Hx. rewrite run_handler_bind, run_send_event. done.
Qed.

Lemma unsubscribe_one_events {W} client session f (w : World W) x :
  cells (w_sessions w) !! session = Some x →
  w_events (Broker.run (unsubscribe_one client session f) w).2 =
    w_events w ++ if (unsubscribe f client (w_subscriptions w)).2 then [SubscriptionRemoved f client] else [].
Proof.
  intros Hx. unfold unsubscribe_one. rewrite run_handler_bind, run_action.
  destruct (unsubscribe f client (w_subscriptions w)) as [st removed]. cbn [fst snd].
  rewrite run_handler_bind. erewrite run_update_session by exact Hx. rewrite run_handler_bind.
  destruct removed; [by rewrite run_send_event|]. cbn. by rewrite app_nil_r.
Qed.

(** C29. What a node of a cluster announces. A subscription that is granted sends
    an event with its filter as the client wrote it, and one that is given up
    sends an event if it was there. After the manager has handled a sequence
    of events, the value that the node gossips holds exactly the filters whose
    last event is a subscription, whoever made it. So when one client leaves a
    filter, it is no longer announced, although another client of the node may
    still have it ([other_subscriber_hidden]); and for an ordinary topic another
    node forwards only on account of a filter that is not shared, because a shared
    one is announced with its [$share] prefix. The library that writes the
    value as JSON can write every list of strings. *)
Theorem cluster_announces {W SocketAddr : Type} `{!Json} (m : @ClusterManager SocketAddr) es l0 :
  (∀ l, is_Some (json_to_string l)) → announces m l0 →
  (∃ l, ns_subscriptions (gossip_state (foldl cluster_event m es)) ≫= json_from_str = Some l ∧
    (∀ f, f ∈ l ↔
      (∃ es1 c es2, es = es1 ++ SubscriptionAdded f c :: es2 ∧ Forall (λ e, is_removal f e = false) es2) ∨
      (f ∈ l0 ∧ Forall (λ e, is_removal f e = false) es)) ∧
    (∀ es' f c, es = es' ++ [SubscriptionRemoved f c] → f ∉ l) ∧
    (∀ (p : @ClusterPeer SocketAddr) topic, starts_with "$" topic = false →
      cluster_should_forward (update_remote_subscriptions l p) topic = true →
      ∃ f, f ∈ l ∧ parse_shared_subscription f = None ∧ topic_matches_filter topic f = true)) ∧
  (∀ client session sub_id sub f (w : World W) x, cells (w_sessions w) !! session = Some x →
    w_events (Broker.run (grant_subscription client session sub_id sub) w).2 =
      w_events w ++ [SubscriptionAdded (Packet.sub_filter sub) client] ∧
    w_events (Broker.run (unsubscribe_one client session f) w).2 =
      w_events w ++ if (unsubscribe f client (w_subscriptions w)).2 then [SubscriptionRemoved f client] else []).
Proof.
  intros Hj [Hg Hl0]. split; [|intros; split; [by eapply grant_subscription_events|by eapply unsubscribe_one_events]].
  destruct (announces_events m es Hj) as (l & Hl & Hset); [by exists l0|]. exists l. split; [exact Hl|].
  assert (Hin : ∀ f, f ∈ l ↔ f ∈ cm_local_subscriptions (foldl cluster_event m es)) by (intros f; by rewrite <-Hset, elem_of_list_to_set).
  split_and!.
  - intros f. rewrite Hin, cluster_filters, <-Hl0, elem_of_list_to_set. done.
  - intros es' f c ->. rewrite Hin, foldl_app. cbn. rewrite elem_of_difference, elem_of_singleton. intros [_ []]. done.
  - intros p topic Ht Hf. unfold cluster_should_forward in Hf. apply existsb_exists in Hf as (f & Hf & Hmatch).
    apply list_elem_of_In in Hf. cbn in Hf. rewrite elem_of_elements, elem_of_list_to_set in Hf. exists f. split; [done|].
    split; [|done]. apply eq_None_not_Some. intros Hs. rewrite shared_filter_matches in Hmatch; done.
Qed.

(** The event before as many others as the channel holds is missed: a filter
    whose subscription event it was is not announced. *)
Lemma lagged_event_lost {Ch Rx T M : Type} `{!Broadcast Ch Rx T} `{!BroadcastLaws} (on_event : M → T → M) (on_shutdown : M → M)
    (c0 : Ch) (m0 : M) e es :
  length es = bc_capacity c0 →
  let l := run_loop on_event on_shutdown (Loop_new c0 m0) ((TSend <$> e :: es) ++ [TPoll]) in
  lp_missed l = 1 ∧ taken c0 l = 1 ∧ lp_manager l = m0.
Proof.
  intros Hes. cbv zeta. unfold run_loop. rewrite foldl_app. cbn [foldl].
  assert (∀ (es : list T) (l : Loop Ch Rx M), foldl (loop_turn on_event on_shutdown) l (TSend <$> es) =
    MkLoop (foldl (λ c e, bc_send e c) (lp_channel l) es) (lp_rx l) (lp_manager l) (lp_signal l) (lp_running l) (lp_missed l)) as Hsend.
  { induction es0 as [|x xs IH]; intros [ch r m s run mi]; [done|]. cbn. apply IH. }
  assert (∀ (es : list T) (c : Ch), bc_sent (foldl (λ c e, bc_send e c) c es) = bc_sent c ++ es ∧
    bc_capacity (foldl (λ c e, bc_send e c) c es) = bc_capacity c) as Hch.
  { induction es0 as [|x xs IH]; intros c; cbn; [by rewrite app_nil_r|]. destruct (IH (bc_send x c)) as [-> ->].
    by rewrite sent_send, capacity_send, <- app_assoc. }
  rewrite Hsend. cbn [Loop_new lp_channel lp_rx lp_manager lp_signal lp_running lp_missed loop_turn]. unfold poll. cbn [lp_channel lp_rx].
  destruct (Hch (e :: es) c0) as [Hs Hk].
  destruct (recv_lagged (foldl (λ c e, bc_send e c) c0 (e :: es)) (bc_subscribe c0)) as (r & -> & En);
    rewrite Hs, Hk, ?next_subscribe, ?length_app in *; cbn in *; [lia|].
  split_and!; [lia| |done]. unfold taken. cbn. rewrite En. lia.
Qed.

(** Two clients, one filter: when the first leaves it, the store still has the
    second, but a peer that knows the node's filters forwards nothing. *)
Example other_subscriber_hidden :
  let sub c := MkSubscription c AtMostOnce false false None None in
  let store := subscribe "t" (sub "b"%string) (subscribe "t" (sub "a"%string) SubscriptionStore_new) in
  let events := [SubscriptionAdded "t" "a"; SubscriptionAdded "t" "b"; SubscriptionRemoved "t" "a"]%string in
  let filters := cm_local_subscriptions (foldl (cluster_event (H := sample_json)) (@ClusterManager_new string "n" "addr") events) in
  client_id <$> (store_matches "t" (unsubscribe "t" "a" store).1).1 = ["b"%string] ∧
  cluster_should_forward (update_remote_subscriptions (elements filters) (ClusterPeer_new "n"%string "addr"%string "o"%string)) "t" = false.
Proof. vm_compute. done. Qed.

(** ** Witnesses *)

(** A channel that is the list of what was sent. *)
Definition list_broadcast (T : Type) : Broadcast (nat * list T) nat T :=
  {| bc_capacity := fst;
     bc_open := λ _, true;
     bc_sent := snd;
     bc_send := λ e c, (c.1, c.2 ++ [e]);
     bc_subscribe := λ c, length c.2;
     bc_next := id;
     bc_recv := λ c r,
       if decide (r + c.1 < length c.2) then (Lagged (length c.2 - c.1 - r), length c.2 - c.1)
       else match c.2 !! r with Some e => (Received e, S r) | None => (Pending, r) end |}.

Lemma list_broadcast_laws T : @BroadcastLaws _ _ _ (list_broadcast T).
Proof.
  split; try done.
  - intros c r e He Hl. exists (S r). cbn in *. by rewrite decide_False, He by lia.
  - intros c r Hl. exists (length c.2 - c.1). cbn in *. by rewrite decide_True by lia.
  - intros c r Hl. cbn in *. rewrite decide_False by lia. by rewrite lookup_ge_None_2 by lia.
Qed.

Lemma event_loop_witness :
  let H := list_broadcast nat in
  let l := run_loop (λ m e, m ++ [e]) id (Loop_new (2, [7]) []) [TSend 1; TSend 2; TPoll; TSend 3; TPoll; TPoll] in
  lp_manager l = [1; 2; 3].
Proof.
  intros H l.
  destruct (@event_loop _ _ _ _ H (list_broadcast_laws nat) (λ m e, m ++ [e]) id (2, [7]) []
    [TSend 1; TSend 2; TPoll; TSend 3; TPoll; TPoll]) as (handled & [Hm|(Hm & _)] & _ & _ & Hk & _).
  - fold l in Hm. rewrite Hm, Hk; reflexivity.
  - vm_compute in Hm. discriminate Hm.
Defined.

Lemma cluster_announces_witness :
  let J := sample_json in
  ∃ l, ns_subscriptions (gossip_state (foldl cluster_event (@ClusterManager_new string "n" "addr")
      ([SubscriptionAdded "t" "b"; SubscriptionAdded "u" "b"]%string ++ [SubscriptionRemoved "t" "a"]%string))) ≫= json_from_str = Some l ∧
    "t"%string ∉ l.
Proof.
  intros J. destruct (cluster_announces (W := unit) (@ClusterManager_new string "n" "addr")
    ([SubscriptionAdded "t" "b"; SubscriptionAdded "u" "b"]%string ++ [SubscriptionRemoved "t" "a"]%string) [])
    as [(l & Hl & _ & Hr & _) _].
  - intros l. by eexists.
  - split; reflexivity.
  - exists l. split; [exact Hl|]. eapply Hr. reflexivity.
Defined.
