(* ===== verification/Tasks.v ===== *)
(** * Reasoning about interleaved tasks

    A rely-guarantee logic for the tasks of [Broker]. Between two actions of a
    task the other tasks change the shared state; [rely] bounds what they may
    do, [guar] what the task itself may do, and every action preserves the
    invariant [Inv]. The invariant may speak about auxiliary state of type [G]
    that is not part of the program. *)

From S2P Require Import Prelude Broker.

Section wp.
Context {S G : Type}.
Context (Inv : S → G → Prop) (rely guar : S → G → S → G → Prop).
Implicit Types s : S.
Implicit Types g : G.

(** From [s] and [g] on, whatever the other tasks do within [rely], every
    action of [m] keeps the invariant and stays within [guar], and [m] ends in
    a state with [Q]. *)
Fixpoint wp {A} (m : prog S A) (Q : A → S → G → Prop) s g : Prop :=
  match m with
  | Ret a => Q a s g
  | Act f k =>
      ∀ s1 g1, rely s g s1 g1 → Inv s1 g1 →
      ∃ g2, Inv (f s1).2 g2 ∧ guar s1 g1 (f s1).2 g2 ∧ wp (k (f s1).1) Q (f s1).2 g2
  end.

Lemma wp_mono {A} (m : prog S A) (Q Q' : A → S → G → Prop) s g :
  (∀ a s' g', Q a s' g' → Q' a s' g') → wp m Q s g → wp m Q' s g.
Proof.
  intros HQ. revert s g. induction m as [a|B f k IH]; intros s g; cbn; [apply HQ|].
  intros Hm s1 g1 Hr Hi. destruct (Hm s1 g1 Hr Hi) as (g2 & ? & ? & ?). exists g2. eauto.
Qed.

Lemma wp_bind {A B} (m : prog S A) (k : A → prog S B) Q s g :
  wp m (λ a s' g', wp (k a) Q s' g') s g → wp (prog_bind m k) Q s g.
Proof.
  revert s g. induction m as [a|C f k' IH]; intros s g; cbn; [done|].
  intros Hm s1 g1 Hr Hi. destruct (Hm s1 g1 Hr Hi) as (g2 & ? & ? & ?). exists g2. eauto.
Qed.

(** What the other tasks do leaves a task where it is, if its end does not
    mind. *)
Context (rely_trans : ∀ s1 g1 s2 g2 s3 g3, rely s1 g1 s2 g2 → rely s2 g2 s3 g3 → rely s1 g1 s3 g3).

Lemma wp_stable {A} (m : prog S A) (Q : A → S → G → Prop) s g s' g' :
  (∀ a, Q a s g → Q a s' g') → rely s g s' g' → wp m Q s g → wp m Q s' g'.
Proof.
  intros HQ Hr. destruct m as [a|B f k]; cbn; [apply HQ|]. intros Hm s1 g1 Hr1. apply Hm. by eapply rely_trans.
Qed.

(** A task alone, from a state with the invariant. *)
Context (rely_refl : ∀ s g, rely s g s g).

Lemma wp_run {A} (m : prog S A) Q s g :
  Inv s g → wp m Q s g → ∃ g', Inv (run m s).2 g' ∧ Q (run m s).1 (run m s).2 g'.
Proof.
  revert s g. induction m as [a|B f k IH]; intros s g Hi; cbn; [by exists g|].
  intros Hm. destruct (Hm s g (rely_refl s g) Hi) as (g2 & Hi2 & _ & Hm2). destruct (f s) as [b s']. by apply (IH b s' g2).
Qed.
End wp.
