(* ===== verification/Invariant.v ===== *)
(** * The invariant of the running broker

    What holds between any two actions of the broker's tasks, and the rules by
    which a task is shown to keep it. *)

From S2P Require Import Prelude Protocol Codec Properties Packet Decode Encode Wire CodecTheorems.
From S2P Require Import TopicValidation TopicTrie SubscriptionStore Session Hooks Persistence Broker Connection Routing Handlers Tasks.

(** ** Lemmas: the codec *)

(** A connection gets well-formed packets. *)
Lemma decode_facts d buf p n :
  (decode d buf).2 = Ok (Some (p, n)) →
  2 ≤ n ≤ zlen buf ∧ decoded_ok d p ∧ (∀ c, p = P.Connect c → wf_connect wf_props c).
Proof.
  intros Hd. pose proof (post_decode d buf) as Hp. rewrite Hd in Hp. destruct Hp as (Hn & Hok & _).
  split_and!; [lia..|done|]. intros c ->. exact Hok.
Qed.

Lemma decode_version d buf : is_Some (protocol_version d) → is_Some (protocol_version (decode d buf).1).
Proof.
  intros Hv. unfold decode. destruct (decode_header d buf) as [[[[[t f] pl] l]|]| | |]; try done.
  assert (H : is_Some (protocol_version (decode_payload d t f pl).1)).
  { unfold decode_payload, decode_connect. repeat case_match; done || by eexists. }
  by destruct (decode_payload d t f pl).
Qed.

Lemma decode_total_cases d buf :
  (∃ p n, (decode d buf).2 = Ok (Some (p, n))) ∨ (decode d buf).2 = Ok None ∨ ∃ e, (decode d buf).2 = Err e.
Proof. pose proof (post_decode d buf) as H. destruct (decode d buf).2 as [[[]|]| | |]; cbn in H; eauto; done. Qed.

(** ** The invariant *)

(** What is fixed for a run: the configuration, how many connections there are
    at a time, and how late the clock gets. *)
Record setting : Type := MkSetting {
  se_config : BrokerConfig;
  se_connections : Z;
}.

Definition latest_instant : Z := from_secs (2 ^ 62).

Definition setting_ok (se : setting) : Prop :=
  let cfg := se_config se in
  0 ≤ bc_max_inflight cfg ∧ 0 ≤ bc_max_awaiting_rel cfg ∧ 0 ≤ se_connections se ∧
  bc_max_inflight cfg + bc_max_awaiting_rel cfg + se_connections se < 65535 ∧
  1 ≤ bc_default_keep_alive cfg ≤ 65535 ∧ 1 ≤ bc_max_keep_alive cfg ∧ bc_retry_interval cfg ≠ 0 ∧
  1 ≤ bc_outbound_channel_capacity cfg ≤ MAX_PERMITS.

Section invariant.
Context {W : Type} (se : setting).
Implicit Types w : World W.
Implicit Types g : gmap nat nat.
Abbreviation cfg := (se_config se).

(** A session: well formed, with the limits of the configuration, and a keep
    alive that is not zero. *)
Record session_ok (s : Session) : Prop := {
  so_wf : session_wf s;
  so_inflight : s_max_inflight s = bc_max_inflight cfg;
  so_awaiting : s_max_awaiting_rel s = bc_max_awaiting_rel cfg;
  so_keep_alive : 1 ≤ s_keep_alive s ≤ 65535;
}.

(** A packet in a channel: a message without an identifier, or the DISCONNECT
    of a client that has been taken over. *)
Definition queued_ok (p : Packet) : Prop :=
  match p with
  | P.Publish p => pub_packet_id p = None
  | P.Disconnect _ => True
  | _ => False
  end.

Definition channel_ok (ch : Channel) : Prop :=
  Forall queued_ok (ch_queue ch) ∧ zlen (ch_queue ch) ≤ Z.max 0 (bc_outbound_channel_capacity cfg).

Definition cell_exists (c : nat) w : Prop := is_Some (cells (w_sessions w) !! c).

(** A connection: its channel exists and has its number; once it is connected it has a session
    and a protocol version. *)
Definition connection_ok w (self : nat) (c : Connection) : Prop :=
  c_channel c = self ∧ is_Some (w_channels w !! self) ∧
  match c_state c with
  | St.Connected _ session => cell_exists session w ∧ is_Some (protocol_version (c_decoder c))
  | St.Connecting => True
  end.

(** [g] has the connections between the check of [max_awaiting_rel] and the
    insertion of the message in [receive_qos2], with their sessions. *)
Definition receiving (c : nat) g : nat := size (filter (λ e, e.2 = c) g).

Record world_ok w g : Prop := {
  wo_config : w_config w = cfg;
  wo_now : w_now w < latest_instant;
  wo_sessions : sessions_wf (w_sessions w);
  wo_cells : map_Forall (λ _, session_ok) (cells (w_sessions w));
  wo_incoming : map_Forall (λ c s,
    Z.of_nat (size (s_inflight_incoming s)) + Z.of_nat (receiving c g) ≤ bc_max_awaiting_rel cfg + se_connections se)
    (cells (w_sessions w));
  wo_receiving : dom g ⊆ dom (w_conns w);
  wo_connections : Z.of_nat (size (w_conns w)) ≤ se_connections se;
  wo_conns : map_Forall (connection_ok w) (w_conns w);
  wo_channels : map_Forall (λ _, channel_ok) (w_channels w);
  wo_registry : map_Forall (λ _ n, is_Some (w_channels w !! n)) (w_connections w);
  wo_trie : trie_ok (trie (w_subscriptions w));
  wo_wills : Forall (λ d, cell_exists (dw_session d) w) (w_wills w);
}.

(** ** What a task may do to the others *)

(** The part of a connection that only its own task changes. *)
Definition conn_view (c : Connection) : State * Decoder * list byte * Z :=
  (c_state c, c_decoder c, c_read_buf c, c_keep_alive c).

Definition view_of (self : nat) w : option (State * Decoder * list byte * Z) := conn_view <$> w_conns w !! self.

Definition cells_grow w w' : Prop := ∀ c, cell_exists c w → cell_exists c w'.

(** Nothing happens to the connection [self]. *)
Definition leaves (self : nat) w g w' g' : Prop := view_of self w' = view_of self w ∧ g' !! self = g !! self.

Definition rely (me : option nat) w g w' g' : Prop :=
  cells_grow w w' ∧ ∀ self, me = Some self → leaves self w g w' g'.

Definition guar (me : option nat) w g w' g' : Prop :=
  cells_grow w w' ∧ ∀ other, me ≠ Some other → leaves other w g w' g'.

Lemma rely_trans me w1 g1 w2 g2 w3 g3 : rely me w1 g1 w2 g2 → rely me w2 g2 w3 g3 → rely me w1 g1 w3 g3.
Proof.
  intros [H1 H2] [H3 H4]. split; [intros c Hc; by apply H3, H1|]. intros self Hs.
  destruct (H2 self Hs) as [E1 E2], (H4 self Hs) as [E3 E4]. split; congruence.
Qed.

Lemma rely_refl me w g : rely me w g w g.
Proof. by split; [intros c ?|intros self _; split]. Qed.

Lemma guar_rely me other w g w' g' : me ≠ Some other → guar me w g w' g' → rely (Some other) w g w' g'.
Proof. intros Hm [H1 H2]. split; [done|]. intros self [= <-]. by apply H2. Qed.

(** ** Lemmas: the invariant and the parts of the world *)
Lemma world_ok_same w w' g :
  w_config w' = w_config w → w_now w' = w_now w → w_sessions w' = w_sessions w → w_conns w' = w_conns w →
  w_channels w' = w_channels w → w_connections w' = w_connections w →
  trie (w_subscriptions w') = trie (w_subscriptions w) → w_wills w' = w_wills w →
  world_ok w g → world_ok w' g.
Proof.
  intros E1 E2 E3 E4 E5 E6 E7 E8 []. unfold connection_ok, cell_exists in *.
  split; unfold connection_ok, cell_exists; rewrite ?E1, ?E2, ?E3, ?E4, ?E5, ?E6, ?E7, ?E8; done.
Qed.

Lemma world_receiving c w g : world_ok w g → Z.of_nat (receiving c g) ≤ se_connections se.
Proof.
  intros []. apply subseteq_size in wo_receiving0. rewrite !size_dom in wo_receiving0. unfold receiving.
  pose proof (map_subseteq_size _ _ (map_filter_subseteq (λ e : nat * nat, e.2 = c) g)). lia.
Qed.

Lemma receiving_insert self c g c' :
  g !! self = None → receiving c' (<[self := c]> g) = if decide (c = c') then S (receiving c' g) else receiving c' g.
Proof.
  intros Hn. unfold receiving. rewrite map_filter_insert. cbn. destruct (decide (c = c')) as [->|Hc].
  - apply map_size_insert_None. apply map_lookup_filter_None. by left.
  - by rewrite delete_id.
Qed.

Lemma receiving_delete self c g c' :
  g !! self = Some c → receiving c' g = if decide (c = c') then S (receiving c' (delete self g)) else receiving c' (delete self g).
Proof. intros Hc. rewrite <-(receiving_insert self c); [by rewrite insert_delete_id|]. apply lookup_delete_eq. Qed.

(** A connection has found room for a message, and then stores it. *)
Lemma world_ok_receive self c w g s :
  g !! self = None → is_Some (w_conns w !! self) → cells (w_sessions w) !! c = Some s →
  Z.of_nat (size (s_inflight_incoming s)) < bc_max_awaiting_rel cfg →
  world_ok w g → world_ok w (<[self := c]> g).
Proof.
  intros Hg Hself Hs Hroom Hok. assert (Hd : dom (<[self := c]> g) ⊆ dom (w_conns w)).
  { rewrite dom_insert. apply elem_of_dom in Hself. pose proof (wo_receiving _ _ Hok). set_solver. }
  assert (Hn : Z.of_nat (S (receiving c g)) ≤ se_connections se).
  { pose proof (receiving_insert self c g c Hg) as E. rewrite decide_True in E by done. rewrite <-E.
    pose proof (wo_connections _ _ Hok). apply subseteq_size in Hd. rewrite !size_dom in Hd. unfold receiving.
    pose proof (map_subseteq_size _ _ (map_filter_subseteq (λ e : nat * nat, e.2 = c) (<[self := c]> g))). lia. }
  destruct Hok. split; try done. intros c' s' Hs'. rewrite receiving_insert by done.
  destruct (decide (c = c')) as [<-|]; [|by apply wo_incoming0]. rewrite Hs in Hs'. injection Hs' as <-. lia.
Qed.

(** What a new table of sessions has to satisfy. *)
Record sessions_ok (st : SessionStore) g : Prop := {
  ss_wf : sessions_wf st;
  ss_cells : map_Forall (λ _, session_ok) (cells st);
  ss_incoming : map_Forall (λ c s,
    Z.of_nat (size (s_inflight_incoming s)) + Z.of_nat (receiving c g) ≤ bc_max_awaiting_rel cfg + se_connections se) (cells st);
}.

Lemma world_ok_sessions w g : world_ok w g → sessions_ok (w_sessions w) g.
Proof. by intros []. Qed.

Lemma world_ok_set_sessions st w g g' :
  sessions_ok st g' → dom g' ⊆ dom (w_conns w) → cells_grow w (w <| w_sessions := st |>) →
  world_ok w g → world_ok (w <| w_sessions := st |>) g'.
Proof.
  intros [] Hg Hgrow []. split; try done.
  - intros self c Hc. destruct (wo_conns0 self c Hc) as (H0 & H1 & H2). split_and!; [done..|].
    revert H2. cbn. destruct (c_state c); [done|]. intros [? ?]. split; [by apply Hgrow|done].
  - eapply Forall_impl; [done|]. intros d. apply Hgrow.
Qed.

Lemma sessions_ok_modify c f st s g g' :
  cells st !! c = Some s → session_ok (f s) → s_client_id (f s) = s_client_id s →
  (Z.of_nat (size (s_inflight_incoming (f s))) + Z.of_nat (receiving c g') ≤ bc_max_awaiting_rel cfg + se_connections se) →
  (∀ c', c' ≠ c → (receiving c' g' ≤ receiving c' g)%nat) → sessions_ok st g → sessions_ok (modify_session c f st) g'.
Proof.
  intros Hc Hf Hcl Hi Hg [[H1 H2 H3] H4 H5].
  assert (Hall : ∀ P : Session → Prop, P (f s) → map_Forall (λ _, P) (cells st) →
    map_Forall (λ _, P) (cells (modify_session c f st))).
  { intros P Pf Pst c' s'. rewrite lookup_modify. destruct (decide (c = c')) as [<-|]; [rewrite Hc|by apply Pst].
    cbn. by intros [= <-]. }
  split; [split|..].
  - intros client c' Hs. specialize (H1 client c' Hs). cbn beta in *. rewrite lookup_modify.
    destruct (decide (c = c')) as [<-|]; [|done]. rewrite Hc in *. cbn in *. by rewrite Hcl.
  - intros c' Hn. rewrite lookup_modify. destruct (decide _) as [<-|]; rewrite (H2 _ Hn); done.
  - by apply Hall; [apply Hf|].
  - by apply Hall.
  - intros c' s'. rewrite lookup_modify. destruct (decide (c = c')) as [<-|Hn].
    + rewrite Hc. cbn. by intros [= <-].
    + intros Hs. specialize (H5 c' s' Hs). specialize (Hg c' (not_eq_sym Hn)). cbn in *. lia.
Qed.

Lemma cell_exists_modify c f w st :
  st = modify_session c f (w_sessions w) → cells_grow w (w <| w_sessions := st |>).
Proof.
  intros -> c' [s Hs]. unfold cell_exists. change (is_Some (cells (modify_session c f (w_sessions w)) !! c')).
  rewrite lookup_modify, Hs. destruct (decide _); by eexists.
Qed.

(** ** Rules *)

(** What the task knows: the state of its own connection, that it is not
    receiving, and some cells that exist. *)
Definition facts (me : option nat) (v : State * Decoder * list byte * Z) (known : list nat) w g : Prop :=
  (∀ self, me = Some self → view_of self w = Some v ∧ g !! self = None) ∧ Forall (λ c, cell_exists c w) known.

(** A handler that starts with this knowledge ends with [Φ]. *)
Definition gspec {A} me v known (m : handler W A) (Φ : outcome ConnectionError A → World W → gmap nat nat → Prop) : Prop :=
  ∀ w g, facts me v known w g → wp world_ok (rely me) (guar me) m Φ w g.

(** The handler keeps the invariant, knows the same at the end, does not panic
    and returns, if anything, an [a] with [Q a]. *)
Definition spec {A} me v known (m : handler W A) (Q : A → Prop) : Prop :=
  gspec me v known m (λ r w' g', post r Q ∧ facts me v known w' g').

Lemma facts_rely me v known w g w' g' : rely me w g w' g' → facts me v known w g → facts me v known w' g'.
Proof.
  intros [H1 H2] [H3 H4]. split.
  - intros self Hs. destruct (H2 self Hs) as [-> ->]. by apply H3.
  - eapply Forall_impl; [done|]. intros c. apply H1.
Qed.

Context {me : option nat} {v : State * Decoder * list byte * Z}.
Implicit Types known : list nat.

Lemma spec_outcome {A} known (r : outcome ConnectionError A) Q : post r Q → spec me v known (Ret r) Q.
Proof. intros Hr w g Hf. by cbn. Qed.

Lemma spec_ret {A} known (a : A) (Q : A → Prop) : Q a → spec me v known (mret a) Q.
Proof. intros Ha. by apply (spec_outcome known (Ok a)). Qed.

Lemma spec_fail {A} known e (Q : A → Prop) : spec me v known (fail e) Q.
Proof. by apply (spec_outcome known (Err e)). Qed.

Lemma spec_mono {A} known (m : handler W A) (Q Q' : A → Prop) :
  (∀ a, Q a → Q' a) → spec me v known m Q → spec me v known m Q'.
Proof.
  intros HQ Hm w g Hf. eapply wp_mono; [|by apply Hm]. intros r w' g' [? ?]. split; [|done]. by eapply post_mono.
Qed.

Lemma spec_bind {A B} known (m : handler W A) (k : A → handler W B) (Q : A → Prop) Q' :
  spec me v known m Q → (∀ a, Q a → spec me v known (k a) Q') → spec me v known (m ≫= k) Q'.
Proof.
  intros Hm Hk w g Hf. apply wp_bind. eapply wp_mono; [|by apply Hm]. intros r w' g' [Hr Hf'].
  destruct r as [a|e| |]; cbn in *; try done. by apply Hk.
Qed.

Lemma spec_then {A B} known (m : handler W A) (k : handler W B) Q' :
  spec me v known m (λ _, True) → spec me v known k Q' → spec me v known (m;; k) Q'.
Proof. intros Hm Hk. by apply (spec_bind _ _ _ (λ _, True)). Qed.

Lemma spec_for_all {A} known (l : list A) (f : A → handler W unit) :
  (∀ a, a ∈ l → spec me v known (f a) (λ _, True)) → spec me v known (for_all l f) (λ _, True).
Proof.
  induction l as [|a l IH]; intros Hf; [by apply spec_ret|]. cbn.
  apply spec_then; [apply Hf; constructor|]. apply IH. intros. apply Hf. by constructor.
Qed.

(** An action that leaves the connections alone. *)
Lemma spec_act {A B} known (f : World W → B * World W) (h : B → outcome ConnectionError A) (Q : A → Prop) :
  (∀ w g, world_ok w g → facts me v known w g →
    world_ok (f w).2 g ∧ cells_grow w (f w).2 ∧ w_conns (f w).2 = w_conns w ∧ post (h (f w).1) Q) →
  spec me v known (Act f (λ b, Ret (h b))) Q.
Proof.
  intros Hact w g Hf w1 g1 Hr Hok. apply (facts_rely _ _ _ _ _ _ _ Hr) in Hf.
  destruct (Hact w1 g1 Hok Hf) as (H1 & H2 & H3 & H4). exists g1. split_and!; [done|..].
  - split; [done|]. intros other _. unfold leaves, view_of. by rewrite H3.
  - cbn. split; [done|]. destruct Hf as [Hself Hk]. split.
    + intros self Hs. unfold view_of. rewrite H3. by apply Hself.
    + eapply Forall_impl; [done|]. intros c. apply H2.
Qed.

(** Actions on parts of the world that the invariant does not mention. *)
Definition quiet w w' : Prop :=
  w_config w' = w_config w ∧ w_now w' = w_now w ∧ w_sessions w' = w_sessions w ∧ w_conns w' = w_conns w ∧
  w_channels w' = w_channels w ∧ w_connections w' = w_connections w ∧
  trie (w_subscriptions w') = trie (w_subscriptions w) ∧ w_wills w' = w_wills w.

Lemma quiet_ok w w' g :
  quiet w w' → world_ok w g → world_ok w' g ∧ cells_grow w w' ∧ w_conns w' = w_conns w.
Proof.
  intros (E1 & E2 & E3 & E4 & E5 & E6 & E7 & E8) Hok. split_and!; [by apply (world_ok_same w)| |done].
  intros c. unfold cell_exists. by rewrite E3.
Qed.

Lemma spec_quiet {A} known (f : World W → A * World W) (Q : A → Prop) :
  (∀ w g, world_ok w g → facts me v known w g → quiet w (f w).2 ∧ Q (f w).1) → spec me v known (action f) Q.
Proof.
  intros Hq. apply (spec_act known f Ok). intros w g Hok Hf. destruct (Hq w g Hok Hf) as [Hquiet Ha].
  destruct (quiet_ok _ _ _ Hquiet Hok) as (? & ? & ?). by split_and!.
Qed.

Lemma quiet_refl w : quiet w w.
Proof. by split_and!. Qed.

Lemma spec_ask {A} known (f : World W → A) (Q : A → Prop) :
  (∀ w g, world_ok w g → facts me v known w g → Q (f w)) → spec me v known (ask f) Q.
Proof. intros HQ. apply spec_quiet. intros w g Hok Hf. split; [apply quiet_refl|by eapply HQ]. Qed.

Lemma spec_now known : spec me v known now (λ t, t < latest_instant).
Proof. apply spec_ask. by intros w g []. Qed.

Lemma spec_config known : spec me v known config (λ c, c = cfg).
Proof. apply spec_ask. by intros w g []. Qed.

Lemma spec_change_quiet known (f : World W → World W) :
  (∀ w, quiet w (f w)) → spec me v known (change f) (λ _, True).
Proof. intros Hq. by apply spec_quiet. Qed.

Lemma spec_send_event known e : spec me v known (send_event e) (λ _, True).
Proof. apply spec_change_quiet. by intros w. Qed.

Lemma spec_persist known op : spec me v known (persist op) (λ _, True).
Proof. apply spec_change_quiet. by intros w. Qed.

Lemma spec_publish_sent known n : spec me v known (publish_sent n) (λ _, True).
Proof. apply spec_change_quiet. by intros w. Qed.

Context (Hse : setting_ok se).

Lemma world_limits w g c s : world_ok w g → cells (w_sessions w) !! c = Some s → limits_ok s.
Proof.
  intros Hok Hs. pose proof (wo_incoming _ _ Hok _ _ Hs) as Hi. pose proof (wo_cells _ _ Hok _ _ Hs) as [_ Hm _ _].
  destruct Hse as (_ & _ & _ & Hlim & _). cbn in *. unfold limits_ok. lia.
Qed.

(** Under the lock of a session that is known to exist. *)
Lemma spec_lock_session {B} known c (f : Z → Session → outcome ConnectionError (B * Session)) (Q : B → Prop) :
  c ∈ known →
  (∀ t s, session_ok s → limits_ok s →
    post (f t s) (λ r, session_ok r.2 ∧ s_client_id r.2 = s_client_id s ∧
      (size (s_inflight_incoming r.2) ≤ size (s_inflight_incoming s))%nat ∧ Q r.1)) →
  spec me v known (lock_session c f) Q.
Proof.
  intros Hc Hf. apply (spec_act known _ (λ r, r)). intros w g Hok [_ Hk].
  destruct (proj1 (Forall_forall _ _) Hk c Hc) as [s Hs]. rewrite Hs.
  pose proof (wo_cells _ _ Hok _ _ Hs) as Hsok. specialize (Hf (w_now w) s Hsok (world_limits _ _ _ _ Hok Hs)).
  destruct (f (w_now w) s) as [[b s']|e| |]; cbn in Hf; try done; cbn [fst snd].
  2:{ split_and!; [done|by intros ? ?|done..]. }
  destruct Hf as (Hs' & Hcl & Hsize & HQ). split_and!; [|by eapply cell_exists_modify|done..].
  apply world_ok_set_sessions with g; [|by apply (wo_receiving _ _ Hok)|by eapply cell_exists_modify|done].
  apply sessions_ok_modify with s g; [done..| |done|by apply world_ok_sessions].
  pose proof (wo_incoming _ _ Hok _ _ Hs) as Hi. cbn in *. lia.
Qed.

(** The part of a session that the invariant speaks about is left alone. *)
Lemma session_ok_same s s' :
  same_flow s s' → s_keep_alive s' = s_keep_alive s → session_ok s → session_ok s'.
Proof.
  intros Hs Hk []. pose proof Hs as (_ & _ & _ & E4 & E5 & _).
  split; [by apply (session_wf_same s)|congruence|congruence|by rewrite Hk].
Qed.

Lemma spec_write_session {B} known c (f : Z → Session → B * Session) (Q : B → Prop) :
  c ∈ known →
  (∀ t s, session_ok s →
    session_ok (f t s).2 ∧ s_client_id (f t s).2 = s_client_id s ∧
    (size (s_inflight_incoming (f t s).2) ≤ size (s_inflight_incoming s))%nat ∧ Q (f t s).1) →
  spec me v known (write_session c f) Q.
Proof. intros Hc Hf. apply spec_lock_session; [done|]. intros t s Hs _. by apply Hf. Qed.

Lemma spec_update_session known c (f : Session → Session) :
  c ∈ known →
  (∀ s, session_ok s → session_ok (f s) ∧ s_client_id (f s) = s_client_id s ∧
    (size (s_inflight_incoming (f s)) ≤ size (s_inflight_incoming s))%nat) →
  spec me v known (update_session c f) (λ _, True).
Proof.
  intros Hc Hf. apply spec_write_session; [done|]. intros t s Hs. destruct (Hf s Hs) as (? & ? & ?). by split_and!.
Qed.

Lemma spec_read_session {B} known c (f : Session → B) (Q : B → Prop) :
  c ∈ known → (∀ s, session_ok s → Q (f s)) → spec me v known (read_session c f) Q.
Proof. intros Hc Hf. apply spec_write_session; [done|]. intros t s Hs. split_and!; [done|done|done|by apply Hf]. Qed.
End invariant.

(** ** Rules for the connection's own state *)
Section own.
Context {W : Type} (se : setting) {self : nat}.
Implicit Types w : World W.
Implicit Types known : list nat.
Implicit Types v : State * Decoder * list byte * Z.
Abbreviation own_spec := (spec (W := W) se (Some self)).

Lemma facts_own v known w g : facts (Some self) v known w g → ∃ c, w_conns w !! self = Some c ∧ conn_view c = v.
Proof.
  intros [H _]. destruct (H self eq_refl) as [H1 _]. unfold view_of in H1.
  destruct (w_conns w !! self) as [c|]; [|done]. injection H1 as H1. eauto.
Qed.

Lemma spec_ask_self {B} v known (f : Connection → B) (Q : B → Prop) :
  (∀ c, conn_view c = v → Q (f c)) → own_spec v known (ask_self self f) Q.
Proof.
  intros HQ. apply (spec_act se known _ (λ r, r)). intros w g Hok Hf.
  destruct (facts_own _ _ _ _ Hf) as (c & -> & Hv). split_and!; [done|by intros ? ?|done|by apply HQ].
Qed.

(** Handlers that change the connection's own state: [Q] also says how. *)
Definition vspec {A} v known (m : handler W A)
    (Q : A → State * Decoder * list byte * Z → Prop) : Prop :=
  ∀ w g, facts (Some self) v known w g →
    wp (world_ok se) (rely (Some self)) (guar (Some self)) m
      (λ r w' g', ∃ v', post r (λ a, Q a v') ∧ facts (Some self) v' known w' g') w g.

Lemma spec_vspec {A} v known (m : handler W A) (Q : A → Prop) Q' :
  spec se (Some self) v known m Q → (∀ a, Q a → Q' a v) → vspec v known m Q'.
Proof.
  intros Hm HQ w g Hf. eapply wp_mono; [|by apply Hm]. intros r w' g' [Hr Hf']. exists v. split; [|done].
  by eapply post_mono.
Qed.

Lemma vspec_bind {A B} v known (m : handler W A) (k : A → handler W B) Q Q' :
  vspec v known m Q → (∀ a v', Q a v' → vspec v' known (k a) Q') → vspec v known (m ≫= k) Q'.
Proof.
  intros Hm Hk w g Hf. apply wp_bind. eapply wp_mono; [|by apply Hm]. intros r w' g' (v' & Hr & Hf').
  destruct r as [a|e| |]; cbn in *; try done; [by eapply Hk|by exists v'].
Qed.

Lemma world_ok_conn c c' w g :
  w_conns w !! self = Some c → connection_ok w self c' → world_ok se w g → world_ok se (w <| w_conns ::= <[self := c']> |>) g.
Proof.
  intros Hc Hc' []. split; try done.
  - cbn. etrans; [done|]. rewrite dom_insert. set_solver.
  - cbn. rewrite map_size_insert_Some by eauto. done.
  - cbn. by apply map_Forall_insert_2.
Qed.

(** An action on the connection alone. *)
Lemma wp_act_self {A B} v known (act : World W → B * World W) (h : B → outcome ConnectionError A)
    (Φ : outcome ConnectionError A → State * Decoder * list byte * Z → Prop) w g :
  (∀ w g c, world_ok se w g → facts (Some self) v known w g → w_conns w !! self = Some c → conn_view c = v →
     ∃ c', (act w).2 = w <| w_conns ::= <[self := c']> |> ∧ connection_ok w self c' ∧ Φ (h (act w).1) (conn_view c')) →
  facts (Some self) v known w g →
  wp (world_ok se) (rely (Some self)) (guar (Some self)) (Act act (λ b, Ret (h b)))
    (λ r w' g', ∃ v', Φ r v' ∧ facts (Some self) v' known w' g') w g.
Proof.
  intros Hact Hf w1 g1 Hr Hok. apply (facts_rely _ _ _ _ _ _ _ Hr) in Hf.
  destruct (facts_own _ _ _ _ Hf) as (c & Hc & Hv). destruct (Hact w1 g1 c Hok Hf Hc Hv) as (c' & -> & Hc' & Hp).
  exists g1. split_and!; [by eapply world_ok_conn| |].
  - split; [by intros ? ?|]. intros other Ho. unfold leaves, view_of. cbn.
    by rewrite lookup_insert_ne by congruence.
  - cbn. exists (conn_view c'). split; [done|]. destruct Hf as [Hs Hk]. split; [|done].
    intros ? [= <-]. unfold view_of. cbn. rewrite lookup_insert_eq. by destruct (Hs self eq_refl).
Qed.

Lemma vspec_act {A B} v known (act : World W → B * World W) (h : B → outcome ConnectionError A) Q :
  (∀ w g c, world_ok se w g → facts (Some self) v known w g → w_conns w !! self = Some c → conn_view c = v →
     ∃ c', (act w).2 = w <| w_conns ::= <[self := c']> |> ∧ connection_ok w self c' ∧
       post (h (act w).1) (λ a, Q a (conn_view c'))) →
  vspec v known (Act act (λ b, Ret (h b))) Q.
Proof. intros Hact w g Hf. by apply (wp_act_self v known act h (λ r v', post r (λ a, Q a v'))). Qed.

(** The action keeps what the task knows of its connection. *)
Lemma connection_ok_view w c c' :
  conn_view c' = conn_view c → c_channel c' = c_channel c → connection_ok w self c → connection_ok w self c'.
Proof. unfold connection_ok. by intros [= -> -> _ _] ->. Qed.

Lemma spec_act_self {A B} v known (act : World W → B * World W) (h : B → outcome ConnectionError A) (Q : A → Prop) :
  (∀ w c, w_conns w !! self = Some c → conn_view c = v →
     ∃ c', (act w).2 = w <| w_conns ::= <[self := c']> |> ∧ conn_view c' = conn_view c ∧ c_channel c' = c_channel c ∧
       post (h (act w).1) Q) →
  own_spec v known (Act act (λ b, Ret (h b))) Q.
Proof.
  intros Hact w g Hf. eapply wp_mono; [|apply (wp_act_self v known act h (λ r v', post r Q ∧ v' = v)); [|done]].
  - by intros r w' g' (v' & (? & ->) & ?).
  - intros w1 g1 c Hok _ Hc Hv. destruct (Hact w1 c Hc Hv) as (c' & E & Hv' & Hch & Hp). exists c'.
    split_and!; [done| |done|congruence]. apply (connection_ok_view _ c); [done..|]. by apply (wo_conns _ _ _ Hok self).
Qed.

Lemma spec_change_self v known (f : Connection → Connection) :
  (∀ c, conn_view (f c) = conn_view c ∧ c_channel (f c) = c_channel c) →
  own_spec v known (change_self self f) (λ _, True).
Proof.
  intros Hf. apply (spec_act_self v known _ Ok). intros w c Hc Hv. exists (f c). destruct (Hf c) as [? ?].
  split_and!; [|done..]. cbn. unfold set_field. cbn. f_equal. by apply alter_alt_Some.
Qed.

Lemma spec_encode_packet v known p : own_spec v known (encode_packet self p) (λ _, True).
Proof.
  apply (spec_bind _ _ _ _ (λ _, True)); [by apply spec_ask_self|]. intros e _. apply spec_outcome.
  pose proof (encode_safe e p []) as H. by destruct (encode e p []) as [? [| | |]].
Qed.

Lemma spec_encode_anyway v known p : own_spec v known (encode_anyway self p) (λ _, True).
Proof.
  apply (spec_bind _ _ _ _ (λ _, True)); [by apply spec_ask_self|]. intros e _. apply spec_outcome.
  pose proof (encode_safe e p []) as H. by destruct (encode e p []) as [? [| | |]].
Qed.

Lemma spec_write_all v known buf : own_spec v known (write_all self buf) (λ _, True).
Proof.
  apply (spec_act_self v known _ (λ r, r)). intros w c Hc Hv. rewrite Hc. destruct (c_writable c).
  - eexists. by split_and!.
  - exists c. split_and!; [|done..]. unfold set_field. cbn. rewrite insert_id by done. by destruct w.
Qed.

Lemma spec_send_packet v known p : own_spec v known (send_packet self p) (λ _, True).
Proof. apply (spec_bind _ _ _ _ (λ _, True)); [apply spec_encode_packet|]. intros buf _. apply spec_write_all. Qed.
End own.

(** ** Rules for the shared tables *)
Section shared.
Context {W : Type} (se : setting) (Hse : setting_ok se) {me : option nat} {v : State * Decoder * list byte * Z}.
Implicit Types w : World W.
Implicit Types known : list nat.
Abbreviation spec := (spec (W := W) se me v).
Abbreviation gspec := (gspec (W := W) se me v).

Lemma spec_ignore_errors known (m : handler W unit) :
  spec known m (λ _, True) → spec known (ignore_errors m) (λ _, True).
Proof.
  intros Hm w g Hf. apply wp_bind. eapply wp_mono; [|by apply Hm]. intros r w' g' [Hr Hf']. cbn.
  by destruct r as [[]|e| |].
Qed.

(** A channel takes what the invariant allows. *)
Lemma try_send_ok w g n p : queued_ok p → world_ok se w g → world_ok se (try_send n p w) g.
Proof.
  intros Hp Hok.
  assert (Hdom : ∀ n', is_Some (w_channels (try_send n p w) !! n') ↔ is_Some (w_channels w !! n')).
  { intros n'. cbn. rewrite lookup_alter. destruct (decide _) as [<-|]; [by rewrite fmap_is_Some|done]. }
  destruct Hok. split; try done.
  - intros i c Hc. destruct (wo_conns0 i c Hc) as (H0 & H1 & H2). split_and!; [done|by apply Hdom|done].
  - intros i ch. cbn. rewrite lookup_alter. destruct (decide _) as [<-|]; [|by apply wo_channels0].
    intros (ch0 & Hch & ->)%fmap_Some. destruct (wo_channels0 n ch0 Hch) as [H1 H2].
    unfold accepts_packet. destruct (ch_open ch0 && _) eqn:Ha; [|by split]. split; cbn.
    + apply Forall_app. split; [done|]. by apply Forall_singleton.
    + apply andb_true_iff in Ha as [_ Ha]. rewrite wo_config0 in Ha. rewrite zlen_app. change (zlen [p]) with 1. lia.
  - intros client n' Hn. apply Hdom. by apply (wo_registry0 client).
Qed.

Lemma spec_try_send_to known client p : queued_ok p → spec known (try_send_to client p) (λ _, True).
Proof.
  intros Hp. apply (spec_act se known _ Ok). intros w g Hok _. destruct (w_connections w !! client) as [n|]; cbn [fst snd].
  - split_and!; [by apply try_send_ok|by intros ? ?|done..].
  - split_and!; [done|by intros ? ?|done..].
Qed.

Lemma spec_matching known topic : spec known (matching_subscriptions topic) (λ _, True).
Proof.
  apply spec_quiet. intros w g _ _.
  assert (Ht : trie (store_matches topic (w_subscriptions w)).2 = trie (w_subscriptions w)).
  { unfold store_matches. destruct (compute_matches topic (w_subscriptions w)) as [[? ?] ?].
    repeat case_match; by simplify_eq/=. }
  destruct (store_matches topic (w_subscriptions w)) as [subs st]. by split.
Qed.

Lemma spec_hook {A} known (f : W → A * W) :
  spec known (action (fun w => let '(r, h) := f (w_hooks w) in (r, w <| w_hooks := h |>))) (λ _, True).
Proof. apply spec_quiet. intros w g _ _. by destruct (f (w_hooks w)). Qed.

(** Tables of subscriptions whose trie is well formed. *)
Lemma spec_subscriptions {A} known (f : SubscriptionStore → A * SubscriptionStore) :
  (∀ st, trie_ok (trie st) → trie_ok (trie (f st).2)) →
  spec known (action (fun w => let '(r, st) := f (w_subscriptions w) in (r, w <| w_subscriptions := st |>))) (λ _, True).
Proof.
  intros Hst. apply (spec_act se known _ Ok). intros w g Hok _.
  pose proof (Hst _ (wo_trie _ _ _ Hok)) as Ht. destruct (f (w_subscriptions w)) as [r st]. cbn [fst snd] in *.
  split_and!; [|by intros ? ?|done..]. by destruct Hok; split.
Qed.

(** The registry of connections. *)
Lemma spec_unregister known client : spec known (change (fun w => w <| w_connections ::= delete client |>)) (λ _, True).
Proof.
  apply (spec_act se known _ Ok). intros w g Hok _. split_and!; [|by intros ? ?|done..].
  destruct Hok; split; try done. cbn. by apply map_Forall_delete.
Qed.

(** The table of sessions. *)
Lemma spec_set_sessions {A} known (f : World W → A * SessionStore) (Q : A → Prop) :
  (∀ w g, world_ok se w g → sessions_ok se (f w).2 g ∧ cells_grow w (w <| w_sessions := (f w).2 |>) ∧ Q (f w).1) →
  spec known (action (fun w => ((f w).1, w <| w_sessions := (f w).2 |>))) Q.
Proof.
  intros Hf. apply (spec_act se known _ Ok). intros w g Hok _. destruct (Hf w g Hok) as (Hst & Hgrow & HQ).
  split_and!; [|done..]. apply world_ok_set_sessions with g; [done|by apply (wo_receiving _ _ _ Hok)|done..].
Qed.

(** A cell that a task gets hold of exists from then on. *)
Lemma gspec_learn {A B} known (act : World W → A * World W) (k : A → handler W B) (cell : A → option nat) Φ :
  (∀ w g, world_ok se w g → facts me v known w g →
    world_ok se (act w).2 g ∧ cells_grow w (act w).2 ∧ w_conns (act w).2 = w_conns w ∧
    (∀ c, cell (act w).1 = Some c → cell_exists c (act w).2)) →
  (∀ a, gspec (option_list (cell a) ++ known) (k a) Φ) →
  gspec known (action act ≫= k) Φ.
Proof.
  intros Hact Hk w g Hf w1 g1 Hr Hok. apply (facts_rely _ _ _ _ _ _ _ Hr) in Hf.
  destruct (Hact w1 g1 Hok Hf) as (H1 & H2 & H3 & H4). exists g1. split_and!; [done|..].
  - split; [done|]. intros other _. unfold leaves, view_of. by rewrite H3.
  - apply Hk. destruct Hf as [Hself Hkn]. split.
    + intros self Hs. unfold view_of. rewrite H3. by apply Hself.
    + apply Forall_app. split.
      * destruct (cell (act w1).1) as [c|] eqn:Hc; [|constructor]. cbn. apply Forall_singleton. by apply H4.
      * eapply Forall_impl; [done|]. intros c. apply H2.
Qed.

Lemma spec_forget {A} known l (m : handler W A) Q :
  spec (l ++ known) m Q → gspec (l ++ known) m (λ r w' g', post r Q ∧ facts me v known w' g').
Proof.
  intros Hm w g Hf. eapply wp_mono; [|by apply Hm]. intros r w' g' [Hp [Hs Hkn]]. split; [done|].
  split; [done|]. by apply Forall_app in Hkn as [_ ?].
Qed.

Lemma spec_get_session {B} known client (k : option nat → handler W B) Q :
  (∀ o, spec (option_list o ++ known) (k o) Q) →
  spec known (ask (fun w => get_session client (w_sessions w)) ≫= k) Q.
Proof.
  intros Hk. apply (gspec_learn known _ k id); [|intros o; apply spec_forget, Hk].
  intros w g Hok _. split_and!; [done|by intros ? ?|done|].
  cbn. intros c Hc. pose proof (sw_cells _ (wo_sessions _ _ _ Hok) _ _ Hc) as H. cbn in H.
  unfold cell_exists. by destruct (cells (w_sessions w) !! c).
Qed.

Lemma gspec_assoc {A B C} known (m : handler W A) (f : A → handler W B) (k : B → handler W C) Φ :
  gspec known (m ≫= λ a, f a ≫= k) Φ → gspec known ((m ≫= f) ≫= k) Φ.
Proof.
  intros H w g Hf. specialize (H w g Hf). revert H. generalize w g. clear Hf w g. unfold mbind, handler_bind.
  induction m as [r|D act k' IH]; intros w g; cbn.
  - by destruct r.
  - intros H w1 g1 Hr Hok. destruct (H w1 g1 Hr Hok) as (g2 & ? & ? & ?). exists g2. split_and!; [done..|]. by apply IH.
Qed.

Definition limits_of (limits : SessionLimits) : Prop :=
  lim_max_inflight limits = bc_max_inflight (se_config se) ∧ lim_max_awaiting_rel limits = bc_max_awaiting_rel (se_config se).

Lemma create_ok t client ver limits w g :
  limits_of limits → world_ok se w g → sessions_ok se (create_session t client ver limits (w_sessions w)).2 g.
Proof.
  intros [Hi Ha] Hok. pose proof (world_ok_sessions _ _ _ Hok) as [H1 H2 H3]. destruct Hse as (Hs1 & Hs2 & Hs3 & _).
  split; [apply create_wf; [by rewrite Hi|done]| |]; apply map_Forall_insert_2; try done.
  - split; [apply session_wf_new; by rewrite Hi|done..].
  - change (s_inflight_incoming (Session_new t client ver limits)) with (∅ : gmap Z Publish). rewrite map_size_empty.
    pose proof (world_receiving se (next_cell (w_sessions w)) w g Hok). lia.
Qed.

Lemma create_grows t client ver limits w :
  sessions_wf (w_sessions w) → cells_grow w (w <| w_sessions := (create_session t client ver limits (w_sessions w)).2 |>).
Proof.
  intros Hwf c Hc. unfold cell_exists. cbn. destruct (decide (c = next_cell (w_sessions w))) as [->|].
  - rewrite lookup_insert_eq. by eexists.
  - by rewrite lookup_insert_ne.
Qed.

(** A change of the session in a cell that leaves its flow control alone. *)
Lemma modify_ok c f w g :
  (∀ s, same_flow s (f s) ∧ s_keep_alive (f s) = s_keep_alive s ∧ s_client_id (f s) = s_client_id s) →
  world_ok se w g →
  world_ok se (w <| w_sessions ::= modify_session c f |>) g ∧ cells_grow w (w <| w_sessions ::= modify_session c f |>).
Proof.
  intros Hf Hok. assert (Hgrow := cell_exists_modify c f w _ eq_refl). split; [|exact Hgrow].
  apply world_ok_set_sessions with g; [|by apply (wo_receiving _ _ _ Hok)|exact Hgrow|done].
  destruct (cells (w_sessions w) !! c) as [s|] eqn:Hs.
  - destruct (Hf s) as (Hsame & Hk & Hcl). apply (sessions_ok_modify se c f _ s g); [done| |done| |done|by apply world_ok_sessions].
    + apply (session_ok_same se s); [done..|]. by apply (wo_cells _ _ _ Hok c).
    + destruct Hsame as (_ & _ & -> & _). apply (wo_incoming _ _ _ Hok c s Hs).
  - replace (modify_session c f (w_sessions w)) with (w_sessions w); [by apply world_ok_sessions|].
    unfold modify_session, set_field. destruct (w_sessions w) as [se0 ce ne]. cbn in *. f_equal. symmetry.
    apply map_eq. intros c'. rewrite lookup_alter. by destruct (decide _) as [<-|]; [rewrite Hs|].
Qed.

Lemma gspec_create {B} known client ver limits (k : nat * bool → handler W B) Φ :
  limits_of limits → (∀ c b, gspec (c :: known) (k (c, b)) Φ) →
  gspec known (action (fun w =>
    let '(r, st) := create_session (w_now w) client ver limits (w_sessions w) in (r, w <| w_sessions := st |>)) ≫= k) Φ.
Proof.
  intros Hl Hk. apply (gspec_learn known _ k (λ r, Some r.1)); [|intros [c b]; apply Hk].
  intros w g Hok _. set (st := (create_session (w_now w) client ver limits (w_sessions w)).2).
  assert (Hgrow := create_grows (w_now w) client ver limits w (wo_sessions _ _ _ Hok)).
  split_and!; [|exact Hgrow|done|].
  - apply (world_ok_set_sessions se st w g g); [by apply create_ok|by apply (wo_receiving _ _ _ Hok)|exact Hgrow|done].
  - intros c [= <-]. unfold cell_exists. cbn. rewrite lookup_insert_eq. by eexists.
Qed.

Lemma gspec_get_or_create {B} known client ver clean limits (k : nat * bool → handler W B) Φ :
  limits_of limits → (∀ c b, gspec (c :: known) (k (c, b)) Φ) →
  gspec known (get_or_create_session client ver clean limits ≫= k) Φ.
Proof.
  intros Hl Hk. unfold get_or_create_session. destruct clean; [by apply gspec_create|].
  apply gspec_assoc. apply (gspec_learn known _ _ id).
  - intros w g Hok _.
    assert (Hnone : world_ok se w g ∧ cells_grow w w ∧ w_conns w = w_conns w ∧ (∀ c, None = Some c → cell_exists c w))
      by (split_and!; [done|by intros ? ?|done..]).
    destruct (sessions (w_sessions w) !! client) as [c|]; [|done].
    destruct (cells (w_sessions w) !! c) as [s|] eqn:Hs; [|done]. destruct (negb _); [|done].
    destruct (modify_ok c (resume ver) w g) as [H1 H2]; [done..|]. split_and!; [done..|].
    intros ? [= <-]. apply H2. by eexists.
  - intros [c|]; cbn [option_list app]; [apply Hk|]. by apply gspec_create.
Qed.

Lemma spec_disconnect_session known client : spec known (disconnect_session client) (λ _, True).
Proof.
  apply (spec_bind _ _ _ _ (λ _, True)).
  - apply (spec_act se known _ Ok). intros w g Hok _. destruct (sessions (w_sessions w) !! client) as [c|]; cbn [fst snd].
    + destruct (modify_ok c (mark_disconnected (w_now w)) w g) as [H1 H2]; [done..|]. by split_and!.
    + split_and!; [done|by intros ? ?|done..].
  - intros [] _; [|by apply spec_ret]. apply (spec_act se known _ Ok). intros w g Hok _.
    split_and!; [|by intros ? ?|done..].
    apply (world_ok_set_sessions se (remove_session client (w_sessions w)) w g g);
      [|by apply (wo_receiving _ _ _ Hok)|by intros ? ?|done].
    pose proof (world_ok_sessions _ _ _ Hok) as []. by split; [apply remove_session_wf|..].
Qed.

Lemma spec_schedule known client c delay t :
  c ∈ known →
  spec known (change (fun w => w <| w_wills ::= (fun l => l ++ [MkDelayedWill (w_now w + delay) client c t]) |>)) (λ _, True).
Proof.
  intros Hc. apply (spec_act se known _ Ok). intros w g Hok [_ Hk]. split_and!; [|by intros ? ?|done..].
  destruct Hok; split; try done. cbn. apply Forall_app. split; [done|]. apply Forall_singleton.
  by apply (proj1 (Forall_forall _ _) Hk).
Qed.
End shared.

Create HintDb spec.
#[export] Hint Resolve spec_ret spec_fail spec_now spec_config spec_send_event spec_persist spec_publish_sent
  spec_encode_packet spec_encode_anyway spec_write_all spec_send_packet spec_ignore_errors spec_matching spec_unregister
  spec_disconnect_session : spec.
