(* ===== verification/Safety.v ===== *)
(** * The handlers keep the invariant

    Every handler of [Connection] and every background task, shown to keep the
    invariant of [Invariant] at each of its actions, to stay within its
    guarantee and not to panic, whatever the other tasks do in between. *)

From S2P Require Import Prelude Protocol Codec Properties Packet Decode Encode Wire CodecTheorems.
From S2P Require Import TopicValidation TopicTrie SubscriptionStore Session Hooks Persistence Broker Connection Routing Handlers Tasks Invariant.

(** One step through a handler; [spec] proves what is called. *)
Ltac spec_step :=
  match goal with
  | |- spec _ _ _ _ (mret _) _ => apply spec_ret; done
  | |- spec _ _ _ _ (fail _) _ => apply spec_fail
  | |- spec _ _ _ _ (violation _) _ => apply spec_fail
  | |- spec _ _ _ _ (config ≫= _) _ => apply (spec_bind _ _ _ _ _ _ (spec_config _ _)); intros ? ->
  | |- spec _ _ _ _ (now ≫= _) _ => apply (spec_bind _ _ _ _ _ _ (spec_now _ _)); intros ? ?
  | |- spec _ _ _ _ (_ ≫= _) _ => apply (spec_bind _ _ _ _ (λ _, True)); [solve [eauto 3 with spec]|intros ? _]
  | |- spec _ _ _ _ (for_all _ _) _ => apply spec_for_all; intros ? ?
  | |- spec _ _ _ _ _ _ => solve [eauto 3 with spec]
  | |- spec _ _ _ _ (if ?b then _ else _) _ => destruct b eqn:?
  | |- spec _ _ _ _ (match ?x with _ => _ end) _ => destruct x eqn:?
  end.

(** ** Routing *)
Section routing.
Context {W : Type} (se : setting) (Hse : setting_ok se) {me : option nat} {v : State * Decoder * list byte * Z}.
Implicit Types known : list nat.
Abbreviation spec := (Invariant.spec (W := W) se me v).

Lemma session_ok_pending s q :
  zlen q ≤ Z.max 1 (s_max_pending_messages s) → session_ok se s → session_ok se (s <| s_pending_messages := q |>).
Proof. intros Hq []. split; [by apply session_wf_pending|done..]. Qed.

Lemma queue_message_ok t p s :
  session_ok se s →
  session_ok se (queue_message t p s).2 ∧ s_client_id (queue_message t p s).2 = s_client_id s ∧
  s_inflight_incoming (queue_message t p s).2 = s_inflight_incoming s ∧
  s_inflight_outgoing (queue_message t p s).2 = s_inflight_outgoing s.
Proof.
  intros []. pose proof (wf_queue_message t p s so_wf) as Hwf. rewrite queue_message_eq in *. cbn [snd] in *. by split.
Qed.

Lemma spec_deliver known client p : pub_packet_id p = None → spec known (deliver client p) (λ _, True).
Proof.
  intros Hp. apply (spec_bind _ _ _ _ (λ _, True)); [by apply spec_try_send_to|]. intros [] _; [spec_step|].
  apply spec_get_session. intros [c|]; [|spec_step]. apply (spec_bind _ _ _ _ (λ _, True)).
  - apply spec_write_session; [done|set_solver|]. intros t s Hs. destruct (negb (s_clean_start s)); [|done].
    destruct (queue_message_ok t p s Hs) as (H1 & H2 & H3 & _). destruct (queue_message t p s). cbn in *. by rewrite H3.
  - intros [] _; spec_step.
Qed.

Lemma outgoing_no_id p e : pub_packet_id (outgoing_for p e) = None.
Proof. unfold outgoing_for. by destruct (negb _). Qed.

Lemma spec_route known sender p : spec known (route_message sender p) (λ _, True).
Proof.
  unfold route_message. spec_step. apply spec_then; [|spec_step]. apply spec_for_all. intros e _.
  apply spec_deliver, outgoing_no_id.
Qed.

Lemma spec_route_will known sender p : spec known (route_will_message sender p) (λ _, True).
Proof.
  unfold route_will_message. spec_step. apply spec_then; [|spec_step]. apply spec_for_all. intros e _.
  apply spec_deliver, outgoing_no_id.
Qed.

Lemma spec_update_retained known topic payload qos props :
  spec known (update_retained topic payload qos props) (λ _, True).
Proof.
  unfold update_retained. spec_step.
  - apply spec_then; [by apply spec_change_quiet|spec_step].
  - spec_step. apply spec_then; [by apply spec_change_quiet|spec_step].
Qed.

Lemma spec_retain_publish known p : spec known (retain_publish p) (λ _, True).
Proof. unfold retain_publish. spec_step. spec_step; [apply spec_update_retained|spec_step]. Qed.

Lemma spec_deliver_silently known client p :
  pub_packet_id p = None → spec known (deliver_silently client p) (λ _, True).
Proof.
  intros Hp. apply (spec_bind _ _ _ _ (λ _, True)); [by apply spec_try_send_to|]. intros [] _; [spec_step|].
  apply spec_get_session. intros [c|]; [|spec_step].
  apply spec_write_session; [done|set_solver|]. intros t s Hs. destruct (negb (s_clean_start s)); [|done].
  destruct (queue_message_ok t p s Hs) as (H1 & H2 & H3 & _). cbn. by rewrite H3.
Qed.

Lemma spec_broker_publish known topic payload qos retain :
  spec known (broker_publish topic payload qos retain) (λ _, True).
Proof.
  unfold broker_publish. apply spec_then; [destruct retain; [apply spec_update_retained|spec_step]|].
  spec_step. apply spec_for_all. intros e _. by apply spec_deliver_silently.
Qed.

(** ** Acknowledgements *)
Lemma ack_ok id s :
  session_ok se s →
  session_ok se (increment_send_quota (s <| s_inflight_outgoing ::= delete id |>)) ∧
  s_client_id (increment_send_quota (s <| s_inflight_outgoing ::= delete id |>)) = s_client_id s ∧
  (size (s_inflight_incoming (increment_send_quota (s <| s_inflight_outgoing ::= delete id |>)))
    ≤ size (s_inflight_incoming s))%nat.
Proof.
  intros []. assert (Hwf := wf_increment _ (wf_ack id s so_wf)). unfold increment_send_quota in *.
  destruct (_ <? _); split_and!; try done; by split.
Qed.

Lemma spec_puback known session p : session ∈ known → spec known (handle_puback session p) (λ _, True).
Proof. intros Hc. apply spec_update_session; [done..|]. intros s. apply ack_ok. Qed.

Lemma spec_pubcomp known session p : session ∈ known → spec known (handle_pubcomp session p) (λ _, True).
Proof. intros Hc. apply spec_update_session; [done..|]. intros s. apply ack_ok. Qed.

(** The in-flight messages change, one by one, in what the invariant does not
    speak about. *)
Lemma inflight_change_ok (f : gmap Z InflightMessage → gmap Z InflightMessage) s :
  (∀ id m', f (s_inflight_outgoing s) !! id = Some m' →
    ∃ m, s_inflight_outgoing s !! id = Some m ∧ if_publish m' = if_publish m ∧ if_packet_id m' = if_packet_id m ∧
      (is_Some (if_qos2_state m) → is_Some (if_qos2_state m'))) →
  size (f (s_inflight_outgoing s)) = size (s_inflight_outgoing s) →
  session_ok se s → session_ok se (s <| s_inflight_outgoing ::= f |>).
Proof.
  intros Hf Hsize [[] ? ? ?]. split; [split|..]; try done; [|cbn; by rewrite Hsize].
  intros id m' Hm'. cbn in Hm'. destruct (Hf id m' Hm') as (m & Hm & E1 & E2 & E3).
  destruct (wf_outgoing id m Hm) as (? & ? & ? & ? & ?). unfold inflight_ok. rewrite E1, E2. split_and!; auto.
Qed.
End routing.

#[export] Hint Resolve spec_route spec_route_will spec_retain_publish spec_puback spec_pubcomp : spec.

(** ** The packets of a client *)
Section packets.
Context {W : Type} (hooks : Hooks W) (se : setting) (Hse : setting_ok se) {self : nat}.
Implicit Types known : list nat.
Implicit Types v : State * Decoder * list byte * Z.
Abbreviation spec := (Invariant.spec (W := W) se (Some self)).

Lemma spec_pubrec v known session p : session ∈ known → spec v known (handle_pubrec self session p) (λ _, True).
Proof.
  intros Hc. apply spec_then; [|spec_step]. apply spec_update_session; [done..|]. intros s Hs. split_and!; [|done..].
  apply inflight_change_ok; [|apply map_size_alter|done]. intros id m'. rewrite lookup_alter.
  destruct (decide _) as [<-|]; [|by eauto 10]. intros (m & -> & ->)%fmap_Some. exists m. by eauto.
Qed.

Lemma spec_pubrel v known client session p :
  session ∈ known → spec v known (handle_pubrel self client session p) (λ _, True).
Proof.
  intros Hc. apply (spec_bind _ _ _ _ (λ _, True)).
  - apply spec_write_session; [done..|]. intros t s []. split_and!; [|done| |done].
    + split; [by apply wf_released|done..].
    + apply map_subseteq_size, delete_subseteq.
  - intros o _. spec_step. destruct o; spec_step.
Qed.

Lemma spec_resend_one v known size r : spec v known (resend_one self size r) (λ _, True).
Proof. destruct r as [[id p] st]. unfold resend_one. repeat spec_step. Qed.

Lemma mark_resent_ok (f : InflightMessage → InflightMessage) s :
  (∀ m, if_publish (f m) = if_publish m ∧ if_packet_id (f m) = if_packet_id m ∧ if_qos2_state (f m) = if_qos2_state m) →
  session_ok se s → session_ok se (s <| s_inflight_outgoing ::= fmap f |>).
Proof.
  intros Hf Hs. apply inflight_change_ok; [|apply map_size_fmap|done].
  intros id m'. rewrite lookup_fmap. intros (m & -> & ->)%fmap_Some. exists m.
  destruct (Hf m) as (-> & -> & ->). by split_and!.
Qed.

Lemma spec_retry v known session : session ∈ known → spec v known (retry_unacked_messages self session) (λ _, True).
Proof.
  intros Hc. unfold retry_unacked_messages. do 2 spec_step. apply (spec_bind _ _ _ _ (λ _, True)).
  - apply spec_write_session; [done..|]. intros t s Hs. split_and!; [|done..].
    apply mark_resent_ok; [|done]. intros m. by destruct (_ >=? _).
  - intros l _. apply (spec_bind _ _ _ _ (λ _, True)); [by apply spec_read_session|]. intros size _.
    spec_step. apply spec_resend_one.
Qed.

(** ** Messages for the client *)

(** What the invariant needs of a change of a session. *)
Definition keeps (s s' : Session) : Prop :=
  session_ok se s' ∧ s_client_id s' = s_client_id s ∧
  (size (s_inflight_incoming s') ≤ size (s_inflight_incoming s))%nat.

Lemma keeps_queue t p s s0 : keeps s0 s → keeps s0 (queue_for_later t p s).2.
Proof.
  intros (H1 & H2 & H3). unfold queue_for_later. destruct (queue_message_ok se t p s H1) as (E1 & E2 & E3 & _).
  destruct (queue_message t p s) as [r s']. cbn in *. split_and!; [done|congruence|by rewrite E3].
Qed.

Lemma keeps_decrement s : session_ok se s → keeps s (decrement_send_quota s).2.
Proof.
  intros []. pose proof (wf_decrement s so_wf) as Hwf. unfold decrement_send_quota in *.
  destruct (_ >? 0); split_and!; try done; by split.
Qed.

Lemma keeps_increment s s0 : keeps s0 s → keeps s0 (increment_send_quota s).
Proof.
  intros ([] & H2 & H3). pose proof (wf_increment s so_wf) as Hwf. unfold increment_send_quota in *.
  destruct (_ <? _); split_and!; try done; by split.
Qed.

Lemma prepare_pending_ok t p s :
  session_ok se s → limits_ok s → pub_qos p ≠ AtMostOnce →
  post (prepare_pending t p s) (λ r, keeps s r.2).
Proof.
  intros Hs Hl Hq. unfold prepare_pending. pose proof (keeps_decrement s Hs) as Hd.
  assert (Hfix : s_inflight_outgoing (decrement_send_quota s).2 = s_inflight_outgoing s ∧
    s_inflight_incoming (decrement_send_quota s).2 = s_inflight_incoming s ∧
    s_max_inflight (decrement_send_quota s).2 = s_max_inflight s) by (unfold decrement_send_quota; by destruct (_ >? 0)).
  destruct (decrement_send_quota s) as [ok s1]. cbn [snd] in *. destruct Hfix as (E1 & E2 & E3).
  destruct (negb ok); [by apply keeps_queue|].
  destruct (Z.geb_spec (Z.of_nat (size (s_inflight_outgoing s1))) (s_max_inflight s1)) as [Hfull|Hroom].
  { by apply keeps_queue, keeps_increment. }
  destruct Hd as (Hok1 & Hcl & Hsz). pose proof Hok1 as [Hwf1 ? ? ?].
  destruct (next_packet_id_ok (E := ConnectionError) s1) as (id & n & -> & Hid & Hn & Hu);
    [apply Hwf1|apply ids_available; [done|]; unfold limits_ok in *; by rewrite E2, E3|]. cbn [mbind outcome_bind post].
  split_and!; [|done..]. split; [|done..]. apply wf_store_inflight; try done.
  - apply eq_None_not_Some. intros ?. apply Hu. by left.
  - destruct Hwf1. by split.
Qed.

Lemma prepare_outgoing_pending t p s : pub_packet_id p = None → prepare_outgoing t p s = prepare_pending t p s.
Proof.
  intros Hp. unfold prepare_outgoing, prepare_pending. destruct (decrement_send_quota s) as [ok s1].
  destruct (negb ok); [done|]. destruct (_ >=? _); [done|]. rewrite Hp. cbn [is_none is_some negb].
  by destruct (next_packet_id s1) as [[id s2]| | |].
Qed.

Lemma spec_write_publish v known size p : spec v known (write_publish self size p) (λ _, True).
Proof. unfold write_publish. repeat spec_step. Qed.

Lemma qos_not_0 q : negb (bool_decide (q = AtMostOnce)) = true → q ≠ AtMostOnce.
Proof. by destruct q. Qed.

Lemma spec_send_prepared v known size (prepare : handler W sending) :
  spec v known prepare (λ _, True) →
  spec v known (prepared ← prepare;
    match prepared with
    | SendNow publish => write_publish self size publish
    | QueuedFor dropped => if (dropped : bool) then send_event MessageDropped else mret tt
    end) (λ _, True).
Proof.
  intros Hp. apply (spec_bind _ _ _ _ (λ _, True)); [done|]. intros [p|[]] _; [apply spec_write_publish|spec_step..].
Qed.

Lemma spec_outgoing_packet v known session p :
  session ∈ known → queued_ok p → spec v known (handle_outgoing_packet self session p) (λ _, True).
Proof.
  intros Hc Hp. destruct p as [| |p| | | | | | | | | | | |]; cbn in Hp; try done; cbn [handle_outgoing_packet].
  - apply (spec_bind _ _ _ _ (λ _, True)); [by apply spec_read_session|]. intros size _. apply spec_send_prepared.
    spec_step; [|spec_step]. apply spec_lock_session; [done..|]. intros t s Hs Hl.
    rewrite prepare_outgoing_pending by done. eapply post_mono; [by apply prepare_pending_ok, qos_not_0|].
    intros r (? & ? & ?). by split_and!.
  - apply (spec_bind _ _ _ _ (λ _, True)); [apply spec_encode_anyway|]. intros buf _.
    apply spec_then; [|spec_step]. apply spec_ignore_errors. spec_step.
Qed.

Lemma spec_send_pending_one v known session size p :
  session ∈ known → spec v known (send_pending_one self session size p) (λ _, True).
Proof.
  intros Hc. apply spec_send_prepared. spec_step; [|spec_step]. apply spec_lock_session; [done..|]. intros t s Hs Hl.
  eapply post_mono; [by apply prepare_pending_ok, qos_not_0|]. intros r (? & ? & ?). by split_and!.
Qed.

Lemma spec_send_pending v known session : session ∈ known → spec v known (send_pending_messages self session) (λ _, True).
Proof.
  intros Hc. apply (spec_bind _ _ _ _ (λ _, True)).
  - apply spec_write_session; [done..|]. intros t s []. split_and!; [|done..]. split; [by apply (wf_drain t s)|done..].
  - intros [pending size] _. spec_step. by apply spec_send_pending_one.
Qed.

Lemma spec_resend_inflight v known session :
  session ∈ known → spec v known (resend_inflight_messages self session) (λ _, True).
Proof.
  intros Hc. apply (spec_bind _ _ _ _ (λ _, True)).
  - apply spec_write_session; [done..|]. intros t s Hs. split_and!; [|done..]. by apply mark_resent_ok.
  - intros [l size] _. spec_step. apply spec_resend_one.
Qed.

(** ** SUBSCRIBE *)
Lemma spec_send_retained v known session qos sub_id rm :
  session ∈ known → spec v known (send_retained self session qos sub_id rm) (λ _, True).
Proof.
  intros Hc. unfold send_retained. spec_step. spec_step; [|spec_step]. apply (spec_bind _ _ _ _ (λ _, True)).
  - spec_step; [|spec_step]. apply (spec_bind _ _ _ _ (λ _, True)); [|intros id _; spec_step].
    apply spec_lock_session; [done..|]. intros t s [Hwf ? ? ?] Hl.
    destruct (next_packet_id_ok (E := ConnectionError) s) as (id & n & -> & Hid & Hn & _);
      [apply Hwf|by apply ids_available|]. cbn. split_and!; [|done..]. split; [destruct Hwf; by split|done..].
  - intros p' _. repeat spec_step.
Qed.

Lemma spec_send_retained_messages v known f qos session sub_id :
  session ∈ known → spec v known (send_retained_messages self f qos session sub_id) (λ _, True).
Proof.
  intros Hc. apply (spec_bind _ _ _ _ (λ _, True)); [by apply spec_ask|]. intros l _. spec_step. by apply spec_send_retained.
Qed.

Lemma subscribe_trie_ok f sub st : trie_ok (trie st) → trie_ok (trie (subscribe f sub st)).
Proof.
  intros Ht. destruct (subscribe_eq f sub st) as [counters ->]. rewrite trie_invalidate. by apply trie_ok_subscribe.
Qed.

Lemma spec_grant v known client session sub_id sub :
  session ∈ known → spec v known (grant_subscription client session sub_id sub) (λ _, True).
Proof.
  intros Hc. unfold grant_subscription. spec_step. cbv zeta.
  apply (spec_bind _ _ _ _ (λ _, True)); [by apply spec_read_session|]. intros existed _.
  apply spec_then.
  { apply (spec_subscriptions se known (fun st => (tt, subscribe _ _ st))). intros st. apply subscribe_trie_ok. }
  apply spec_then; [|repeat spec_step]. apply spec_update_session; [done..|]. intros s Hs.
  split_and!; [by apply (session_ok_same se s)|done..].
Qed.

Lemma spec_subscribe_one v known client session sub_id sub :
  session ∈ known → spec v known (subscribe_one hooks self client session sub_id sub) (λ _, True).
Proof.
  intros Hc. unfold subscribe_one. spec_step. cbv zeta. spec_step; [|spec_step..]. spec_step; [spec_step|].
  apply (spec_bind _ _ _ _ (λ _, True)).
  - apply (spec_bind _ _ _ _ (λ _, True)); [by apply spec_ask_self|]. intros u _. apply (spec_hook se known).
  - intros [[]|] _; [by apply spec_grant|spec_step..].
Qed.

Lemma spec_subscribe_all v known client session sub_id subs :
  session ∈ known → spec v known (subscribe_all hooks self client session sub_id subs) (λ _, True).
Proof.
  intros Hc. induction subs as [|sub subs IH]; [spec_step|]. cbn [subscribe_all].
  apply (spec_bind _ _ _ _ (λ _, True)); [by apply spec_subscribe_one|]. intros o _.
  apply (spec_bind _ _ _ _ (λ _, True)); [done|]. intros os _. spec_step.
Qed.

Lemma spec_subscribe v known client session p :
  session ∈ known → spec v known (handle_subscribe hooks self client session p) (λ _, True).
Proof.
  intros Hc. unfold handle_subscribe. cbv zeta. apply (spec_bind _ _ _ _ (λ _, True)); [by apply spec_subscribe_all|].
  intros os _. spec_step. spec_step. spec_step; [by apply spec_send_retained_messages|spec_step].
Qed.

Lemma spec_unsubscribe_one v known client session f :
  session ∈ known → spec v known (unsubscribe_one client session f) (λ _, True).
Proof.
  intros Hc. unfold unsubscribe_one. apply (spec_bind _ _ _ _ (λ _, True)).
  - apply (spec_act se known _ Ok). intros w g Hok _.
    assert (Ht : trie_ok (trie (unsubscribe f client (w_subscriptions w)).1)).
    { pose proof (unsubscribe_eq f client (w_subscriptions w)) as E. cbn zeta in E. rewrite E. cbn [fst].
      pose proof (wo_trie _ _ _ Hok). destruct (trie_unsubscribe _ _ _ _).2; rewrite ?trie_invalidate; by apply trie_ok_unsubscribe. }
    destruct (unsubscribe f client (w_subscriptions w)) as [st removed]. cbn [fst snd] in *.
    split_and!; [|by intros ? ?|done..]. by destruct Hok; split.
  - intros removed _. apply spec_then.
    { apply spec_update_session; [done..|]. intros s Hs. split_and!; [by apply (session_ok_same se s)|done..]. }
    apply spec_then; [destruct removed; spec_step|spec_step].
Qed.

Lemma spec_unsubscribe v known client session p :
  session ∈ known → spec v known (handle_unsubscribe self client session p) (λ _, True).
Proof.
  intros Hc. unfold handle_unsubscribe. apply (spec_bind _ _ _ _ (λ _, True)); [by apply spec_ask_self|]. intros ver _.
  apply (spec_bind _ _ _ _ (λ _, True)); [|intros l _; cbv zeta; spec_step].
  generalize (Packet.unsubscribe_filters p). intros fs. induction fs as [|f fs IH]; [spec_step|]. cbn [unsubscribe_filters_loop].
  apply (spec_bind _ _ _ _ (λ _, True)); [by apply spec_unsubscribe_one|]. intros r _.
  apply (spec_bind _ _ _ _ (λ _, True)); [done|]. intros rs _. spec_step.
Qed.

(** ** PUBLISH *)

Lemma read_same c s (w : World W) :
  cells (w_sessions w) !! c = Some s → w <| w_sessions ::= modify_session c (λ _, s) |> = w.
Proof. intros Hs. pose proof (run_read_session c id w s Hs) as H. cbn in H. rewrite Hs in H. by injection H. Qed.

Lemma incoming_insert_size (m : gmap Z Publish) id p : (size (<[id := p]> m) ≤ S (size m))%nat.
Proof.
  destruct (m !! id) eqn:E; [rewrite map_size_insert_Some by eauto; lia|by rewrite map_size_insert_None].
Qed.

Lemma receive_ok session id p (w : World W) (g : gmap nat nat) s :
  is_packet_id id → pub_packet_id p = Some id → pub_qos p = ExactlyOnce →
  g !! self = Some session → cells (w_sessions w) !! session = Some s → world_ok se w g →
  world_ok se (w <| w_sessions ::= modify_session session (λ _, s <| s_inflight_incoming ::= <[id := p]> |>) |>)
    (delete self g).
Proof.
  intros Hid Hp Hq Hg Hs Hok.
  apply world_ok_set_sessions with g; [| |by eapply cell_exists_modify|done].
  2:{ rewrite dom_delete. pose proof (wo_receiving _ _ _ Hok). set_solver. }
  pose proof (receiving_delete self session g) as Hr.
  apply (sessions_ok_modify se session _ _ s g); [done| |done| | |by apply world_ok_sessions].
  - pose proof (wo_cells _ _ _ Hok _ _ Hs) as []. split; [by apply wf_received|done..].
  - pose proof (wo_incoming _ _ _ Hok _ _ Hs) as Hi. cbn in *. rewrite (Hr session Hg), decide_True in Hi by done.
    pose proof (incoming_insert_size (s_inflight_incoming s) id p). lia.
  - intros c' Hc'. rewrite (Hr c' Hg), decide_False by done. lia.
Qed.

(** The second half of the check and the insertion: the message is stored. *)
Lemma wp_store_incoming v known session id p (k : handler W unit) Q w g :
  is_packet_id id → pub_packet_id p = Some id → pub_qos p = ExactlyOnce → session ∈ known →
  view_of self w = Some v → Forall (λ c, cell_exists c w) known → g !! self = Some session →
  spec v known k Q →
  wp (world_ok se) (rely (Some self)) (guar (Some self))
    (update_session session (fun s => s <| s_inflight_incoming ::= <[id := p]> |>);; k)
    (λ r w' g', post r Q ∧ facts (Some self) v known w' g') w g.
Proof.
  intros Hid Hp Hq Hc Hv Hk Hg Hspec w1 g1 Hr Hok. destruct Hr as [Hgrow Hl]. destruct (Hl self eq_refl) as [Hv1 Hg1].
  assert (Hk1 : Forall (λ c, cell_exists c w1) known) by (eapply Forall_impl; [done|]; intros c; apply Hgrow).
  destruct (proj1 (Forall_forall _ _) Hk1 session Hc) as [s Hs]. rewrite Hs. cbn [fst snd].
  rewrite Hg in Hg1. assert (Hgrow1 := cell_exists_modify session (λ _, s <| s_inflight_incoming ::= <[id := p]> |>) w1 _ eq_refl).
  exists (delete self g1). split_and!; [by apply receive_ok| |].
  - split; [exact Hgrow1|]. intros other Ho. split; [done|]. by rewrite lookup_delete_ne by congruence.
  - apply Hspec. split.
    + intros ? [= <-]. split; [by rewrite <-Hv, <-Hv1|by rewrite lookup_delete_eq].
    + eapply Forall_impl; [exact Hk1|]. exact Hgrow1.
Qed.

Lemma spec_receive_qos2 v known session id p :
  is_packet_id id → pub_packet_id p = Some id → pub_qos p = ExactlyOnce → session ∈ known →
  spec v known (receive_qos2 self session p) (λ _, True).
Proof.
  intros Hid Hp Hq Hc w g Hf. unfold receive_qos2. rewrite Hp. intros w1 g1 Hr Hok.
  apply (facts_rely _ _ _ _ _ _ _ Hr) in Hf. pose proof Hf as [Hs Hk]. destruct (Hs self eq_refl) as [Hv Hg].
  destruct (proj1 (Forall_forall _ _) Hk session Hc) as [s Hcell]. rewrite Hcell. cbn [fst snd]. rewrite (read_same _ _ _ Hcell).
  destruct (Z.geb_spec (Z.of_nat (size (s_inflight_incoming s))) (s_max_awaiting_rel s)) as [Hfull|Hroom].
  - exists g1. split_and!; [done|split; [by intros ? ?|by split]|]. by apply spec_send_packet.
  - exists (<[self := session]> g1). split_and!.
    + apply (world_ok_receive _ _ _ _ _ s); [done|by destruct (facts_own _ _ _ _ Hf) as (c & -> & _)|done| |done].
      by rewrite <-(so_awaiting _ _ (wo_cells _ _ _ Hok _ _ Hcell)).
    + split; [by intros ? ?|]. intros other Ho. split; [done|]. by rewrite lookup_insert_ne by congruence.
    + apply (wp_store_incoming v known session id p); [done..|by rewrite lookup_insert_eq|]. repeat spec_step.
Qed.

(** What the decoder promises of a PUBLISH. *)
Definition publish_ok (p : Publish) : Prop :=
  pub_qos p ≠ AtMostOnce → ∃ id, pub_packet_id p = Some id ∧ is_packet_id id.

Lemma spec_refuse_publish v known p reason : publish_ok p → spec v known (refuse_publish self p reason) (λ _, True).
Proof.
  intros Hp. unfold refuse_publish. destruct (negb _) eqn:Hq; [|spec_step].
  destruct (Hp (qos_not_0 _ Hq)) as (id & -> & _).
  apply (spec_bind _ _ _ _ (λ _, True)); [by apply spec_outcome|]. intros ? _. spec_step.
Qed.

Lemma spec_topic_alias v known session p :
  session ∈ known → publish_ok p → spec v known (handle_topic_alias session p) publish_ok.
Proof.
  intros Hc Hp. unfold handle_topic_alias. spec_step; [|by apply spec_ret]. spec_step.
  - apply (spec_bind _ _ _ _ (λ _, True)); [by apply spec_read_session|]. intros [t|] _; [by apply spec_ret|spec_step].
  - apply spec_then; [|by apply spec_ret]. apply spec_update_session; [done..|]. intros s Hs.
    split_and!; [by apply (session_ok_same se s)|done..].
Qed.

Lemma spec_publish v known client session p :
  session ∈ known → publish_ok p → spec v known (handle_publish hooks self client session p) (λ _, True).
Proof.
  intros Hc Hp. unfold handle_publish. spec_step.
  destruct (validate_topic_name_with_max_levels _ _); try by apply spec_refuse_publish.
  apply (spec_bind _ _ _ _ publish_ok); [by apply spec_topic_alias|]. clear p Hp. intros p Hp.
  apply (spec_bind _ _ _ _ (λ _, True)).
  { apply (spec_bind _ _ _ _ (λ _, True)); [by apply spec_ask_self|]. intros u _. apply (spec_hook se known). }
  intros [[]|] _; [|by apply spec_refuse_publish..]. destruct (pub_qos p) eqn:Hq.
  - repeat spec_step.
  - destruct Hp as (id & -> & _); [by rewrite Hq|].
    apply (spec_bind _ _ _ _ (λ _, True)); [by apply spec_outcome|]. intros ? _. repeat spec_step.
  - destruct Hp as (id & Hid & ?); [by rewrite Hq|]. by apply (spec_receive_qos2 v known session id).
Qed.
End packets.

(** ** The end of a connection *)
Section ends.
Context {W : Type} (se : setting) (Hse : setting_ok se) {me : option nat} {v : State * Decoder * list byte * Z}.
Implicit Types known : list nat.
Abbreviation spec := (Invariant.spec (W := W) se me v).

Lemma spec_publish_will known client session will delay :
  session ∈ known → spec known (publish_will_message client session will delay) (λ _, True).
Proof.
  intros Hc. unfold publish_will_message. spec_step.
  - apply (spec_bind _ _ _ _ (λ _, True)); [by apply spec_read_session|]. intros t _. by apply spec_schedule.
  - spec_step. apply spec_then; [apply spec_ignore_errors; spec_step|]. apply spec_update_session; [done..|]. intros s Hs.
    split_and!; [by apply (session_ok_same se s)|done..].
Qed.

Lemma spec_persist_session known client session :
  session ∈ known → spec known (persist_session client session) (λ _, True).
Proof.
  intros Hc. apply (spec_bind _ _ _ _ (λ _, True)); [by apply spec_read_session|]. intros s _. repeat spec_step.
Qed.

Lemma spec_unsubscribe_all known client :
  spec known (change (fun w => w <| w_subscriptions ::= unsubscribe_all client |>)) (λ _, True).
Proof.
  apply (spec_subscriptions se known (fun st => (tt, unsubscribe_all client st))). intros st Ht. cbn [snd].
  rewrite unsubscribe_all_eq, trie_invalidate. by apply trie_ok_unsubscribe_all.
Qed.

Lemma spec_disconnect known client session will :
  session ∈ known → spec known (handle_disconnect client session will) (λ _, True).
Proof.
  intros Hc. unfold handle_disconnect. spec_step.
  apply (spec_bind _ _ _ _ (λ _, True)); [by apply spec_read_session|]. intros [[clean w] delay] _.
  apply spec_then; [destruct clean; [apply spec_unsubscribe_all|spec_step]|]. spec_step. apply spec_then.
  - destruct will; [destruct w; [by apply spec_publish_will|spec_step]|]. apply spec_update_session; [done..|]. intros s Hs.
    split_and!; [by apply (session_ok_same se s)|done..].
  - apply spec_then; [by apply spec_persist_session|spec_step].
Qed.

Lemma spec_delayed_will known d : dw_session d ∈ known → spec known (publish_delayed_will d) (λ _, True).
Proof.
  intros Hc. unfold publish_delayed_will. apply (spec_bind _ _ _ _ (λ _, True)); [by apply spec_ask|]. intros cur _.
  apply (spec_bind _ _ _ _ (λ _, True)); [destruct (bool_decide _); [by apply spec_read_session|spec_step]|].
  intros [] _; [|spec_step]. apply (spec_bind _ _ _ _ (λ _, True)).
  - apply spec_write_session; [done..|]. intros t s Hs. split_and!; [by apply (session_ok_same se s)|done..].
  - intros [will|] _; [|spec_step]. spec_step. apply spec_ignore_errors. spec_step.
Qed.
End ends.

(** ** The task of a connection *)
Section task.
Context {W : Type} (hooks : Hooks W) (se : setting) (Hse : setting_ok se) {self : nat}.
Implicit Types known : list nat.
Implicit Types v : State * Decoder * list byte * Z.
Abbreviation spec := (Invariant.spec (W := W) se (Some self)).
Abbreviation vspec := (Invariant.vspec (W := W) se (self := self)).

Lemma decoded_publish_ok d p : decoded_ok d (P.Publish p) → publish_ok p.
Proof.
  intros (_ & _ & _ & _ & Hid & _) Hq.
  destruct (pub_packet_id p) as [id|]; [|done]. exists id. unfold is_packet_id, is_u16 in *. split; [done|lia].
Qed.

Lemma spec_handle_packet v known client session d p :
  session ∈ known → is_Some (protocol_version d) → decoded_ok d p →
  spec v known (handle_packet hooks self client session p) (λ _, True).
Proof.
  intros Hc Hv Hd. destruct p; cbn [handle_packet]; try spec_step.
  - apply spec_publish; [done..|]. by apply (decoded_publish_ok d).
  - by apply spec_pubrec.
  - by apply spec_pubrel.
  - by apply spec_subscribe.
  - by apply spec_unsubscribe.
  - apply spec_then; [by apply spec_disconnect|spec_step].
Qed.

Lemma spec_packet_errors v known client session m :
  session ∈ known → spec v known m (λ _, True) → spec v known (handle_packet_errors client session m) (λ _, True).
Proof.
  intros Hc Hm w g Hf. apply wp_bind. eapply wp_mono; [|by apply Hm]. intros r w' g' [Hr Hf'].
  destruct r as [[]|e| |]; try done.
  assert (He : spec v known (handle_disconnect client session true;; fail e) (λ _ : unit, True))
    by (apply spec_then; [by apply spec_disconnect|spec_step]).
  by destruct e; try apply He.
Qed.

(** The parts of what a task knows of its connection. *)
Definition v_state (v : State * Decoder * list byte * Z) : State := v.1.1.1.
Definition v_decoder (v : State * Decoder * list byte * Z) : Decoder := v.1.1.2.
Definition v_buf (v : State * Decoder * list byte * Z) : list byte := v.1.2.
Definition v_keep_alive (v : State * Decoder * list byte * Z) : Z := v.2.

(** What [decode_next] returns and leaves. *)
Definition decoded (v : State * Decoder * list byte * Z) (r : outcome DecodeError (option Packet))
    (v' : State * Decoder * list byte * Z) : Prop :=
  v_state v' = v_state v ∧ v_keep_alive v' = v_keep_alive v ∧
  (is_Some (protocol_version (v_decoder v)) → is_Some (protocol_version (v_decoder v'))) ∧
  post r (λ o, match o with
    | Some p => (length (v_buf v') < length (v_buf v))%nat ∧ decoded_ok (v_decoder v) p ∧
                (∀ c, p = P.Connect c → wf_connect wf_props c)
    | None => v_buf v' = v_buf v
    end).

Lemma vspec_decode_next v known : vspec v known (decode_next self) (decoded v).
Proof.
  apply (vspec_act se v known _ (λ r, r)). intros w g c Hok Hf Hc Hv. rewrite Hc.
  assert (Hconn : connection_ok w self c) by by apply (wo_conns _ _ _ Hok self).
  pose proof (decode_version (c_decoder c) (c_read_buf c)) as Hver.
  pose proof (decode_total_cases (c_decoder c) (c_read_buf c)) as Hcases.
  pose proof (decode_facts (c_decoder c) (c_read_buf c)) as Hfacts.
  destruct (decode (c_decoder c) (c_read_buf c)) as [d r]. cbn [fst snd] in *.
  assert (Hc' : ∀ buf, connection_ok w self (c <| c_decoder := d |> <| c_read_buf := buf |>)).
  { intros buf. destruct Hconn as (H0 & H1 & H2). split_and!; [done..|]. revert H2. cbn. destruct (c_state c); [done|]. intros [? ?]. auto. }
  assert (Hview : ∀ b, v_state (conn_view (c <| c_decoder := d |> <| c_read_buf := b |>)) = v_state v ∧
    v_keep_alive (conn_view (c <| c_decoder := d |> <| c_read_buf := b |>)) = v_keep_alive v) by (intros; by subst v).
  destruct Hcases as [(p & n & ->)|[->|[e ->]]].
  - destruct (Hfacts p n eq_refl) as (Hn & Hd & Hcon). eexists. split_and!; [reflexivity|apply Hc'|]. cbn.
    subst v. split_and!; [done|done|done|]. cbn. split; [|done]. rewrite length_drop. unfold zlen in Hn. cbn. lia.
  - exists (c <| c_decoder := d |>). split_and!; [done|apply (Hc' (c_read_buf c))|]. subst v. by split_and!.
  - exists (c <| c_decoder := d |>). split_and!; [done|apply (Hc' (c_read_buf c))|]. subst v. by split_and!.
Qed.

(** ** CONNECT *)
Lemma wf_receive_maximum p n : wf_props p → receive_maximum p = Some n → 0 ≤ n.
Proof.
  intros Hp Hn. assert (Hin : PV.ReceiveMaximum n ∈ props_items p).
  { unfold props_items. rewrite Hn. do 17 (apply elem_of_app; right). apply elem_of_app. left. constructor. }
  apply (proj1 (Forall_forall _ _) Hp) in Hin as [Hu _]. unfold is_u16 in Hu. lia.
Qed.

(** Except for the quota and the keep alive, nothing that the invariant speaks
    about. *)
Lemma apply_connect_fields c t s :
  let s' := apply_connect (se_config se) c t s in
  let keep_alive := if conn_keep_alive c =? 0 then bc_default_keep_alive (se_config se)
                    else Z.min (conn_keep_alive c) (bc_max_keep_alive (se_config se)) in
  let quota := match (if bool_decide (conn_protocol_version c = V5) then receive_maximum (conn_properties c) else None) with
               | Some max => (max, max)
               | None => (s_send_quota s, s_receive_maximum s)
               end in
  (s_next_packet_id s', s_inflight_outgoing s', s_inflight_incoming s', s_max_inflight s', s_max_awaiting_rel s',
   s_pending_messages s', s_max_pending_messages s', s_client_id s', s_keep_alive s', (s_send_quota s', s_receive_maximum s')) =
  (s_next_packet_id s, s_inflight_outgoing s, s_inflight_incoming s, s_max_inflight s, s_max_awaiting_rel s,
   s_pending_messages s, s_max_pending_messages s, s_client_id s, keep_alive, quota).
Proof.
  unfold apply_connect. cbv zeta. destruct (bool_decide _).
  - destruct (conn_will c) as [will|]; [destruct (will_delay_interval _)|];
    destruct (session_expiry_interval _), (negb (conn_clean_start c)), (receive_maximum _), (maximum_packet_size _),
      (topic_alias_maximum _); reflexivity.
  - destruct (conn_will c) as [will|]; [destruct (will_delay_interval _)|]; reflexivity.
Qed.

Lemma apply_connect_ok c t s :
  wf_connect wf_props c → session_ok se s → keeps se s (apply_connect (se_config se) c t s).
Proof.
  intros (_ & Hka & _ & _ & _ & Hprops) [[] ? ? ?].
  pose proof (apply_connect_fields c t s) as E.
  set (s' := apply_connect (se_config se) c t s) in *. clearbody s'. injection E as E1 E2 E3 E4 E5 E6 E7 E8 E9 E10. destruct Hse as (_ & _ & _ & _ & Hd & Hm & _).
  split_and!; [split; [split|..]| |]; rewrite ?E1, ?E2, ?E3, ?E4, ?E5, ?E6, ?E7, ?E8; try done.
  - destruct (bool_decide _) eqn:Hv; [|by injection E10 as -> ->].
    apply bool_decide_eq_true in Hv. rewrite Hv in Hprops. cbn in Hprops.
    destruct (receive_maximum (conn_properties c)) as [n|] eqn:Hn; injection E10 as -> ->; [|done].
    pose proof (wf_receive_maximum _ _ Hprops Hn). lia.
  - rewrite E9. unfold is_u16 in Hka. destruct (Z.eqb_spec (conn_keep_alive c) 0); lia.
Qed.

(** ** The loop *)
Definition keep_alive_ok (k : Z) : Prop := k ≤ 65535 * 1500000000.

Lemma keep_alive_timeout_ok secs : 1 ≤ secs ≤ 65535 → keep_alive_ok (keep_alive_timeout secs).
Proof. unfold keep_alive_timeout, keep_alive_ok. intros. destruct (Z.gtb_spec secs 0); lia. Qed.

Lemma spec_reset_deadline v known : keep_alive_ok (v_keep_alive v) → spec v known (reset_deadline self) (λ _, True).
Proof.
  intros Hk. unfold reset_deadline. spec_step.
  apply (spec_bind _ _ _ _ keep_alive_ok); [apply spec_ask_self; by intros c <-|]. intros k Hk'.
  apply (spec_bind _ _ _ _ (λ _, True)); [|intros d _; by apply spec_change_self].
  apply spec_outcome. unfold instant_add, latest_instant, keep_alive_ok, from_secs in *.
  destruct (Z.ltb_spec (a + k) (2 ^ 63 * 1000000000)); [done|]. exfalso. lia.
Qed.

(** The connection is in the loop of [run_connected]. *)
Definition looping client session (v : State * Decoder * list byte * Z) : Prop :=
  v_state v = St.Connected client session ∧ is_Some (protocol_version (v_decoder v)) ∧ keep_alive_ok (v_keep_alive v).

Lemma vspec_change_self v known (f : Connection → Connection) Q :
  (∀ (w : World W) c, connection_ok w self c → connection_ok w self (f c)) → (∀ c, conn_view c = v → Q tt (conn_view (f c))) →
  vspec v known (change_self self f) Q.
Proof.
  intros Hok Hf. apply (vspec_act se v known _ Ok). intros w g c Hw _ Hc Hv. exists (f c). split_and!; [| |by apply Hf].
  - cbn. unfold set_field. cbn. f_equal. by apply alter_alt_Some.
  - apply Hok. by apply (wo_conns _ _ _ Hw self).
Qed.

Lemma vspec_process_packets fuel client session v known :
  session ∈ known → looping client session v → (length (v_buf v) < fuel)%nat →
  vspec v known (process_packets hooks fuel self client session) (λ _, looping client session).
Proof.
  intros Hc. revert v. induction fuel as [|fuel IH]; intros v Hv Hfuel; [lia|]. cbn [process_packets].
  eapply vspec_bind; [apply vspec_decode_next|]. intros r v' (Es & Ek & Ever & Hr). destruct Hv as (Hs & Hver & Hk).
  assert (Hv' : looping client session v') by (split_and!; [congruence|by apply Ever|by rewrite Ek]).
  destruct r as [[p|]|e| |]; cbn in Hr; try done.
  - destruct Hr as (Hlen & Hd & _).
    apply (vspec_bind _ _ _ _ _ (λ _ v'', v'' = v')).
    { apply (spec_vspec _ _ _ _ (λ _, True)); [|done]. apply spec_write_session; [done..|]. intros t s Hsok.
      split_and!; [by apply (session_ok_same se s)|done..]. }
    intros _ ? ->. apply (vspec_bind _ _ _ _ _ (λ _ v'', v'' = v')).
    { apply (spec_vspec _ _ _ _ (λ _, True)); [|done]. by apply spec_reset_deadline, Hv'. }
    intros _ ? ->. apply (vspec_bind _ _ _ _ _ (λ _ v'', v'' = v')).
    { apply (spec_vspec _ _ _ _ (λ _, True)); [|done]. apply spec_packet_errors; [done|].
      by apply (spec_handle_packet _ _ _ _ (v_decoder v)). }
    intros _ ? ->. apply IH; [done|lia].
  - apply (spec_vspec _ _ _ _ (λ _, True)); [spec_step|done].
  - apply (spec_vspec _ _ _ _ (λ _, True)); [spec_step|done].
Qed.
End task.
