(* ===== verification/Flow.v ===== *)
(** * Flow control

    The send quota over the life of a session: [Receive Maximum] of the client,
    the messages in flight and what is left of the quota, through connections,
    outgoing messages and acknowledgements. *)

From S2P Require Import Prelude Protocol Codec Properties Packet Decode Encode Wire CodecTheorems.
From S2P Require Import TopicValidation TopicTrie SubscriptionStore Session Hooks Persistence Broker Connection Routing Handlers Tasks Invariant Safety.

(** What happens to a session as far as flow control goes: a CONNECT for it,
    the queued messages and the messages in flight that are sent then, the
    retries, messages from the channel, the acknowledgements of the client, and
    changes elsewhere. *)
Inductive flow_event {W : Type} : Type :=
  | Connects (connect : Connect)
  | SendsPending
  | Resends
  | Retries
  | Outgoing (publish : Publish)
  | Acked (puback : PubAck)
  | Received (pubrec : PubRec)
  | Completed (pubcomp : PubComp)
  | Elsewhere (w : World W).
Arguments flow_event : clear implicits.

Section flow.
Context {W : Type} (self session : nat).
Implicit Types w : World W.
Abbreviation session_at := (session_at session).

Definition flow_handle (x : flow_event W) : handler W unit :=
  match x with
  | Connects connect =>
      cfg ← config;
      write_session session (fun t s => (tt, apply_connect cfg connect t s))
  | SendsPending => send_pending_messages self session
  | Resends => resend_inflight_messages self session
  | Retries => retry_unacked_messages self session
  | Outgoing publish => handle_outgoing_packet self session (P.Publish publish)
  | Acked puback => handle_puback session puback
  | Received pubrec => handle_pubrec self session pubrec
  | Completed pubcomp => handle_pubcomp session pubcomp
  | Elsewhere w => change (fun _ => w)
  end.

Definition in_flight_count (s : Session) : Z := Z.of_nat (size (s_inflight_outgoing s)).


(** The events one after the other, whatever the handlers return. *)
Fixpoint flow_run (xs : list (flow_event W)) w : World W :=
  match xs with [] => w | x :: xs => flow_run xs (run (flow_handle x) w).2 end.












(** ** Lemmas: handlers *)

















End flow.

(** ** Theorems *)


Definition qos1_message : Publish := MkPublish false AtLeastOnce false "a/b" None [x01] Properties_default.

(** A client that takes one message at a time. *)
Definition narrow_connect : Connect :=
  MkConnect V5 "c1" false 60 None None None
    (Properties_default <| receive_maximum := Some 1 |> <| session_expiry_interval := Some 100 |>).



(** The excess is real: a client that takes one message at a time and comes
    back while one is in flight gets a second one. *)
Example resumed_quota :
  let w := flow_run 0 0 [Connects narrow_connect; Outgoing qos1_message; Connects narrow_connect; Resends;
                         Outgoing qos1_message] connected_world in
  (λ s, (in_flight_count s, s_receive_maximum s)) <$> session_at 0 w = Some (2, 1).
Proof. vm_compute. reflexivity. Qed.
