(* ===== verification/System.v ===== *)
(** * The running broker

    The connections, the background tasks and their environment as one
    transition system, in which the actions of all tasks interleave freely. The
    main theorem is that whatever the clients send, in whatever order the tasks
    run, the invariant of [Invariant] holds and no task panics or hangs. *)

From S2P Require Import Prelude Protocol Codec Properties Packet Decode Encode Wire CodecTheorems.
From S2P Require Import TopicValidation TopicTrie SubscriptionStore Session Hooks Persistence Broker Connection Routing Handlers Tasks Invariant Safety.

(** ** Connections *)

(** Where the task of a connection waits: in [read_connect] for data, or in the
    [select!] of [run_connected]. *)
Inductive position : Type :=
  | AtConnect
  | AtLoop (client_id : string) (session : nat).

Section task.
Context {W : Type} (hooks : Hooks W).

(** [run] after the CONNECT packet: the beginning of [run_connected]. *)
Definition enter_loop (self : nat) : handler W (option position) :=
  state ← ask_self self c_state;
  match state with
  | St.Connected client_id session =>
      start_connected self session;;
      mret (Some (AtLoop client_id session))
  | St.Connecting => violation "not connected"
  end.

(** The task from one wait to the next; [None] is its normal end. *)
Definition connect_round (self : nat) (rand : Z) (data : list byte) : handler W (option position) :=
  connected ← read_connect hooks self rand data;
  if (connected : bool) then enter_loop self else mret (Some AtConnect).

Definition loop_round (self : nat) (client_id : string) (session : nat) (ev : conn_event) : handler W (option position) :=
  continue ← on_event hooks self client_id session ev;
  mret (if (continue : bool) then Some (AtLoop client_id session) else None).

(** [read_connect] when the connection is closed or the read fails. *)
Definition connect_closed : handler W (option position) := fail (CE.Io UnexpectedEof).
End task.

(** ** Lemmas: the task of a connection *)
Section safe.
Context {W : Type} (hooks : Hooks W) (se : setting) (Hse : setting_ok se) {self : nat}.
Implicit Types known : list nat.
Implicit Types v : State * Decoder * list byte * Z.
Abbreviation spec := (Invariant.spec (W := W) se (Some self)).
Abbreviation gspec := (Invariant.gspec (W := W) se (Some self)).
Abbreviation vspec := (Invariant.vspec (W := W) se (self := self)).

(** The end of a handler that changes the state of the connection. *)
Definition vpost {A} known (Q : A → State * Decoder * list byte * Z → Prop) (r : outcome ConnectionError A) (w : World W)
    (g : gmap nat nat) : Prop :=
  ∃ v', post r (λ a, Q a v') ∧ facts (Some self) v' known w g.

Lemma vspec_forget {A} v known l (m : handler W A) Q : vspec v (l ++ known) m Q → gspec v (l ++ known) m (vpost known Q).
Proof.
  intros Hm w g Hf. eapply wp_mono; [|by apply Hm]. intros r w' g' (v' & Hp & Hs & Hkn). exists v'. split; [done|].
  split; [done|]. by apply Forall_app in Hkn as [_ ?].
Qed.

(** The session of a connection that has one exists. *)
Lemma vspec_ask_state {A} v known client session (k : State → handler W A) Q :
  v_state v = St.Connected client session →
  vspec v (session :: known) (k (St.Connected client session)) Q →
  vspec v known (ask_self self c_state ≫= k) Q.
Proof.
  intros Hv Hk w g Hf w1 g1 Hr Hok. apply (facts_rely _ _ _ _ _ _ _ Hr) in Hf.
  destruct (facts_own _ _ _ _ Hf) as (c & Hc & Hview). rewrite Hc. cbn [fst snd]. exists g1.
  assert (Hst : c_state c = St.Connected client session) by by rewrite <-Hv, <-Hview.
  split_and!; [done|split; [by intros ? ?|by split]|]. rewrite Hst. apply (vspec_forget v known [session] _ _ Hk).
  destruct Hf as [Hs Hkn]. split; [done|]. constructor; [|done].
  destruct (wo_conns _ _ _ Hok self c Hc) as (_ & _ & Hsess). rewrite Hst in Hsess. apply Hsess.
Qed.

Lemma vspec_start v known client session :
  v_state v = St.Connected client session → is_Some (protocol_version (v_decoder v)) →
  vspec v known (enter_loop self) (λ p v', p = Some (AtLoop client session) ∧ looping client session v').
Proof.
  intros Hs Hver. apply (vspec_ask_state v known client session); [done|].
  apply (vspec_bind _ _ _ _ _ (λ _, looping client session)); [|intros _ v' Hv'; by apply (spec_vspec _ _ _ _ (λ p, p = Some (AtLoop client session))); [apply spec_ret|]].
  unfold start_connected. apply (vspec_bind _ _ _ _ _ (λ k v', v' = v ∧ 1 ≤ k ≤ 65535)).
  { apply (spec_vspec _ _ _ _ (λ k, 1 ≤ k ≤ 65535)); [|done]. apply spec_read_session; [done|constructor|]. by intros s []. }
  intros secs ? [-> Hsecs]. apply (vspec_bind _ _ _ _ _ (λ _, looping client session)).
  { apply vspec_change_self; [done|]. intros c <-. split_and!; [done..|]. by apply keep_alive_timeout_ok. }
  intros _ v' Hv'. apply (spec_vspec _ _ _ _ (λ _, True)); [|done]. spec_step. apply spec_then.
  - destruct Hse as (_ & _ & _ & _ & _ & _ & Hr & _). destruct (Z.eqb_spec (bc_retry_interval (se_config se)) 0); [done|spec_step].
  - apply spec_reset_deadline, Hv'.
Qed.

(** A connection registers its own channel. *)
Lemma spec_ask_channel v known : spec v known (ask_self self c_channel) (λ n, n = self).
Proof.
  apply (spec_act se known _ (λ r, r)). intros w g Hok Hf. destruct (facts_own _ _ _ _ Hf) as (c & Hc & _). rewrite Hc.
  split_and!; [done|by intros ? ?|done|]. apply (wo_conns _ _ _ Hok self c Hc).
Qed.

Lemma spec_register v known client :
  spec v known (change (fun w => w <| w_connections ::= <[client := self]> |>)) (λ _, True).
Proof.
  apply (spec_act se known _ Ok). intros w g Hok Hf. destruct (facts_own _ _ _ _ Hf) as (c & Hc & _).
  split_and!; [|by intros ? ?|done..]. destruct (wo_conns _ _ _ Hok self c Hc) as (_ & Hch & _).
  destruct Hok. split; try done. cbn. by apply map_Forall_insert_2.
Qed.

(** From here on a task that knows [v] and keeps it. *)
Lemma vspec_then {A B} v known (m : handler W A) (k : handler W B) Q :
  spec v known m (λ _, True) → vspec v known k Q → vspec v known (m;; k) Q.
Proof.
  intros Hm Hk. apply (vspec_bind _ _ _ _ _ (λ _ v', v' = v)); [by apply (spec_vspec _ _ _ _ (λ _, True))|].
  by intros _ ? ->.
Qed.

Definition established client (v v' : State * Decoder * list byte * Z) : Prop :=
  v_decoder v' = v_decoder v ∧ ∃ session, v_state v' = St.Connected client session.

Lemma vspec_set_state v known client session Q :
  session ∈ known → is_Some (protocol_version (v_decoder v)) →
  (∀ v', v_decoder v' = v_decoder v → v_state v' = St.Connected client session → Q tt v') →
  vspec v known (change_self self (fun c => c <| c_state := St.Connected client session |>)) Q.
Proof.
  intros Hc Hver HQ. apply (vspec_act se v known _ Ok). intros w g c Hok [_ Hk] Hconn Hv. eexists.
  split_and!; [cbn; unfold set_field; cbn; f_equal; by apply alter_alt_Some| |apply HQ; by subst v].
  destruct (wo_conns _ _ _ Hok self c Hconn) as (H0 & H1 & _). split_and!; [done..|]. cbn. split.
  - by apply (proj1 (Forall_forall _ _) Hk).
  - by subst v.
Qed.

Lemma vspec_establish v known connect client :
  wf_connect wf_props connect → is_Some (protocol_version (v_decoder v)) →
  vspec v known (establish self connect client) (λ _, established client v).
Proof.
  intros Hwf Hver. unfold establish. apply (vspec_bind _ _ _ _ _ (λ c v', v' = v ∧ c = se_config se)).
  { apply (spec_vspec _ _ _ _ (λ c, c = se_config se)); [apply spec_config|done]. }
  intros ? ? [-> ->]. apply vspec_then; [by apply spec_try_send_to|].
  apply (gspec_get_or_create se Hse known client); [done|]. intros session present.
  apply (vspec_forget v known [session]). cbn [app]. set (known' := session :: known).
  assert (Hc : session ∈ known') by constructor.
  apply vspec_then; [destruct (conn_clean_start connect); [apply spec_unsubscribe_all|spec_step]|].
  apply vspec_then.
  { apply spec_write_session; [done..|]. intros t s Hs. destruct (apply_connect_ok se Hse connect t s Hwf Hs) as (? & ? & ?).
    by split_and!. }
  apply (vspec_bind _ _ _ _ _ (λ n v', v' = v ∧ n = self)).
  { apply (spec_vspec _ _ _ _ (λ n, n = self)); [apply spec_ask_channel|done]. }
  intros ? ? [-> ->]. apply vspec_then; [apply spec_register|]. apply vspec_then; [spec_step|].
  apply (vspec_bind _ _ _ _ _ (λ _, established client v)).
  { apply vspec_set_state; [done..|]. intros v' ? ?. split; eauto. }
  intros _ v' Hv'. apply (spec_vspec _ _ _ _ (λ _, True)); [|done]. spec_step. apply spec_then; [by apply spec_send_pending|].
  destruct present; [|spec_step]. apply spec_then; [by apply spec_resend_inflight|].
  apply (spec_bind _ _ _ _ (λ _, True)); [by apply spec_read_session|]. intros subs _. spec_step.
  by apply spec_send_retained_messages.
Qed.

Lemma spec_refuse_connect v known reason msg : spec v known (refuse_connect self reason msg) (λ _, True).
Proof. unfold refuse_connect. spec_step. spec_step. Qed.

Definition connected (v : State * Decoder * list byte * Z) : Prop :=
  is_Some (protocol_version (v_decoder v)) ∧ ∃ client session, v_state v = St.Connected client session.

Lemma vspec_refuse v known reason msg (Q : unit → State * Decoder * list byte * Z → Prop) :
  vspec v known (refuse_connect self reason msg) Q.
Proof. apply vspec_then; [spec_step|]. apply (spec_vspec _ _ _ _ (λ _, False)); [apply spec_fail|done]. Qed.

Lemma vspec_handle_connect v known rand connect :
  wf_connect wf_props connect → vspec v known (handle_connect hooks self rand connect) (λ _, connected).
Proof.
  intros Hwf. unfold handle_connect. cbv zeta.
  apply (vspec_bind _ _ _ _ _ (λ _ v', is_Some (protocol_version (v_decoder v')))).
  { apply vspec_change_self; [|intros c _; by eexists]. intros w c (H0 & H1 & H2). split_and!; [done..|].
    revert H2. cbn. destruct (c_state c); [done|]. intros [? _]. split; [done|by eexists]. }
  intros _ v' Hver. destruct (_ && _); [apply vspec_refuse|].
  set (client := if is_empty (conn_client_id connect) then _ else _).
  apply (vspec_bind _ _ _ _ _ (λ _ v'', v'' = v')).
  { apply (spec_vspec _ _ _ _ (λ _, True)); [|done]. apply (spec_hook se known). }
  intros [[]|] ? ->; [|apply vspec_refuse..]. apply vspec_then; [by apply spec_change_self|].
  apply (vspec_bind _ _ _ _ _ (λ _ v'', v'' = v')).
  { apply (spec_vspec _ _ _ _ (λ c, c = se_config se)); [apply spec_config|done]. }
  intros cfg ? ->. apply (vspec_bind _ _ _ _ _ (λ _ v'', v'' = v')).
  { apply (spec_vspec _ _ _ _ (λ _, True)); [by apply spec_ask|done]. }
  intros takeover ? ->. apply (vspec_bind _ _ _ _ _ (λ _ v'', v'' = v')).
  { apply (spec_vspec _ _ _ _ (λ _, True)); [by apply spec_ask|done]. }
  intros count ? ->. destruct (_ && _); [apply vspec_refuse|].
  intros w g Hf. eapply wp_mono; [|by apply (vspec_establish v' known connect client Hwf Hver)].
  intros r w1 g1 (v1 & Hp & Hf1). exists v1. split; [|done]. eapply post_mono; [done|].
  intros _ (E & session & Hs). split; [by rewrite E|eauto].
Qed.

Lemma vspec_receive v known data :
  vspec v known (receive self data) (λ _ v', v_state v' = v_state v ∧ v_decoder v' = v_decoder v ∧
    v_keep_alive v' = v_keep_alive v).
Proof. apply vspec_change_self; [done|]. by intros c <-. Qed.

Lemma vspec_read_connect v known rand data :
  vspec v known (read_connect hooks self rand data) (λ b v', if b then connected v' else True).
Proof.
  unfold read_connect. eapply vspec_bind; [apply vspec_receive|]. intros _ v1 _.
  eapply vspec_bind; [apply vspec_decode_next|]. intros r v2 (_ & _ & _ & Hr).
  destruct r as [[p|]|e| |]; cbn in Hr; try done.
  - destruct Hr as (_ & _ & Hcon).
    destruct p; try (apply (spec_vspec _ _ _ _ (λ _, False)); [apply spec_fail|done]).
    eapply vspec_bind; [apply vspec_handle_connect; by apply Hcon|]. intros u v3 Hv3.
    apply (spec_vspec _ _ _ _ (λ _, True)); [by apply spec_ret|]. by intros [].
  - apply (spec_vspec _ _ _ _ (λ b, b = false)); [by apply spec_ret|]. by intros ? ->.
  - apply (spec_vspec _ _ _ _ (λ _, False)); [|done].
    apply (spec_bind _ _ _ _ (λ _, True)); [by apply spec_ask_self|]. intros ver _. apply spec_then; [|apply spec_fail].
    destruct (bool_decide _); [|spec_step]. apply spec_then; [by apply spec_change_self|]. apply spec_ignore_errors. spec_step.
Qed.

Lemma vspec_connect_round v known rand data :
  vspec v known (connect_round hooks self rand data) (λ p v',
    match p with
    | Some (AtLoop client session) => looping client session v'
    | Some AtConnect => True
    | None => False
    end).
Proof.
  eapply vspec_bind; [apply vspec_read_connect|]. intros b v' Hb. destruct b.
  - destruct Hb as (Hver & client & session & Hs). intros w g Hf.
    eapply wp_mono; [|by apply (vspec_start v' known client session)].
    intros r w1 g1 (v1 & Hp & Hf1). exists v1. split; [|done]. eapply post_mono; [done|]. by intros ? [-> ?].
  - by apply (spec_vspec _ _ _ _ (λ p, p = Some AtConnect)); [apply spec_ret|intros ? ->].
Qed.

Lemma spec_next_packet v known :
  spec v known (action (fun w =>
    match w_conns w !! self with
    | Some c =>
        match w_channels w !! c_channel c with
        | Some ch => (head (ch_queue ch), w <| w_channels ::= <[c_channel c := ch <| ch_queue ::= tail |>]> |>)
        | None => (None, w)
        end
    | None => (None, w)
    end)) (λ o, ∀ p, o = Some p → queued_ok p).
Proof.
  apply (spec_act se known _ Ok). intros w g Hok Hf. destruct (facts_own _ _ _ _ Hf) as (c & Hc & _). rewrite Hc.
  destruct (w_channels w !! c_channel c) as [ch|] eqn:Hch; cbn [fst snd]; [|split_and!; [done|by intros ? ?|done..]].
  destruct (wo_channels _ _ _ Hok _ _ Hch) as [Hq Hl]. split_and!; [|by intros ? ?|done|].
  - assert (Hdom : ∀ n, is_Some (w_channels w !! n) → is_Some (<[c_channel c := ch <| ch_queue ::= tail |>]> (w_channels w) !! n)).
    { intros n Hn. destruct (decide (n = c_channel c)) as [->|]; [rewrite lookup_insert_eq; by eexists|by rewrite lookup_insert_ne]. }
    destruct Hok. split; try done.
    + intros i ci Hi. destruct (wo_conns i ci Hi) as (H0 & H1 & H2). split_and!; [done|by apply Hdom|done].
    + cbn. apply map_Forall_insert_2; [|done]. split; cbn; [by apply Forall_tail|].
      destruct (ch_queue ch); [done|]. rewrite zlen_cons in Hl. cbn. lia.
    + intros i n Hn. cbn. apply Hdom. by apply (wo_registry i).
  - cbn. intros p Hp. destruct (ch_queue ch); [done|]. injection Hp as ->. by apply Forall_cons in Hq as [? _].
Qed.

Lemma vspec_on_event v known client session ev :
  session ∈ known → looping client session v →
  vspec v known (on_event hooks self client session ev) (λ b v', b = true → looping client session v').
Proof.
  intros Hc Hv. destruct ev as [data| | | | |]; cbn [on_event].
  - eapply vspec_bind; [apply vspec_receive|]. intros u v1 (Es & Ed & Ek).
    assert (Hv1 : looping client session v1) by (destruct Hv as (? & ? & ?); split_and!; congruence).
    apply (vspec_bind _ _ _ _ _ (λ n v', v' = v1 ∧ n = S (length (v_buf v1)))).
    { apply (spec_vspec _ _ _ _ (λ n, n = S (length (v_buf v1)))); [|done]. apply spec_ask_self. by intros c <-. }
    intros n ? [-> ->]. eapply vspec_bind; [apply vspec_process_packets; [done..|lia]|]. intros ? v2 Hv2.
    by apply (spec_vspec _ _ _ _ (λ _, True)); [apply spec_ret|].
  - apply vspec_then; [by apply spec_disconnect|]. by apply (spec_vspec _ _ _ _ (λ b, b = false)); [apply spec_ret|intros ? ->].
  - apply vspec_then; [by apply spec_disconnect|]. apply (spec_vspec _ _ _ _ (λ _, False)); [apply spec_fail|done].
  - apply (vspec_bind _ _ _ _ _ (λ o v', v' = v ∧ ∀ p, o = Some p → queued_ok p)).
    { apply (spec_vspec _ _ _ _ (λ o, ∀ p, o = Some p → queued_ok p)); [apply spec_next_packet|done]. }
    intros [p|] ? [-> Hp]; [|by apply (spec_vspec _ _ _ _ (λ _, True)); [apply spec_ret|]].
    apply vspec_then; [by apply spec_outgoing_packet, Hp|]. by apply (spec_vspec _ _ _ _ (λ _, True)); [apply spec_ret|].
  - apply vspec_then; [by apply spec_retry|]. by apply (spec_vspec _ _ _ _ (λ _, True)); [apply spec_ret|].
  - apply (vspec_bind _ _ _ _ _ (λ _ v', v' = v)).
    { by apply (spec_vspec _ _ _ _ (λ _, True)); [apply spec_ask_self|]. }
    intros ver ? ->. apply vspec_then; [destruct (bool_decide _); [apply spec_ignore_errors; spec_step|spec_step]|].
    apply vspec_then; [by apply spec_disconnect|]. apply (spec_vspec _ _ _ _ (λ _, False)); [apply spec_fail|done].
Qed.

Lemma vspec_loop_round v known client session ev :
  session ∈ known → looping client session v →
  vspec v known (loop_round hooks self client session ev) (λ p v', ∀ q, p = Some q →
    q = AtLoop client session ∧ looping client session v').
Proof.
  intros Hc Hv. eapply vspec_bind; [by apply vspec_on_event|]. intros b v' Hb.
  apply (spec_vspec _ _ _ _ (λ p, p = if b then Some (AtLoop client session) else None)); [by apply spec_ret|].
  intros ? -> q. destruct b; [|done]. intros [= <-]. auto.
Qed.
End safe.

(** ** The system *)

(** [SessionStore::cleanup_expired] as the cleanup task runs it: one session at
    a time, in any order. *)
Definition cleanup_client {W} (client : string) (w : World W) : World W :=
  match sessions (w_sessions w) !! client with
  | Some c => w <| w_sessions ::= (fun st => cleanup_one (w_now w) st (client, c)) |>
  | None => w
  end.

Definition cleanup_task {W} (clients : list string) : handler W unit :=
  for_all clients (fun client => change (cleanup_client client)).

Inductive thread (W : Type) : Type :=
  | Idle (p : position)
  | Busy (m : handler W (option position)).
Arguments Idle {W}.
Arguments Busy {W}.

(** The connections by number, and the background tasks: publications of the
    server, the cluster and the bridges, delayed wills, cleanups. *)
Record System (W : Type) : Type := MkSystem {
  sy_world : World W;
  sy_threads : nat → option (thread W);
  sy_tasks : nat → option (handler W unit);
}.
Arguments MkSystem {W}.
Arguments sy_world {W}. Arguments sy_threads {W}. Arguments sy_tasks {W}.

Definition put {A} (n : nat) (a : option A) (f : nat → option A) : nat → option A :=
  fun m => if Nat.eqb m n then a else f m.

(** One step of the system. A step of a task is one action; everything else is
    the environment: clients connect, send and close, the clock goes on, sockets
    break, and connections are cut off at any point. *)
Inductive step {W} (hooks : Hooks W) (se : setting) : System W → System W → Prop :=
  | step_accept w ts bs self w' :
      ts self = None → w_conns w !! self = None → w_channels w !! self = None →
      Z.of_nat (size (w_conns w)) < se_connections se → accept_connection self w = Ok w' →
      step hooks se (MkSystem w ts bs) (MkSystem w' (put self (Some (Idle AtConnect)) ts) bs)
  | step_accept_panics w ts bs self :
      ts self = None → accept_connection self w = Panic →
      step hooks se (MkSystem w ts bs) (MkSystem w (put self (Some (Busy (Ret Panic))) ts) bs)
  | step_first_data w ts bs self rand data :
      ts self = Some (Idle AtConnect) →
      step hooks se (MkSystem w ts bs) (MkSystem w (put self (Some (Busy (connect_round hooks self rand data))) ts) bs)
  | step_closed w ts bs self :
      ts self = Some (Idle AtConnect) →
      step hooks se (MkSystem w ts bs) (MkSystem w (put self (Some (Busy connect_closed)) ts) bs)
  | step_event w ts bs self client session ev :
      ts self = Some (Idle (AtLoop client session)) →
      step hooks se (MkSystem w ts bs) (MkSystem w (put self (Some (Busy (loop_round hooks self client session ev))) ts) bs)
  | step_act w ts bs self B (f : World W → B * World W) k :
      ts self = Some (Busy (Act f k)) →
      step hooks se (MkSystem w ts bs) (MkSystem (f w).2 (put self (Some (Busy (k (f w).1))) ts) bs)
  | step_wait w ts bs self p :
      ts self = Some (Busy (Ret (Ok (Some p)))) →
      step hooks se (MkSystem w ts bs) (MkSystem w (put self (Some (Idle p)) ts) bs)
  | step_end w ts bs self r :
      ts self = Some (Busy (Ret r)) → r = Ok None ∨ (∃ e, r = Err e) →
      step hooks se (MkSystem w ts bs) (MkSystem (drop_connection self w) (put self None ts) bs)
  | step_cut w ts bs self t :
      ts self = Some t →
      step hooks se (MkSystem w ts bs) (MkSystem (drop_connection self w) (put self None ts) bs)
  | step_break w ts bs self :
      step hooks se (MkSystem w ts bs)
        (MkSystem (w <| w_conns ::= alter (fun c => c <| c_writable := false |>) self |>) ts bs)
  | step_clock w ts bs t :
      w_now w ≤ t → t < latest_instant →
      step hooks se (MkSystem w ts bs) (MkSystem (w <| w_now := t |>) ts bs)
  | step_publish w ts bs n topic payload qos retain :
      bs n = None →
      step hooks se (MkSystem w ts bs) (MkSystem w ts (put n (Some (broker_publish topic payload qos retain)) bs))
  | step_will w ts bs n d l1 l2 :
      bs n = None → w_wills w = l1 ++ d :: l2 → dw_due d ≤ w_now w →
      step hooks se (MkSystem w ts bs) (MkSystem (w <| w_wills := l1 ++ l2 |>) ts (put n (Some (publish_delayed_will d)) bs))
  | step_cleanup w ts bs n clients :
      bs n = None →
      step hooks se (MkSystem w ts bs) (MkSystem w ts (put n (Some (cleanup_task clients)) bs))
  | step_task w ts bs n B (f : World W → B * World W) k :
      bs n = Some (Act f k) →
      step hooks se (MkSystem w ts bs) (MkSystem (f w).2 ts (put n (Some (k (f w).1)) bs))
  | step_task_end w ts bs n r :
      bs n = Some (Ret r) →
      step hooks se (MkSystem w ts bs) (MkSystem w ts (put n None bs)).

(** The next step that the task of the connection [self] takes by itself: its
    next action, or from the end of a round to its wait or its end. There is
    none for a task that waits, has panicked or has run out of fuel. *)
Definition own_step {W} (self : nat) (sy : System W) : option (System W) :=
  let '(MkSystem w ts bs) := sy in
  match ts self with
  | Some (Busy (Act f k)) => Some (MkSystem (f w).2 (put self (Some (Busy (k (f w).1))) ts) bs)
  | Some (Busy (Ret (Ok (Some p)))) => Some (MkSystem w (put self (Some (Idle p)) ts) bs)
  | Some (Busy (Ret (Ok None))) | Some (Busy (Ret (Err _))) => Some (MkSystem (drop_connection self w) (put self None ts) bs)
  | _ => None
  end.

Fixpoint own_steps {W} (n : nat) (self : nat) (sy : System W) : option (System W) :=
  match n with
  | O => Some sy
  | S n => match own_step self sy with Some sy => own_steps n self sy | None => None end
  end.

(** The broker when it starts. *)
Definition initial {W} (se : setting) (now epoch : Z) (persistence metrics : bool) (hook_state : W) : System W :=
  MkSystem (World_new (se_config se) now epoch persistence metrics hook_state) (fun _ => None) (fun _ => None).

Inductive reachable {W} (hooks : Hooks W) (se : setting) (sy0 : System W) : System W → Prop :=
  | reachable_start : reachable hooks se sy0 sy0
  | reachable_step sy sy' : reachable hooks se sy0 sy → step hooks se sy sy' → reachable hooks se sy0 sy'.

(** ** Lemmas: the system *)
Section system.
Context {W : Type} (hooks : Hooks W) (se : setting) (Hse : setting_ok se).
Implicit Types w : World W.
Implicit Types g : gmap nat nat.

(** What holds when a connection waits. *)
Definition waiting (p : position) (v : State * Decoder * list byte * Z) : Prop :=
  match p with
  | AtLoop client session => looping client session v
  | AtConnect => True
  end.

(** The end of a round. *)
Definition round_end self (r : outcome ConnectionError (option position)) w g : Prop :=
  ∃ v, post r (λ p, ∀ q, p = Some q → waiting q v) ∧ facts (Some self) v [] w g.

Definition thread_ok self (t : thread W) w g : Prop :=
  match t with
  | Idle p => ∃ v, waiting p v ∧ facts (Some self) v [] w g
  | Busy m => wp (world_ok se) (rely (Some self)) (guar (Some self)) m (round_end self) w g
  end.

Definition task_ok (m : handler W unit) w g : Prop :=
  wp (world_ok se) (rely None) (guar None) m (λ r _ _, post r (λ _, True)) w g.

Record system_ok (sy : System W) g : Prop := {
  so_world : world_ok se (sy_world sy) g;
  so_threads : ∀ self t, sy_threads sy self = Some t → thread_ok self t (sy_world sy) g;
  so_tasks : ∀ n m, sy_tasks sy n = Some m → task_ok m (sy_world sy) g;
}.

Lemma thread_rely self t w g w' g' : rely (Some self) w g w' g' → thread_ok self t w g → thread_ok self t w' g'.
Proof.
  intros Hr. destruct t as [p|m]; cbn.
  - intros (v & Hp & Hf). exists v. split; [done|]. by eapply facts_rely.
  - apply wp_stable; [apply rely_trans| |done]. intros r (v & Hp & Hf). exists v. split; [done|]. by eapply facts_rely.
Qed.

Lemma task_rely m w g w' g' : rely None w g w' g' → task_ok m w g → task_ok m w' g'.
Proof. intros Hr. apply wp_stable; [apply rely_trans|done|done]. Qed.

Lemma put_cases {A} n (a : option A) f m b : put n a f m = Some b → m = n ∧ a = Some b ∨ m ≠ n ∧ f m = Some b.
Proof. unfold put. destruct (Nat.eqb_spec m n); auto. Qed.

(** The world changes as one task may change it, and that task goes on. *)
Lemma system_thread w ts bs g self w' g' t :
  world_ok se w' g' → guar (Some self) w g w' g' → (∀ t', t = Some t' → thread_ok self t' w' g') →
  system_ok (MkSystem w ts bs) g → system_ok (MkSystem w' (put self t ts) bs) g'.
Proof.
  intros Hw Hg Ht [_ Hth Hta]. split; cbn in *; [done|..].
  - intros other t' [[-> Ho]|[Ho Ho']]%put_cases; [by apply Ht|].
    eapply thread_rely; [|by apply Hth]. apply (guar_rely (Some self)); [congruence|done].
  - intros n m Hm. eapply task_rely; [|by eapply Hta]. split; [apply Hg|done].
Qed.

Lemma system_task w ts bs g n w' g' m :
  world_ok se w' g' → guar None w g w' g' → (∀ m', m = Some m' → task_ok m' w' g') →
  system_ok (MkSystem w ts bs) g → system_ok (MkSystem w' ts (put n m bs)) g'.
Proof.
  intros Hw Hg Hm [_ Hth Hta]. split; cbn in *; [done|..].
  - intros other t Ho. eapply thread_rely; [|by apply Hth]. by apply (guar_rely None).
  - intros n' m' [[-> Ho]|[Ho Ho']]%put_cases; [by apply Hm|]. eapply task_rely; [|by eapply Hta]. split; [apply Hg|done].
Qed.

Lemma guar_refl me w g : guar me w g w g.
Proof. by split; [intros ? ?|]. Qed.

(** A step of the environment that no task notices. *)
Lemma system_env w ts bs g w' :
  world_ok se w' g → guar None w g w' g → system_ok (MkSystem w ts bs) g → system_ok (MkSystem w' ts bs) g.
Proof.
  intros Hw Hg [_ Hth Hta]. split; cbn in *; [done|..].
  - intros other t Ho. eapply thread_rely; [|by apply Hth]. by apply (guar_rely None).
  - intros n' m' Ho. eapply task_rely; [|by eapply Hta]. split; [apply Hg|done].
Qed.

(** *** The environment *)
Lemma accept_connection_ok self w g : world_ok se w g → accept_connection self w = Ok (new_connection self w).
Proof.
  intros Hok. unfold accept_connection, channel_capacity_ok. rewrite (wo_config _ _ _ Hok).
  destruct Hse as (_ & _ & _ & _ & _ & _ & _ & H1 & H2). apply Z.leb_le in H1 as ->. by apply Z.leb_le in H2 as ->.
Qed.

Lemma accept_ok self w g :
  w_conns w !! self = None → w_channels w !! self = None → Z.of_nat (size (w_conns w)) < se_connections se →
  world_ok se w g → world_ok se (new_connection self w) g ∧ guar (Some self) w g (new_connection self w) g.
Proof.
  intros Hc Hch Hn Hok. split.
  - destruct Hok. split; try done; cbn.
    + rewrite dom_insert. set_solver.
    + rewrite map_size_insert_None by done. lia.
    + apply map_Forall_insert_2.
      * split_and!; [done|cbn; rewrite lookup_insert_eq; by eexists|done].
      * intros i c Hi. destruct (wo_conns i c Hi) as (H0 & H1 & H2). split_and!; [done| |done].
        cbn. destruct (decide (i = self)) as [->|]; [congruence|by rewrite lookup_insert_ne].
    + apply map_Forall_insert_2; [|done]. split; [done|]. unfold zlen. cbn. lia.
    + intros client n Hcl. destruct (decide (n = self)) as [->|]; [rewrite lookup_insert_eq; by eexists|].
      rewrite lookup_insert_ne by done. by apply (wo_registry client).
  - split; [by intros ? ?|]. intros other Ho. unfold leaves, view_of. cbn. by rewrite lookup_insert_ne by congruence.
Qed.

Lemma drop_ok self w g :
  world_ok se w g →
  world_ok se (drop_connection self w) (delete self g) ∧ guar (Some self) w g (drop_connection self w) (delete self g).
Proof.
  intros Hok. assert (Hrec : ∀ c, (receiving c (delete self g) ≤ receiving c g)%nat).
  { intros c. destruct (g !! self) as [c'|] eqn:Hg; [|by rewrite delete_id].
    rewrite (receiving_delete self c' g c Hg). destruct (decide _); lia. }
  unfold drop_connection. destruct (w_conns w !! self) as [c|] eqn:Hc.
  - destruct (wo_conns _ _ _ Hok self c Hc) as (Hch & _). split.
    + assert (Hdom : ∀ n, is_Some (w_channels w !! n) →
        is_Some (alter (fun ch => ch <| ch_open := false |> <| ch_queue := [] |>) (c_channel c) (w_channels w) !! n)).
      { intros n Hn. rewrite lookup_alter. destruct (decide _) as [<-|]; [by rewrite fmap_is_Some|done]. }
      destruct Hok. split; try done; cbn.
      * intros c' s Hs. specialize (wo_incoming c' s Hs). specialize (Hrec c'). cbn in *. lia.
      * rewrite !dom_delete. set_solver.
      * pose proof (map_subseteq_size _ _ (delete_subseteq (w_conns w) self)). lia.
      * apply map_Forall_delete. intros i ci Hi. destruct (wo_conns i ci Hi) as (H0 & H1 & H2).
        split_and!; [done|by apply Hdom|done].
      * intros n ch. rewrite lookup_alter. destruct (decide _) as [<-|]; [|apply wo_channels].
        intros (ch0 & _ & ->)%fmap_Some. split; [done|]. unfold zlen. cbn. lia.
      * intros client n Hn. apply Hdom. by apply (wo_registry client).
    + split; [by intros ? ?|]. intros other Ho. unfold leaves, view_of. cbn.
      by rewrite !lookup_delete_ne by congruence.
  - split.
    + destruct Hok. split; try done.
      * intros c' s Hs. specialize (wo_incoming c' s Hs). specialize (Hrec c'). cbn in *. lia.
      * rewrite dom_delete. set_solver.
    + split; [by intros ? ?|]. intros other Ho. split; [done|]. by rewrite lookup_delete_ne by congruence.
Qed.

Lemma break_ok self w g :
  let w' := w <| w_conns ::= alter (fun c => c <| c_writable := false |>) self |> in
  world_ok se w g → world_ok se w' g ∧ guar None w g w' g.
Proof.
  intros w' Hok. split.
  - destruct Hok. split; try done; cbn.
    + by rewrite dom_alter_L.
    + rewrite <-!(size_dom (D := gset nat)) in *. by rewrite dom_alter_L.
    + intros i c. rewrite lookup_alter. destruct (decide _) as [<-|]; [|apply wo_conns].
      intros (c0 & Hc0 & ->)%fmap_Some. by apply (wo_conns self c0).
  - split; [by intros ? ?|]. intros other _. split; [|done]. unfold view_of. cbn. rewrite lookup_alter.
    destruct (decide _) as [<-|]; [|done]. by destruct (w_conns w !! self).
Qed.

Lemma cleanup_ok client c w g :
  world_ok se w g → sessions (w_sessions w) !! client = Some c →
  sessions_ok se (cleanup_one (w_now w) (w_sessions w) (client, c)) g ∧
  cells_grow w (w <| w_sessions := cleanup_one (w_now w) (w_sessions w) (client, c) |>).
Proof.
  intros Hok Hc. unfold cleanup_one. cbn [fst snd].
  pose proof (sw_cells _ (wo_sessions _ _ _ Hok) _ _ Hc) as Hcell. cbn in Hcell.
  destruct (cells (w_sessions w) !! c) as [s|] eqn:Hs; [clear Hcell|done].
  assert (Hm : sessions_ok se (modify_session c (cleanup_expired_messages (w_now w)) (w_sessions w)) g).
  { apply (sessions_ok_modify se c _ _ s g); [done| |done|exact (wo_incoming _ _ _ Hok c s Hs)|done|by apply world_ok_sessions].
    pose proof (wo_cells _ _ _ Hok _ _ Hs) as []. split; [by apply wf_cleanup|done..]. }
  assert (Hgrow := cell_exists_modify c (cleanup_expired_messages (w_now w)) w _ eq_refl).
  destruct (cells (modify_session c _ _) !! c) as [s'|]; [|by split]. destruct (negb _); [by split|].
  split; [|exact Hgrow]. destruct Hm. by split; [apply remove_session_wf|..].
Qed.

Lemma spec_cleanup me v known clients : spec se me v known (cleanup_task (W := W) clients) (λ _, True).
Proof.
  apply spec_for_all. intros client _. apply (spec_act se known _ Ok). intros w g Hok _. unfold cleanup_client.
  destruct (sessions (w_sessions w) !! client) as [c|] eqn:Hc; cbn [fst snd]; [|split_and!; [done|by intros ? ?|done..]].
  destruct (cleanup_ok client c w g Hok Hc) as [Hst Hgrow]. split_and!; [|exact Hgrow|done..].
  apply world_ok_set_sessions with g; [done|by apply (wo_receiving _ _ _ Hok)|exact Hgrow|done].
Qed.

(** *** The tasks *)
Lemma task_spec v known m w g :
  spec se None v known m (λ _, True) → Forall (λ c, cell_exists c w) known → task_ok m w g.
Proof.
  intros Hm Hk. unfold task_ok. eapply wp_mono; [|by apply Hm; split]. by intros r w' g' [? _].
Qed.

Lemma round_spec self v m w g :
  vspec (self := self) se v [] m (λ p v', ∀ q, p = Some q → waiting q v') →
  facts (Some self) v [] w g → thread_ok self (Busy m) w g.
Proof. intros Hm Hf. by apply Hm. Qed.

Lemma connect_round_ok self rand data w g :
  thread_ok self (Idle AtConnect) w g → thread_ok self (Busy (connect_round hooks self rand data)) w g.
Proof.
  intros (v & _ & Hf). apply (round_spec self v); [|done]. intros w1 g1 Hf1.
  eapply wp_mono; [|by apply (vspec_connect_round hooks se Hse v [] rand data)].
  intros r w' g' (v' & Hp & Hf'). exists v'. split; [|done]. eapply post_mono; [done|].
  intros p Hq q ->. by destruct q.
Qed.

Lemma loop_round_ok self client session ev w g :
  world_ok se w g → thread_ok self (Idle (AtLoop client session)) w g →
  thread_ok self (Busy (loop_round hooks self client session ev)) w g.
Proof.
  intros Hok (v & Hv & Hf). destruct (facts_own _ _ _ _ Hf) as (c & Hc & Hview).
  assert (Hcell : cell_exists session w).
  { destruct (wo_conns _ _ _ Hok self c Hc) as (_ & _ & Hs). destruct Hv as [Hst _].
    assert (E : c_state c = St.Connected client session) by by rewrite <-Hst, <-Hview. rewrite E in Hs. apply Hs. }
  cbn. eapply wp_mono; [|apply (vspec_loop_round hooks se Hse v [session] client session ev); [constructor|done|]].
  - intros r w' g' (v' & Hp & Hf'). exists v'. split; [|by destruct Hf'; split]. eapply post_mono; [done|].
    intros p Hq q Hpq. by destruct (Hq q Hpq) as [-> ?].
  - destruct Hf. split; [done|]. by constructor.
Qed.

(** *** Steps *)
Lemma accept_thread w g self :
  w_conns w !! self = None → world_ok se w g → thread_ok self (Idle AtConnect) (new_connection self w) g.
Proof.
  intros Hc Hok. eexists. split; [done|]. split; [|constructor]. intros ? [= <-]. split.
  - unfold view_of. cbn. by rewrite lookup_insert_eq.
  - apply not_elem_of_dom. intros Hin. apply (wo_receiving _ _ _ Hok) in Hin. by apply not_elem_of_dom in Hc.
Qed.

Lemma system_act w ts bs g self B (f : World W → B * World W) k :
  ts self = Some (Busy (Act f k)) → system_ok (MkSystem w ts bs) g →
  ∃ g', system_ok (MkSystem (f w).2 (put self (Some (Busy (k (f w).1))) ts) bs) g'.
Proof.
  intros Ht Hsy. destruct (so_threads _ _ Hsy self _ Ht w g (rely_refl _ w g) (so_world _ _ Hsy)) as (g' & Hok & Hg & Hm).
  exists g'. eapply system_thread; [done..| |done]. by intros t' [= <-].
Qed.

Lemma system_task_act w ts bs g n B (f : World W → B * World W) k :
  bs n = Some (Act f k) → system_ok (MkSystem w ts bs) g →
  ∃ g', system_ok (MkSystem (f w).2 ts (put n (Some (k (f w).1)) bs)) g'.
Proof.
  intros Hb Hsy. destruct (so_tasks _ _ Hsy n _ Hb w g (rely_refl _ w g) (so_world _ _ Hsy)) as (g' & Hok & Hg & Hm).
  exists g'. eapply system_task; [done..| |done]. by intros m' [= <-].
Qed.

(** A connection that neither acts nor moves the world. *)
Lemma system_same w ts bs g self t :
  thread_ok self t w g → system_ok (MkSystem w ts bs) g → system_ok (MkSystem w (put self (Some t) ts) bs) g.
Proof.
  intros Ht Hsy. eapply system_thread; [apply (so_world _ _ Hsy)|apply guar_refl| |done]. by intros ? [= <-].
Qed.

Lemma system_drop w ts bs g self :
  system_ok (MkSystem w ts bs) g → system_ok (MkSystem (drop_connection self w) (put self None ts) bs) (delete self g).
Proof.
  intros Hsy. destruct (drop_ok self w g (so_world _ _ Hsy)) as [Hok Hg]. by eapply system_thread.
Qed.

Lemma system_spawn w ts bs g n m :
  task_ok m w g → system_ok (MkSystem w ts bs) g → system_ok (MkSystem w ts (put n (Some m) bs)) g.
Proof.
  intros Ht Hsy. eapply system_task; [apply (so_world _ _ Hsy)|apply guar_refl| |done]. by intros ? [= <-].
Qed.

Lemma system_will w ts bs g n d l1 l2 :
  w_wills w = l1 ++ d :: l2 → system_ok (MkSystem w ts bs) g →
  system_ok (MkSystem (w <| w_wills := l1 ++ l2 |>) ts (put n (Some (publish_delayed_will d)) bs)) g.
Proof.
  intros Hw Hsy. pose proof (so_world _ _ Hsy) as Hok. cbn in Hok. pose proof (wo_wills _ _ _ Hok) as Hd. rewrite Hw in Hd.
  apply Forall_app in Hd as [Hl1 [Hd Hl2]%Forall_cons]. eapply system_task; [| | |done].
  - destruct Hok. split; try done. by apply Forall_app.
  - split; [by intros ? ?|by split].
  - intros m' [= <-]. apply (task_spec (St.Connecting, Decoder_new, [], 0) [dw_session d]).
    + apply spec_delayed_will; [done|constructor].
    + by constructor.
Qed.

Lemma step_ok sy sy' g : system_ok sy g → step hooks se sy sy' → ∃ g', system_ok sy' g'.
Proof.
  intros Hsy Hstep. pose proof Hsy as [Hok Hth Hta].
  destruct Hstep as [w ts bs self w' _ Hc Hch Hn Hacc|w ts bs self _ Hacc|w ts bs self rand data Ht|w ts bs self Ht|w ts bs self client session ev Ht
    |w ts bs self B f k Ht|w ts bs self p Ht|w ts bs self r Ht Hr|w ts bs self t Ht|w ts bs self|w ts bs t Ht Hl
    |w ts bs n topic payload qos retain Hb|w ts bs n d l1 l2 Hb Hw Hd|w ts bs n clients Hb|w ts bs n B f k Hb|w ts bs n r Hb];
    cbn in Hok, Hth, Hta.
  - rewrite (accept_connection_ok self w g Hok) in Hacc. injection Hacc as <-.
    exists g. destruct (accept_ok self w g) as [Hok' Hg]; [done..|]. eapply system_thread; [done..| |done].
    intros t' [= <-]. by apply accept_thread.
  - by rewrite (accept_connection_ok self w g Hok) in Hacc.
  - exists g. apply system_same; [|done]. by apply connect_round_ok, Hth.
  - exists g. apply system_same; [|done]. destruct (Hth self _ Ht) as (v & _ & Hf). by exists v.
  - exists g. apply system_same; [|done]. by apply loop_round_ok, Hth.
  - by eapply system_act.
  - exists g. apply system_same; [|done]. destruct (Hth self _ Ht) as (v & Hp & Hf). exists v. split; [by apply Hp|done].
  - exists (delete self g). by apply system_drop.
  - exists (delete self g). by apply system_drop.
  - exists g. destruct (break_ok self w g Hok) as [Hok' Hg]. by eapply system_env.
  - exists g. eapply system_env; [| |done]; [by destruct Hok; split|by split; [intros ? ?|]].
  - exists g. apply system_spawn; [|done]. apply (task_spec (St.Connecting, Decoder_new, [], 0) []); [|constructor].
    by apply spec_broker_publish.
  - exists g. by apply system_will.
  - exists g. apply system_spawn; [|done]. apply (task_spec (St.Connecting, Decoder_new, [], 0) []); [|constructor].
    by apply spec_cleanup.
  - by eapply system_task_act.
  - exists g. eapply system_task; [done|apply guar_refl|done|done].
Qed.

Lemma initial_ok now epoch persistence metrics h :
  now < latest_instant → system_ok (initial se now epoch persistence metrics h) ∅.
Proof.
  intros Hn. destruct Hse as (_ & _ & Hc & _). split; [|done..]. split; try done. apply store_wf_new.
Qed.

Lemma reachable_ok sy0 sy g : system_ok sy0 g → reachable hooks se sy0 sy → ∃ g', system_ok sy g'.
Proof. intros H0. induction 1 as [|sy sy' _ [g' Hg'] Hstep]; [by exists g|]. by eapply step_ok. Qed.

(** A busy connection, left alone, comes to its next wait or to its end. *)
Lemma own_step_step self sy sy' : own_step self sy = Some sy' → step hooks se sy sy'.
Proof.
  destruct sy as [w ts bs]. unfold own_step. cbn. destruct (ts self) as [[p|[r|B f k]]|] eqn:Ht; try done.
  - destruct r as [[p|]|e| |]; try done; intros [= <-]; [by apply step_wait|..].
    + apply (step_end _ _ _ _ _ _ (Ok None)); auto.
    + apply (step_end _ _ _ _ _ _ (Err e)); eauto.
  - intros [= <-]. by apply step_act.
Qed.

Lemma own_steps_reachable n self sy sy' : own_steps n self sy = Some sy' → reachable hooks se sy sy'.
Proof.
  assert (Hgo : ∀ sy0, reachable hooks se sy0 sy → own_steps n self sy = Some sy' → reachable hooks se sy0 sy');
    [|intros; apply Hgo; [constructor|done]].
  revert sy. induction n as [|n IH]; intros sy sy0 Hr; cbn [own_steps]; [by intros [= <-]|].
  destruct (own_step self sy) as [sy1|] eqn:H1; [|done]. cbn. apply IH. eapply reachable_step; [done|].
  by eapply own_step_step.
Qed.

Lemma thread_completes m w ts bs g self :
  ts self = Some (Busy m) → system_ok (MkSystem w ts bs) g →
  ∃ n sy', own_steps n self (MkSystem w ts bs) = Some sy' ∧
    (sy_threads sy' self = None ∨ ∃ p, sy_threads sy' self = Some (Idle p)) ∧
    (∀ other, other ≠ self → sy_threads sy' other = ts other) ∧ sy_tasks sy' = bs.
Proof.
  revert w ts g. induction m as [r|B f k IH]; intros w ts g Ht Hsy.
  - destruct (so_threads _ _ Hsy self _ Ht) as (v & Hp & _).
    assert (Hend : ∀ w' t, (t = None ∨ ∃ p, t = Some (Idle p)) →
      own_step self (MkSystem w ts bs) = Some (MkSystem w' (put self t ts) bs) →
      ∃ n sy', own_steps n self (MkSystem w ts bs) = Some sy' ∧
        (sy_threads sy' self = None ∨ ∃ p, sy_threads sy' self = Some (Idle p)) ∧
        (∀ other, other ≠ self → sy_threads sy' other = ts other) ∧ sy_tasks sy' = bs).
    { intros w' t Hcase Hst. exists 1%nat. eexists. split; [cbn [own_steps]; rewrite Hst; reflexivity|]. cbn. unfold put.
      rewrite Nat.eqb_refl. split_and!; [done|intros other Ho; by destruct (Nat.eqb_spec other self)|done]. }
    unfold own_step in Hend. cbn in Hend. rewrite Ht in Hend.
    destruct r as [[p|]|e| |]; cbn in Hp; try done; (eapply Hend; [|reflexivity]; eauto).
  - destruct (system_act w ts bs g self B f k Ht Hsy) as [g' Hsy'].
    assert (Hput : put self (Some (Busy (k (f w).1))) ts self = Some (Busy (k (f w).1)))
      by (unfold put; by rewrite Nat.eqb_refl).
    destruct (IH (f w).1 (f w).2 _ g' Hput Hsy') as (n & sy' & Hr & Hend & Ho & Hb).
    exists (S n), sy'. split_and!; [|done| |done].
    + cbn [own_steps]. unfold own_step. cbn. by rewrite Ht.
    + intros other Hne. rewrite Ho by done. unfold put. by destruct (Nat.eqb_spec other self).
Qed.
End system.

(** ** Theorems *)

(** C3. The broker is safe under every interleaving: with any hooks, for any
    clients that connect, send arbitrary bytes, and close or lose their
    connections at any point, and in whatever order the actions of the
    connections, the publications of the server, the delayed wills and the
    cleanup interleave, if the settings leave packet identifiers free (the limits
    for messages in flight and awaiting release and the number of connections
    at a time are together below 65535), have keep alive times of at least one
    second and a retry interval that is not zero, and a channel capacity that
    [mpsc::channel] accepts, the invariant holds (sessions are well formed and
    within their limits, their table, the registry and the channels agree,
    channels respect their capacity, the trie is well formed), and no task
    panics or gets stuck in a loop. *)
Theorem broker_safe {W} (hooks : Hooks W) se now epoch persistence metrics h sy :
  setting_ok se → now < latest_instant → reachable hooks se (initial se now epoch persistence metrics h) sy →
  (∃ g, world_ok se (sy_world sy) g) ∧
  (∀ self r, sy_threads sy self = Some (Busy (Ret r)) → r ≠ Panic ∧ r ≠ NoFuel) ∧
  (∀ n r, sy_tasks sy n = Some (Ret r) → r ≠ Panic ∧ r ≠ NoFuel).
Proof.
  intros Hse Hn Hr. destruct (reachable_ok hooks se Hse _ _ ∅ (initial_ok se Hse now epoch persistence metrics h Hn) Hr)
    as (g & [Hok Hth Hta]). split_and!; [by exists g|..].
  - intros self r Ht. destruct (Hth self _ Ht) as (v & Hp & _). by destruct r.
  - intros n r Ht. specialize (Hta n _ Ht). cbn in Hta. by destruct r.
Qed.

(** The default configuration, with up to a thousand connections at a time. *)
Definition default_setting : setting := MkSetting BrokerConfig_default 1000.

Lemma default_setting_ok : setting_ok default_setting.
Proof. unfold setting_ok, MAX_PERMITS. cbn. unfold from_secs. lia. Qed.

(** A client has connected its socket and sent its first bytes. *)
Definition example_system : System unit :=
  let w := World_new BrokerConfig_default 0 0 false false tt in
  MkSystem (new_connection 0 w)
    (put 0 (Some (Busy (connect_round DefaultHooks 0 7 [x10; x00]))) (put 0 (Some (Idle AtConnect)) (fun _ => None))) (fun _ => None).

Lemma example_reachable : reachable DefaultHooks default_setting (initial default_setting 0 0 false false tt) example_system.
Proof.
  eapply reachable_step; [|by apply step_first_data]. eapply reachable_step; [constructor|].
  apply step_accept; done.
Qed.

Lemma broker_safe_witness : ∃ g, world_ok default_setting (sy_world example_system) g.
Proof.
  destruct (broker_safe DefaultHooks default_setting 0 0 false false tt example_system) as [H _];
    [apply default_setting_ok|reflexivity|apply example_reachable|exact H].
Defined.

(** C19. No connection is stuck: in every reachable state a busy connection
    finishes what it is doing after finitely many actions of its own, without a
    panic and without running out of fuel: it waits for its client again or
    ends in order, and the other connections and tasks are where they were. *)
Theorem connection_progress {W} (hooks : Hooks W) se now epoch persistence metrics h sy self m :
  setting_ok se → now < latest_instant → reachable hooks se (initial se now epoch persistence metrics h) sy →
  sy_threads sy self = Some (Busy m) →
  ∃ n sy', own_steps n self sy = Some sy' ∧ reachable hooks se sy sy' ∧
    (sy_threads sy' self = None ∨ ∃ p, sy_threads sy' self = Some (Idle p)) ∧
    (∀ other, other ≠ self → sy_threads sy' other = sy_threads sy other) ∧ sy_tasks sy' = sy_tasks sy.
Proof.
  intros Hse Hn Hr Ht. destruct (reachable_ok hooks se Hse _ _ ∅ (initial_ok se Hse now epoch persistence metrics h Hn) Hr)
    as (g & Hsy). destruct sy as [w ts bs]. destruct (thread_completes se m w ts bs g self Ht Hsy) as (n & sy' & Hs & H).
  exists n, sy'. split; [done|]. split; [by eapply own_steps_reachable|done].
Qed.

Lemma connection_progress_witness :
  ∃ n sy', own_steps n 0 example_system = Some sy' ∧
    (sy_threads sy' 0 = None ∨ ∃ p, sy_threads sy' 0 = Some (Idle p)).
Proof.
  destruct (connection_progress DefaultHooks default_setting 0 0 false false tt example_system 0
    (connect_round DefaultHooks 0 7 [x10; x00])) as (n & sy' & Hs & _ & He & _);
    [apply default_setting_ok|reflexivity|apply example_reachable|reflexivity|].
  exists n, sy'. split; [exact Hs|exact He].
Defined.
