(* ===== verification/Config.v ===== *)
(** * Configuration

    [config/mod.rs], [config/cluster.rs], [config/metrics.rs] and
    [config/persistence.rs]: the settings with their defaults, the substitution
    of environment variables and the validation; and the part of [main.rs] that
    makes the broker's settings from the file and the command line. Reading the
    file and turning it into a [Config] (the crates config, toml and serde), the
    environment, the name and address of the host and the number of processors
    are parameters. Durations are in nanoseconds. *)

From S2P Require Import Prelude Protocol Codec Properties Packet Decode Encode TopicMapper Flapping Proxy Auth Hooks.
From S2P Require Import TopicValidation TopicTrie SubscriptionStore Session Persistence Broker Connection Tasks Invariant.

Definition usize_max : Z := 2 ^ 64 - 1.
Definition u16_max : Z := 65535.
Definition from_millis (ms : Z) : Z := ms * 1000000.

(** ** Settings *)
Inductive ConfigError : Type :=
  | ConfigIo
  | ConfigParse
  | ConfigCrate
  | Validation (msg : string).

Record LogConfig : Type := MkLog { log_level : string }.

Definition default_log_level : string := "info".
Definition LogConfig_default : LogConfig := MkLog default_log_level.

Record ServerTlsConfig : Type := MkServerTls {
  tls_cert : string;
  tls_key : string;
  tls_ca_cert : option string;
  tls_require_client_cert : bool;
}.

Record ServerConfig : Type := MkServer {
  sv_bind : SocketAddr;
  sv_tls_bind : option SocketAddr;
  sv_ws_bind : option SocketAddr;
  sv_ws_path : string;
  sv_workers : Z;
  sv_tls : option ServerTlsConfig;
  sv_proxy_protocol : ProxyProtocolConfig;
  sv_tls_proxy_protocol : ProxyProtocolConfig;
  sv_ws_proxy_protocol : ProxyProtocolConfig;
}.

Definition default_bind : SocketAddr := MkSocketAddr (V4 0) 1883.
Definition default_ws_path : string := "/mqtt".

Definition ServerConfig_default : ServerConfig :=
  {| sv_bind := default_bind;
     sv_tls_bind := None;
     sv_ws_bind := None;
     sv_ws_path := default_ws_path;
     sv_workers := 0;
     sv_tls := None;
     sv_proxy_protocol := ProxyProtocolConfig_default;
     sv_tls_proxy_protocol := ProxyProtocolConfig_default;
     sv_ws_proxy_protocol := ProxyProtocolConfig_default |}.

Record LimitsConfig : Type := MkLimits {
  lim_max_connections : Z;
  lim_max_packet_size : Z;
  lim_max_inflight : Z;
  lim_max_queued_messages : Z;
  lim_max_awaiting_rel : Z;
  lim_retry_interval : Z;
  lim_outbound_channel_capacity : Z;
  lim_max_topic_levels : Z;
  lim_flapping_detect : FlappingConfig;
  lim_connection_limit : ConnectionLimitConfig;
}.

#[global] Instance LimitsConfig_eta : Eta LimitsConfig := fun c =>
  MkLimits (lim_max_connections c) (lim_max_packet_size c) (lim_max_inflight c) (lim_max_queued_messages c)
    (lim_max_awaiting_rel c) (lim_retry_interval c) (lim_outbound_channel_capacity c) (lim_max_topic_levels c)
    (lim_flapping_detect c) (lim_connection_limit c).

Definition LimitsConfig_default : LimitsConfig :=
  {| lim_max_connections := 100000;
     lim_max_packet_size := 1024 * 1024;
     lim_max_inflight := 32;
     lim_max_queued_messages := 1000;
     lim_max_awaiting_rel := 100;
     lim_retry_interval := from_secs 30;
     lim_outbound_channel_capacity := 1024;
     lim_max_topic_levels := 0;
     lim_flapping_detect := FlappingConfig_default;
     lim_connection_limit := ConnectionLimitConfig_default |}.

Record SessionConfig : Type := MkSessionConfig {
  ss_default_keep_alive : Z;
  ss_max_keep_alive : Z;
  ss_expiry_check_interval : Z;
  ss_max_topic_aliases : Z;
}.

Definition SessionConfig_default : SessionConfig := MkSessionConfig 60 65535 (from_secs 60) 65535.

Record MqttConfig : Type := MkMqtt {
  mq_max_qos : Z;
  mq_retain_available : bool;
  mq_wildcard_subscriptions : bool;
  mq_subscription_identifiers : bool;
  mq_shared_subscriptions : bool;
  mq_sys_topics : bool;
  mq_sys_interval : Z;
}.

Definition MqttConfig_default : MqttConfig := MkMqtt 2 true true true true true (from_secs 10).

(** The derived defaults, which are not those of a file with an empty section. *)
Definition AuthConfig_default : AuthConfig := MkAuthConfig false false [].
Definition AclConfig_default : AclConfig := MkAclConfig false [] [] [].

Record MetricsConfig : Type := MkMetricsConfig {
  mc_enabled : bool;
  mc_bind : SocketAddr;
}.

Definition MetricsConfig_default : MetricsConfig := MkMetricsConfig false (MkSocketAddr (V4 0) 9090).

Inductive BackendType : Type := Fjall.

Record PersistenceConfig : Type := MkPersistenceConfig {
  pc_enabled : bool;
  pc_backend : BackendType;
  pc_path : string;
  pc_flush_interval : Z;
  pc_max_batch_size : Z;
}.

Definition PersistenceConfig_default : PersistenceConfig := MkPersistenceConfig true Fjall "./data" (from_millis 100) 100.

Record ClusterConfig : Type := MkClusterConfig {
  cl_enabled : bool;
  cl_node_id : option string;
  cl_gossip_addr : SocketAddr;
  cl_gossip_advertise_addr : option SocketAddr;
  cl_peer_addr : SocketAddr;
  cl_peer_advertise_addr : option SocketAddr;
  cl_seeds : list string;
  cl_gossip_interval : Z;
  cl_failure_timeout : Z;
  cl_dead_node_grace_period : Z;
  cl_proxy_protocol : ProxyProtocolConfig;
}.

Definition ClusterConfig_default : ClusterConfig :=
  {| cl_enabled := false;
     cl_node_id := None;
     cl_gossip_addr := MkSocketAddr (V4 0) 7946;
     cl_gossip_advertise_addr := None;
     cl_peer_addr := MkSocketAddr (V4 0) 7947;
     cl_peer_advertise_addr := None;
     cl_seeds := [];
     cl_gossip_interval := from_secs 1;
     cl_failure_timeout := from_secs 5;
     cl_dead_node_grace_period := from_secs 30;
     cl_proxy_protocol := ProxyProtocolConfig_default |}.

Record Config : Type := MkConfig {
  cf_log : LogConfig;
  cf_server : ServerConfig;
  cf_limits : LimitsConfig;
  cf_session : SessionConfig;
  cf_mqtt : MqttConfig;
  cf_auth : AuthConfig;
  cf_acl : AclConfig;
  cf_bridge : list BridgeConfig;
  cf_cluster : list ClusterConfig;
  cf_metrics : MetricsConfig;
  cf_persistence : PersistenceConfig;
}.

#[global] Instance Config_eta : Eta Config := fun c =>
  MkConfig (cf_log c) (cf_server c) (cf_limits c) (cf_session c) (cf_mqtt c) (cf_auth c) (cf_acl c) (cf_bridge c)
    (cf_cluster c) (cf_metrics c) (cf_persistence c).

Definition Config_default : Config :=
  {| cf_log := LogConfig_default;
     cf_server := ServerConfig_default;
     cf_limits := LimitsConfig_default;
     cf_session := SessionConfig_default;
     cf_mqtt := MqttConfig_default;
     cf_auth := AuthConfig_default;
     cf_acl := AclConfig_default;
     cf_bridge := [];
     cf_cluster := [];
     cf_metrics := MetricsConfig_default;
     cf_persistence := PersistenceConfig_default |}.

(** *** Addresses of a cluster node

    [hostname] is the name of the host, [to_socket_addrs] the resolver and
    [nanos] the clock, as parameters. *)
Definition hex_digit (n : Z) : string :=
  String (Ascii.ascii_of_nat (Z.to_nat (if n <? 10 then 48 + n else 87 + n))) EmptyString.

Fixpoint to_hex (fuel : nat) (n : Z) : string :=
  match fuel with
  | O => EmptyString
  | S fuel => String.append (if n <? 16 then EmptyString else to_hex fuel (n / 16)) (hex_digit (n mod 16))
  end.

Definition rand_id (nanos : Z) : string := to_hex 8 (Z.land nanos 0xFFFFFFFF).

Definition get_node_id (hostname : option string) (nanos : Z) (c : ClusterConfig) : string :=
  match cl_node_id c with
  | Some node_id => node_id
  | None => match hostname with Some h => h | None => String.append "node-" (rand_id nanos) end
  end.

Definition is_ipv4 (a : SocketAddr) : bool := match sa_ip a with V4 _ => true | V6 _ => false end.

Definition resolve_local_ip (hostname : option string) (to_socket_addrs : string → option (list SocketAddr)) : option IpAddr :=
  h ← hostname;
  addrs ← to_socket_addrs (String.append h ":0");
  addr ← head (filter is_ipv4 addrs);
  Some (sa_ip addr).

Definition advertise_addr (explicit : option SocketAddr) (local_ip : option IpAddr) (bound : SocketAddr) : SocketAddr :=
  match explicit with
  | Some addr => addr
  | None => match local_ip with Some ip => MkSocketAddr ip (sa_port bound) | None => bound end
  end.

Definition get_gossip_advertise_addr (local_ip : option IpAddr) (c : ClusterConfig) : SocketAddr :=
  advertise_addr (cl_gossip_advertise_addr c) local_ip (cl_gossip_addr c).

Definition get_peer_advertise_addr (local_ip : option IpAddr) (c : ClusterConfig) : SocketAddr :=
  advertise_addr (cl_peer_advertise_addr c) local_ip (cl_peer_addr c).

(** ** Environment variables in the file

    A reference is a dollar sign and, in braces, a name without a closing brace
    or a colon, and optionally a colon, a dash and a default without a closing
    brace. The name is the longest run of its characters, since a brace or a
    colon follows it: matching the regular expression needs no backtracking. *)
Fixpoint span (stop : Ascii.ascii → bool) (s : string) : string * string :=
  match s with
  | EmptyString => (EmptyString, EmptyString)
  | String a rest => if stop a then (EmptyString, s) else let '(x, y) := span stop rest in (String a x, y)
  end.

Definition name_end (a : Ascii.ascii) : bool := Ascii.eqb a "}" || Ascii.eqb a ":".
Definition default_end (a : Ascii.ascii) : bool := Ascii.eqb a "}".

(** The match at the start of [s]: the two captures and what follows. *)
Definition env_reference (s : string) : option (string * string * string) :=
  s ← strip_prefix "${" s;
  let '(name, after) := span name_end s in
  if String.eqb name EmptyString then None
  else match strip_prefix "}" after with
  | Some rest => Some (name, EmptyString, rest)
  | None =>
      d ← strip_prefix ":-" after;
      let '(default, after) := span default_end d in
      rest ← strip_prefix "}" after;
      Some (name, default, rest)
  end.

Section env.
Context (env : string → option string).

Fixpoint replace_all (fuel : nat) (s : string) : string :=
  match fuel with
  | O => s
  | S fuel =>
      match env_reference s with
      | Some (name, default, rest) => String.append (from_option id default (env name)) (replace_all fuel rest)
      | None => match s with EmptyString => EmptyString | String a rest => String a (replace_all fuel rest) end
      end
  end.

Definition substitute_env_vars (content : string) : string := replace_all (String.length content) content.
End env.

(** ** Validation *)
Definition validation {A} (msg : string) : outcome ConfigError A := Err (Validation msg).

Definition user_error (user : UserConfig) (msg : string) : outcome ConfigError unit :=
  validation (String.append "User '" (String.append (uc_username user) (String.append "' " msg))).

Definition validate_credential (user : UserConfig) : outcome ConfigError unit :=
  match uc_password user, uc_password_hash user with
  | None, None => user_error user "must have either 'password' or 'password_hash'"
  | Some _, Some _ => user_error user "cannot have both 'password' and 'password_hash'"
  | Some pwd, None => if String.eqb pwd EmptyString then user_error user "has empty password" else Ok tt
  | None, Some hash =>
      match strip_prefix "$argon2" hash with
      | None => user_error user "has invalid password_hash format (must be argon2 PHC format)"
      | Some _ => Ok tt
      end
  end.

Definition validate_role (role_names : gset string) (user : UserConfig) : outcome ConfigError unit :=
  match uc_role user with
  | Some role =>
      if bool_decide (role ∈ role_names) then Ok tt
      else user_error user (String.append "references unknown role '" (String.append role "'"))
  | None => Ok tt
  end.

Fixpoint each {A} (f : A → outcome ConfigError unit) (l : list A) : outcome ConfigError unit :=
  match l with
  | [] => Ok tt
  | x :: l => _ ← f x; each f l
  end.

Definition validate_tls (server : ServerConfig) : outcome ConfigError unit :=
  match sv_tls_bind server with
  | None => Ok tt
  | Some _ =>
      match sv_tls server with
      | Some tls =>
          if String.eqb (tls_cert tls) EmptyString then validation "tls.cert is required when tls_bind is set"
          else if String.eqb (tls_key tls) EmptyString then validation "tls.key is required when tls_bind is set"
          else Ok tt
      | None => validation "tls configuration is required when tls_bind is set"
      end
  end.

Definition validate (c : Config) : outcome ConfigError unit :=
  if 2 <? mq_max_qos (cf_mqtt c) then validation "max_qos must be 0, 1, or 2"
  else
    _ ← (if ac_enabled (cf_auth c) then each validate_credential (ac_users (cf_auth c)) else Ok tt);
    _ ← (if ac_enabled (cf_auth c) && acl_cfg_enabled (cf_acl c)
         then each (validate_role (list_to_set (map ar_name (acl_cfg_roles (cf_acl c))))) (ac_users (cf_auth c))
         else Ok tt);
    validate_tls (cf_server c).

Definition build_role_map (c : Config) : gmap string AclRole :=
  foldl (fun m r => <[ar_name r := r]> m) ∅ (acl_cfg_roles (cf_acl c)).

Definition build_user_map (c : Config) : gmap string UserConfig :=
  foldl (fun m u => <[uc_username u := u]> m) ∅ (ac_users (cf_auth c)).

(** ** Loading

    [read_to_string] reads a file; [build] is the crate config: the defaults, the
    text of the file if there is one and the variables that override it, made
    into a [Config]. [toml] is the crate of that name. *)
Inductive file_read : Type :=
  | FileText (content : string)
  | FileNotFound
  | FileError.

Section load.
Context (env : string → option string) (read_to_string : string → file_read).
Context (build : option string → option Config) (toml : string → option Config).

Definition load (path : string) : outcome ConfigError Config :=
  source ← match read_to_string path with
           | FileText content => Ok (Some (substitute_env_vars env content))
           | FileNotFound => Ok None
           | FileError => Err ConfigIo
           end;
  match build source with
  | None => Err ConfigCrate
  | Some config => _ ← validate config; Ok config
  end.

Definition from_env : outcome ConfigError Config := load EmptyString.

Definition parse (content : string) : outcome ConfigError Config :=
  match toml content with
  | None => Err ConfigParse
  | Some config => _ ← validate config; Ok config
  end.
End load.

(** ** The program's settings *)
Inductive LogLevel : Type := LError | LWarn | LInfo | LDebug | LTrace.

Record Args : Type := MkArgs {
  a_config : option string;
  a_bind : option SocketAddr;
  a_ws_bind : option SocketAddr;
  a_workers : option Z;
  a_max_connections : option Z;
  a_max_packet_size : option Z;
  a_max_qos : option Z;
  a_keep_alive : option Z;
  a_retain : option bool;
  a_wildcard_subs : option bool;
  a_max_topic_alias : option Z;
  a_receive_maximum : option Z;
  a_log_level : option LogLevel;
}.

Definition no_args : Args := MkArgs None None None None None None None None None None None None None.

(** The configuration the program runs with; [None] is an exit with status 1. *)
Definition main_config env read_to_string build (args : Args) : option Config :=
  match a_config args with
  | Some config_path =>
      match load env read_to_string build config_path with Ok cfg => Some cfg | _ => None end
  | None =>
      Some (match from_env env read_to_string build with Ok cfg => cfg | _ => Config_default end)
  end.

(** [str::to_lowercase] on the letters of the level names. *)
Definition lower (a : Ascii.ascii) : Ascii.ascii :=
  let n := Ascii.N_of_ascii a in
  if ((65 <=? n) && (n <=? 90))%N then Ascii.ascii_of_N (n + 32) else a.

Fixpoint to_lowercase (s : string) : string :=
  match s with EmptyString => EmptyString | String a s => String (lower a) (to_lowercase s) end.

Definition log_level_of (args : Args) (c : Config) : LogLevel :=
  match a_log_level args with
  | Some l => l
  | None =>
      let level := to_lowercase (log_level (cf_log c)) in
      if String.eqb level "error" then LError
      else if String.eqb level "warn" then LWarn
      else if String.eqb level "info" then LInfo
      else if String.eqb level "debug" then LDebug
      else if String.eqb level "trace" then LTrace
      else LWarn
  end.

(** [BrokerConfig]: what the handlers read, and what the listeners and the
    periodic tasks read. *)
Record Startup : Type := MkStartup {
  st_bind_addr : SocketAddr;
  st_tls_bind_addr : option SocketAddr;
  st_tls_config : option ServerTlsConfig;
  st_ws_bind_addr : option SocketAddr;
  st_ws_path : string;
  st_session_expiry_check_interval : Z;
  st_num_workers : Z;
  st_sys_topics_enabled : bool;
  st_sys_topics_interval : Z;
  st_proxy_protocol : ProxyProtocolConfig;
  st_tls_proxy_protocol : ProxyProtocolConfig;
  st_ws_proxy_protocol : ProxyProtocolConfig;
  st_config : BrokerConfig;
}.

Definition unless_zero (v unbounded : Z) : Z := if v =? 0 then unbounded else v.

(** [available_parallelism] is the number of processors, if it is known. *)
Definition broker_config (available_parallelism : option Z) (args : Args) (c : Config) : option Startup :=
  let limits := cf_limits c in
  let or {A} (arg : option A) (v : A) := from_option id v arg in
  max_qos ← match or (a_max_qos args) (mq_max_qos (cf_mqtt c)) with
            | 0 => Some AtMostOnce
            | 1 => Some AtLeastOnce
            | 2 => Some ExactlyOnce
            | _ => None
            end;
  Some
    {| st_bind_addr := or (a_bind args) (sv_bind (cf_server c));
       st_tls_bind_addr := sv_tls_bind (cf_server c);
       st_tls_config := sv_tls (cf_server c);
       st_ws_bind_addr := match a_ws_bind args with Some a => Some a | None => sv_ws_bind (cf_server c) end;
       st_ws_path := sv_ws_path (cf_server c);
       st_session_expiry_check_interval := ss_expiry_check_interval (cf_session c);
       st_num_workers := unless_zero (or (a_workers args) (sv_workers (cf_server c))) (or available_parallelism 4);
       st_sys_topics_enabled := mq_sys_topics (cf_mqtt c);
       st_sys_topics_interval := mq_sys_interval (cf_mqtt c);
       st_proxy_protocol := sv_proxy_protocol (cf_server c);
       st_tls_proxy_protocol := sv_tls_proxy_protocol (cf_server c);
       st_ws_proxy_protocol := sv_ws_proxy_protocol (cf_server c);
       st_config :=
         {| bc_max_connections := unless_zero (or (a_max_connections args) (lim_max_connections limits)) 10000000;
            bc_max_packet_size := unless_zero (or (a_max_packet_size args) (lim_max_packet_size limits)) usize_max;
            bc_default_keep_alive := or (a_keep_alive args) (ss_default_keep_alive (cf_session c));
            bc_max_keep_alive := ss_max_keep_alive (cf_session c);
            bc_receive_maximum := or (a_receive_maximum args) 65535;
            bc_max_qos := max_qos;
            bc_retain_available := or (a_retain args) (mq_retain_available (cf_mqtt c));
            bc_wildcard_subscription_available := or (a_wildcard_subs args) (mq_wildcard_subscriptions (cf_mqtt c));
            bc_subscription_identifiers_available := mq_subscription_identifiers (cf_mqtt c);
            bc_shared_subscriptions_available := mq_shared_subscriptions (cf_mqtt c);
            bc_max_topic_alias := or (a_max_topic_alias args) (ss_max_topic_aliases (cf_session c));
            bc_max_inflight := unless_zero (lim_max_inflight limits) u16_max;
            bc_max_queued_messages := unless_zero (lim_max_queued_messages limits) usize_max;
            bc_max_awaiting_rel := unless_zero (lim_max_awaiting_rel limits) usize_max;
            bc_retry_interval := lim_retry_interval limits;
            bc_outbound_channel_capacity := unless_zero (lim_outbound_channel_capacity limits) 1000000;
            bc_max_topic_levels := lim_max_topic_levels limits |} |}.

(** The detector, the bridges and the cluster that [main] sets up. *)
Definition dos_protection {IpNet} (parse_net : string → option IpNet) (now : Z) (c : Config) : option FlappingDetector :=
  let limits := cf_limits c in
  if fc_enabled (lim_flapping_detect limits) || (0 <? lc_max_connections_per_ip (lim_connection_limit limits))
  then Some (FlappingDetector_new parse_net now (lim_flapping_detect limits) (lim_connection_limit limits))
  else None.

Definition cluster_choice (c : Config) : option ClusterConfig :=
  if bool_decide (filter cl_enabled (cf_cluster c) = []) then None else head (cf_cluster c).

(** ** Lemmas: references *)

(** A file as a template: text and references. *)
Inductive piece : Type :=
  | Text (s : string)
  | Reference (name : string) (default : option string).

Definition print_piece (p : piece) : string :=
  match p with
  | Text s => s
  | Reference name None => String.append "${" (String.append name "}")
  | Reference name (Some d) => String.append "${" (String.append name (String.append ":-" (String.append d "}")))
  end.

Definition print_template (ps : list piece) : string := foldr (λ p s, String.append (print_piece p) s) EmptyString ps.

Definition value_of (env : string → option string) (p : piece) : string :=
  match p with
  | Text s => s
  | Reference name d => from_option id (from_option id EmptyString d) (env name)
  end.

Definition piece_ok (p : piece) : bool :=
  match p with
  | Text s => negb (contains "$" s)
  | Reference name d =>
      negb (String.eqb name EmptyString) && negb (contains "}" name) && negb (contains ":" name) &&
      negb (from_option (contains "}") false d)
  end.

Fixpoint all_chars (f : Ascii.ascii → bool) (s : string) : bool :=
  match s with EmptyString => true | String a s => f a && all_chars f s end.

Lemma span_app stop x a y :
  all_chars (λ c, negb (stop c)) x = true → stop a = true → span stop (String.append x (String a y)) = (x, String a y).
Proof.
  intros Hx Ha. induction x as [|c x IH]; rewrite ?append_nil_l, ?append_cons; cbn in *; [by rewrite Ha|].
  apply andb_prop in Hx as [Hc Hx]. apply negb_true_iff in Hc. by rewrite Hc, IH.
Qed.

Lemma not_contains_chars c x : contains c x = false → all_chars (λ a, negb (Ascii.eqb a c)) x = true.
Proof. induction x as [|a x IH]; cbn; [done|]. intros [-> Hx]%orb_false_elim. by rewrite IH. Qed.

Lemma name_chars x :
  contains "}" x = false → contains ":" x = false → all_chars (λ a, negb (name_end a)) x = true.
Proof.
  unfold name_end. induction x as [|a x IH]; cbn; [done|].
  intros [-> Hb]%orb_false_elim [-> Hc]%orb_false_elim. by rewrite IH.
Qed.

Lemma env_reference_print name d rest :
  piece_ok (Reference name d) = true →
  env_reference (String.append (print_piece (Reference name d)) rest) = Some (name, from_option id EmptyString d, rest).
Proof.
  cbn [piece_ok]. intros H. repeat (apply andb_prop in H as [H ?]).
  apply negb_true_iff in H, H0, H1, H2. pose proof (name_chars name H2 H1) as Hn.
  unfold env_reference. destruct d as [d|]; cbn [print_piece from_option] in *.
  - rewrite <- !append_assoc, !append_cons, !append_nil_l. cbn [strip_prefix mbind option_bind Ascii.eqb Bool.eqb].
    rewrite span_app by done. rewrite H. cbn [strip_prefix mbind option_bind Ascii.eqb Bool.eqb].
    rewrite span_app by (by try apply not_contains_chars). done.
  - rewrite <- !append_assoc, !append_cons, !append_nil_l. cbn [strip_prefix mbind option_bind Ascii.eqb Bool.eqb].
    rewrite span_app by done. rewrite H. done.
Qed.

Lemma length_append x y : String.length (String.append x y) = (String.length x + String.length y)%nat.
Proof. induction x as [|a x IH]; [done|]. rewrite append_cons. cbn. by rewrite IH. Qed.

Lemma replace_all_text env x s r n :
  contains "$" x = false →
  (∀ fuel, (n ≤ fuel)%nat → replace_all env fuel s = r) →
  ∀ fuel, (String.length x + n ≤ fuel)%nat → replace_all env fuel (String.append x s) = String.append x r.
Proof.
  intros Hx Hs. induction x as [|a x IH]; intros fuel Hf; [by apply Hs|].
  cbn in Hx. apply orb_false_elim in Hx as [Ha Hx]. cbn in Hf. destruct fuel as [|fuel]; [lia|].
  rewrite !append_cons. cbn [replace_all env_reference strip_prefix mbind option_bind].
  rewrite Ascii.eqb_sym, Ha. cbn. rewrite IH; [done|done|lia].
Qed.

Lemma print_reference_length name d : (1 ≤ String.length (print_piece (Reference name d)))%nat.
Proof. destruct d; cbn [print_piece]; rewrite append_cons; cbn; lia. Qed.

Lemma replace_all_template env ps :
  forallb piece_ok ps = true →
  ∀ fuel, (String.length (print_template ps) ≤ fuel)%nat →
  replace_all env fuel (print_template ps) = foldr (λ p s, String.append (value_of env p) s) EmptyString ps.
Proof.
  induction ps as [|p ps IH]; intros Hps fuel Hf; [by destruct fuel|].
  cbn in Hps. apply andb_prop in Hps as [Hp Hps]. cbn [print_template foldr] in *.
  fold (print_template ps) in *. rewrite length_append in Hf. destruct p as [s|name d].
  - eapply replace_all_text; [by apply negb_true_iff in Hp|by apply IH|exact Hf].
  - pose proof (print_reference_length name d). destruct fuel as [|fuel]; [lia|]. cbn [replace_all].
    rewrite env_reference_print by exact Hp. cbn [value_of]. f_equal. apply IH; [done|lia].
Qed.

(** ** Lemmas: validation *)
Definition credential_ok (user : UserConfig) : Prop :=
  match uc_password user, uc_password_hash user with
  | Some pwd, None => pwd ≠ EmptyString
  | None, Some hash => ∃ rest, hash = String.append "$argon2" rest
  | _, _ => False
  end.

Record config_valid (c : Config) : Prop := {
  cv_qos : mq_max_qos (cf_mqtt c) ≤ 2;
  cv_credentials : ac_enabled (cf_auth c) = true → ∀ user, user ∈ ac_users (cf_auth c) → credential_ok user;
  cv_roles : ac_enabled (cf_auth c) = true → acl_cfg_enabled (cf_acl c) = true →
    ∀ user role, user ∈ ac_users (cf_auth c) → uc_role user = Some role →
    ∃ r, r ∈ acl_cfg_roles (cf_acl c) ∧ ar_name r = role;
  cv_tls : is_Some (sv_tls_bind (cf_server c)) →
    ∃ tls, sv_tls (cf_server c) = Some tls ∧ tls_cert tls ≠ EmptyString ∧ tls_key tls ≠ EmptyString;
}.

Lemma each_ok {A} (f : A → outcome ConfigError unit) l : each f l = Ok tt ↔ ∀ x, x ∈ l → f x = Ok tt.
Proof.
  induction l as [|x l IH]; cbn; [split; [by intros _ x ?%elem_of_nil|done]|].
  destruct (f x) as [[]|e| |] eqn:E; cbn.
  - rewrite IH. setoid_rewrite elem_of_cons. naive_solver.
  - split; [done|]. intros H. specialize (H x ltac:(by left)). congruence.
  - split; [done|]. intros H. specialize (H x ltac:(by left)). congruence.
  - split; [done|]. intros H. specialize (H x ltac:(by left)). congruence.
Qed.

Lemma bind_ok (m m' : outcome ConfigError unit) : (_ ← m; m') = Ok tt ↔ m = Ok tt ∧ m' = Ok tt.
Proof. destruct m as [[]|e| |]; cbn; naive_solver. Qed.

Lemma if_ok (b : bool) (m : outcome ConfigError unit) : (if b then m else Ok tt) = Ok tt ↔ (b = true → m = Ok tt).
Proof. destruct b; naive_solver. Qed.

Lemma validate_credential_ok user : validate_credential user = Ok tt ↔ credential_ok user.
Proof.
  unfold validate_credential, credential_ok. destruct (uc_password user) as [pwd|], (uc_password_hash user) as [hash|]; [done|..|done].
  - destruct (String.eqb_spec pwd EmptyString); naive_solver.
  - destruct (strip_prefix "$argon2" hash) as [rest|] eqn:E.
    + split; [|done]. intros _. exists rest. by apply strip_prefix_some.
    + split; [done|]. intros [rest ->]. by rewrite strip_prefix_append in E.
Qed.

Lemma validate_role_ok roles user :
  validate_role (list_to_set (map ar_name roles)) user = Ok tt ↔
  ∀ role, uc_role user = Some role → ∃ r, r ∈ roles ∧ ar_name r = role.
Proof.
  unfold validate_role. destruct (uc_role user) as [role|]; [|naive_solver].
  case_bool_decide as H; rewrite elem_of_list_to_set in H; setoid_rewrite list_elem_of_fmap in H; naive_solver.
Qed.

Lemma validate_tls_ok server :
  validate_tls server = Ok tt ↔
  (is_Some (sv_tls_bind server) → ∃ tls, sv_tls server = Some tls ∧ tls_cert tls ≠ EmptyString ∧ tls_key tls ≠ EmptyString).
Proof.
  unfold validate_tls. destruct (sv_tls_bind server) as [a|]; [|split; [by intros _ [? ?]|done]].
  destruct (sv_tls server) as [tls|]; [|split; [done|intros H; destruct H; naive_solver]].
  destruct (String.eqb_spec (tls_cert tls) EmptyString), (String.eqb_spec (tls_key tls) EmptyString);
    (split; [by eauto|intros H; destruct H as (t & ? & ? & ?); [by eauto|]; simplify_eq; done]).
Qed.

Lemma validate_ok c : validate c = Ok tt ↔ config_valid c.
Proof.
  unfold validate. destruct (Z.ltb_spec 2 (mq_max_qos (cf_mqtt c))) as [Hq|Hq].
  { split; [done|]. intros [? _ _ _]. lia. }
  rewrite !bind_ok, !if_ok, !each_ok, validate_tls_ok, andb_true_iff.
  setoid_rewrite validate_credential_ok. setoid_rewrite validate_role_ok.
  split; [intros (Hc & Hr & Ht); split; naive_solver|intros [_ Hc Hr Ht]; naive_solver].
Qed.

(** ** Lemmas: settings *)
Record config_typed (c : Config) : Prop := {
  ct_limits : 0 ≤ lim_max_connections (cf_limits c) ≤ usize_max ∧ 0 ≤ lim_max_packet_size (cf_limits c) ≤ usize_max ∧
    0 ≤ lim_max_inflight (cf_limits c) ≤ u16_max ∧ 0 ≤ lim_max_queued_messages (cf_limits c) ≤ usize_max ∧
    0 ≤ lim_max_awaiting_rel (cf_limits c) ≤ usize_max ∧ 0 ≤ lim_retry_interval (cf_limits c) ∧
    0 ≤ lim_outbound_channel_capacity (cf_limits c) ≤ usize_max ∧ 0 ≤ lim_max_topic_levels (cf_limits c) ≤ usize_max;
  ct_session : 0 ≤ ss_default_keep_alive (cf_session c) ≤ u16_max ∧ 0 ≤ ss_max_keep_alive (cf_session c) ≤ u16_max ∧
    0 ≤ ss_max_topic_aliases (cf_session c) ≤ u16_max;
  ct_qos : 0 ≤ mq_max_qos (cf_mqtt c) ≤ 255;
}.

Definition in_range (max : Z) (o : option Z) : Prop := ∀ v, o = Some v → 0 ≤ v ≤ max.

Record args_typed (args : Args) : Prop := {
  at_connections : in_range usize_max (a_max_connections args);
  at_packet_size : in_range usize_max (a_max_packet_size args);
  at_qos : in_range 255 (a_max_qos args);
  at_keep_alive : in_range u16_max (a_keep_alive args);
  at_topic_alias : in_range u16_max (a_max_topic_alias args);
  at_receive_maximum : in_range u16_max (a_receive_maximum args);
}.

(** Every field of the broker's settings at its width; the limits that stand for
    unbounded when they are zero are not zero. *)
Record broker_config_typed (bc : BrokerConfig) : Prop := {
  bt_usize : 1 ≤ bc_max_connections bc ≤ usize_max ∧ 1 ≤ bc_max_packet_size bc ≤ usize_max ∧
    1 ≤ bc_max_queued_messages bc ≤ usize_max ∧ 1 ≤ bc_max_awaiting_rel bc ≤ usize_max ∧
    1 ≤ bc_outbound_channel_capacity bc ≤ usize_max ∧ 0 ≤ bc_max_topic_levels bc ≤ usize_max;
  bt_u16 : 1 ≤ bc_max_inflight bc ≤ u16_max ∧ 0 ≤ bc_default_keep_alive bc ≤ u16_max ∧
    0 ≤ bc_max_keep_alive bc ≤ u16_max ∧ 0 ≤ bc_max_topic_alias bc ≤ u16_max ∧ 0 ≤ bc_receive_maximum bc ≤ u16_max;
  bt_retry : 0 ≤ bc_retry_interval bc;
}.

Lemma unless_zero_range v d max : 0 ≤ v ≤ max → 1 ≤ d ≤ max → 1 ≤ unless_zero v d ≤ max.
Proof. intros. unfold unless_zero. destruct (Z.eqb_spec v 0); lia. Qed.

Lemma in_range_or max o v : in_range max o → 0 ≤ v ≤ max → 0 ≤ from_option id v o ≤ max.
Proof. intros Ho Hv. destruct o as [x|]; [by apply Ho|done]. Qed.

Lemma qos_of_value v : 0 ≤ v →
  match (match v with 0 => Some AtMostOnce | 1 => Some AtLeastOnce | 2 => Some ExactlyOnce | _ => None end) with
  | Some q => QoS_as_u8 q = v
  | None => 2 < v
  end.
Proof. intros Hv. destruct v as [|[[]|[]|]|]; try done; lia. Qed.

Lemma default_valid : config_valid Config_default.
Proof. apply validate_ok. reflexivity. Qed.

Lemma load_ok env read build path c :
  load env read build path = Ok c ↔
  (∃ content, read path = FileText content ∧ build (Some (substitute_env_vars env content)) = Some c ∧ config_valid c) ∨
  (read path = FileNotFound ∧ build None = Some c ∧ config_valid c).
Proof.
  unfold load. destruct (read path) as [content| |]; cbn.
  - destruct (build _) as [c'|] eqn:E; [|naive_solver]. destruct (validate c') as [[]|e| |] eqn:V; cbn;
      [apply validate_ok in V; naive_solver|..]; (split; [done|]); intros [(? & [= <-] & ? & Hv)|?]; try naive_solver;
      simplify_eq; apply validate_ok in Hv; congruence.
  - destruct (build _) as [c'|] eqn:E; [|naive_solver]. destruct (validate c') as [[]|e| |] eqn:V; cbn;
      [apply validate_ok in V; naive_solver|..]; (split; [done|]); intros [(? & ? & ?)|(_ & ? & Hv)]; try naive_solver;
      simplify_eq; apply validate_ok in Hv; congruence.
  - naive_solver.
Qed.

(** ** Theorems *)

(** Environment variables are substituted once and everywhere: in a file made
    of text without a dollar sign and of references, with or without a default,
    every reference becomes the variable's value, its default when the variable
    is not set and nothing when it has none; the text stays, and what a value
    contains is not substituted again. *)
Theorem env_substitution env ps :
  forallb piece_ok ps = true →
  substitute_env_vars env (print_template ps) = foldr (λ p s, String.append (value_of env p) s) EmptyString ps.
Proof. intros H. by apply replace_all_template. Qed.

Definition example_env (name : string) : option string :=
  if String.eqb name "PASS" then Some "${HOME}"%string else None.

Lemma env_substitution_witness :
  substitute_env_vars example_env "p = ${PASS}, u = ${USER:-bob}, r = ${ROLE}." = "p = ${HOME}, u = bob, r = ."%string.
Proof.
  exact (env_substitution example_env
    [Text "p = "; Reference "PASS" None; Text ", u = "; Reference "USER" (Some "bob"%string); Text ", r = ";
     Reference "ROLE" None; Text "."] eq_refl).
Defined.

(** C35. The broker starts only with a valid configuration: the quality of service
    is at most two, with authentication every user has exactly one usable
    credential, with access control every role a user names exists, and a TLS
    listener has a certificate and a key. A file that is named and rejected
    stops the program. Without a file, a configuration that the environment
    gives and validation rejects is replaced by the defaults, in which
    authentication and access control are off. *)
Theorem startup_config env read build args c :
  main_config env read build args = Some c →
  config_valid c ∧
  match a_config args with
  | Some path => load env read build path = Ok c
  | None =>
      load env read build EmptyString = Ok c ∨
      (∀ c', load env read build EmptyString ≠ Ok c') ∧ c = Config_default ∧
      ac_enabled (cf_auth c) = false ∧ acl_cfg_enabled (cf_acl c) = false
  end.
Proof.
  unfold main_config, from_env. destruct (a_config args) as [path|].
  - destruct (load _ _ _ path) as [c'|e| |] eqn:E; intros [= ->]. split; [|done]. apply load_ok in E. naive_solver.
  - intros [= <-]. destruct (load env read build EmptyString) as [c'|e| |] eqn:E;
      [split; [apply load_ok in E; naive_solver|by left]|..]; (split; [apply default_valid|right; done]).
Qed.

(** The environment turns authentication on and names a user without password. *)
Definition example_rejected : Config :=
  Config_default <| cf_auth := MkAuthConfig true false [MkUserConfig "bob" None None None] |>.

Lemma startup_config_witness :
  main_config (fun _ => None) (fun _ => FileNotFound) (fun _ => Some example_rejected) no_args = Some Config_default ∧
  load (fun _ => None) (fun _ => FileNotFound) (fun _ => Some example_rejected) EmptyString ≠ Ok example_rejected.
Proof.
  split; [reflexivity|].
  destruct (startup_config (fun _ => None) (fun _ => FileNotFound) (fun _ => Some example_rejected) no_args
    Config_default eq_refl) as [_ [H|[H _]]]; [discriminate H|apply H].
Defined.

(** A setting from the command line, or else from the file. *)
Definition chosen {A} (arg : option A) (file v : A) : Prop :=
  (∀ a, arg = Some a → v = a) ∧ (arg = None → v = file).

(** A limit, of which zero stands for another value. *)
Definition limit_of (configured unbounded v : Z) : Prop :=
  (configured = 0 → v = unbounded) ∧ (configured ≠ 0 → v = configured).

(** What the settings are to be, one by one. *)
Record as_configured (parallelism : option Z) (args : Args) (c : Config) (st : Startup) : Prop := {
  ac_workers : ∃ n cpus, chosen (a_workers args) (sv_workers (cf_server c)) n ∧ chosen parallelism 4 cpus ∧
                         limit_of n cpus (st_num_workers st);
  ac_bind : chosen (a_bind args) (sv_bind (cf_server c)) (st_bind_addr st);
  ac_tls : st_tls_bind_addr st = sv_tls_bind (cf_server c) ∧ st_tls_config st = sv_tls (cf_server c);
  ac_ws : chosen (Some <$> a_ws_bind args) (sv_ws_bind (cf_server c)) (st_ws_bind_addr st) ∧
          st_ws_path st = sv_ws_path (cf_server c);
  ac_proxy : st_proxy_protocol st = sv_proxy_protocol (cf_server c) ∧
             st_tls_proxy_protocol st = sv_tls_proxy_protocol (cf_server c) ∧
             st_ws_proxy_protocol st = sv_ws_proxy_protocol (cf_server c);
  ac_tasks : st_session_expiry_check_interval st = ss_expiry_check_interval (cf_session c) ∧
             st_sys_topics_enabled st = mq_sys_topics (cf_mqtt c) ∧ st_sys_topics_interval st = mq_sys_interval (cf_mqtt c);
  ac_connections : ∃ n, chosen (a_max_connections args) (lim_max_connections (cf_limits c)) n ∧
                        limit_of n 10000000 (bc_max_connections (st_config st));
  ac_packet_size : ∃ n, chosen (a_max_packet_size args) (lim_max_packet_size (cf_limits c)) n ∧
                        limit_of n usize_max (bc_max_packet_size (st_config st));
  ac_inflight : limit_of (lim_max_inflight (cf_limits c)) u16_max (bc_max_inflight (st_config st));
  ac_queued : limit_of (lim_max_queued_messages (cf_limits c)) usize_max (bc_max_queued_messages (st_config st));
  ac_awaiting : limit_of (lim_max_awaiting_rel (cf_limits c)) usize_max (bc_max_awaiting_rel (st_config st));
  ac_capacity : limit_of (lim_outbound_channel_capacity (cf_limits c)) 1000000 (bc_outbound_channel_capacity (st_config st));
  ac_levels : bc_max_topic_levels (st_config st) = lim_max_topic_levels (cf_limits c);
  ac_retry : bc_retry_interval (st_config st) = lim_retry_interval (cf_limits c);
  ac_keep_alive : chosen (a_keep_alive args) (ss_default_keep_alive (cf_session c)) (bc_default_keep_alive (st_config st)) ∧
                  bc_max_keep_alive (st_config st) = ss_max_keep_alive (cf_session c);
  ac_receive : chosen (a_receive_maximum args) 65535 (bc_receive_maximum (st_config st));
  ac_alias : chosen (a_max_topic_alias args) (ss_max_topic_aliases (cf_session c)) (bc_max_topic_alias (st_config st));
  ac_qos : chosen (a_max_qos args) (mq_max_qos (cf_mqtt c)) (QoS_as_u8 (bc_max_qos (st_config st)));
  ac_retain : chosen (a_retain args) (mq_retain_available (cf_mqtt c)) (bc_retain_available (st_config st));
  ac_wildcard : chosen (a_wildcard_subs args) (mq_wildcard_subscriptions (cf_mqtt c))
                  (bc_wildcard_subscription_available (st_config st));
  ac_switches : bc_subscription_identifiers_available (st_config st) = mq_subscription_identifiers (cf_mqtt c) ∧
                bc_shared_subscriptions_available (st_config st) = mq_shared_subscriptions (cf_mqtt c);
}.

Lemma chosen_or {A} (arg : option A) (file : A) : chosen arg file (from_option id file arg).
Proof. split; [by intros a ->|by intros ->]. Qed.

Lemma limit_unless_zero v u : limit_of v u (unless_zero v u).
Proof. unfold limit_of, unless_zero. destruct (Z.eqb_spec v 0); done. Qed.

(** C34. The settings the program makes are those of the command line, or else
    of the file, with zero read as unbounded for the limits where it stands for
    that; they exist exactly when the quality of service asked for is at most
    two, and have the widths of their types. They are settings under which the
    broker is proved safe exactly when the in-flight and the incoming limits are
    set and leave room for the connections in the packet identifiers, neither
    keep alive nor the retry interval is zero, and the capacity of the channels
    is not above what [mpsc::channel] takes. *)
Theorem startup_settings parallelism args c :
  config_typed c → args_typed args →
  match broker_config parallelism args c with
  | None => 2 < from_option id (mq_max_qos (cf_mqtt c)) (a_max_qos args)
  | Some st =>
      as_configured parallelism args c st ∧ broker_config_typed (st_config st) ∧
      ∀ connections, 0 ≤ connections →
        setting_ok (MkSetting (st_config st) connections) ↔
        lim_max_inflight (cf_limits c) ≠ 0 ∧ lim_max_awaiting_rel (cf_limits c) ≠ 0 ∧
        lim_max_inflight (cf_limits c) + lim_max_awaiting_rel (cf_limits c) + connections < 65535 ∧
        from_option id (ss_default_keep_alive (cf_session c)) (a_keep_alive args) ≠ 0 ∧
        ss_max_keep_alive (cf_session c) ≠ 0 ∧ lim_retry_interval (cf_limits c) ≠ 0 ∧
        lim_outbound_channel_capacity (cf_limits c) ≤ MAX_PERMITS
  end.
Proof.
  intros [(? & ? & ? & ? & ? & ? & ? & ?) (Hk & ? & ?) Hq] [Hac Hap Haq Hak Hat Har].
  pose proof (in_range_or _ _ _ Haq Hq) as Hqos. pose proof (in_range_or _ _ _ Hak Hk) as Hka.
  assert (Hw : usize_max = 2 ^ 64 - 1) by done. assert (Hu : u16_max = 65535) by done.
  unfold broker_config. pose proof (qos_of_value _ (proj1 Hqos)) as Hv.
  destruct (match from_option id (mq_max_qos (cf_mqtt c)) (a_max_qos args) with
            | 0 => Some AtMostOnce | 1 => Some AtLeastOnce | 2 => Some ExactlyOnce | _ => None end) as [q|]; cbn; [|done].
  split_and!.
  - split; cbn; rewrite ?Hv; split_and?; auto using chosen_or, limit_unless_zero;
      try (do 2 eexists; split_and!; [apply chosen_or..|apply limit_unless_zero]);
      try (eexists; split; [apply chosen_or|apply limit_unless_zero]).
    by destruct (a_ws_bind args) as [a|]; split; intros; simplify_eq/=.
  - pose proof (unless_zero_range (from_option id (lim_max_connections (cf_limits c)) (a_max_connections args)) 10000000 usize_max).
    pose proof (unless_zero_range (from_option id (lim_max_packet_size (cf_limits c)) (a_max_packet_size args)) usize_max usize_max).
    pose proof (unless_zero_range (lim_max_queued_messages (cf_limits c)) usize_max usize_max).
    pose proof (unless_zero_range (lim_max_awaiting_rel (cf_limits c)) usize_max usize_max).
    pose proof (unless_zero_range (lim_outbound_channel_capacity (cf_limits c)) 1000000 usize_max).
    pose proof (unless_zero_range (lim_max_inflight (cf_limits c)) u16_max u16_max).
    pose proof (in_range_or _ _ (lim_max_connections (cf_limits c)) Hac).
    pose proof (in_range_or _ _ (lim_max_packet_size (cf_limits c)) Hap).
    pose proof (in_range_or _ _ (ss_max_topic_aliases (cf_session c)) Hat). pose proof (in_range_or _ _ 65535 Har).
    split; cbn; lia.
  - intros n Hn. unfold setting_ok; cbn. unfold unless_zero.
    unfold MAX_PERMITS.
    destruct (Z.eqb_spec (lim_max_inflight (cf_limits c)) 0), (Z.eqb_spec (lim_max_awaiting_rel (cf_limits c)) 0),
      (Z.eqb_spec (lim_outbound_channel_capacity (cf_limits c)) 0); lia.
Qed.

Lemma default_typed : config_typed Config_default.
Proof. split; cbn; unfold usize_max, u16_max, from_secs; lia. Qed.

Lemma no_args_typed : args_typed no_args.
Proof. by split. Qed.

Lemma startup_settings_witness :
  match broker_config (Some 8) no_args Config_default with
  | Some st => broker_config_typed (st_config st) ∧ setting_ok (MkSetting (st_config st) 60000)
  | None => False
  end.
Proof.
  pose proof (startup_settings (Some 8) no_args Config_default default_typed no_args_typed) as H.
  cbn [broker_config from_option a_max_qos no_args mq_max_qos cf_mqtt Config_default MqttConfig_default mbind option_bind] in *.
  destruct H as (_ & Ht & Hs). split; [exact Ht|]. apply Hs; [lia|]. cbn. unfold from_secs, MAX_PERMITS. lia.
Defined.

(** Two gaps of the set up. Without flapping detection and a limit per address
    there is no detector, whatever the rate limit and the banned addresses. When
    some cluster is enabled, the first one is used, enabled or not. *)
Lemma startup_gaps {IpNet} (parse_net : string → option IpNet) now c cl cls :
  fc_enabled (lim_flapping_detect (cf_limits c)) = false →
  lc_max_connections_per_ip (lim_connection_limit (cf_limits c)) = 0 →
  cf_cluster c = cl :: cls → (∃ cl', cl' ∈ cls ∧ cl_enabled cl' = true) →
  dos_protection parse_net now c = None ∧ cluster_choice c = Some cl.
Proof.
  intros Hf Hp Hc (cl' & Hin & Hen). unfold dos_protection, cluster_choice. rewrite Hf, Hp, Hc. split; [done|].
  case_bool_decide as H; [|done]. exfalso.
  assert (Hcl : cl' ∈ filter cl_enabled (cl :: cls)); [|rewrite H in Hcl; by apply elem_of_nil in Hcl].
  apply list_elem_of_filter. split; [by rewrite Hen|by right].
Qed.
