(* ===== verification/Listener.v ===== *)
(** * The listeners

    The accept loops of [broker/mod.rs]: [spawn_tcp_accept_loop] with
    [spawn_connection_handler], and the loops of [run] for WebSocket and TLS. A
    connection is taken from its listener, its PROXY header is read if the
    listener expects one, the flapping detector is asked and told, the handshake
    is done and the connection runs; when it ends the detector is told again.

    The TCP loop does everything up to the start of the connection itself, one
    connection after the other; the other two start a task per connection first.
    The tasks run in parallel, so the state is that of all of them and a step is
    one operation of one task: asking the detector and telling it are two. The
    outcome of a WebSocket or TLS handshake and the end of [Connection::run] are
    events, and so is a panic in the task of a connection, of which the detector
    is not told. The listener of a cluster node ([cluster/manager.rs]) reads the PROXY
    header in the same way. *)

From S2P Require Import Prelude Protocol Remote Flapping Persistence Cluster Proxy Broker Config.

Inductive listener : Type := Tcp | Ws | Tls.

#[global] Instance listener_eq_dec : EqDecision listener.
Proof. solve_decision. Defined.

(** How far a connection is. *)
Inductive phase : Type :=
  | Accepted (addr : SocketAddr) (stream : Sock)
  | Addressed (effective_addr : SocketAddr) (proxy_info : option ProxyInfo) (stream : Sock)
  | Checked (effective_addr : SocketAddr)
  | Recorded (effective_addr : SocketAddr)
  | Running (effective_addr : SocketAddr).

Record incoming : Type := MkIncoming {
  in_listener : listener;
  in_phase : phase;
}.

Inductive event : Type :=
  | EAccept (id : nat) (l : listener) (addr : SocketAddr) (stream : Sock)
  | EHeader (id : nat)
  | ECheck (id : nat)
  | ERecord (id : nat)
  | EHandshake (id : nat) (ok : bool)
  | EEnd (id : nat)
  | EPanic (id : nat)
  | ECleanup
  | EClock (elapsed : Z).

Section listeners.
Context {IpNet : Type} (IpNet_contains : IpNet → IpAddr → bool).
Context (ppp_v1 : list byte → option Addresses) (ppp_v2 : list byte → option (Addresses * list (option tlv))).
Context (st : Startup).

Record Listeners : Type := MkListeners {
  ls_detector : option (FlappingDetector (IpNet := IpNet));
  ls_now : Z;
  ls_tasks : gmap nat incoming;
}.

#[global] Instance Listeners_eta : Eta Listeners := fun s => MkListeners (ls_detector s) (ls_now s) (ls_tasks s).

(** Which listeners there are, and their PROXY settings. *)
Definition listening (l : listener) : bool :=
  match l with
  | Tcp => true
  | Ws => is_some (st_ws_bind_addr st)
  | Tls => is_some (st_tls_bind_addr st) && is_some (st_tls_config st)
  end.

Definition proxy_config (l : listener) : ProxyProtocolConfig :=
  match l with
  | Tcp => st_proxy_protocol st
  | Ws => st_ws_proxy_protocol st
  | Tls => st_tls_proxy_protocol st
  end.

(** The TCP loop accepts again when it has handed its connection over: until the
    connection is refused or recorded the loop is busy with it. *)
Definition occupies_loop (c : incoming) : bool :=
  match in_listener c, in_phase c with
  | Tcp, (Accepted _ _ | Addressed _ _ _ | Checked _) => true
  | _, _ => false
  end.

Definition loop_free (l : listener) (tasks : gmap nat incoming) : bool :=
  match l with
  | Tcp => forallb (fun e => negb (occupies_loop e.2)) (map_to_list tasks)
  | _ => true
  end.

(** A process has fewer than 2^31 descriptors. *)
Definition max_descriptors : Z := 2 ^ 31.

Definition accept (id : nat) (l : listener) (addr : SocketAddr) (stream : Sock) (s : Listeners) : option Listeners :=
  if listening l && loop_free l (ls_tasks s) && is_none (ls_tasks s !! id) && (Z.of_nat (size (ls_tasks s)) <? max_descriptors)
  then Some (s <| ls_tasks ::= <[id := MkIncoming l (Accepted addr stream)]> |>)
  else None.

Definition move (id : nat) (l : listener) (p : phase) (s : Listeners) : Listeners :=
  s <| ls_tasks ::= <[id := MkIncoming l p]> |>.

Definition leave (id : nat) (s : Listeners) : Listeners := s <| ls_tasks ::= delete id |>.

(** The address to use. What the parser hands back besides the header is
    dropped. *)
Definition read_header (id : nat) (l : listener) (addr : SocketAddr) (stream : Sock) (s : Listeners) : Listeners :=
  if pp_enabled (proxy_config l) then
    match parse_proxy_header ppp_v1 ppp_v2 (pp_tls_termination (proxy_config l)) stream with
    | (Ok (info, _remaining), stream) => move id l (Addressed (client_addr info) (Some info) stream) s
    | _ => leave id s
    end
  else move id l (Addressed addr None stream) s.

Definition check (id : nat) (l : listener) (effective_addr : SocketAddr) (s : Listeners) : Listeners :=
  match ls_detector s with
  | None => move id l (Recorded effective_addr) s
  | Some detector =>
      match check_connection IpNet_contains (ls_now s) (sa_ip effective_addr) detector with
      | (Some _reason, detector) => (leave id s) <| ls_detector := Some detector |>
      | (None, detector) => (move id l (Checked effective_addr) s) <| ls_detector := Some detector |>
      end
  end.

Definition record (id : nat) (l : listener) (effective_addr : SocketAddr) (s : Listeners) : Listeners :=
  (move id l (Recorded effective_addr) s)
    <| ls_detector ::= fmap (record_connection IpNet_contains (ls_now s) (sa_ip effective_addr)) |>.

Definition disconnected (id : nat) (effective_addr : SocketAddr) (s : Listeners) : Listeners :=
  (leave id s) <| ls_detector ::= fmap (record_disconnection IpNet_contains (ls_now s) (sa_ip effective_addr)) |>.

(** After the handshake the connection runs; when the handshake fails the
    detector is told that it has ended. *)
Definition ws_handshake (id : nat) (ok : bool) (effective_addr : SocketAddr) (s : Listeners) : Listeners :=
  if ok then move id Ws (Running effective_addr) s else disconnected id effective_addr s.

Definition tls_handshake (id : nat) (ok : bool) (effective_addr : SocketAddr) (s : Listeners) : Listeners :=
  if ok then move id Tls (Running effective_addr) s else disconnected id effective_addr s.

(** A TCP connection has no handshake. *)
Definition handshake (id : nat) (l : listener) (ok : bool) (effective_addr : SocketAddr) (s : Listeners) : Listeners :=
  match l with
  | Tcp => move id Tcp (Running effective_addr) s
  | Ws => ws_handshake id ok effective_addr s
  | Tls => tls_handshake id ok effective_addr s
  end.

Definition step (e : event) (s : Listeners) : option Listeners :=
  match e with
  | EAccept id l addr stream => accept id l addr stream s
  | EHeader id =>
      match ls_tasks s !! id with
      | Some (MkIncoming l (Accepted addr stream)) => Some (read_header id l addr stream s)
      | _ => None
      end
  | ECheck id =>
      match ls_tasks s !! id with
      | Some (MkIncoming l (Addressed addr _ _)) => Some (check id l addr s)
      | _ => None
      end
  | ERecord id =>
      match ls_tasks s !! id with
      | Some (MkIncoming l (Checked addr)) => Some (record id l addr s)
      | _ => None
      end
  | EHandshake id ok =>
      match ls_tasks s !! id with
      | Some (MkIncoming l (Recorded addr)) => Some (handshake id l ok addr s)
      | _ => None
      end
  | EEnd id =>
      match ls_tasks s !! id with
      | Some (MkIncoming l (Running addr)) => Some (disconnected id addr s)
      | _ => None
      end
  | EPanic id =>
      match ls_tasks s !! id with
      | Some (MkIncoming _ (Recorded _ | Running _)) => Some (leave id s)
      | _ => None
      end
  | ECleanup => Some (s <| ls_detector ::= fmap (cleanup (ls_now s)) |>)
  | EClock elapsed => if 0 <=? elapsed then Some (s <| ls_now ::= Z.add elapsed |>) else None
  end.

(** A schedule: the steps of the tasks in the order in which they happen. *)
Fixpoint run_events (es : list event) (s : Listeners) : option Listeners :=
  match es with
  | [] => Some s
  | e :: es => s ← step e s; run_events es s
  end.

(** The connections of an address that ended in a panic. *)
Definition panicked_by (ip : IpAddr) (e : event) (s : Listeners) : bool :=
  match e with
  | EPanic id =>
      match ls_tasks s !! id with
      | Some (MkIncoming _ (Recorded a | Running a)) => bool_decide (sa_ip a = ip)
      | _ => false
      end
  | _ => false
  end.

Fixpoint panicked (ip : IpAddr) (es : list event) (s : Listeners) : Z :=
  match es with
  | [] => 0
  | e :: es => Z.b2z (panicked_by ip e s) + from_option (panicked ip es) 0 (step e s)
  end.

Fixpoint panics (es : list event) : Z :=
  match es with [] => 0 | EPanic _ :: es => 1 + panics es | _ :: es => panics es end.

Definition initial (detector : option FlappingDetector) (now : Z) : Listeners := MkListeners detector now ∅.

(** The connections of an address the detector has been told of, and those it
    has let through. *)
Definition recorded (ip : IpAddr) (c : incoming) : bool :=
  match in_phase c with
  | Recorded a | Running a => bool_decide (sa_ip a = ip)
  | _ => false
  end.

Definition checked (ip : IpAddr) (c : incoming) : bool :=
  match in_phase c with Checked a => bool_decide (sa_ip a = ip) | _ => false end.

Definition count (P : incoming → bool) (tasks : gmap nat incoming) : Z :=
  Z.of_nat (size (filter (fun e => P e.2 = true) tasks)).
End listeners.

(** ** The listener of a cluster node

    A connection that [peer_listener_loop] has taken, in its task; [None] when its
    PROXY header is refused. *)
Section peer_listener.
Context `{!Bincode ClusterMessage (list byte)} {S : Type}.
Context (ppp_v1 : list byte → option Addresses) (ppp_v2 : list byte → option (Addresses * list (option tlv))).
Context (inbound_callback : string → list byte → QoS → bool → string → S → S) (io_error : string).

(** The connection a socket gives to the code after the header. *)
Definition peer_conn (stream : Sock) (local : S) : Conn S :=
  MkConn (sk_bytes stream) (match sk_end stream with StreamEof => true | _ => false end) [] [] true local.

Definition accept_peer (proxy_config : ProxyProtocolConfig) (local_node_id : string) (subs : gset string)
    (stream : Sock) (read : io_result Z) (sizes : list Z) (local : S) : option (outcome string bool * Conn S) :=
  let handle stream := handle_incoming_peer inbound_callback io_error local_node_id subs read sizes (peer_conn stream local) in
  if pp_enabled proxy_config then
    match parse_proxy_header ppp_v1 ppp_v2 (pp_tls_termination proxy_config) stream with
    | (Ok (_info, _remaining), stream) => Some (handle stream)
    | _ => None
    end
  else Some (handle stream).

(** Behind a proxy that speaks version 2 a peer is handled as without it. *)
Lemma peer_behind_proxy proxy_config node subs h a rest sizes0 fin read sizes local :
  pp_enabled proxy_config = true → v2_header ppp_v2 h a → zlen h ≤ MAX_HEADER_SIZE →
  accept_peer proxy_config node subs (MkSock (h ++ rest) sizes0 fin) read sizes local =
  accept_peer ProxyProtocolConfig_default node subs (MkSock rest [] fin) read sizes local.
Proof.
  intros He Hv Hm. unfold accept_peer. rewrite He. cbn [pp_enabled ProxyProtocolConfig_default].
  destruct (parse_v2 ppp_v1 ppp_v2 h a rest (MkSock (h ++ rest) sizes0 fin) (pp_tls_termination proxy_config) Hv eq_refl Hm)
    as (info & sizes' & Hr & _). rewrite Hr. done.
Qed.
End peer_listener.

(** ** Lemmas: the detector's counts *)
Section detector.
Context {IpNet : Type} (IpNet_contains : IpNet → IpAddr → bool).
Implicit Types d : FlappingDetector (IpNet := IpNet).

Definition connections_of (ip : IpAddr) d : Z := from_option connection_count 0 (ip_state d !! ip).

Lemma same_config_refl d : same_config d d.
Proof. by split_and!. Qed.

Lemma same_config_trans d1 d2 d3 : same_config d1 d2 → same_config d2 d3 → same_config d1 d3.
Proof. unfold same_config. intros. destruct_and!. split_and!; congruence. Qed.

Lemma only_at_count ip ip' d d' : only_at ip' d d' → ip ≠ ip' → connections_of ip d' = connections_of ip d.
Proof. intros [_ Ho] Hne. unfold connections_of. by destruct (Ho ip Hne) as [-> _]. Qed.

Lemma check_count now ip' d :
  let '(r, d') := check_connection IpNet_contains now ip' d in
  same_config d d' ∧ (∀ ip, connections_of ip d' = connections_of ip d) ∧
  (r = None → is_allowed IpNet_contains ip' d = false → 0 < lc_max_connections_per_ip (limit_config d) →
   connections_of ip' d < lc_max_connections_per_ip (limit_config d)).
Proof.
  destruct (is_allowed IpNet_contains ip' d) eqn:Ha.
  { unfold check_connection. rewrite Ha. split_and!; [apply same_config_refl|done|done]. }
  pose proof (check_connection_spec IpNet_contains now ip' d Ha) as H.
  destruct (check_connection IpNet_contains now ip' d) as [r d'].
  destruct (banned_at IpNet_contains now ip' d); [destruct H as [-> ->]; split_and!; [apply same_config_refl|done|done]|].
  pose proof (spend_count now ip' d) as Hc. destruct (spend now ip' d) as [ok s']. cbn in Hc.
  destruct H as (Ho & Hl & _ & _ & Hmax).
  assert (He : connection_count (entry_or_new ip' now d) = connections_of ip' d).
  { unfold entry_or_new, connections_of. by destruct (ip_state d !! ip'). }
  split_and!; [apply Ho| |intros -> _ Hlim; rewrite <-He, <-Hc; apply Hmax; [done|lia]].
  intros ip. destruct (decide (ip = ip')) as [->|Hne]; [|by eapply only_at_count].
  unfold connections_of at 1. by rewrite Hl, <-He, <-Hc.
Qed.

Lemma record_count now ip ip' d :
  is_allowed IpNet_contains ip d = false → 0 ≤ connections_of ip d < 2 ^ 32 - 1 →
  connections_of ip (record_connection IpNet_contains now ip' d) =
  connections_of ip d + Z.b2z (bool_decide (ip' = ip)).
Proof.
  intros Ha Hc. unfold record_connection. case_bool_decide as E; [subst ip'|].
  - rewrite Ha. unfold connections_of at 1. cbn. rewrite lookup_insert_eq. cbn. unfold entry_or_new, connections_of in *.
    destruct (ip_state d !! ip); cbn in *; [|done]. unfold wrap_u32. apply Z.mod_small. lia.
  - destruct (is_allowed _ ip' d); unfold connections_of; cbn; rewrite ?lookup_insert_ne by done; lia.
Qed.

Lemma record_config now ip' d : same_config d (record_connection IpNet_contains now ip' d).
Proof. unfold record_connection. by destruct (is_allowed _ ip' d). Qed.

Lemma disconnect_count now ip ip' d :
  is_allowed IpNet_contains ip d = false → Z.b2z (bool_decide (ip' = ip)) ≤ connections_of ip d →
  connections_of ip (record_disconnection IpNet_contains now ip' d) =
  connections_of ip d - Z.b2z (bool_decide (ip' = ip)).
Proof.
  intros Ha Hc. destruct (disconnection_spec IpNet_contains now ip' d) as [Ho Hs].
  case_bool_decide as E; [subst ip'|rewrite (only_at_count ip ip' d) by (done || congruence); cbn; lia].
  unfold connections_of in *. destruct (ip_state d !! ip) as [s|], (ip_state (record_disconnection _ _ _ _) !! ip) as [s'|];
    cbn in *; try done. destruct Hs as (_ & _ & Hs). destruct (Hs Ha); lia.
Qed.

Lemma cleanup_count now ip d : connections_of ip (cleanup now d) = connections_of ip d.
Proof.
  unfold connections_of, cleanup. cbn. destruct (ip_state d !! ip) as [s|] eqn:E; cbn.
  - destruct (filter _ (ip_state d) !! ip) as [s'|] eqn:F.
    + apply map_lookup_filter_Some in F as [F _]. by simplify_eq.
    + apply map_lookup_filter_None in F as [F|F]; [congruence|]. specialize (F s E). cbn in F.
      unfold is_stale in F. destruct (Z.eqb_spec (connection_count s) 0); [done|]. by destruct F.
  - by rewrite map_lookup_filter, E.
Qed.
End detector.

(** ** Lemmas: counting tasks *)
Lemma count_insert P id c (tasks : gmap nat incoming) :
  tasks !! id = None → count P (<[id := c]> tasks) = count P tasks + Z.b2z (P c).
Proof.
  intros Hn. unfold count. rewrite map_filter_insert. cbn. rewrite delete_id by done. destruct (P c) eqn:E; cbn.
  - rewrite decide_True by done. rewrite map_size_insert_None; [lia|]. apply map_lookup_filter_None. by left.
  - rewrite decide_False by done. lia.
Qed.

Lemma count_delete P id c (tasks : gmap nat incoming) :
  tasks !! id = Some c → count P (delete id tasks) = count P tasks - Z.b2z (P c).
Proof.
  intros Hs. rewrite <-(insert_delete_id tasks id c Hs) at 2. rewrite count_insert by apply lookup_delete_eq. lia.
Qed.

Lemma count_replace P id c c' (tasks : gmap nat incoming) :
  tasks !! id = Some c → count P (<[id := c']> tasks) = count P tasks - Z.b2z (P c) + Z.b2z (P c').
Proof.
  intros Hs. rewrite <-insert_delete_eq, count_insert by apply lookup_delete_eq. by rewrite (count_delete P id c).
Qed.

Lemma count_nonneg P tasks : 0 ≤ count P tasks ≤ Z.of_nat (size tasks).
Proof. unfold count. pose proof (map_size_filter (λ e : nat * incoming, P e.2 = true) tasks). lia. Qed.

Lemma count_mono P Q tasks : (∀ c, P c = true → Q c = true) → count P tasks ≤ count Q tasks.
Proof.
  intros H. unfold count. apply inj_le. apply map_subseteq_size. apply map_filter_subseteq_ext. intros i c _. apply H.
Qed.

(** ** Lemmas: accounting *)
Section accounting.
Context {IpNet : Type} (IpNet_contains : IpNet → IpAddr → bool).
Context (ppp_v1 : list byte → option Addresses) (ppp_v2 : list byte → option (Addresses * list (option tlv))).
Context (st : Startup) (d0 : FlappingDetector (IpNet := IpNet)).
Abbreviation step := (step IpNet_contains ppp_v1 ppp_v2 st).
Abbreviation run_events := (run_events IpNet_contains ppp_v1 ppp_v2 st).
Abbreviation allowed := (is_allowed IpNet_contains).

(** The detector's count of an address is the number of its connections and of
    those that ended in a panic. *)
Definition accounted (lost : IpAddr → Z) (s : Listeners (IpNet := IpNet)) : Prop :=
  (∀ ip, 0 ≤ lost ip < 2 ^ 31 - 1) ∧ Z.of_nat (size (ls_tasks s)) ≤ max_descriptors ∧
  ∃ d, ls_detector s = Some d ∧ same_config d0 d ∧
    ∀ ip, allowed ip d0 = false → connections_of ip d = count (recorded ip) (ls_tasks s) + lost ip.
Implicit Types lost : IpAddr → Z.

Lemma accounted_change lost s now tasks d d' :
  accounted lost s → ls_detector s = Some d → Z.of_nat (size tasks) ≤ max_descriptors → same_config d d' →
  (∀ ip, allowed ip d = false → connections_of ip d = count (recorded ip) (ls_tasks s) + lost ip →
    connections_of ip d' = count (recorded ip) tasks + lost ip) →
  accounted lost (MkListeners (Some d') now tasks).
Proof.
  intros (Hp & Hs & d1 & Hd & Hc & Ha) Hd' Hz Hc' Hip. simplify_eq. split; [done|]. split; [done|]. exists d'. split_and!; [done|by eapply same_config_trans|].
  intros ip Hip0. apply Hip; [by rewrite (same_config_allowed _ _ _ _ Hc)|by apply Ha].
Qed.

Lemma size_replace id c c' (tasks : gmap nat incoming) :
  tasks !! id = Some c → size (<[id := c']> tasks) = size tasks.
Proof. intros Hs. by apply map_size_insert_Some. Qed.

Lemma size_leave id (tasks : gmap nat incoming) : Z.of_nat (size (delete id tasks)) ≤ Z.of_nat (size tasks).
Proof. rewrite map_size_delete. destruct (tasks !! id); cbn; lia. Qed.

(** A move that does not concern the detector. *)
Lemma accounted_move lost id c l p s :
  accounted lost s → ls_tasks s !! id = Some c → (∀ ip, recorded ip (MkIncoming l p) = recorded ip c) → accounted lost (move id l p s).
Proof.
  intros Hacc Ht Hr. pose proof Hacc as (Hp & Hz & d & Hd & _). unfold move. destruct s as [det now tasks]. cbn in *. subst det.
  eapply accounted_change; [done..|by erewrite size_replace|apply same_config_refl|]. intros ip _ ->.
  rewrite (count_replace _ _ c) by done. rewrite Hr. cbn. lia.
Qed.

Lemma accounted_leave lost id c s :
  accounted lost s → ls_tasks s !! id = Some c → (∀ ip, recorded ip c = false) → accounted lost (leave id s).
Proof.
  intros Hacc Ht Hr. pose proof Hacc as (Hp & Hz & d & Hd & _). unfold leave. destruct s as [det now tasks]. cbn in *. subst det.
  pose proof (size_leave id tasks). eapply accounted_change; [done..|cbn; lia|apply same_config_refl|]. intros ip _ ->.
  rewrite (count_delete _ _ c) by done. rewrite Hr. cbn. lia.
Qed.

Lemma accounted_disconnected lost id c addr s :
  accounted lost s → ls_tasks s !! id = Some c → (∀ ip, recorded ip c = bool_decide (sa_ip addr = ip)) →
  accounted lost (disconnected IpNet_contains id addr s).
Proof.
  intros Hacc Ht Hr. pose proof Hacc as (Hp & Hz & d & Hd & _). unfold disconnected, leave.
  destruct s as [det now tasks]. cbn in *. subst det. cbn. pose proof (size_leave id tasks).
  eapply accounted_change; [done..|cbn; lia|apply (disconnection_spec IpNet_contains now (sa_ip addr) d)|].
  intros ip Ha Hc. cbn in Hc.
  change (connections_of ip (record_disconnection IpNet_contains now (sa_ip addr) d) = count (recorded ip) (delete id tasks) + lost ip).
  pose proof (count_nonneg (recorded ip) (delete id tasks)) as Hn. rewrite (count_delete _ _ c), Hr in Hn |- * by done.
  specialize (Hp ip). rewrite disconnect_count; [lia|done|lia].
Qed.

Lemma accept_inv id l addr stream (s s' : Listeners (IpNet := IpNet)) :
  accept st id l addr stream s = Some s' →
  listening st l = true ∧ loop_free l (ls_tasks s) = true ∧ ls_tasks s !! id = None ∧
  Z.of_nat (size (ls_tasks s)) < max_descriptors ∧ s' = move id l (Accepted addr stream) s.
Proof.
  unfold accept. destruct (_ && _ && _ && _) eqn:E; [|done]. intros [= <-].
  rewrite !andb_true_iff in E. destruct E as [[[? ?] Hn] Hz]. split_and!; [done|done|by destruct (ls_tasks s !! id)|lia|done].
Qed.

Lemma accounted_accept lost id l addr stream s s' : accounted lost s → accept st id l addr stream s = Some s' → accounted lost s'.
Proof.
  intros Hacc (_ & _ & Hn & Hz & ->)%accept_inv. pose proof Hacc as (Hp & _ & d & Hd & _). unfold move.
  destruct s as [det now tasks]. cbn in *. subst det.
  eapply accounted_change; [done..|cbn; rewrite map_size_insert_None by done; lia|apply same_config_refl|]. intros ip _ ->.
  rewrite count_insert by done. cbn. lia.
Qed.

Lemma accounted_check lost id l addr info stream s :
  accounted lost s → ls_tasks s !! id = Some (MkIncoming l (Addressed addr info stream)) →
  accounted lost (check IpNet_contains id l addr s).
Proof.
  intros Hacc Ht. pose proof Hacc as (Hp & Hz & d & Hd & _). unfold check. rewrite Hd.
  pose proof (check_count IpNet_contains (ls_now s) (sa_ip addr) d) as H.
  destruct (check_connection _ _ _ d) as [r d']. destruct H as (Hc & Hk & _).
  destruct s as [det now tasks]. cbn in *. subst det. destruct r as [r|].
  - change (accounted lost (MkListeners (Some d') now (delete id tasks))). pose proof (size_leave id tasks).
    eapply accounted_change; [done..|lia|done|]. intros ip _ He. rewrite Hk, He, (count_delete _ _ _ _ Ht). cbn. lia.
  - change (accounted lost (MkListeners (Some d') now (<[id := MkIncoming l (Checked addr)]> tasks))).
    eapply accounted_change; [done..|by erewrite size_replace|done|]. intros ip _ He.
    rewrite Hk, He, (count_replace _ _ _ _ _ Ht). cbn. lia.
Qed.

Lemma accounted_record lost id l addr s :
  accounted lost s → ls_tasks s !! id = Some (MkIncoming l (Checked addr)) → accounted lost (record IpNet_contains id l addr s).
Proof.
  intros Hacc Ht. pose proof Hacc as (Hp & Hz & d & Hd & _). destruct s as [det now tasks]. cbn in *. subst det.
  change (accounted lost (MkListeners (Some (record_connection IpNet_contains now (sa_ip addr) d)) now
    (<[id := MkIncoming l (Recorded addr)]> tasks))).
  eapply accounted_change; [done..|by erewrite size_replace|apply record_config|]. intros ip Ha He.
  rewrite (count_replace _ _ _ _ _ Ht). cbn [recorded in_phase Z.b2z]. unfold max_descriptors in Hz.
  pose proof (count_nonneg (recorded ip) tasks). specialize (Hp ip). rewrite record_count; [cbn in *; lia|done|cbn in *; lia].
Qed.

Lemma accounted_ext lost lost' s : (∀ ip, lost ip = lost' ip) → accounted lost s → accounted lost' s.
Proof.
  intros He (Hp & Hz & d & Hd & Hc & Ha). split; [intros ip; by rewrite <-He|]. split; [done|]. exists d.
  split_and!; [done..|]. intros ip. rewrite <-He. apply Ha.
Qed.

Lemma accounted_panic lost id c s :
  accounted lost s → ls_tasks s !! id = Some c → (∀ ip, lost ip + Z.b2z (recorded ip c) < 2 ^ 31 - 1) →
  accounted (λ ip, lost ip + Z.b2z (recorded ip c)) (leave id s).
Proof.
  intros (Hp & Hz & d & Hd & Hc & Ha) Ht Hb. unfold leave. destruct s as [det now tasks]. cbn in *. subst det.
  pose proof (size_leave id tasks). split; [intros ip; specialize (Hp ip); specialize (Hb ip); destruct (recorded ip c); cbn in *; lia|].
  split; [cbn; lia|]. exists d. split_and!; [done..|]. intros ip Hip. rewrite (Ha ip Hip).
  change (ls_tasks _) with (delete id tasks). rewrite (count_delete _ _ c) by done. lia.
Qed.

Lemma step_accounted lost e s s' :
  accounted lost s → (∀ ip, lost ip + Z.b2z (panicked_by ip e s) < 2 ^ 31 - 1) → step e s = Some s' →
  accounted (λ ip, lost ip + Z.b2z (panicked_by ip e s)) s'.
Proof.
  intros Hacc Hb. assert (Hquiet : (∀ ip, panicked_by ip e s = false) → accounted lost s' →
    accounted (λ ip, lost ip + Z.b2z (panicked_by ip e s)) s').
  { intros Hn. apply accounted_ext. intros ip. rewrite Hn. cbn. lia. }
  destruct e as [id l addr stream|id|id|id|id ok|id|id| |dt]; cbn [step]; intros Hstep.
  all: try (apply Hquiet; [done|]; revert Hstep).
  - by apply accounted_accept.
  - destruct (ls_tasks s !! id) as [[l []]|] eqn:Ht; try done. intros [= <-]. unfold read_header.
    destruct (pp_enabled _); [|by eapply accounted_move].
    destruct (parse_proxy_header _ _ _ _) as [[[info rest]| | |] stream']; [by eapply accounted_move|by eapply accounted_leave..].
  - destruct (ls_tasks s !! id) as [[l []]|] eqn:Ht; try done. intros [= <-]. by eapply accounted_check.
  - destruct (ls_tasks s !! id) as [[l []]|] eqn:Ht; try done. intros [= <-]. by eapply accounted_record.
  - destruct (ls_tasks s !! id) as [[l []]|] eqn:Ht; try done. intros [= <-]. unfold handshake.
    destruct l, ok; (by eapply accounted_move) || (by eapply accounted_disconnected).
  - destruct (ls_tasks s !! id) as [[l []]|] eqn:Ht; try done. intros [= <-]. by eapply accounted_disconnected.
  - unfold panicked_by in Hb |- *. destruct (ls_tasks s !! id) as [[l [ | | |a|a]]|] eqn:Ht; try done.
    all: injection Hstep as <-; exact (accounted_panic lost id _ s Hacc Ht Hb).
  - intros [= <-]. pose proof Hacc as (Hp & Hz & d & Hd & _). destruct s as [det now tasks]. cbn in *. subst det.
    eapply accounted_change; [done..|]. intros ip _ <-. apply cleanup_count.
  - destruct (0 <=? dt); [|done]. by intros [= <-].
Qed.

Lemma panics_nonneg es : 0 ≤ panics es.
Proof. induction es as [|[] es IH]; cbn; lia. Qed.

Lemma panicked_by_bound ip e es (s : Listeners (IpNet := IpNet)) : Z.b2z (panicked_by ip e s) + panics es ≤ panics (e :: es).
Proof. destruct e; cbn; try lia. destruct (match _ with Some _ => _ | None => _ end); cbn; lia. Qed.

Lemma run_accounted lost es s s' :
  accounted lost s → (∀ ip, lost ip + panics es < 2 ^ 31 - 1) → run_events es s = Some s' →
  accounted (λ ip, lost ip + panicked IpNet_contains ppp_v1 ppp_v2 st ip es s) s'.
Proof.
  revert lost s. induction es as [|e es IH]; intros lost s Hacc Hb; cbn [panicked].
  - cbn. intros [= <-]. eapply accounted_ext; [|exact Hacc]. intros ip. lia.
  - cbn. destruct (step e s) as [s1|] eqn:E; [|done]. cbn. intros Hr.
    pose proof (λ ip, panicked_by_bound ip e es s) as He. pose proof (panics_nonneg es).
    eapply accounted_ext; [|eapply (IH (λ ip, lost ip + Z.b2z (panicked_by ip e s))); [|..|exact Hr]].
    + intros ip. cbn. lia.
    + apply step_accounted; [done| |done]. intros ip. specialize (Hb ip). specialize (He ip). lia.
    + intros ip. specialize (Hb ip). specialize (He ip). lia.
Qed.

Lemma initial_accounted now : (∀ ip, connections_of ip d0 = 0) → accounted (λ _, 0) (initial (Some d0) now).
Proof.
  intros Hz. split; [done|]. split; [done|]. exists d0. split_and!; [done|apply same_config_refl|]. intros ip _. by rewrite Hz.
Qed.

(** With the TCP listener alone: one connection at a time is on its way to the
    detector, and the connections of an address that the detector knows of or
    has let through respect its limit. *)
Abbreviation limit := (lc_max_connections_per_ip (limit_config d0)).

Record serial (tasks : gmap nat incoming) : Prop := {
  se_tcp : map_Forall (λ _ c, in_listener c = Tcp) tasks;
  se_loop : count occupies_loop tasks ≤ 1;
  se_limit : ∀ ip, allowed ip d0 = false → count (recorded ip) tasks + count (checked ip) tasks ≤ limit;
}.

Lemma serial_replace id c p tasks :
  serial tasks → tasks !! id = Some c →
  Z.b2z (occupies_loop (MkIncoming Tcp p)) ≤ Z.b2z (occupies_loop c) →
  (∀ ip, allowed ip d0 = false →
    count (recorded ip) tasks + count (checked ip) tasks - Z.b2z (recorded ip c) - Z.b2z (checked ip c) +
    Z.b2z (recorded ip (MkIncoming Tcp p)) + Z.b2z (checked ip (MkIncoming Tcp p)) ≤ limit) →
  serial (<[id := MkIncoming Tcp p]> tasks).
Proof.
  intros [Htcp Hloop Hlim] Ht Hocc Hip. split.
  - by apply map_Forall_insert_2.
  - rewrite (count_replace _ _ _ _ _ Ht). lia.
  - intros ip Ha. specialize (Hip ip Ha). rewrite !(count_replace _ _ _ _ _ Ht). lia.
Qed.

Lemma serial_delete id tasks : serial tasks → serial (delete id tasks).
Proof.
  intros [Htcp Hloop Hlim]. destruct (tasks !! id) as [c|] eqn:Ht; [|by rewrite delete_id]. split.
  - by apply map_Forall_delete.
  - rewrite (count_delete _ _ _ _ Ht). destruct (occupies_loop c); cbn; lia.
  - intros ip Ha. specialize (Hlim ip Ha). rewrite !(count_delete _ _ _ _ Ht).
    destruct (recorded ip c), (checked ip c); cbn; lia.
Qed.

Lemma loop_free_count tasks : loop_free Tcp tasks = true → count occupies_loop tasks = 0.
Proof.
  cbn. rewrite forallb_forall. intros H. unfold count. rewrite map_empty_filter_2; [done|].
  intros i c Hc Hocc. specialize (H (i, c)). cbn in *. rewrite Hocc in H. cbn in H.
  by specialize (H (proj1 (list_elem_of_In _ _) (proj2 (elem_of_map_to_list _ _ _) Hc))).
Qed.

(** While a connection occupies the loop no other one has been let through. *)
Lemma serial_check id addr info stream ip tasks :
  serial tasks → tasks !! id = Some (MkIncoming Tcp (Addressed addr info stream)) → count (checked ip) tasks = 0.
Proof.
  intros [Htcp Hloop _] Ht. pose proof (count_nonneg (checked ip) tasks).
  assert (Hle : count (checked ip) (delete id tasks) ≤ count occupies_loop (delete id tasks)).
  { unfold count. apply inj_le, map_subseteq_size. apply map_filter_subseteq_ext. intros i c [_ Hc]%lookup_delete_Some Hk.
    apply Htcp in Hc. cbn in *. destruct c as [l []]; cbn in *; by subst. }
  rewrite !(count_delete _ _ _ _ Ht) in Hle. cbn in Hle. lia.
Qed.

Lemma check_serial lost id addr info stream s :
  0 < limit → accounted lost s → serial (ls_tasks s) →
  ls_tasks s !! id = Some (MkIncoming Tcp (Addressed addr info stream)) →
  serial (ls_tasks (check IpNet_contains id Tcp addr s)).
Proof.
  intros Hpos (Hp & _ & d & Hd & Hc & Ha) Hs Ht. unfold check. rewrite Hd.
  pose proof (check_count IpNet_contains (ls_now s) (sa_ip addr) d) as H.
  destruct (check_connection _ _ _ d) as [r d']. destruct H as (_ & _ & Hr).
  destruct r as [r|]; [by apply serial_delete|]. cbn. eapply serial_replace; [done..|]. intros ip Hip. cbn.
  pose proof (se_limit _ Hs ip Hip) as Hl. case_bool_decide as E; cbn; [subst ip|lia].
  rewrite (serial_check _ _ _ _ _ _ Hs Ht) in *. pose proof (Ha _ Hip). specialize (Hp (sa_ip addr)).
  rewrite (same_config_allowed _ _ _ _ Hc) in Hr. destruct Hc as (_ & Hl0 & _). rewrite Hl0 in Hr. specialize (Hr eq_refl Hip Hpos). lia.
Qed.

Lemma step_serial lost e s s' :
  listening st Ws = false → listening st Tls = false → 0 < limit →
  accounted lost s → serial (ls_tasks s) → step e s = Some s' → serial (ls_tasks s').
Proof.
  intros Hw Ht Hpos Hacc Hs. assert (Htcp : ∀ id l p, ls_tasks s !! id = Some (MkIncoming l p) → l = Tcp).
  { intros id l p Hid. exact (se_tcp _ Hs id _ Hid). }
  assert (Hmove : ∀ id l p p', ls_tasks s !! id = Some (MkIncoming l p) →
    Z.b2z (occupies_loop (MkIncoming Tcp p')) ≤ Z.b2z (occupies_loop (MkIncoming Tcp p)) →
    (∀ ip, Z.b2z (recorded ip (MkIncoming Tcp p')) + Z.b2z (checked ip (MkIncoming Tcp p')) =
           Z.b2z (recorded ip (MkIncoming Tcp p)) + Z.b2z (checked ip (MkIncoming Tcp p))) →
    serial (ls_tasks (move id l p' s))).
  { intros id l p p' Hid Hocc Hip. pose proof (Htcp _ _ _ Hid) as ->. eapply serial_replace; [done..|].
    intros ip Ha. pose proof (se_limit _ Hs ip Ha). specialize (Hip ip). lia. }
  destruct e as [id l addr stream|id|id|id|id ok|id|id| |dt]; cbn [step].
  - intros (Hl & Hf & Hn & _ & ->)%accept_inv. destruct l; [|congruence..]. apply loop_free_count in Hf.
    split; cbn; [apply map_Forall_insert_2; [done|apply Hs]|rewrite count_insert by done; cbn; lia|].
    intros ip Ha. pose proof (se_limit _ Hs ip Ha). rewrite !count_insert by done. cbn. lia.
  - destruct (ls_tasks s !! id) as [[l []]|] eqn:Hid; try done. intros [= <-]. unfold read_header.
    destruct (pp_enabled _); [|by eapply Hmove].
    destruct (parse_proxy_header _ _ _ _) as [[[info rest]| | |] stream']; [by eapply Hmove|by apply serial_delete..].
  - destruct (ls_tasks s !! id) as [[l []]|] eqn:Hid; try done. intros [= <-]. pose proof (Htcp _ _ _ Hid) as ->.
    by eapply check_serial.
  - destruct (ls_tasks s !! id) as [[l []]|] eqn:Hid; try done. intros [= <-]. eapply Hmove; [done..|]. cbn. lia.
  - destruct (ls_tasks s !! id) as [[l []]|] eqn:Hid; try done. intros [= <-]. pose proof (Htcp _ _ _ Hid) as ->.
    by eapply Hmove.
  - destruct (ls_tasks s !! id) as [[l []]|] eqn:Hid; try done. intros [= <-]. by apply serial_delete.
  - destruct (ls_tasks s !! id) as [[l []]|] eqn:Hid; try done; intros [= <-]; by apply serial_delete.
  - by intros [= <-].
  - destruct (0 <=? dt); [|done]. by intros [= <-].
Qed.

Lemma run_serial lost es s s' :
  listening st Ws = false → listening st Tls = false → 0 < limit →
  accounted lost s → (∀ ip, lost ip + panics es < 2 ^ 31 - 1) → serial (ls_tasks s) → run_events es s = Some s' → serial (ls_tasks s').
Proof.
  intros Hw Ht Hpos. revert lost s. induction es as [|e es IH]; intros lost s Hacc Hb Hs; [by intros [= <-]|]. cbn.
  destruct (step e s) as [s1|] eqn:E; [|done]. cbn. pose proof (λ ip, panicked_by_bound ip e es s) as He. pose proof (panics_nonneg es).
  eapply (IH (λ ip, lost ip + Z.b2z (panicked_by ip e s))); [..|by eapply step_serial].
  - apply step_accounted; [done| |done]. intros ip. specialize (Hb ip). specialize (He ip). lia.
  - intros ip. specialize (Hb ip). specialize (He ip). lia.
Qed.
End accounting.

Lemma new_detector_count {IpNet} (parse : string → option IpNet) now fc lc ip :
  connections_of ip (FlappingDetector_new parse now fc lc) = 0.
Proof. done. Qed.

(** ** Theorems *)

(** C31. The listeners account for every connection: however the connections of
    the TCP, WebSocket and TLS listeners interleave, with PROXY headers or
    without, with handshakes that fail and connections that end, and whenever
    the detector cleans up, its count of an address is the number of connections
    from that address (the one in the PROXY header, if there is one) that are in
    their handshake or running, and of those whose task panicked: the
    detector is never told that these ended. The address is not on the allow
    list, whose addresses are not counted, and there are fewer than 2^31 - 1
    panics, so that the counter does not wrap around. *)
Theorem listener_accounting {IpNet} (parse : string → option IpNet) contains v1 v2 st start now fc lc es s ip :
  let d := FlappingDetector_new parse start fc lc in
  run_events contains v1 v2 st es (initial (Some d) now) = Some s → is_allowed contains ip d = false → panics es < 2 ^ 31 - 1 →
  ∃ d', ls_detector s = Some d' ∧
    connections_of ip d' = count (recorded ip) (ls_tasks s) + panicked contains v1 v2 st ip es (initial (Some d) now).
Proof.
  intros d Hr Ha Hp.
  destruct (run_accounted contains v1 v2 st d (λ _, 0) es (initial (Some d) now) s) as (_ & _ & d' & Hd & _ & Hc); [|lia|done|].
  - apply initial_accounted. apply new_detector_count.
  - exists d'. auto.
Qed.

(** A client behind a socket without a PROXY header. *)
Definition quiet_socket : Sock := MkSock [] [] StreamEof.
Definition client_a : SocketAddr := MkSocketAddr (V4 1) 4000.

Definition plain_startup (c : Config) : Startup :=
  default (MkStartup default_bind None None None EmptyString 0 0 false 0 ProxyProtocolConfig_default
             ProxyProtocolConfig_default ProxyProtocolConfig_default BrokerConfig_default) (broker_config None no_args c).

Definition ws_config : Config :=
  Config_default <| cf_server := MkServer default_bind None (Some (MkSocketAddr (V4 0) 9001)) "/mqtt" 0 None
    ProxyProtocolConfig_default ProxyProtocolConfig_default ProxyProtocolConfig_default |>.

Definition limit_one : FlappingDetector :=
  FlappingDetector_new no_nets 0 FlappingConfig_default (MkLimitConfig 1 0 20 [] [] [] [] (from_secs 60)).

Definition no_v1 (_ : list byte) : option Addresses := None.
Definition no_v2 (_ : list byte) : option (Addresses * list (option tlv)) := None.

(** Two WebSocket connections ask the detector before either is recorded. *)
Definition race : list event :=
  [EAccept 0 Ws client_a quiet_socket; EAccept 1 Ws client_a quiet_socket; EHeader 0; EHeader 1; ECheck 0; ECheck 1;
   ERecord 0; ERecord 1; EHandshake 0 true; EHandshake 1 true].

Definition after_race : Listeners :=
  default (initial None 0) (run_events no_member no_v1 no_v2 (plain_startup ws_config) race (initial (Some limit_one) 0)).

(** The first of the two panics. *)
Definition race_panic : list event := race ++ [EPanic 0].

Lemma listener_accounting_witness :
  match run_events no_member no_v1 no_v2 (plain_startup ws_config) race_panic (initial (Some limit_one) 0) with
  | Some s => connections_of (V4 1) <$> ls_detector s = Some 2 ∧ count (recorded (V4 1)) (ls_tasks s) = 1
  | None => False
  end.
Proof.
  destruct (run_events no_member no_v1 no_v2 (plain_startup ws_config) race_panic (initial (Some limit_one) 0)) as [s|] eqn:E;
    [|vm_compute in E; discriminate E].
  destruct (listener_accounting no_nets no_member no_v1 no_v2 (plain_startup ws_config) 0 0 FlappingConfig_default
    (MkLimitConfig 1 0 20 [] [] [] [] (from_secs 60)) race_panic s (V4 1)) as (d' & Hd & Hc).
  - exact E.
  - vm_compute. reflexivity.
  - vm_compute. reflexivity.
  - assert (count (recorded (V4 1)) (ls_tasks s) = 1) as Hone by (vm_compute in E; injection E as <-; vm_compute; reflexivity).
    split; [|exact Hone]. rewrite Hd. cbn [fmap option_fmap option_map]. rewrite Hc, Hone. vm_compute. reflexivity.
Defined.

(** The limit per address holds when the broker listens on TCP alone: in no
    schedule does an address that is not on the allow list have more connections
    than the limit, because the loop asks the detector and tells it before it
    takes the next connection. *)
Theorem tcp_connection_limit {IpNet} (parse : string → option IpNet) contains v1 v2 st start now fc lc es s ip :
  let d := FlappingDetector_new parse start fc lc in
  listening st Ws = false → listening st Tls = false → 0 < lc_max_connections_per_ip lc → panics es < 2 ^ 31 - 1 →
  run_events contains v1 v2 st es (initial (Some d) now) = Some s → is_allowed contains ip d = false →
  count (recorded ip) (ls_tasks s) ≤ lc_max_connections_per_ip lc.
Proof.
  intros d Hw Ht Hpos Hp Hr Ha.
  destruct (run_serial contains v1 v2 st d (λ _, 0) es (initial (Some d) now) s) as [_ _ Hl]; [done..| |lia| |done|].
  - apply initial_accounted. apply new_detector_count.
  - split; cbn; [apply map_Forall_empty|by vm_compute|]. intros ip' _. change (0 + 0 ≤ lc_max_connections_per_ip lc). lia.
  - specialize (Hl ip Ha). cbn in Hl. pose proof (count_nonneg (checked ip) (ls_tasks s)). lia.
Qed.

Definition tcp_events : list event :=
  [EAccept 0 Tcp client_a quiet_socket; EHeader 0; ECheck 0; ERecord 0; EAccept 1 Tcp client_a quiet_socket; EHeader 1;
   ECheck 1; EHandshake 0 true].

Lemma tcp_connection_limit_witness :
  match run_events no_member no_v1 no_v2 (plain_startup Config_default) tcp_events (initial (Some limit_one) 0) with
  | Some s => count (recorded (V4 1)) (ls_tasks s) ≤ 1
  | None => False
  end.
Proof.
  destruct (run_events no_member no_v1 no_v2 (plain_startup Config_default) tcp_events (initial (Some limit_one) 0)) as [s|] eqn:E.
  - apply (tcp_connection_limit no_nets no_member no_v1 no_v2 (plain_startup Config_default) 0 0 FlappingConfig_default
      (MkLimitConfig 1 0 20 [] [] [] [] (from_secs 60)) tcp_events s (V4 1));
      [reflexivity|reflexivity|reflexivity|vm_compute; reflexivity|exact E|vm_compute; reflexivity].
  - vm_compute in E. discriminate E.
Defined.

(** With the WebSocket listener the limit per address can be exceeded: its
    connections ask the detector in tasks of their own, and two that ask before
    either is recorded are both let through. With a limit of one, an address
    then has two running connections, and the detector's count says so. *)
Theorem websocket_limit_exceeded :
  lc_max_connections_per_ip (limit_config limit_one) = 1 ∧
  run_events no_member no_v1 no_v2 (plain_startup ws_config) race (initial (Some limit_one) 0) = Some after_race ∧
  count (recorded (V4 1)) (ls_tasks after_race) = 2 ∧
  connections_of (V4 1) <$> ls_detector after_race = Some 2.
Proof. split_and!; vm_compute; reflexivity. Qed.
