(* ===== verification/Text.v ===== *)
(** * The text functions of the standard library

    [str] methods that the diagnostic parts of the broker use on the text of
    other programs: prefixes, suffixes and substrings, lines, white space,
    numbers, and slices at byte offsets, which panic inside a character. *)
From Stdlib Require Import ZifyBool.
From stdpp Require Import pretty sorting.
From S2P Require Import Prelude TopicValidation TopicMapper.

#[local] Open Scope Z_scope.

(** [str::starts_with(p)], [str::strip_suffix(p)] and [str::contains(p)] for a
    string [p]. *)
Definition has_prefix (p s : string) : bool := is_some (strip_prefix p s).

Fixpoint strip_suffix (p s : string) : option string :=
  if String.eqb s p then Some EmptyString
  else match s with
       | EmptyString => None
       | String a s' => String a <$> strip_suffix p s'
       end.

Fixpoint contains_str (p s : string) : bool :=
  has_prefix p s || match s with EmptyString => false | String _ s' => contains_str p s' end.

(** [str::lines]: the pieces between line feeds, each without a carriage return
    before its line feed; a last piece that is empty is not a line. *)
Definition newline : Ascii.ascii := Ascii.ascii_of_nat 10.
Definition carriage_return : Ascii.ascii := Ascii.ascii_of_nat 13.

Definition strip_cr (l : string) : string :=
  default l (strip_suffix (String carriage_return EmptyString) l).

Fixpoint lines_of (pieces : list string) : list string :=
  match pieces with
  | [] => []
  | [l] => if is_empty l then [] else [l]
  | l :: ls => strip_cr l :: lines_of ls
  end.

Definition lines (s : string) : list string := lines_of (split newline s).

(** [char::is_whitespace], on the UTF-8 encoding of the character: one byte, two
    bytes or three. *)
Definition ws1 (a : Ascii.ascii) : bool :=
  let n := Ascii.nat_of_ascii a in ((9 <=? n) && (n <=? 13) || (n =? 32))%nat.
Definition ws2 (a b : Ascii.ascii) : bool :=
  let m := Ascii.nat_of_ascii a in let n := Ascii.nat_of_ascii b in
  ((m =? 0xC2) && ((n =? 0x85) || (n =? 0xA0)))%nat.
Definition ws3 (a b c : Ascii.ascii) : bool :=
  let m := Ascii.nat_of_ascii a in
  let n := Ascii.nat_of_ascii b in
  let k := Ascii.nat_of_ascii c in
  ((m =? 0xE1) && (n =? 0x9A) && (k =? 0x80) ||
   (m =? 0xE2) && (n =? 0x80) && ((0x80 <=? k) && (k <=? 0x8A) || (k =? 0xA8) || (k =? 0xA9) || (k =? 0xAF)) ||
   (m =? 0xE2) && (n =? 0x81) && (k =? 0x9F) ||
   (m =? 0xE3) && (n =? 0x80) && (k =? 0x80))%nat.

(** [str::trim_start]; with the bytes in reverse order, [str::trim_end]. *)
Fixpoint drop_white (w2 : Ascii.ascii → Ascii.ascii → bool)
    (w3 : Ascii.ascii → Ascii.ascii → Ascii.ascii → bool) (s : string) : string :=
  match s with
  | EmptyString => EmptyString
  | String a s1 =>
      if ws1 a then drop_white w2 w3 s1
      else match s1 with
           | EmptyString => s
           | String b s2 =>
               if w2 a b then drop_white w2 w3 s2
               else match s2 with
                    | EmptyString => s
                    | String c s3 => if w3 a b c then drop_white w2 w3 s3 else s
                    end
           end
  end.

Fixpoint rev_append (s t : string) : string :=
  match s with EmptyString => t | String a s => rev_append s (String a t) end.
Definition rev (s : string) : string := rev_append s EmptyString.

Definition trim_front (s : string) : string := drop_white ws2 ws3 s.
Definition trim_back (s : string) : string :=
  rev (drop_white (λ b a, ws2 a b) (λ c b a, ws3 a b c) (rev s)).
Definition trim_text (s : string) : string := trim_back (trim_front s).

(** [str::split_whitespace]: the non-empty pieces between white space. *)
Definition push_char (a : Ascii.ascii) (ls : list string) : list string :=
  match ls with l :: ls => String a l :: ls | [] => [String a EmptyString] end.

Fixpoint white_fields (s : string) : list string :=
  match s with
  | EmptyString => [EmptyString]
  | String a s1 =>
      if ws1 a then EmptyString :: white_fields s1
      else match s1 with
           | EmptyString => [String a EmptyString]
           | String b s2 =>
               if ws2 a b then EmptyString :: white_fields s2
               else match s2 with
                    | EmptyString => push_char a (white_fields s1)
                    | String c s3 =>
                        if ws3 a b c then EmptyString :: white_fields s3
                        else push_char a (white_fields s1)
                    end
           end
  end.

Definition split_whitespace (s : string) : list string :=
  List.filter (λ f, negb (is_empty f)) (white_fields s).

(** [str::parse::<u64>] and [u64::from_str_radix]: an optional plus sign, then at
    least one digit, and a value that fits. *)
Definition decimal_digit (a : Ascii.ascii) : option Z :=
  let n := Z.of_nat (Ascii.nat_of_ascii a) in
  if (48 <=? n) && (n <=? 57) then Some (n - 48) else None.
Definition hex_digit (a : Ascii.ascii) : option Z :=
  let n := Z.of_nat (Ascii.nat_of_ascii a) in
  if (48 <=? n) && (n <=? 57) then Some (n - 48)
  else if (65 <=? n) && (n <=? 70) then Some (n - 55)
  else if (97 <=? n) && (n <=? 102) then Some (n - 87) else None.

Fixpoint digits_value (digit : Ascii.ascii → option Z) (base acc : Z) (s : string) : option Z :=
  match s with
  | EmptyString => Some acc
  | String a s => d ← digit a; digits_value digit base (acc * base + d) s
  end.

Definition from_str_radix (digit : Ascii.ascii → option Z) (base : Z) (s : string) : option Z :=
  let t := default s (strip_prefix "+" s) in
  if is_empty t then None
  else v ← digits_value digit base 0 t; if v <? 18446744073709551616 then Some v else None.

Definition parse_u64 (s : string) : option Z := from_str_radix decimal_digit 10 s.
Definition parse_hex (s : string) : option Z := from_str_radix hex_digit 16 s.

(** [&s[i..]] and [&s[..i]]: a panic unless [i] is at the boundary of a
    character, which is where the byte is not a continuation byte. *)
Definition is_char_boundary (s : string) (i : Z) : bool :=
  match as_bytes s !! Z.to_nat i with
  | Some b => (0 <=? i) && negb (utf8_cont b)
  | None => i =? slen s
  end.

Definition str_from {E} (s : string) (i : Z) : outcome E string :=
  if is_char_boundary s i then Ok (of_bytes (drop (Z.to_nat i) (as_bytes s))) else Panic.
Definition str_to {E} (s : string) (i : Z) : outcome E string :=
  if is_char_boundary s i then Ok (of_bytes (take (Z.to_nat i) (as_bytes s))) else Panic.

(** [[A]::sort_by] with the comparison of a key, largest first: stable, so that
    equal keys keep their order. *)
Section sorting.
Context {A : Type} (key : A → Z).

Fixpoint insert_desc (x : A) (l : list A) : list A :=
  match l with
  | [] => [x]
  | y :: l' => if key x <? key y then y :: insert_desc x l' else x :: l
  end.

Definition sort_desc (l : list A) : list A := foldr insert_desc [] l.

(** ** Sorting *)
Lemma insert_desc_perm x l : insert_desc x l ≡ₚ x :: l.
Proof.
  induction l as [|y l IH]; [done|]. cbn. destruct (_ <? _); [|done].
  rewrite IH. apply Permutation_swap.
Qed.

Lemma sort_desc_perm l : sort_desc l ≡ₚ l.
Proof. induction l as [|x l IH]; [done|]. cbn. by rewrite insert_desc_perm, IH. Qed.

Lemma insert_desc_sorted x l :
  StronglySorted (λ a b, key b ≤ key a) l → StronglySorted (λ a b, key b ≤ key a) (insert_desc x l).
Proof.
  induction 1 as [|y l Hs IH Hall]; cbn; [repeat constructor|].
  destruct (Z.ltb_spec (key x) (key y)); constructor; auto.
  - rewrite insert_desc_perm. constructor; [lia|done].
  - by constructor.
  - constructor; [lia|]. eapply Forall_impl; [done|]. cbn. lia.
Qed.

Lemma sort_desc_sorted l : StronglySorted (λ a b, key b ≤ key a) (sort_desc l).
Proof. induction l; cbn; [constructor|by apply insert_desc_sorted]. Qed.

(** The rows before a cut are at least as large as those after it. *)
Lemma sort_desc_top n l x y :
  x ∈ take n (sort_desc l) → y ∈ drop n (sort_desc l) → key y ≤ key x.
Proof.
  pose proof (sort_desc_sorted l) as Hs. revert Hs. generalize (sort_desc l) as s. clear l.
  intros s. revert n. induction s as [|a s IH]; intros n Hs Hx Hy.
  - rewrite take_nil in Hx. by apply elem_of_nil in Hx.
  - apply StronglySorted_inv in Hs as [Hs Hall]. destruct n; [by apply elem_of_nil in Hx|].
    cbn in Hx, Hy. apply elem_of_cons in Hx as [->|Hx].
    + rewrite Forall_forall in Hall. apply Hall. rewrite list_elem_of_In in Hy |- *. rewrite <- (take_drop n s). apply in_or_app. by right.
    + by apply (IH n).
Qed.

End sorting.

(** ** Prefixes and suffixes *)
Lemma has_prefix_append p s : has_prefix p (String.append p s) = true.
Proof. unfold has_prefix. by rewrite strip_prefix_append. Qed.

Lemma append_length x y : String.length (String.append x y) = (String.length x + String.length y)%nat.
Proof. induction x as [|a x IH]; [done|]. rewrite append_cons. cbn. by rewrite IH. Qed.

Lemma strip_suffix_append x p : strip_suffix p (String.append x p) = Some x.
Proof.
  induction x as [|a x IH].
  - rewrite append_nil_l. destruct p; cbn; [done|]. by rewrite Ascii.eqb_refl, String.eqb_refl.
  - rewrite append_cons. cbn [strip_suffix]. destruct (String.eqb_spec (String a (String.append x p)) p) as [E|].
    + apply (f_equal String.length) in E. cbn in E. rewrite append_length in E. lia.
    + by rewrite IH.
Qed.

(** ** Lines *)
Definition unlines (ls : list string) : string :=
  foldr (λ l s, String.append l (String newline s)) EmptyString ls.

Definition line (l : string) : Prop := contains newline l = false ∧ contains carriage_return l = false.

Lemma strip_suffix_char c l x : strip_suffix (String c EmptyString) l = Some x → contains c l = true.
Proof.
  revert x. induction l as [|a l IH]; intros x; [done|]. cbn [strip_suffix].
  destruct (String.eqb_spec (String a l) (String c EmptyString)) as [E|]; intros H.
  - simplify_eq. cbn. by rewrite Ascii.eqb_refl.
  - apply fmap_Some in H as (y & Hy & _). cbn. rewrite (IH _ Hy). by rewrite orb_true_r.
Qed.

Lemma strip_cr_line l : line l → strip_cr l = l.
Proof.
  intros [_ H]. unfold strip_cr. destruct (strip_suffix _ _) eqn:E; [|done].
  apply strip_suffix_char in E. congruence.
Qed.

Lemma lines_unlines ls : Forall line ls → lines (unlines ls) = ls.
Proof.
  unfold lines. induction 1 as [|l ls Hl _ IH]; [done|]. cbn [unlines foldr].
  rewrite split_append by apply Hl. fold (unlines ls).
  destruct (split newline (unlines ls)) as [|p ps] eqn:E; [by apply split_not_nil in E|].
  cbn [lines_of]. rewrite strip_cr_line by done. cbn [lines_of] in IH. f_equal. exact IH.
Qed.

(** ** White space *)
Definition solid (a : Ascii.ascii) : bool := let n := Ascii.nat_of_ascii a in ((33 <=? n) && (n <? 128))%nat.

Definition solid_ends (x : string) : Prop :=
  ∃ a y b z, x = String a y ∧ x = String.append z (String b EmptyString) ∧ solid a = true ∧ solid b = true.

Lemma solid_not_white a :
  solid a = true → ws1 a = false ∧ (∀ b, ws2 a b = false ∧ ws2 b a = false) ∧
  (∀ b c, ws3 a b c = false ∧ ws3 c b a = false).
Proof.
  unfold solid, ws1, ws2, ws3. cbv zeta. generalize (Ascii.nat_of_ascii a) as n. intros n H.
  split; [lia|]. split; [intros b|intros b c; generalize (Ascii.nat_of_ascii c) as k; intros k];
    generalize (Ascii.nat_of_ascii b) as m; intros m; split; lia.
Qed.

Lemma rev_append_spec s t : rev_append s t = String.append (rev s) t.
Proof.
  unfold rev. revert t. induction s as [|a s IH]; intros t; [by rewrite append_nil_l|]. cbn.
  rewrite IH. rewrite (IH (String a EmptyString)). rewrite <- append_assoc. by rewrite append_cons, append_nil_l.
Qed.

Lemma rev_cons a s : rev (String a s) = String.append (rev s) (String a EmptyString).
Proof. unfold rev at 1. cbn. by rewrite rev_append_spec. Qed.

Lemma rev_app s t : rev (String.append s t) = String.append (rev t) (rev s).
Proof.
  induction s as [|a s IH].
  - rewrite append_nil_l. cbn. by rewrite append_nil_r.
  - rewrite append_cons, !rev_cons, IH. by rewrite append_assoc.
Qed.

Lemma rev_involutive s : rev (rev s) = s.
Proof. induction s as [|a s IH]; [done|]. rewrite rev_cons, rev_app, IH. cbn. by rewrite append_cons, append_nil_l. Qed.

Lemma drop_white_solid w2 w3 a s :
  ws1 a = false → (∀ b, w2 a b = false) → (∀ b c, w3 a b c = false) →
  drop_white w2 w3 (String a s) = String a s.
Proof. intros H1 H2 H3. cbn. rewrite H1. destruct s as [|b [|c s]]; [done| |]; rewrite H2; [done|]. by rewrite H3. Qed.

(** One blank before and any number of bytes without white space. *)
Lemma trim_front_solid_ends x : solid_ends x → trim_front x = x.
Proof.
  intros (a & y & b & z & -> & _ & Ha & _). destruct (solid_not_white a Ha) as (H1 & H2 & H3).
  apply drop_white_solid; naive_solver.
Qed.

Lemma trim_back_solid_ends x : solid_ends x → trim_back x = x ∧ trim_back (String.append x " ") = x.
Proof.
  intros (a & y & b & z & _ & -> & _ & Hb). destruct (solid_not_white b Hb) as (H1 & H2 & H3).
  unfold trim_back. rewrite !rev_app.
  assert (rev " " = " "%string) as -> by done. assert (rev (String b EmptyString) = String b EmptyString) as -> by done.
  rewrite !append_cons, !append_nil_l.
  assert (drop_white (λ b a, ws2 a b) (λ c b a, ws3 a b c) (String b (rev z)) = String b (rev z)) as E
    by (apply drop_white_solid; naive_solver).
  assert (rev (String b (rev z)) = String.append z (String b EmptyString)) as R
    by (by rewrite rev_cons, rev_involutive).
  split; [by rewrite E|]. change (drop_white ?w2 ?w3 (String " " ?s)) with (drop_white w2 w3 s). by rewrite E.
Qed.

Definition solid_end (x : string) : Prop := ∃ z b, x = String.append z (String b EmptyString) ∧ solid b = true.

Lemma solid_end_cons a x : solid_end x → solid_end (String a x).
Proof. intros (z & b & -> & Hb). exists (String a z), b. by rewrite append_cons. Qed.

Lemma solid_end_append y x : solid_end x → solid_end (String.append y x).
Proof. intros (z & b & -> & Hb). exists (String.append y z), b. by rewrite append_assoc. Qed.

Lemma solid_end_last b : solid b = true → solid_end (String b EmptyString).
Proof. intros Hb. by exists EmptyString, b. Qed.

Ltac solve_solid_end :=
  repeat first [apply solid_end_last; reflexivity | apply solid_end_cons | apply solid_end_append].

Lemma solid_ends_intro a x : solid a = true → solid_end (String a x) → solid_ends (String a x).
Proof. intros Ha (z & b & E & Hb). by exists a, x, b, z. Qed.

(** ** Numbers *)
Lemma decimal_digit_char n : (n < 10)%N → decimal_digit (pretty_N_char n) = Some (Z.of_N n).
Proof. intros H. by do 10 (destruct n as [|n] using N.peano_ind; [done|clear IHn]; try lia). Qed.

Lemma digits_value_go x s :
  digits_value decimal_digit 10 0 (pretty_N_go x s) = digits_value decimal_digit 10 (Z.of_N x) s.
Proof.
  revert s. induction (N.lt_wf_0 x) as [x _ IH]; intros s.
  destruct (decide (0 < x)%N) as [Hx|Hx].
  - rewrite pretty_N_go_step, IH by (done || apply N.div_lt; lia). cbn [digits_value].
    rewrite decimal_digit_char by (apply N.mod_lt; lia). cbn. f_equal.
    rewrite N2Z.inj_div, N2Z.inj_mod. cbn. zdm.
  - by replace x with 0%N by lia.
Qed.

Definition decimal (n : Z) : string := pretty n.
#[global] Arguments decimal : simpl never.

Lemma decimal_N n : 0 ≤ n → decimal n = pretty (Z.to_N n).
Proof. by destruct n. Qed.

Lemma digits_value_decimal n : 0 ≤ n → digits_value decimal_digit 10 0 (decimal n) = Some n.
Proof.
  intros Hn. rewrite decimal_N by done. unfold pretty, pretty_N. destruct (decide _) as [E|E].
  - replace n with 0 by lia. done.
  - rewrite digits_value_go. cbn. f_equal. lia.
Qed.

Lemma digits_value_chars digit base acc s v c :
  digits_value digit base acc s = Some v → digit c = None → contains c s = false.
Proof.
  revert acc. induction s as [|a s IH]; intros acc; [done|]. cbn.
  destruct (digit a) eqn:E; [|done]. cbn. intros H Hc.
  rewrite (IH _ H Hc), orb_false_r. destruct (Ascii.eqb_spec a c); congruence.
Qed.

Lemma decimal_chars n c : 0 ≤ n → decimal_digit c = None → contains c (decimal n) = false.
Proof. intros Hn. by apply (digits_value_chars _ _ _ _ _ _ (digits_value_decimal n Hn)). Qed.

Lemma decimal_cons n : 0 ≤ n → ∃ a s, decimal n = String a s ∧ decimal_digit a ≠ None.
Proof.
  intros Hn. pose proof (digits_value_decimal n Hn) as H. destruct (decimal n) as [|a s] eqn:E.
  - rewrite decimal_N in E by done. unfold pretty, pretty_N in E. destruct (decide _) as [E0|E0]; [done|].
    exfalso. pose proof (digits_value_go (Z.to_N n) EmptyString) as G. rewrite E in G. cbn in G. injection G. lia.
  - exists a, s. split; [done|]. cbn in H. by destruct (decimal_digit a).
Qed.

Lemma parse_u64_decimal n : 0 ≤ n < 18446744073709551616 → parse_u64 (decimal n) = Some n.
Proof.
  intros Hn. pose proof (digits_value_decimal n ltac:(lia)) as H.
  destruct (decimal_cons n ltac:(lia)) as (a & s & E & Ha).
  unfold parse_u64, from_str_radix. rewrite E in *. cbn [strip_prefix].
  destruct (Ascii.eqb_spec "+" a) as [<-|]; [done|]. cbn [default is_empty].
  rewrite H. cbn. by destruct (Z.ltb_spec n 18446744073709551616); [|lia].
Qed.

Lemma string_last s : s ≠ EmptyString → ∃ z b, s = String.append z (String b EmptyString).
Proof.
  induction s as [|a s IH]; [done|]. intros _. destruct s as [|a' s].
  - exists EmptyString, a. by rewrite append_nil_l.
  - destruct IH as (z & b & ->); [done|]. exists (String a z), b. by rewrite append_cons.
Qed.

Lemma digit_solid a : decimal_digit a ≠ None → solid a = true.
Proof. unfold decimal_digit, solid. cbv zeta. case_match; [|done]. lia. Qed.

(** A decimal number begins and ends with a digit. *)
Lemma decimal_solid n : 0 ≤ n → solid_ends (decimal n).
Proof.
  intros Hn. destruct (decimal_cons n Hn) as (a & s & E & Ha).
  destruct (string_last (decimal n)) as (z & b & E'); [by rewrite E|].
  exists a, s, b, z. split_and!; [done..|by apply digit_solid|]. apply digit_solid. intros Hb.
  pose proof (decimal_chars n b Hn Hb) as H. rewrite E', contains_append in H. cbn in H.
  rewrite Ascii.eqb_refl, orb_true_r in H. done.
Qed.

(** ** Slices *)
Lemma as_bytes_length s : length (as_bytes s) = String.length s.
Proof. unfold as_bytes. induction s as [|a s IH]; [done|]. cbn. by f_equal. Qed.

(** In a text of ASCII characters every offset is a boundary. *)
Definition is_ascii (s : string) : bool := forallb (λ b, u8 b <? 128) (as_bytes s).

Lemma ascii_boundary s i : is_ascii s = true → 0 ≤ i ≤ slen s → is_char_boundary s i = true.
Proof.
  intros Hs Hi. unfold is_char_boundary. destruct (as_bytes s !! Z.to_nat i) as [b|] eqn:E.
  - unfold is_ascii in Hs. rewrite forallb_forall in Hs.
    assert (u8 b <? 128 = true) as Hb by (apply Hs; apply list_elem_of_In; by eapply list_elem_of_lookup_2).
    unfold utf8_cont, in_range. lia.
  - apply lookup_ge_None in E. rewrite as_bytes_length in E. unfold slen in *. lia.
Qed.

Lemma is_ascii_append s t : is_ascii (String.append s t) = is_ascii s && is_ascii t.
Proof.
  induction s as [|a s IH]; [by rewrite append_nil_l|]. rewrite append_cons.
  change (is_ascii (String a ?x)) with ((u8 (Ascii.byte_of_ascii a) <? 128) && is_ascii x). by rewrite IH, andb_assoc.
Qed.

Lemma ascii_utf8 s : is_ascii s = true → from_utf8 (as_bytes s) = Some s.
Proof.
  intros H. unfold from_utf8. assert (utf8_valid (as_bytes s) = true) as ->.
  { unfold is_ascii in H. induction (as_bytes s) as [|b l IH]; [done|]. cbn in *.
    apply andb_true_iff in H as [-> H]. by apply IH. }
  by rewrite of_bytes_as_bytes.
Qed.

Lemma insert_desc_fmap {A B} (k : B → Z) (f : A → B) x l :
  insert_desc k (f x) (f <$> l) = f <$> insert_desc (λ a, k (f a)) x l.
Proof. induction l as [|y l IH]; [done|]. cbn. destruct (_ <? _); cbn; [|done]. by f_equal. Qed.

Lemma sort_desc_fmap {A B} (k : B → Z) (f : A → B) l :
  sort_desc k (f <$> l) = f <$> sort_desc (λ a, k (f a)) l.
Proof.
  unfold sort_desc. induction l as [|x l IH]; [done|]. cbn.
  etrans; [apply (f_equal (insert_desc k (f x))), IH|]. apply insert_desc_fmap.
Qed.

Lemma decimal_digit_ascii a : decimal_digit a ≠ None → u8 (Ascii.byte_of_ascii a) <? 128 = true.
Proof.
  intros H. destruct a as [[] [] [] [] [] [] [] []]; first [reflexivity|exfalso; by apply H].
Qed.

Lemma decimal_ascii n : 0 ≤ n → is_ascii (decimal n) = true.
Proof.
  intros Hn. pose proof (digits_value_decimal n Hn) as H. revert H. generalize 0 as acc. generalize (decimal n) as s.
  induction s as [|a s IH]; intros acc; [done|]. cbn [digits_value].
  destruct (decimal_digit a) eqn:E; [|done]. cbn [mbind option_bind]. intros H.
  change (is_ascii (String a s)) with ((u8 (Ascii.byte_of_ascii a) <? 128) && is_ascii s).
  by rewrite decimal_digit_ascii, (IH _ H) by congruence.
Qed.
