(* ===== verification/Monitoring.v ===== *)
(** * The metrics endpoint

    The registry that [Metrics::new] ([metrics/mod.rs]) fills and the HTTP server
    that exposes it ([metrics/server.rs]). The prometheus library is the class
    [Prometheus]: whether it accepts the options of a metric, the registry, and
    what it gathers from it; its laws are the documented conditions under which
    these calls succeed. A registered metric shares its value with the handle
    that the broker updates, so gathering reads the fields of [Metrics]. *)

From S2P Require Import Prelude Protocol Codec Properties Packet Decode Encode TopicValidation TopicTrie SubscriptionStore.
From S2P Require Import Session Hooks Persistence Broker Routing Metrics.
#[local] Open Scope Z_scope.

(** ** HTTP *)
Inductive Method : Type := GET | OtherMethod.

Record Request : Type := MkRequest { method : Method; path : string; query : option string }.

Record Response (B : Type) : Type := MkResponse {
  status : Z;
  headers : list (string * string);
  body : B;
}.
Arguments MkResponse {B} _ _ _.
Arguments status {B} _.
Arguments headers {B} _.
Arguments body {B} _.

(** ** Metric definitions

    The limits of the buckets of a histogram are in units of 100 microseconds. *)
Inductive MetricKind : Type :=
  | IntCounter
  | IntGauge
  | IntCounterVec (label : string)
  | IntGaugeVec (label : string)
  | Histogram (buckets : list Z).

Record Collector : Type := MkCollector { kind : MetricKind; name : string; help : string }.

#[global] Instance MetricKind_eq_dec : EqDecision MetricKind.
Proof. solve_decision. Defined.
#[global] Instance Collector_eq_dec : EqDecision Collector.
Proof. solve_decision. Defined.

(** The current value of a metric: one number, a number for each label that has
    been used, or the number of observations of a histogram. *)
Inductive Sample : Type :=
  | Value (v : Z)
  | Labelled (m : gmap string Z)
  | Observed (n : Z).

Definition no_sample (s : Sample) : bool :=
  match s with Labelled m => bool_decide (m = ∅) | _ => false end.

(** ** The prometheus library *)
Class Prometheus : Type := {
  Registry : Type;
  Registry_new : Registry;
  with_opts : Collector → bool;
  register : Collector → Registry → option Registry;
  registered : Registry → list Collector;
  gather : Registry → (Collector → Sample) → list (Collector * Sample);
}.

(** The names that prometheus allows for metrics and labels. *)
Definition name_start (a : Ascii.ascii) : bool :=
  let n := Z.of_nat (Ascii.nat_of_ascii a) in
  (65 <=? n) && (n <=? 90) || (97 <=? n) && (n <=? 122) || (n =? 95) || (n =? 58).
Definition name_char (a : Ascii.ascii) : bool :=
  let n := Z.of_nat (Ascii.nat_of_ascii a) in name_start a || (48 <=? n) && (n <=? 57).

Fixpoint name_chars (s : string) : bool :=
  match s with EmptyString => true | String a s => name_char a && name_chars s end.
Definition valid_name (s : string) : bool :=
  match s with EmptyString => false | String a s => name_start a && name_chars s end.

Fixpoint increasing (l : list Z) : bool :=
  match l with
  | x :: ((y :: _) as l') => (x <? y) && increasing l'
  | _ => true
  end.

Definition valid_collector (c : Collector) : bool :=
  valid_name (name c) && negb (is_empty (help c)) &&
  match kind c with
  | IntCounter | IntGauge => true
  | IntCounterVec label | IntGaugeVec label => valid_name label && negb (contains ":" label)
  | Histogram buckets => increasing buckets
  end.

Class PrometheusLaws `{Prometheus} : Prop := {
  with_opts_valid : ∀ c, valid_collector c = true → with_opts c = true;
  registered_new : registered Registry_new = [];
  register_fresh : ∀ c r, name c ∉ (name <$> registered r) →
    ∃ r', register c r = Some r' ∧ registered r' = registered r ++ [c];
  gather_spec : ∀ r f c s, (c, s) ∈ gather r f ↔ c ∈ registered r ∧ s = f c ∧ no_sample s = false;
}.

(** ** [Metrics::new]: the metrics in the order in which they are made *)
Definition m_connections_total := MkCollector IntCounter "vibemq_connections_total"
  "Total number of client connections since startup".
Definition m_connections_current := MkCollector IntGauge "vibemq_connections_current"
  "Current number of connected clients".
Definition m_connections_by_protocol := MkCollector (IntGaugeVec "protocol") "vibemq_connections_by_protocol"
  "Current connections by protocol version".
Definition m_connections_maximum := MkCollector IntGauge "vibemq_connections_maximum"
  "Maximum concurrent connections since startup".
Definition m_sessions_expired_total := MkCollector IntCounter "vibemq_sessions_expired_total"
  "Total sessions expired since startup".
Definition m_messages_total_received := MkCollector IntCounter "vibemq_messages_total_received"
  "Total packets received (all types)".
Definition m_messages_total_sent := MkCollector IntCounter "vibemq_messages_total_sent"
  "Total packets sent (all types)".
Definition m_publish_messages_received := MkCollector IntCounter "vibemq_publish_messages_received_total"
  "Total PUBLISH packets received".
Definition m_publish_messages_sent := MkCollector IntCounter "vibemq_publish_messages_sent_total"
  "Total PUBLISH packets sent".
Definition m_publish_messages_dropped := MkCollector IntCounter "vibemq_publish_messages_dropped_total"
  "Total PUBLISH messages dropped due to queue overflow".
Definition m_messages_received_total := MkCollector (IntCounterVec "type") "vibemq_messages_received_total"
  "Total messages received by type".
Definition m_messages_sent_total := MkCollector (IntCounterVec "type") "vibemq_messages_sent_total"
  "Total messages sent by type".
Definition m_messages_bytes_received := MkCollector IntCounter "vibemq_messages_bytes_received_total"
  "Total bytes received from clients".
Definition m_messages_bytes_sent := MkCollector IntCounter "vibemq_messages_bytes_sent_total"
  "Total bytes sent to clients".
Definition m_subscriptions_current := MkCollector IntGauge "vibemq_subscriptions_current"
  "Current number of active subscriptions".
Definition m_subscriptions_total := MkCollector IntCounter "vibemq_subscriptions_total"
  "Total subscriptions created since startup".
Definition m_unsubscriptions_total := MkCollector IntCounter "vibemq_unsubscriptions_total"
  "Total unsubscriptions since startup".
Definition m_retained_messages_current := MkCollector IntGauge "vibemq_retained_messages_current"
  "Current number of retained messages".
Definition m_retained_bytes_current := MkCollector IntGauge "vibemq_retained_bytes_current"
  "Current bytes used by retained messages".
Definition m_inflight_messages := MkCollector (IntGaugeVec "qos") "vibemq_inflight_messages"
  "Current inflight messages by QoS level".
Definition m_qos1_retransmits := MkCollector IntCounter "vibemq_qos1_retransmits_total"
  "Total QoS 1 message retransmissions".
Definition m_qos2_retransmits := MkCollector IntCounter "vibemq_qos2_retransmits_total"
  "Total QoS 2 message retransmissions".
Definition m_cluster_peers_current := MkCollector IntGauge "vibemq_cluster_peers_current"
  "Current number of connected cluster peers".
Definition m_cluster_messages_forwarded := MkCollector IntCounter "vibemq_cluster_messages_forwarded_total"
  "Total messages forwarded to cluster peers".
Definition m_cluster_messages_received := MkCollector IntCounter "vibemq_cluster_messages_received_total"
  "Total messages received from cluster peers".
Definition m_publish_latency := MkCollector (Histogram [1; 5; 10; 50; 100; 250; 500; 1000; 2500; 5000; 10000])
  "vibemq_publish_latency_seconds" "Time to process and deliver a publish message".
Definition m_connect_duration := MkCollector (Histogram [10; 50; 100; 250; 500; 1000; 2500; 5000; 10000; 25000])
  "vibemq_connect_duration_seconds" "Time to process a connect handshake".
Definition m_connections_rejected_total := MkCollector (IntCounterVec "reason") "vibemq_connections_rejected_total"
  "Total connections rejected by DoS protection".
Definition m_ips_banned_current := MkCollector IntGauge "vibemq_ips_banned_current"
  "Current number of IPs banned by flapping detection".
Definition m_ips_tracked_current := MkCollector IntGauge "vibemq_ips_tracked_current"
  "Current number of IPs being tracked for rate limiting".

Definition traffic_metrics : list Collector :=
  [m_connections_total; m_connections_current; m_connections_by_protocol; m_connections_maximum;
   m_sessions_expired_total; m_messages_total_received; m_messages_total_sent; m_publish_messages_received;
   m_publish_messages_sent; m_publish_messages_dropped; m_messages_received_total; m_messages_sent_total;
   m_messages_bytes_received; m_messages_bytes_sent].

Definition state_metrics : list Collector :=
  [m_subscriptions_current; m_subscriptions_total;
   m_unsubscriptions_total; m_retained_messages_current; m_retained_bytes_current; m_inflight_messages;
   m_qos1_retransmits; m_qos2_retransmits; m_cluster_peers_current; m_cluster_messages_forwarded;
   m_cluster_messages_received; m_publish_latency; m_connect_duration; m_connections_rejected_total;
   m_ips_banned_current; m_ips_tracked_current].

(** ... and the order in which they are registered. *)
Definition all_metrics : list Collector :=
  [m_connections_total; m_connections_current; m_connections_maximum; m_connections_by_protocol;
   m_sessions_expired_total; m_messages_total_received; m_messages_total_sent; m_publish_messages_received;
   m_publish_messages_sent; m_publish_messages_dropped; m_messages_received_total; m_messages_sent_total;
   m_messages_bytes_received; m_messages_bytes_sent; m_subscriptions_current; m_subscriptions_total;
   m_unsubscriptions_total; m_retained_messages_current; m_retained_bytes_current; m_inflight_messages;
   m_qos1_retransmits; m_qos2_retransmits; m_cluster_peers_current; m_cluster_messages_forwarded;
   m_cluster_messages_received; m_publish_latency; m_connect_duration; m_connections_rejected_total;
   m_ips_banned_current; m_ips_tracked_current].

Section monitoring.
Context `{Prometheus}.

(** Every constructor and every [register] is unwrapped. *)
Definition create (c : Collector) : outcome Empty_set unit := if with_opts c then Ok tt else Panic.

Fixpoint create_all (cs : list Collector) : outcome Empty_set unit :=
  match cs with [] => Ok tt | c :: cs => create c ≫= λ _, create_all cs end.

Fixpoint register_all (cs : list Collector) (r : Registry) : outcome Empty_set Registry :=
  match cs with [] => Ok r | c :: cs => unwrap (register c r) ≫= register_all cs end.

Definition Metrics_registry : outcome Empty_set Registry :=
  create_all (traffic_metrics ++ state_metrics) ≫= λ _, register_all all_metrics Registry_new.

(** The value behind each metric; no code observes the histograms, counts
    retransmissions or counts messages in flight. *)
Definition sample (m : Metrics) (c : Collector) : Sample :=
  if decide (c = m_connections_total) then Value (connections_total m)
  else if decide (c = m_connections_current) then Value (connections_current m)
  else if decide (c = m_connections_maximum) then Value (connections_maximum m)
  else if decide (c = m_connections_by_protocol) then Labelled (connections_by_protocol m)
  else if decide (c = m_sessions_expired_total) then Value (sessions_expired_total m)
  else if decide (c = m_messages_total_received) then Value (messages_total_received m)
  else if decide (c = m_messages_total_sent) then Value (messages_total_sent m)
  else if decide (c = m_messages_received_total) then Labelled (messages_received_total m)
  else if decide (c = m_messages_sent_total) then Labelled (messages_sent_total m)
  else if decide (c = m_messages_bytes_received) then Value (messages_bytes_received m)
  else if decide (c = m_messages_bytes_sent) then Value (messages_bytes_sent m)
  else if decide (c = m_publish_messages_received) then Value (publish_messages_received m)
  else if decide (c = m_publish_messages_sent) then Value (publish_messages_sent m)
  else if decide (c = m_publish_messages_dropped) then Value (publish_messages_dropped m)
  else if decide (c = m_subscriptions_current) then Value (subscriptions_current m)
  else if decide (c = m_subscriptions_total) then Value (subscriptions_total m)
  else if decide (c = m_unsubscriptions_total) then Value (unsubscriptions_total m)
  else if decide (c = m_retained_messages_current) then Value (retained_messages_current m)
  else if decide (c = m_retained_bytes_current) then Value (retained_bytes_current m)
  else if decide (c = m_cluster_peers_current) then Value (cluster_peers_current m)
  else if decide (c = m_cluster_messages_forwarded) then Value (cluster_messages_forwarded m)
  else if decide (c = m_cluster_messages_received) then Value (cluster_messages_received m)
  else if decide (c = m_connections_rejected_total) then Labelled (connections_rejected_total m)
  else if decide (c = m_ips_banned_current) then Value (ips_banned_current m)
  else if decide (c = m_ips_tracked_current) then Value (ips_tracked_current m)
  else match kind c with
       | IntCounter | IntGauge => Value 0
       | IntCounterVec _ | IntGaugeVec _ => Labelled ∅
       | Histogram _ => Observed 0
       end.

(** ** The server

    [encode] is the library's text encoder with its [format_type]; the server
    looks at the path only. *)
Definition metrics_response (format_type : string) (encode : list (Collector * Sample) → option string)
    (r : Registry) (m : Metrics) (req : Request) : Response string :=
  if String.eqb (path req) "/metrics" then
    match encode (gather r (sample m)) with
    | Some buffer => MkResponse 200 [("Content-Type", format_type)] buffer
    | None => MkResponse 500 [] "Failed to encode metrics"
    end
  else if String.eqb (path req) "/health" || String.eqb (path req) "/healthz" then MkResponse 200 [] "OK"
  else if String.eqb (path req) "/ready" || String.eqb (path req) "/readyz" then MkResponse 200 [] "OK"
  else MkResponse 404 [] "Not Found".

(** ** Lemmas *)
Context {Laws : PrometheusLaws}.

Lemma create_all_ok cs : forallb valid_collector cs = true → create_all cs = Ok tt.
Proof.
  induction cs as [|c cs IH]; [done|]. cbn. intros [Hc Hcs]%andb_true_iff. unfold create.
  rewrite with_opts_valid by done. cbn. by apply IH.
Qed.

Lemma register_all_ok cs r :
  NoDup (name <$> registered r ++ cs) →
  ∃ r', register_all cs r = Ok r' ∧ registered r' = registered r ++ cs.
Proof.
  revert r. induction cs as [|c cs IH]; intros r Hd; cbn.
  - exists r. by rewrite app_nil_r.
  - destruct (register_fresh c r) as (r1 & -> & E1).
    { rewrite fmap_app in Hd. apply NoDup_app in Hd as (_ & Hd & _). intros Hin. apply (Hd _ Hin). cbn. left. }
    destruct (IH r1) as (r' & E & E').
    { rewrite E1, <- app_assoc. exact Hd. }
    exists r'. split; [exact E|]. by rewrite E', E1, <- app_assoc.
Qed.

Lemma metrics_registry_ok : ∃ r, Metrics_registry = Ok r ∧ registered r = all_metrics.
Proof.
  unfold Metrics_registry. rewrite create_all_ok by (vm_compute; reflexivity). rewrite bind_Ok.
  destruct (register_all_ok all_metrics Registry_new) as (r & E & Er).
  - rewrite registered_new. apply (bool_decide_unpack _). vm_compute. exact I.
  - exists r. by rewrite registered_new in Er.
Qed.

(** No code counts the messages by type. *)
Lemma collect_by_type es :
  messages_received_total (collect es) = ∅ ∧ messages_sent_total (collect es) = ∅.
Proof.
  induction es as [|e es [IH1 IH2]] using rev_ind; [done|]. rewrite collect_snoc.
  destruct e; cbn [metrics_event]; unfold client_connected, publish_received, publish_dropped, subscription_added,
    subscription_removed; try destruct (_ >? _); done.
Qed.

(** ** The endpoint *)

(** The metrics endpoint tells what the broker has counted. Building the
    metrics never panics: every definition is one that prometheus accepts and no
    two share a name, so all 30 are registered. After any events, what a request
    to [/metrics] encodes has the number of connections made, the number open,
    the subscriptions, and the messages and bytes received; metrics without a
    sample, the messages by type and those in flight, never appear. A request to another path never
    reads the registry, and only the health paths succeed. *)
Theorem metrics_exposed es :
  ∃ r, Metrics_registry = Ok r ∧ registered r = all_metrics ∧ NoDup (name <$> all_metrics) ∧
  let families := gather r (sample (collect es)) in
  (m_connections_total, Value (count is_connect es)) ∈ families ∧
  (m_connections_current, Value (count is_connect es - count is_disconnect es)) ∈ families ∧
  (m_subscriptions_current, Value (count is_added es - count is_removed es)) ∈ families ∧
  (m_publish_messages_received, Value (count is_published es)) ∈ families ∧
  (m_messages_bytes_received, Value (sum_size payload_size es)) ∈ families ∧
  (∀ c s, c ∈ [m_messages_received_total; m_messages_sent_total; m_inflight_messages] → (c, s) ∉ families) ∧
  ∀ format_type encode req,
    metrics_response format_type encode r (collect es) req =
    if String.eqb (path req) "/metrics" then
      match encode families with
      | Some text => MkResponse 200 [("Content-Type", format_type)] text
      | None => MkResponse 500 [] "Failed to encode metrics"
      end
    else if bool_decide (path req ∈ ["/health"; "/healthz"; "/ready"; "/readyz"]%string)
    then MkResponse 200 [] "OK" else MkResponse 404 [] "Not Found".
Proof.
  destruct metrics_registry_ok as (r & E & Er). exists r. split; [done|]. split; [done|].
  split; [apply (bool_decide_unpack _); vm_compute; exact I|]. cbv zeta.
  destruct (collect_counts es) as (H1 & H2 & H3 & H4 & H5 & _).
  destruct (collect_by_type es) as [T1 T2].
  rewrite <- H2, <- H1, <- H3, <- H4, <- H5.
  split_and!; [apply gather_spec; rewrite Er; split; [apply (bool_decide_unpack _); vm_compute; exact I|by split]..| |].
  - intros c s Hc (_ & -> & Hs)%gather_spec. rewrite !elem_of_cons, elem_of_nil in Hc.
    assert (sample (collect es) c = Labelled ∅) as E0.
    { destruct Hc as [->|[->|[->|[]]]]; [rewrite <- T1|rewrite <- T2|]; reflexivity. }
    by rewrite E0 in Hs.
  - intros ft enc req. unfold metrics_response. destruct (String.eqb _ "/metrics"); [done|].
    case_bool_decide as Hp; rewrite !elem_of_cons, elem_of_nil in Hp.
    + by destruct Hp as [->|[->|[->|[->|[]]]]].
    + assert (∀ p, p ∈ ["/health"; "/healthz"; "/ready"; "/readyz"]%string → String.eqb (path req) p = false) as Hn.
      { intros p Hin. apply String.eqb_neq. intros <-. rewrite !elem_of_cons, elem_of_nil in Hin. tauto. }
      by rewrite !Hn by (rewrite !elem_of_cons; tauto).
Qed.

End monitoring.

(** A registry that is the list of its metrics. *)
Definition list_prometheus : Prometheus :=
  {| Registry := list Collector;
     Registry_new := [];
     with_opts := valid_collector;
     register := λ c r, if bool_decide (name c ∈ (name <$> r)) then None else Some (r ++ [c]);
     registered := λ r, r;
     gather := λ r f, List.filter (λ cs, negb (no_sample cs.2)) ((λ c, (c, f c)) <$> r) |}.

Lemma list_prometheus_laws : @PrometheusLaws list_prometheus.
Proof.
  split; cbn; [done|done| |].
  - intros c r Hc. rewrite bool_decide_false by done. by exists (r ++ [c]).
  - intros r f c s. rewrite list_elem_of_In, filter_In, <- list_elem_of_In, list_elem_of_fmap. cbn.
    rewrite negb_true_iff. naive_solver.
Qed.

Lemma metrics_exposed_witness :
  ∃ r : list Collector, @Metrics_registry list_prometheus = Ok r ∧
  (m_connections_total, Value 1) ∈ @gather list_prometheus r (sample (collect [ClientConnected "c"%string V5])).
Proof.
  destruct (@metrics_exposed list_prometheus list_prometheus_laws [ClientConnected "c"%string V5])
    as (r & Hr & _ & _ & H & _).
  exists r. split; [exact Hr|exact H].
Defined.
