(* ===== verification/Profiling.v ===== *)
(** * Profiling

    [profiling.rs], built with the feature [pprof]: the HTTP server with its store
    of collected profiles, the reports on samples and on the heap, and the
    profiles written at shutdown. The sampling profiler (its report is a list of
    stacks with counts, in the order in which the hash map yields them), the
    encoders of its formats, jemalloc's control interface, the resolver of
    symbols, the temporary files and the fresh identifiers are what the
    environment answers. Reports that print floating-point numbers are kept as
    their rows: the counts, and for a percentage the two numbers it is made of. *)

From stdpp Require Import pretty sorting.
From S2P Require Import Prelude TopicValidation TopicMapper Properties Text Monitoring.
#[local] Open Scope Z_scope.

(** ** The profiler's report *)

(** A stack is its frames, innermost first; a frame is the names of the symbols at
    its address. The counts are [isize]. *)
Abbreviation Frames := (list (list string)).
Abbreviation Report := (list (Frames * Z)).

Definition wrap_isize (z : Z) : Z := (z + 9223372036854775808) mod 18446744073709551616 - 9223372036854775808.

(** What the library answers to one collection: building the profiler, the report,
    and the encodings of a report. *)
Record Profiler : Type := MkProfiler {
  pf_build : outcome string unit;
  pf_report : outcome string Report;
  pf_pprof : Report → outcome string (list byte);
  pf_flamegraph : Report → outcome string (list byte);
}.

Definition no_samples : string :=
  "No samples collected - the process was likely idle during profiling. Try again while the broker is under load.".

(** The part that the four collectors share: sample for [seconds], then build the
    report, which must not be empty. *)
Definition collect_report (p : Profiler) : outcome string Report :=
  _ ← pf_build p;
  report ← pf_report p;
  if is_nil report then Err no_samples else Ok report.

Definition collect_profile (p : Profiler) : outcome string (list byte) := collect_report p ≫= pf_pprof p.
Definition collect_flamegraph (p : Profiler) : outcome string (list byte) := collect_report p ≫= pf_flamegraph p.

(** A stack in the collapsed format: the outermost function first. *)
Definition stack_names (frames : Frames) : list string := omap head (reverse frames).

Definition collapsed_line (s : Frames * Z) : string :=
  let stack := stack_names s.1 in
  if is_nil stack then EmptyString
  else String.append (join ";" stack) (String.append " " (String.append (pretty s.2) (String newline EmptyString))).

Definition collapsed (report : Report) : string := foldr (λ s acc, String.append (collapsed_line s) acc) EmptyString report.

Definition collect_stacks (p : Profiler) : outcome string string :=
  report ← collect_report p; Ok (collapsed report).

(** ** Samples by function *)
Definition profiler_frame (name : string) : bool :=
  contains_str "pprof::" name || contains_str "backtrace::" name ||
  contains_str "__rust_try" name || contains_str "catch_unwind" name.

(** The first frame that has a symbol and is not the profiler's. *)
Fixpoint first_real (frames : Frames) : option string :=
  match frames with
  | [] => None
  | [] :: fs => first_real fs
  | (name :: _) :: fs => if profiler_frame name then first_real fs else Some name
  end.

Definition count_sample (m : gmap string Z) (s : Frames * Z) : gmap string Z :=
  match first_real s.1 with
  | Some f => <[f := wrap_isize (default 0 (m !! f) + s.2)]> m
  | None => m
  end.

Definition func_samples (report : Report) : gmap string Z := foldl count_sample ∅ report.
Definition total_samples (report : Report) : Z := foldl (λ t s, wrap_isize (t + s.2)) 0 report.
Definition sorted_samples (report : Report) : list (string * Z) := sort_desc snd (map_to_list (func_samples report)).

(** A name that is too long keeps its end. *)
Definition shorten (limit keep : Z) (name : string) : outcome string string :=
  if slen name >? limit then t ← str_from name (slen name - keep); Ok (String.append "..." t) else Ok name.

Record TopReport : Type := MkTop {
  top_total : Z;
  top_shown : Z;
  top_rows : list (Z * Z * string);
}.

Definition collect_top (p : Profiler) : outcome string TopReport :=
  report ← collect_report p;
  let total := total_samples report in
  let sorted := sorted_samples report in
  rows ← mapM (λ fc, name ← shorten 60 57 fc.1; Ok (fc.2, total, name)) (take 30 sorted);
  Ok (MkTop total (Z.min (zlen sorted) 30) rows).

(** ** The heap *)

(** What jemalloc and the file system answer to one request: the epoch, the
    statistics, the code of the dump, the file that it wrote, and the functions at
    an address with their names and locations. *)
Record ResolvedSymbol : Type := MkSymbol {
  sym_name : option string;
  sym_filename : option (option string);
  sym_lineno : option Z;
}.

Record Heap : Type := MkHeap {
  hp_epoch : outcome string unit;
  hp_allocated : outcome string Z;
  hp_active : outcome string Z;
  hp_resident : outcome string Z;
  hp_mapped : outcome string Z;
  hp_retained : outcome string Z;
  hp_dump : Z;
  hp_file : outcome string (list byte);
  hp_resolve : Z → list ResolvedSymbol;
}.

(** [Result::map_err] for the two kinds of message. *)
Definition map_err {A} (f : string → string) (r : outcome string A) : outcome string A :=
  match r with Err e => Err (f e) | _ => r end.
Definition advance (h : Heap) : outcome string unit := map_err (String.append "epoch advance failed: ") (hp_epoch h).
Definition read_stat (r : outcome string Z) : outcome string Z := map_err (String.append "stats read failed: ") r.

Definition newline_text : string := String newline EmptyString.
Definition unavailable (ret : Z) (more : string) : string :=
  String.append "jemalloc heap profiling not available (code " (String.append (pretty ret) (String.append ")." (String.append
    newline_text (String.append newline_text (String.append "To enable heap profiling:" (String.append newline_text (String.append
    "1. Install libunwind-dev: sudo apt install libunwind-dev" (String.append newline_text (String.append
    "2. Clean rebuild: cargo clean && cargo build --features pprof" (String.append newline_text (String.append
    "3. Run with: MALLOC_CONF=prof:true cargo run --features pprof" more))))))))))).

Definition dump_heap_profile (h : Heap) : outcome string (list byte) :=
  if negb (hp_dump h =? 0) then Err (unavailable (hp_dump h) EmptyString) else hp_file h.

Record HeapStats : Type := MkStats {
  st_allocated : Z; st_active : Z; st_resident : Z; st_mapped : Z; st_retained : Z;
}.

Definition get_heap_stats (h : Heap) : outcome string HeapStats :=
  _ ← advance h;
  allocated ← read_stat (hp_allocated h);
  active ← read_stat (hp_active h);
  resident ← read_stat (hp_resident h);
  mapped ← read_stat (hp_mapped h);
  retained ← read_stat (hp_retained h);
  Ok (MkStats allocated active resident mapped retained).

(** [fs::read_to_string] *)
Definition read_to_string (f : outcome string (list byte)) : outcome string string :=
  data ← f; ok_or (from_utf8 data) "stream did not contain valid UTF-8"%string.

(** The two numbers of a line with counts: objects, and the bytes up to a bracket. *)
Definition count_line (line : string) : option (Z * Z) :=
  match split ":" line with
  | _ :: p1 :: p2 :: _ =>
      objects ← parse_u64 (trim_text p1);
      bytes ← parse_u64 (trim_text (default "0"%string (head (split "[" p2))));
      Some (objects, bytes)
  | _ => None
  end.

(** [get_heap_top]: the state of the loop over the lines. The stack is a vector
    that holds nothing or the line of the stack. *)
Record HeapScan : Type := MkScan {
  allocations : list (Z * Z * list string);
  current_stack : list string;
  total_bytes : Z;
}.

Definition heap_top_line (st : HeapScan) (line : string) : HeapScan :=
  if starts_with "@" line then MkScan (allocations st) [line] (total_bytes st)
  else if has_prefix "t*:" (trim_text line) || has_prefix "t0:" (trim_text line) then
    match count_line line with
    | Some (objects, bytes) =>
        if negb (is_nil (current_stack st)) && (bytes >? 0)
        then MkScan (allocations st ++ [(objects, bytes, current_stack st)]) (current_stack st) (total_bytes st)
        else st
    | None => st
    end
  else if has_prefix "heap_v2" line then st
  else if has_prefix "t*:" (trim_text line) && (total_bytes st =? 0) then
    match count_line line with
    | Some (_, bytes) => MkScan (allocations st) (current_stack st) bytes
    | None => st
    end
  else st.

Definition heap_top_scan (content : string) : HeapScan := foldl heap_top_line (MkScan [] [] 0) (lines content).

(** The unit in which [format_bytes] prints, with the number of bytes. *)
Inductive Size : Type := InGB (bytes : Z) | InMB (bytes : Z) | InKB (bytes : Z) | InB (bytes : Z).

Definition format_bytes (bytes : Z) : Size :=
  if bytes >=? 1024 * 1024 * 1024 then InGB bytes
  else if bytes >=? 1024 * 1024 then InMB bytes
  else if bytes >=? 1024 then InKB bytes
  else InB bytes.

(** A percentage: [None] is the constant 0.0, [Some total] the share of [total]. *)
Definition share (total : Z) : option Z := if total >? 0 then Some total else None.

Record SiteRow (S : Type) : Type := MkSite {
  site_objects : Z;
  site_bytes : Size;
  site_share : option Z;
  site_stack : S;
}.
Arguments MkSite {S} _ _ _ _.
Arguments site_objects {S} _.
Arguments site_bytes {S} _.
Arguments site_share {S} _.
Arguments site_stack {S} _.

Record HeapTop : Type := MkHeapTop { ht_allocated : Z; ht_active : Z; ht_sites : list (SiteRow string) }.

(** The first 40 bytes of the line of the stack. *)
Definition clip (stack : list string) : outcome string string :=
  match stack with
  | [] => Ok EmptyString
  | s :: _ => if slen s >? 40 then t ← str_to s 40; Ok (String.append t "...") else Ok s
  end.

Definition alloc_bytes {A} (a : Z * Z * A) : Z := a.1.2.

Definition get_heap_top (h : Heap) : outcome string HeapTop :=
  _ ← advance h;
  _ ← (if negb (hp_dump h =? 0)
       then Err (unavailable (hp_dump h) (String.append newline_text (String.append newline_text
              "Use /debug/pprof/heap/stats for basic memory statistics (always works).")))
       else Ok tt);
  content ← read_to_string (hp_file h);
  let scan := heap_top_scan content in
  let sorted := sort_desc alloc_bytes (allocations scan) in
  allocated ← read_stat (hp_allocated h);
  active ← read_stat (hp_active h);
  rows ← mapM (λ a, stack ← clip a.2;
                    Ok (MkSite a.1.1 (format_bytes (alloc_bytes a)) (share (total_bytes scan)) stack))
              (take 30 sorted);
  Ok (MkHeapTop allocated active rows).

(** ** Symbols *)
Definition symbol_location (s : ResolvedSymbol) : string :=
  match sym_filename s, sym_lineno s with
  | Some file, Some line =>
      String.append " (" (String.append (default "?"%string file) (String.append ":" (String.append (pretty line) ")")))
  | _, _ => EmptyString
  end.

Definition add_symbol (addr : string) (symbols : gmap string string) (s : ResolvedSymbol) :
    outcome string (gmap string string) :=
  match sym_name s with
  | Some name =>
      if contains_str "jemalloc" name || contains_str "_rjem_" name then Ok symbols
      else short ← shorten 70 67 name; Ok (<[addr := String.append short (symbol_location s)]> symbols)
  | None => Ok symbols
  end.

(** A loop whose body may panic. *)
Fixpoint for_each {A B} (f : B → A → outcome string B) (l : list A) (b : B) : outcome string B :=
  match l with [] => Ok b | a :: l => f b a ≫= for_each f l end.

Definition symbolicate_address (resolve : Z → list ResolvedSymbol) (symbols : gmap string string) (addr : string) :
    outcome string (gmap string string) :=
  match strip_prefix "0x" addr ≫= parse_hex with
  | Some a => for_each (add_symbol addr) (resolve a) symbols
  | None => Ok symbols
  end.

Definition symbolicate_addresses (resolve : Z → list ResolvedSymbol) (addrs : list string) :
    outcome string (gmap string string) :=
  for_each (symbolicate_address resolve) addrs ∅.

(** ** The profiles written at shutdown *)

(** [dump_heap_profile_to_file]: here the total is that of the first line with
    counts. *)
Definition heap_file_line (st : HeapScan) (line : string) : HeapScan :=
  if starts_with "@" line then MkScan (allocations st) [line] (total_bytes st)
  else if has_prefix "t*:" (trim_text line) || has_prefix "t0:" (trim_text line) then
    match count_line line with
    | Some (objects, bytes) =>
        MkScan (if negb (is_nil (current_stack st)) && (bytes >? 0)
                then allocations st ++ [(objects, bytes, current_stack st)] else allocations st)
               (current_stack st)
               (if total_bytes st =? 0 then bytes else total_bytes st)
    | None => st
    end
  else st.

Definition heap_file_scan (content : string) : HeapScan := foldl heap_file_line (MkScan [] [] 0) (lines content).

(** The addresses of a stack line. *)
Definition addresses (stack : list string) : list string :=
  match stack with line :: _ => drop 1 (split_whitespace line) | [] => [] end.

Definition add_unique (l : list string) (a : string) : list string := if bool_decide (a ∈ l) then l else l ++ [a].
Definition all_addrs (sites : list (Z * Z * list string)) : list string :=
  foldl (λ acc site, foldl add_unique acc (take 20 (addresses site.2))) [] sites.

Inductive FrameLine : Type := AppFrame (s : string) | LibFrame (s : string) | RawAddress (s : string).

Definition allocator_frame (sym : string) : bool :=
  contains_str "jemalloc" sym || contains_str "prof_" sym || contains_str "imalloc" sym || contains_str "rallocx" sym.

(** The symbols of the stack that are not the allocator's; the application's
    first three, then the first two of the libraries, or else three addresses. *)
Definition stack_frames (symbols : gmap string string) (stack : list string) : list FrameLine :=
  let syms := List.filter (λ s, negb (allocator_frame s)) (omap (λ a, symbols !! a) (addresses stack)) in
  let app_frames := take 3 (List.filter (contains_str "vibemq::") syms) in
  let lib_frames := take 2 (List.filter (λ s, negb (contains_str "vibemq::" s)) syms) in
  (AppFrame <$> app_frames) ++ (LibFrame <$> lib_frames) ++
  (if is_nil app_frames && is_nil lib_frames then RawAddress <$> take 3 (addresses stack) else []).

Inductive SiteSection : Type :=
  | NotAvailable
  | Unreadable
  | Sites (rows : list (SiteRow (list FrameLine))).

Definition site_section (h : Heap) : outcome string SiteSection :=
  if hp_dump h =? 0 then
    match read_to_string (hp_file h) with
    | Ok content =>
        let scan := heap_file_scan content in
        let sorted := sort_desc alloc_bytes (allocations scan) in
        symbols ← symbolicate_addresses (hp_resolve h) (all_addrs sorted);
        Ok (Sites ((λ a, MkSite a.1.1 (format_bytes (alloc_bytes a)) (share (total_bytes scan)) (stack_frames symbols a.2))
                   <$> take 30 sorted))
    | _ => Ok Unreadable
    end
  else Ok NotAvailable.

Inductive Document : Type :=
  | IdleDocument
  | CpuDocument (duration total stacks functions : Z) (rows : list (Z * Z * string)) (collapsed_stacks : string)
  | HeapDocument (stats : HeapStats) (sites : SiteSection).

(** The output directory: creating it and writing a file of it may fail. *)
Record OutputDir : Type := MkDir {
  create_dir : outcome string unit;
  write_file : string → outcome string unit;
}.
Abbreviation Files := (gmap string Document).

Definition write (dir : OutputDir) (name : string) (d : Document) (fs : Files) : outcome string unit * Files :=
  match write_file dir name with
  | Ok _ => (Ok tt, <[name := d]> fs)
  | r => (r, fs)
  end.

Definition dump_cpu_profile (dir : OutputDir) (duration : Z) (p : Profiler) (fs : Files) : outcome string unit * Files :=
  match pf_report p with
  | Ok report =>
      if is_nil report then write dir "cpu_profile.txt" IdleDocument fs
      else
        let total := total_samples report in
        let sorted := sorted_samples report in
        write dir "cpu_profile.txt"
          (CpuDocument duration total (zlen report) (zlen sorted) ((λ fc, (fc.2, total, fc.1)) <$> sorted) (collapsed report)) fs
  | Err e => (Err e, fs)
  | Panic => (Panic, fs)
  | NoFuel => (NoFuel, fs)
  end.

Definition dump_heap_profile_to_file (dir : OutputDir) (h : Heap) (fs : Files) : outcome string unit * Files :=
  match (stats ← get_heap_stats h; sites ← site_section h; Ok (HeapDocument stats sites)) with
  | Ok d => write dir "heap_profile.txt" d fs
  | Err e => (Err e, fs)
  | Panic => (Panic, fs)
  | NoFuel => (NoFuel, fs)
  end.

(** [ContinuousProfiler]: the guard is built at the start; both profiles are
    attempted at the end, and the first error is returned. *)
Record ContinuousProfiler : Type := MkContinuous { cp_guard : Profiler; cp_start_time : Z }.

Definition start_profiler (p : Profiler) (now : Z) : outcome string ContinuousProfiler :=
  _ ← pf_build p; Ok (MkContinuous p now).

Definition dump_profiles (dir : OutputDir) (h : Heap) (now : Z) (cp : ContinuousProfiler) (fs : Files) :
    outcome string unit * Files :=
  match create_dir dir with
  | Ok _ =>
      let '(cpu_result, fs) := dump_cpu_profile dir (duration_since now (cp_start_time cp)) (cp_guard cp) fs in
      let '(heap_result, fs) := dump_heap_profile_to_file dir h fs in
      (match heap_result with Panic => Panic | _ => cpu_result ≫= λ _, heap_result end, fs)
  | r => (r, fs)
  end.

(** ** The server *)
Definition parse_seconds (query : option string) : Z :=
  default 30 (q ← query; p ← find (has_prefix "seconds=") (split "&" q); s ← strip_prefix "seconds=" p; parse_u64 s).

Inductive Body : Type :=
  | Data (d : list byte)
  | Plain (s : string)
  | TopText (r : TopReport)
  | StatsText (s : HeapStats)
  | HeapTopText (t : HeapTop).

Definition error_response (msg : string) : Response Body := MkResponse 500 [] (Plain msg).
Definition not_found_response : Response Body := MkResponse 404 [] (Plain "Not Found").
Definition redirect_response (location : string) : Response Body := MkResponse 302 [("Location", location)] (Plain "").

(** What one request meets: the profiler for the time asked for, the heap, the
    identifier drawn when one is needed, the page and the files built in. *)
Record Env : Type := MkEnv {
  env_profiler : Z → Profiler;
  env_heap : Heap;
  env_uuid : string;
  env_landing : string;
  env_asset : string → list byte;
}.

Abbreviation ProfileStore := (gmap string (list byte)).

Definition respond {A} (r : outcome string A) (prefix : string) (ok : A → Response Body) :
    outcome Empty_set (Response Body) :=
  match r with
  | Ok a => Ok (ok a)
  | Err e => Ok (error_response (String.append prefix e))
  | Panic => Panic
  | NoFuel => NoFuel
  end.

Definition attachment (name : string) (d : list byte) : Response Body :=
  MkResponse 200
    [("Content-Type", "application/octet-stream");
     ("Content-Disposition", String.append "attachment; filename=" (String (Ascii.ascii_of_nat 34)
        (String.append name (String (Ascii.ascii_of_nat 34) EmptyString))))]%string (Data d).
Definition text_headers : list (string * string) := [("Content-Type", "text/plain; charset=utf-8")]%string.

Definition data_url (id : string) : string := String.append "/debug/pprof/data/" (String.append id ".pb").
Definition speedscope_url (id : string) : string := String.append "/debug/pprof/speedscope/#profileURL=" (data_url id).

(** Collect, keep under a fresh identifier and send the browser to the viewer. *)
Definition collect_for_viewer (prefix : string) (env : Env) (req : Request) (store : ProfileStore) :
    outcome Empty_set (Response Body) * ProfileStore :=
  match collect_profile (env_profiler env (parse_seconds (query req))) with
  | Ok data => (Ok (redirect_response (speedscope_url (env_uuid env))), <[env_uuid env := data]> store)
  | r => (respond r prefix (λ _, not_found_response), store)
  end.

(** The files of the viewer with their types. *)
Definition assets : list (string * (string * string)) :=
  [("/debug/pprof/speedscope/", ("text/html", "index.html"));
   ("/debug/pprof/speedscope/index.html", ("text/html", "index.html"));
   ("/debug/pprof/speedscope/speedscope.6f107512.js", ("application/javascript", "speedscope.6f107512.js"));
   ("/debug/pprof/speedscope/import.bcbb2033.js", ("application/javascript", "import.bcbb2033.js"));
   ("/debug/pprof/speedscope/demangle-cpp.1768f4cc.js", ("application/javascript", "demangle-cpp.1768f4cc.js"));
   ("/debug/pprof/speedscope/source-map.438fa06b.js", ("application/javascript", "source-map.438fa06b.js"));
   ("/debug/pprof/speedscope/reset.8c46b7a1.css", ("text/css", "reset.8c46b7a1.css"));
   ("/debug/pprof/speedscope/source-code-pro.52b1676f.css", ("text/css", "source-code-pro.52b1676f.css"));
   ("/debug/pprof/speedscope/SourceCodePro-Regular.ttf.f546cbe0.woff2",
     ("font/woff2", "SourceCodePro-Regular.ttf.f546cbe0.woff2"));
   ("/debug/pprof/speedscope/favicon-16x16.f74b3187.png", ("image/png", "favicon-16x16.f74b3187.png"));
   ("/debug/pprof/speedscope/favicon-32x32.bc503437.png", ("image/png", "favicon-32x32.bc503437.png"))]%string.

Definition static_response (env : Env) (p : string) : Response Body :=
  match find (λ a, String.eqb a.1 p) assets with
  | Some (_, (content_type, file)) => MkResponse 200 [("Content-Type"%string, content_type)] (Data (env_asset env file))
  | None =>
      if bool_decide (p ∈ ["/"; "/debug/pprof"; "/debug/pprof/"]%string)
      then MkResponse 200 [("Content-Type", "text/html")]%string (Plain (env_landing env))
      else not_found_response
  end.

(** A stored profile is handed out and removed. *)
Definition take_profile (p : string) (store : ProfileStore) : Response Body * ProfileStore :=
  let id := default EmptyString (s ← strip_prefix "/debug/pprof/data/" p; strip_suffix ".pb" s) in
  match store !! id with
  | Some data =>
      (MkResponse 200 [("Content-Type", "application/octet-stream"); ("Access-Control-Allow-Origin", "*")]%string (Data data),
       delete id store)
  | None => (not_found_response, store)
  end.

Definition handle_request (env : Env) (req : Request) (store : ProfileStore) :
    outcome Empty_set (Response Body) * ProfileStore :=
  let p := path req in
  let profiler := env_profiler env (parse_seconds (query req)) in
  match method req with
  | OtherMethod => (Ok not_found_response, store)
  | GET =>
      if String.eqb p "/debug/pprof/profile" then
        (respond (collect_profile profiler) "Profile error: " (attachment "profile.pb"), store)
      else if String.eqb p "/debug/pprof/profile/ui" then collect_for_viewer "Profile error: " env req store
      else if String.eqb p "/debug/pprof/flamegraph" then
        (respond (collect_flamegraph profiler) "Flamegraph error: "
           (λ svg, MkResponse 200 [("Content-Type", "image/svg+xml")]%string (Data svg)), store)
      else if String.eqb p "/debug/pprof/flamegraph/ui" then collect_for_viewer "Flamegraph error: " env req store
      else if String.eqb p "/debug/pprof/stacks" then
        (respond (collect_stacks profiler) "Stacks error: " (λ t, MkResponse 200 text_headers (Plain t)), store)
      else if String.eqb p "/debug/pprof/top" then
        (respond (collect_top profiler) "Top error: " (λ t, MkResponse 200 text_headers (TopText t)), store)
      else if String.eqb p "/debug/pprof/heap" then
        (respond (dump_heap_profile (env_heap env)) "Heap profile error: " (attachment "heap.pb"), store)
      else if String.eqb p "/debug/pprof/heap/stats" then
        (respond (get_heap_stats (env_heap env)) "Heap stats error: " (λ t, MkResponse 200 text_headers (StatsText t)), store)
      else if String.eqb p "/debug/pprof/heap/top" then
        (respond (get_heap_top (env_heap env)) "Heap top error: " (λ t, MkResponse 200 text_headers (HeapTopText t)), store)
      else if has_prefix "/debug/pprof/data/" p then
        let '(r, store) := take_profile p store in (Ok r, store)
      else (Ok (static_response env p), store)
  end.

(** Requests one after another, each with what it meets. *)
Fixpoint serve (rs : list (Env * Request)) (store : ProfileStore) : list (outcome Empty_set (Response Body)) * ProfileStore :=
  match rs with
  | [] => ([], store)
  | (env, req) :: rs =>
      let '(r, store) := handle_request env req store in
      let '(rest, store) := serve rs store in
      (r :: rest, store)
  end.

(** ** Lemmas: the store *)
Lemma strip_suffix_some p s x : strip_suffix p s = Some x → s = String.append x p.
Proof.
  revert x. induction s as [|a s IH]; intros x; cbn [strip_suffix].
  - destruct (String.eqb_spec EmptyString p) as [<-|]; [|done]. by intros [= <-].
  - destruct (String.eqb_spec (String a s) p) as [<-|]; [intros [= <-]; by rewrite append_nil_l|].
    intros (y & Hy & ->)%fmap_Some. rewrite append_cons. f_equal. by apply IH.
Qed.

(** The request that fetches the profile [id]. *)
Definition fetches (id : string) (req : Request) : Prop := method req = GET ∧ path req = data_url id.

Lemma take_profile_url id store :
  take_profile (data_url id) store =
  match store !! id with
  | Some data =>
      (MkResponse 200 [("Content-Type", "application/octet-stream"); ("Access-Control-Allow-Origin", "*")]%string (Data data),
       delete id store)
  | None => (not_found_response, store)
  end.
Proof. unfold take_profile, data_url. by rewrite strip_prefix_append; cbn [mbind option_bind]; rewrite strip_suffix_append. Qed.

Lemma take_profile_other p id store :
  id ≠ EmptyString → p ≠ data_url id → (take_profile p store).2 !! id = store !! id.
Proof.
  intros Hid Hp. unfold take_profile. set (id' := default _ _).
  assert (id' ≠ id) as Hne; [|by destruct (store !! id'); [apply lookup_delete_ne|]].
  unfold id'. destruct (strip_prefix _ p) as [s|] eqn:Es; cbn; [|congruence].
  destruct (strip_suffix ".pb" s) as [x|] eqn:Ex; cbn; [|congruence].
  intros ->. apply Hp. apply strip_prefix_some in Es. apply strip_suffix_some in Ex. by subst.
Qed.

(** A request keeps every stored profile that it does not fetch, as long as its
    own identifier is a different one. *)
Lemma handle_request_keeps env req id store :
  id ≠ EmptyString → env_uuid env ≠ id → ¬ fetches id req → (handle_request env req store).2 !! id = store !! id.
Proof.
  intros Hid Hu Hf. unfold handle_request, collect_for_viewer. destruct req as [m p q]. destruct m; [|done].
  cbn [method path query].
  repeat match goal with |- context [if ?c then _ else _] => destruct c; [try done|] end.
  1,2: by destruct (collect_profile _); [apply lookup_insert_ne|..].
  - pose proof (take_profile_other p id store Hid) as H. destruct (take_profile p store). apply H. intros ->. by apply Hf.
  - done.
Qed.

Lemma serve_keeps rs id store :
  id ≠ EmptyString → Forall (λ er, env_uuid er.1 ≠ id ∧ ¬ fetches id er.2) rs → (serve rs store).2 !! id = store !! id.
Proof.
  intros Hid H. revert store. induction H as [|[env req] rs [Hu Hf] _ IH]; intros store; [done|]. cbn.
  pose proof (handle_request_keeps env req id store Hid Hu Hf) as E. destruct (handle_request env req store) as [r s1].
  specialize (IH s1). destruct (serve rs s1) as [rest s2]. cbn in *. congruence.
Qed.

(** ** The viewer *)

(** A collected profile reaches the viewer, exactly once. A request to one of
    the viewer's paths that collects a profile answers with a redirect that names
    the profile's address; whatever requests come in between, unless one fetches
    that address or draws the same identifier, the profile is still there: the
    first request to the address gets exactly the bytes collected, and the next
    one is told that there is nothing. *)
Theorem profile_fetched_once env req rs store data :
  method req = GET → path req ∈ ["/debug/pprof/profile/ui"; "/debug/pprof/flamegraph/ui"]%string →
  collect_profile (env_profiler env (parse_seconds (query req))) = Ok data →
  env_uuid env ≠ EmptyString →
  Forall (λ er, env_uuid er.1 ≠ env_uuid env ∧ ¬ fetches (env_uuid env) er.2) rs →
  let id := env_uuid env in
  let '(r, s1) := handle_request env req store in
  let s2 := (serve rs s1).2 in
  r = Ok (redirect_response (speedscope_url id)) ∧
  ∀ env' q, ∃ s3,
    handle_request env' (MkRequest GET (data_url id) q) s2 =
      (Ok (MkResponse 200 [("Content-Type", "application/octet-stream"); ("Access-Control-Allow-Origin", "*")]%string (Data data)), s3) ∧
    (handle_request env' (MkRequest GET (data_url id) q) s3).1 = Ok not_found_response.
Proof.
  intros Hm Hp Hc Hid Hrs. cbv zeta.
  assert (handle_request env req store =
          (Ok (redirect_response (speedscope_url (env_uuid env))), <[env_uuid env := data]> store)) as ->.
  { unfold handle_request. rewrite Hm. rewrite !elem_of_cons, elem_of_nil in Hp.
    destruct Hp as [->|[->|[]]]; unfold collect_for_viewer; by rewrite Hc. }
  split; [done|]. intros env' q.
  assert (∀ s, handle_request env' (MkRequest GET (data_url (env_uuid env)) q) s =
            let '(r, s) := take_profile (data_url (env_uuid env)) s in (Ok r, s)) as E.
  { intros s. unfold handle_request. cbn [method path query].
    assert (has_prefix "/debug/pprof/data/" (data_url (env_uuid env)) = true) as -> by apply has_prefix_append.
    done. }
  exists (delete (env_uuid env) (serve rs (<[env_uuid env := data]> store)).2).
  rewrite !E, !take_profile_url. rewrite serve_keeps, lookup_insert_eq by done. split; [done|].
  by rewrite lookup_delete_eq.
Qed.

(** ** Lemmas: samples *)

(** The samples whose first real frame is the function [f], those with any real
    frame, and all. *)
Definition samples_of (f : string) (report : Report) : Z :=
  sum_size (λ s, if decide (first_real s.1 = Some f) then s.2 else 0) report.
Definition attributed (report : Report) : Z := sum_size (λ s, if first_real s.1 then s.2 else 0) report.
Definition sample_count (report : Report) : Z := sum_size snd report.

(** The counts of a report: no negative ones, and together they fit [isize]. *)
Definition countable (report : Report) : Prop :=
  Forall (λ s, 0 ≤ s.2) report ∧ sample_count report < 9223372036854775808.

Lemma wrap_isize_id z : -9223372036854775808 ≤ z < 9223372036854775808 → wrap_isize z = z.
Proof. intros H. unfold wrap_isize. rewrite Z.mod_small; lia. Qed.

Lemma sum_size_le {A} (f g : A → Z) l : Forall (λ a, 0 ≤ f a ≤ g a) l → 0 ≤ sum_size f l ≤ sum_size g l.
Proof. induction 1; cbn; lia. Qed.

Lemma samples_bounds f report : countable report → 0 ≤ samples_of f report ≤ attributed report.
Proof. intros [H _]. apply sum_size_le. eapply Forall_impl; [done|]. intros s Hs. cbn. destruct (first_real s.1) as [g|]; cbn; case_decide; simplify_eq; cbn in *; lia. Qed.

Lemma attributed_bounds report : countable report → 0 ≤ attributed report ≤ sample_count report.
Proof. intros [H _]. apply sum_size_le. eapply Forall_impl; [done|]. intros s Hs. cbn. case_match; cbn in *; lia. Qed.

Lemma countable_app r1 r2 : countable (r1 ++ r2) → countable r1 ∧ sample_count r1 + sample_count r2 < 9223372036854775808.
Proof.
  intros [[H1 H2]%Forall_app Hs]. unfold sample_count in *. rewrite sum_size_app in Hs.
  assert (0 ≤ sum_size snd r2) by (clear -H2; induction H2; cbn; lia). split; [split; [done|]|]; unfold sample_count; lia.
Qed.

Lemma total_samples_sum report : countable report → total_samples report = sample_count report.
Proof.
  unfold total_samples, sample_count. induction report as [|s report IH] using rev_ind; [done|].
  intros Hc. destruct (countable_app _ _ Hc) as [Hc1 Hc2]. rewrite foldl_app, sum_size_app, IH by done. cbn.
  pose proof (attributed_bounds _ Hc1). unfold sample_count in *. cbn in Hc2. destruct Hc as [[_ Hs]%Forall_app _].
  rewrite Forall_singleton in Hs. rewrite wrap_isize_id; lia.
Qed.

Lemma func_samples_lookup report f :
  countable report →
  func_samples report !! f = if decide (f ∈ omap (λ s, first_real s.1) report) then Some (samples_of f report) else None.
Proof.
  unfold func_samples, samples_of. induction report as [|s report IH] using rev_ind; intros Hc; [done|].
  destruct (countable_app _ _ Hc) as [Hc1 Hc2]. specialize (IH Hc1). rewrite foldl_app, omap_app, sum_size_app. cbn.
  set (m := foldl count_sample ∅ report) in *. unfold count_sample.
  destruct Hc as [[_ Hs]%Forall_app _]. rewrite Forall_singleton in Hs. cbn in Hc2.
  pose proof (samples_bounds f report Hc1) as Hb. pose proof (attributed_bounds report Hc1) as Ha. unfold samples_of in Hb.
  destruct (first_real s.1) as [g|] eqn:Eg.
  - destruct (decide (g = f)) as [->|Hne].
    + rewrite lookup_insert_eq, IH. rewrite (decide_True (P := Some f = Some f)) by done.
      rewrite (decide_True (P := f ∈ _ ++ _)) by set_solver. f_equal.
      case_decide as Hin; cbn; rewrite ?wrap_isize_id by (unfold sample_count in *; lia); [lia|].
      assert (sum_size (λ s, if decide (first_real s.1 = Some f) then s.2 else 0) report = 0) as ->; [|lia].
      clear -Hin. induction report as [|[fr n] report IH]; [done|]. cbn in *.
      rewrite decide_False by (intros E; rewrite E in Hin; set_solver). rewrite IH; [done|].
      destruct (first_real fr); set_solver.
    + rewrite lookup_insert_ne, IH by done. rewrite (decide_False (P := Some g = Some f)) by congruence.
      rewrite ?Z.add_0_r. by repeat case_decide; set_solver.
  - rewrite IH, (decide_False (P := None = Some f)), ?Z.add_0_r by done. by repeat case_decide; set_solver.
Qed.

Lemma mapM_Ok {A B} (f : A → outcome string B) (g : A → B) l :
  Forall (λ a, f a = Ok (g a)) l → mapM f l = Ok (g <$> l).
Proof. induction 1 as [|a l Ha _ IH]; [done|]. cbn. rewrite Ha. cbn. by rewrite IH. Qed.

(** The name as it is shown. *)
Definition shown (limit keep : Z) (name : string) : string :=
  if slen name >? limit
  then String.append "..." (of_bytes (drop (Z.to_nat (slen name - keep)) (as_bytes name))) else name.

Lemma shorten_ascii limit keep name :
  0 ≤ keep ≤ limit → is_ascii name = true → shorten limit keep name = Ok (shown limit keep name).
Proof.
  intros Hk Ha. unfold shorten, shown, str_from. rewrite Z.gtb_ltb. destruct (Z.ltb_spec limit (slen name)); [|done].
  rewrite ascii_boundary by (done || lia). done.
Qed.

Lemma sum_size_plus {A} (f g : A → Z) l : sum_size (λ a, f a + g a) l = sum_size f l + sum_size g l.
Proof. induction l; cbn; lia. Qed.

Lemma sum_size_zero {A} (f : A → Z) l : Forall (λ a, f a = 0) l → sum_size f l = 0.
Proof. induction 1; cbn; lia. Qed.

Lemma sum_size_single (fs : list string) (g : option string) n :
  NoDup fs → (∀ f, g = Some f → f ∈ fs) →
  sum_size (λ f, if decide (g = Some f) then n else 0) fs = if g then n else 0.
Proof.
  intros Hd Hg. destruct g as [g|]; [|apply sum_size_zero; by apply Forall_forall].
  specialize (Hg g eq_refl). induction Hd as [|f fs Hf Hd IH]; [by apply elem_of_nil in Hg|]. cbn.
  apply elem_of_cons in Hg as [->|Hg].
  - rewrite decide_True, sum_size_zero by (done || (apply Forall_forall; intros f' Hf'; by rewrite decide_False by congruence)). lia.
  - rewrite decide_False by congruence. rewrite IH by done. lia.
Qed.

(** Attribution loses no sample: the functions' counts add up to those of all
    stacks with a real frame. *)
Lemma samples_conserved fs report :
  NoDup fs → (∀ f, f ∈ omap (λ s, first_real s.1) report → f ∈ fs) →
  sum_size (λ f, samples_of f report) fs = attributed report.
Proof.
  intros Hd. unfold attributed. induction report as [|s report IH]; intros Hin.
  - apply sum_size_zero. by apply Forall_forall.
  - change (λ f, samples_of f (s :: report))
      with (λ f, (if decide (first_real s.1 = Some f) then s.2 else 0) + samples_of f report).
    rewrite sum_size_plus, sum_size_single; [|done|].
    + cbn. rewrite IH; [done|]. intros f Hf. apply Hin. cbn. destruct (first_real s.1); [by right|done].
    + intros f Hf. apply Hin. cbn. rewrite Hf. left.
Qed.

Lemma sorted_samples_spec report :
  countable report →
  let fs := (sorted_samples report).*1 in
  sorted_samples report = (λ f, (f, samples_of f report)) <$> fs ∧ NoDup fs ∧
  (∀ f, f ∈ fs ↔ f ∈ omap (λ s, first_real s.1) report) ∧
  StronglySorted (λ f g, samples_of g report ≤ samples_of f report) fs.
Proof.
  intros Hc. cbv zeta. unfold sorted_samples. set (l := map_to_list (func_samples report)).
  pose proof (sort_desc_perm snd l) as Hp. pose proof (sort_desc_sorted snd l) as Hs.
  assert (Forall (λ fc, fc.2 = samples_of fc.1 report ∧ fc.1 ∈ omap (λ s, first_real s.1) report) l) as Hl.
  { apply Forall_forall. intros [f n] Hf. apply elem_of_map_to_list in Hf. rewrite func_samples_lookup in Hf by done.
    case_decide; naive_solver. }
  rewrite <- Hp in Hl.
  assert (∀ f, f ∈ (sort_desc snd l).*1 ↔ f ∈ omap (λ s, first_real s.1) report) as Hm.
  { intros f. rewrite list_elem_of_fmap. split.
    - intros (fc & -> & Hf). rewrite Forall_forall in Hl. by apply Hl.
    - intros Hf. exists (f, samples_of f report). split; [done|]. rewrite Hp. apply elem_of_map_to_list.
      rewrite func_samples_lookup by done. by rewrite decide_True. }
  assert (NoDup (sort_desc snd l).*1) as Hd by (rewrite Hp; apply NoDup_fst_map_to_list).
  split_and!; [|done|done|].
  - clear -Hl. induction Hl as [|[f n] k [Hn _] _ IH]; [done|]. cbn in *. by rewrite <- IH, Hn.
  - clear -Hl Hs. induction Hs as [|[f n] k Hk IH Hall]; [constructor|]. apply Forall_cons in Hl as [[Hn _] Hl]. cbn in *.
    constructor; [by apply IH|]. apply Forall_fmap. rewrite Forall_forall in Hall, Hl. apply Forall_forall. intros [g m] Hg.
    specialize (Hall _ Hg). destruct (Hl _ Hg) as [Hm _]. cbn in *. by rewrite <- Hn, <- Hm.
Qed.

(** The report on the functions that use the processor. The functions that are
    innermost in some stack, after the profiler's own frames, appear once each,
    those with more samples first, at most thirty of them; the number beside a
    function is that of all samples whose stack it is innermost in, and over all
    functions these numbers add up to the samples of the stacks with such a
    function, none lost or counted twice. The total is that of all samples. For
    names in ASCII the report is always produced. *)
Theorem cpu_top p report :
  pf_build p = Ok tt → pf_report p = Ok report → report ≠ [] → countable report →
  Forall (λ f, is_ascii f = true) (omap (λ s, first_real s.1) report) →
  ∃ fs, NoDup fs ∧ (∀ f, f ∈ fs ↔ f ∈ omap (λ s, first_real s.1) report) ∧
    StronglySorted (λ f g, samples_of g report ≤ samples_of f report) fs ∧
    sum_size (λ f, samples_of f report) fs = attributed report ∧
    collect_top p = Ok (MkTop (sample_count report) (Z.min (zlen fs) 30)
      ((λ f, (samples_of f report, sample_count report, shown 60 57 f)) <$> take 30 fs)).
Proof.
  intros Hb Hr Hne Hc Ha. destruct (sorted_samples_spec report Hc) as (Es & Hd & Hm & Hs).
  set (fs := (sorted_samples report).*1) in *. exists fs. split_and!; [done..| |].
  - apply samples_conserved; [done|]. intros f. apply Hm.
  - unfold collect_top, collect_report. rewrite Hb, Hr. rewrite !bind_Ok. destruct report as [|s0 r0]; [done|]. cbn [is_nil].
    set (report := s0 :: r0) in *. rewrite bind_Ok. cbv zeta. rewrite total_samples_sum, Es by done.
    rewrite (mapM_Ok _ (λ fc, (fc.2, sample_count report, shown 60 57 fc.1))).
    + rewrite bind_Ok. unfold zlen. rewrite length_fmap. do 2 f_equal. rewrite <- fmap_take, <- list_fmap_compose. done.
    + apply Forall_take, Forall_fmap, Forall_forall. intros f Hf. cbn.
      rewrite shorten_ascii; [done|lia|]. rewrite Forall_forall in Ha. by apply Ha, Hm.
Qed.

(** ** Lemmas: the text of a heap profile *)

(** The format of jemalloc's dumps, version 2. Counts are the objects and bytes in
    use and, in brackets, the accumulated ones. An allocation site is the line of
    its stack, its counts over all threads, and those of each thread that has
    allocated there. *)
Record Counts : Type := MkCounts { objects : Z; bytes : Z; acc_objects : Z; acc_bytes : Z }.
Record Site : Type := MkHeapSite { stack : string; all_threads : Counts; threads : list (Z * Counts) }.

Definition counts_body (c : Counts) : string :=
  String ":" (String.append (String " " (decimal (objects c)))
    (String ":" (String.append
       (String.append (String.append (String " " (decimal (bytes c))) " ") (String "[" (decimal (acc_objects c))))
       (String ":" (String.append (String " " (decimal (acc_bytes c))) "]"))))).

Definition counts_text (label : string) (c : Counts) : string := String " " (String " " (String.append label (counts_body c))).
Definition thread_label (id : Z) : string := String "t" (decimal id).

Definition site_lines (s : Site) : list string :=
  stack s :: counts_text "t*" (all_threads s) :: ((λ t, counts_text (thread_label t.1) t.2) <$> threads s).

(** A dump: the sampling rate, the counts of all sites over all threads, those of
    each thread, with its name if it has one, the sites, and the libraries that
    the process has mapped. *)
Record Dump : Type := MkDump {
  rate : Z;
  total : Counts;
  total_threads : list (Z * Counts * option string);
  sites : list Site;
  mapped_libraries : list string;
}.

Definition named_text (t : Z * Counts * option string) : string :=
  String.append (counts_text (thread_label t.1.1) t.1.2)
    (match t.2 with Some name => String " " name | None => EmptyString end).

Definition heap_lines (d : Dump) : list string :=
  String.append "heap_v2/" (decimal (rate d)) :: counts_text "t*" (total d) ::
  (named_text <$> total_threads d) ++ concat (site_lines <$> sites d) ++
  EmptyString :: "MAPPED_LIBRARIES:"%string :: mapped_libraries d.

Definition heap_text (d : Dump) : string := unlines (heap_lines d).

Definition is_u64 (z : Z) : Prop := 0 ≤ z < 18446744073709551616.
Definition counts_ok (c : Counts) : Prop :=
  is_u64 (objects c) ∧ is_u64 (bytes c) ∧ 0 ≤ acc_objects c ∧ 0 ≤ acc_bytes c.
Definition site_ok (s : Site) : Prop :=
  counts_ok (all_threads s) ∧ Forall (λ t, is_u64 t.1 ∧ counts_ok t.2) (threads s) ∧
  line (stack s) ∧ starts_with "@" (stack s) = true ∧ is_ascii (stack s) = true.

(** A line that is neither a stack nor counts over all threads or of thread 0. *)
Definition other_line (l : string) : Prop :=
  starts_with "@" l = false ∧ has_prefix "t*:" (trim_text l) = false ∧ has_prefix "t0:" (trim_text l) = false.

Record dump_ok (d : Dump) : Prop := {
  do_rate : is_u64 (rate d);
  do_total : counts_ok (total d) ∧ 0 < bytes (total d);
  do_threads : Forall (λ t, is_u64 t.1.1 ∧ counts_ok t.1.2 ∧
                 from_option (λ name, line name ∧ is_ascii name = true) True t.2) (total_threads d);
  do_sites : Forall site_ok (sites d);
  do_libraries : Forall (λ l, line l ∧ is_ascii l = true ∧ other_line l) (mapped_libraries d);
}.

Lemma trim_decimal n : 0 ≤ n → trim_text (String " " (decimal n)) = decimal n.
Proof.
  intros Hn. unfold trim_text. change (trim_front (String " " ?s)) with (trim_front s).
  pose proof (decimal_solid n Hn) as Hs. rewrite trim_front_solid_ends by done. by apply trim_back_solid_ends.
Qed.

Lemma trim_decimal_blank n : 0 ≤ n → trim_text (String.append (String " " (decimal n)) " ") = decimal n.
Proof.
  intros Hn. unfold trim_text. rewrite append_cons. change (trim_front (String " " ?s)) with (trim_front s).
  pose proof (decimal_solid n Hn) as Hs. replace (trim_front (String.append (decimal n) " ")) with (String.append (decimal n) " ").
  - by apply trim_back_solid_ends.
  - symmetry. destruct Hs as (a & y & _ & _ & -> & _ & Ha & _). rewrite append_cons.
    destruct (solid_not_white a Ha) as (H1 & H2 & H3). apply drop_white_solid; naive_solver.
Qed.

Lemma count_line_text label c :
  contains ":" label = false → counts_ok c → count_line (counts_text label c) = Some (objects c, bytes c).
Proof.
  intros Hlabel (Ho & Hb & Hao & Hab). unfold is_u64 in *. unfold count_line, counts_text, counts_body.
  change (String " " (String " " (String.append label ?b))) with (String.append (String " " (String " " label)) b).
  assert (∀ n c, 0 ≤ n → decimal_digit c = None → contains c (decimal n) = false) as Hc by (intros; by apply decimal_chars).
  rewrite split_append by (cbn; exact Hlabel).
  rewrite split_append by (cbn; apply Hc; [lia|done]).
  rewrite split_append by (rewrite !contains_append; cbn; by rewrite !Hc by (lia || done)).
  rewrite split_append by (rewrite !contains_append; cbn; by rewrite !Hc by (lia || done)).
  cbn [head default from_option id]. rewrite trim_decimal, trim_decimal_blank by lia.
  by rewrite !parse_u64_decimal by lia.
Qed.

Lemma trim_solid x : solid_ends x → trim_text x = x.
Proof. intros Hx. unfold trim_text. rewrite trim_front_solid_ends by done. by apply trim_back_solid_ends. Qed.

(** A line with counts is recognised by its label, whatever the numbers. *)
Lemma trim_counts x c : trim_text (counts_text (String "t" x) c) = String.append (String "t" x) (counts_body c).
Proof.
  unfold trim_text, counts_text. change (trim_front (String " " (String " " ?y))) with (trim_front y).
  change (trim_text (String.append (String "t" x) (counts_body c)) = String.append (String "t" x) (counts_body c)).
  apply trim_solid. rewrite append_cons. apply solid_ends_intro; [done|]. unfold counts_body. solve_solid_end.
Qed.

Lemma thread_prefix id c :
  is_u64 id → let l := trim_text (counts_text (thread_label id) c) in
  has_prefix "t*:" l = false ∧ has_prefix "t0:" l = (id =? 0).
Proof.
  intros Hid. cbv zeta. unfold thread_label. rewrite trim_counts, append_cons.
  destruct (decimal_cons id) as (a & y & E & Ha); [unfold is_u64 in Hid; lia|].
  pose proof (parse_u64_decimal id Hid) as Hp. pose proof (λ c, decimal_chars id c (proj1 Hid)) as Hch.
  rewrite E in *. rewrite append_cons. unfold has_prefix.
  assert (∀ p ps q qs, strip_prefix (String p ps) (String q qs) = if Ascii.eqb p q then strip_prefix ps qs else None) as Hs by done.
  rewrite !Hs, !Ascii.eqb_refl.
  destruct (Ascii.eqb_spec "*" a) as [<-|_]; [by destruct Ha|]. split; [done|].
  destruct (Ascii.eqb_spec "0" a) as [<-|H0].
  - destruct y as [|b y].
    + change (parse_u64 "0") with (Some 0) in Hp. injection Hp as <-. done.
    + rewrite append_cons, Hs. destruct (Ascii.eqb_spec ":" b) as [<-|].
      * specialize (Hch ":"%char eq_refl). cbn in Hch. done.
      * destruct (Z.eqb_spec id 0) as [->|]; [|done]. by vm_compute in E.
  - destruct (Z.eqb_spec id 0) as [->|]; [|done]. vm_compute in E. by injection E as <- _.
Qed.

Lemma header_ignored r : 0 ≤ r → other_line (String.append "heap_v2/" (decimal r)).
Proof.
  intros Hr. unfold other_line. rewrite trim_solid; [done|]. rewrite append_cons. apply solid_ends_intro; [done|].
  rewrite <- append_cons. apply solid_end_append. destruct (decimal_solid r Hr) as (_ & _ & b & z & _ & E & _ & Hb).
  by exists z, b.
Qed.

Definition live (c : Counts) : bool := bytes c >? 0.

(** What the two reports take from a site: its counts over all threads, and again
    those of thread 0. *)
Definition reported (s : Site) : list (string * Counts) :=
  pair (stack s) <$> List.filter live (all_threads s :: (List.filter (λ t, t.1 =? 0) (threads s)).*2).
Definition as_allocation (r : string * Counts) : Z * Z * list string := (objects r.2, bytes r.2, [r.1]).

(** The two loops over the lines. *)
Definition scan_loop (f : HeapScan → string → HeapScan) (st : HeapScan) : Prop :=
  f = heap_top_line ∨ (f = heap_file_line ∧ total_bytes st ≠ 0).

Lemma scan_other f l st : f = heap_top_line ∨ f = heap_file_line → other_line l → f st l = st.
Proof.
  intros Hf (H1 & H2 & H3). destruct Hf as [->| ->]; unfold heap_top_line, heap_file_line; rewrite H1, H2, H3; cbn; [|done].
  by destruct (has_prefix "heap_v2" l).
Qed.

Lemma scan_others f ls st : f = heap_top_line ∨ f = heap_file_line → Forall other_line ls → foldl f st ls = st.
Proof. intros Hf. induction 1 as [|l ls Hl _ IH]; [done|]. cbn. by rewrite scan_other. Qed.

Lemma scan_counts f x c st :
  scan_loop f st → has_prefix "t*:" (String.append (String "t" x) (counts_body c)) = true ∨
    has_prefix "t0:" (String.append (String "t" x) (counts_body c)) = true →
  contains ":" x = false → counts_ok c → current_stack st ≠ [] →
  f st (counts_text (String "t" x) c) =
    MkScan (allocations st ++ if live c then [(objects c, bytes c, current_stack st)] else []) (current_stack st) (total_bytes st).
Proof.
  intros Hf Hp Hx Hc Hst. unfold scan_loop, heap_top_line, heap_file_line in *. destruct st as [al cur tot]. cbn in *.
  destruct Hf as [->|[-> H0]]; change (starts_with "@" (counts_text (String "t" x) c)) with false; cbn iota; rewrite trim_counts;
    rewrite (proj2 (orb_true_iff _ _) Hp), count_line_text by done; cbn; unfold live;
    destruct cur as [|y cur]; try done; cbn; destruct (bytes c >? 0); rewrite ?app_nil_r; try done.
  all: by rewrite (proj2 (Z.eqb_neq _ _) H0).
Qed.

Lemma scan_threads f ts st :
  scan_loop f st → current_stack st ≠ [] → Forall (λ t, is_u64 t.1 ∧ counts_ok t.2) ts →
  foldl f st ((λ t, counts_text (thread_label t.1) t.2) <$> ts) =
    MkScan (allocations st ++ ((λ c, (objects c, bytes c, current_stack st)) <$>
      List.filter live ((List.filter (λ t, t.1 =? 0) ts).*2))) (current_stack st) (total_bytes st).
Proof.
  intros Hf Hst Hts. revert st Hf Hst. induction Hts as [|[id c] ts [Hid Hc] _ IH]; intros st Hf Hst; cbn [foldl fmap list_fmap fst snd] in *.
  - cbn. rewrite app_nil_r. by destruct st.
  - destruct (thread_prefix id c Hid) as [H1 H2]. cbn [List.filter fst]. destruct (Z.eqb_spec id 0) as [->|Hne].
    + unfold thread_label at 1. rewrite (scan_counts f (decimal 0) c st); [|done| |by apply decimal_chars; [lia|]|done|done].
      * rewrite IH; [|by destruct Hf as [->|[-> ?]]; [left|right]|done]. cbn. destruct (live c); cbn; rewrite <- ?app_assoc, ?app_nil_r; done.
      * right. rewrite <- trim_counts. exact H2.
    + rewrite scan_other; [by apply IH|by destruct Hf as [->|[-> ?]]; [left|right]|by split].
Qed.

Lemma scan_sites f ss st :
  Forall site_ok ss → scan_loop f st →
  let st' := foldl f st (concat (site_lines <$> ss)) in
  allocations st' = allocations st ++ (as_allocation <$> concat (reported <$> ss)) ∧ total_bytes st' = total_bytes st.
Proof.
  intros Hs Hf. cbv zeta. revert st Hf. induction Hs as [|s ss (Hc & Ht & Hl & Hat & _) _ IH]; intros st Hf; cbn [fmap list_fmap concat].
  - by rewrite app_nil_r.
  - rewrite foldl_app. change (site_lines s) with
      (stack s :: counts_text "t*" (all_threads s) :: ((λ t, counts_text (thread_label t.1) t.2) <$> threads s)). cbn [foldl].
    assert (f st (stack s) = MkScan (allocations st) [stack s] (total_bytes st)) as ->
      by (destruct Hf as [->|[-> ?]]; unfold heap_top_line, heap_file_line; by rewrite Hat).
    rewrite (scan_counts f "*" (all_threads s)); [|by destruct Hf as [->|[-> ?]]; [left|right]|by left|done|done|done].
    rewrite scan_threads; [|by destruct Hf as [->|[-> ?]]; [left|right]|done|done]. cbn [current_stack allocations total_bytes].
    match goal with |- context [foldl f ?st1 _] => destruct (IH st1) as [-> ->] end; [by destruct Hf as [->|[-> ?]]; [left|right]|].
    split; [|done]. cbn [allocations]. rewrite fmap_app, !app_assoc. f_equal. rewrite <- app_assoc. f_equal. unfold reported.
    cbn [List.filter]. destruct (live (all_threads s)); cbn; rewrite <- ?list_fmap_compose; done.
Qed.

(** The lines before the sites leave only the total, for the report written at
    shutdown. *)
Lemma scan_unowned f l st :
  scan_loop f st → current_stack st = [] → starts_with "@" l = false → f st l = st.
Proof.
  intros Hf Hst Hl. unfold scan_loop, heap_top_line, heap_file_line in *. destruct st as [al cur tot]. cbn in *. subst cur.
  destruct Hf as [->|[-> H0]]; rewrite Hl; cbn.
  - destruct (has_prefix "t*:" _), (has_prefix "t0:" _); cbn; destruct (count_line l) as [[]|]; try done; by destruct (has_prefix _ _).
  - destruct (_ || _); [|done]. destruct (count_line l) as [[]|]; [|done]. by rewrite (proj2 (Z.eqb_neq _ _) H0).
Qed.

Lemma scan_named f ts st : scan_loop f st → current_stack st = [] → foldl f st (named_text <$> ts) = st.
Proof. intros Hf Hst. induction ts as [|t ts IH]; [done|]. cbn. rewrite scan_unowned; [exact IH|done..]. Qed.

Lemma counts_line label c : line label → counts_ok c → line (counts_text label c).
Proof.
  intros [H1 H2] (Ho & Hb & Hao & Hab). unfold is_u64 in *. unfold counts_text, counts_body, line.
  by split; repeat first [rewrite contains_append | rewrite decimal_chars by (lia || done) | rewrite H1 | rewrite H2 | progress cbn].
Qed.

Lemma thread_label_line id : is_u64 id → line (thread_label id).
Proof. intros Hid. unfold is_u64 in Hid. split; cbn; by rewrite decimal_chars by (lia || done). Qed.

Lemma site_lines_ok s : site_ok s → Forall line (site_lines s).
Proof.
  intros (Hc & Ht & Hl & _). constructor; [done|]. constructor; [by apply counts_line|].
  apply Forall_fmap. eapply Forall_impl; [exact Ht|]. intros t [? ?]. apply counts_line; [by apply thread_label_line|done].
Qed.

Lemma heap_text_lines d : dump_ok d → lines (heap_text d) = heap_lines d.
Proof.
  intros [Hr [Ht _] Hth Hs Hl]. unfold is_u64 in Hr. apply lines_unlines. constructor.
  { split; rewrite contains_append; cbn; by rewrite decimal_chars by (lia || done). }
  constructor; [by apply counts_line|]. apply Forall_app. split; [|apply Forall_app; split].
  - apply Forall_fmap. eapply Forall_impl; [exact Hth|]. intros [[id c] name] (Hid & Hc & Hn). cbn in *. unfold named_text. cbn [fst snd].
    destruct (counts_line (thread_label id) c (thread_label_line id Hid) Hc) as [H1 H2].
    split; rewrite contains_append, ?H1, ?H2; destruct name as [name|]; cbn; try done; by destruct Hn as [[? ?] _].
  - apply Forall_concat, Forall_fmap. eapply Forall_impl; [exact Hs|]. intros s. apply site_lines_ok.
  - constructor; [done|]. constructor; [done|]. eapply Forall_impl; [exact Hl|]. by intros l [? _].
Qed.

Lemma scan_text d :
  dump_ok d →
  allocations (heap_top_scan (heap_text d)) = as_allocation <$> concat (reported <$> sites d) ∧
  allocations (heap_file_scan (heap_text d)) = as_allocation <$> concat (reported <$> sites d) ∧
  total_bytes (heap_file_scan (heap_text d)) = bytes (total d).
Proof.
  intros Hd. pose proof Hd as [Hr [Ht Hb] _ Hs Hl]. unfold heap_top_scan, heap_file_scan. rewrite heap_text_lines by done.
  unfold heap_lines. cbn [foldl]. rewrite !foldl_app. unfold is_u64 in Hr.
  assert (Hh : other_line (String.append "heap_v2/" (decimal (rate d)))) by (apply header_ignored; lia).
  assert (Htail : Forall other_line (EmptyString :: "MAPPED_LIBRARIES:"%string :: mapped_libraries d)).
  { constructor; [done|]. constructor; [done|]. eapply Forall_impl; [exact Hl|]. by intros l (_ & _ & ?). }
  rewrite !(scan_others heap_top_line _ _ (or_introl eq_refl) Htail), !(scan_others heap_file_line _ _ (or_intror eq_refl) Htail).
  rewrite (scan_other heap_top_line _ _ (or_introl eq_refl) Hh), (scan_other heap_file_line _ _ (or_intror eq_refl) Hh).
  rewrite (scan_unowned heap_top_line) by (done || by left).
  assert (heap_file_line (MkScan [] [] 0) (counts_text "t*" (total d)) = MkScan [] [] (bytes (total d))) as ->.
  { unfold heap_file_line. change (starts_with "@" (counts_text "t*" (total d))) with false. cbn iota. rewrite trim_counts.
    change (has_prefix "t*:" _) with true. cbn [orb]. by rewrite count_line_text. }
  assert (scan_loop heap_file_line (MkScan [] [] (bytes (total d)))) as Hfile by (right; split; [done|cbn; lia]).
  rewrite (scan_named heap_top_line), (scan_named heap_file_line) by (done || by left).
  destruct (scan_sites heap_top_line (sites d) (MkScan [] [] 0) Hs) as [-> _]; [by left|].
  by destruct (scan_sites heap_file_line (sites d) (MkScan [] [] (bytes (total d))) Hs Hfile) as [-> ->].
Qed.

(** The total that [get_heap_top] divides by is never set. *)
Lemma heap_top_total content : total_bytes (heap_top_scan content) = 0.
Proof.
  unfold heap_top_scan. assert (∀ ls st, total_bytes st = 0 → total_bytes (foldl heap_top_line st ls) = 0) as H; [|by apply H].
  induction ls as [|l ls IH]; intros st Hst; [done|]. cbn. apply IH. unfold heap_top_line.
  destruct (starts_with _ _); [done|]. destruct (has_prefix "t*:" (trim_text l)); cbn.
  - destruct (count_line l) as [[o b]|]; [|done]. by destruct (_ && _).
  - destruct (has_prefix "t0:" _); [|by destruct (has_prefix "heap_v2" l)].
    destruct (count_line l) as [[o b]|]; [|done]. by destruct (_ && _).
Qed.

Lemma counts_ascii label c : is_ascii label = true → counts_ok c → is_ascii (counts_text label c) = true.
Proof.
  intros Hlabel (Ho & Hb & Hao & Hab). unfold is_u64 in *. unfold counts_text, counts_body.
  assert (∀ a s, is_ascii (String a s) = (u8 (Ascii.byte_of_ascii a) <? 128) && is_ascii s) as Hc by done.
  repeat first [rewrite Hc | rewrite is_ascii_append | rewrite decimal_ascii by lia | rewrite Hlabel]. done.
Qed.

Lemma thread_label_ascii id : is_u64 id → is_ascii (thread_label id) = true.
Proof. intros Hid. unfold is_u64 in Hid. unfold thread_label. change (is_ascii (String "t" ?x)) with (is_ascii x). apply decimal_ascii. lia. Qed.

Lemma heap_text_ascii d : dump_ok d → is_ascii (heap_text d) = true.
Proof.
  intros [Hr [Ht _] Hth Hs Hl]. unfold is_u64 in Hr.
  assert (∀ ls, Forall (λ l, is_ascii l = true) ls → is_ascii (unlines ls) = true) as Hu.
  { induction 1 as [|l ls Hl' _ IH]; [done|]. cbn [unlines foldr]. rewrite is_ascii_append, Hl'. cbn [andb].
    change (is_ascii (String newline ?x)) with (is_ascii x). exact IH. }
  apply Hu. constructor; [rewrite is_ascii_append, decimal_ascii by lia; done|]. constructor; [by apply counts_ascii|].
  apply Forall_app. split; [|apply Forall_app; split].
  - apply Forall_fmap. eapply Forall_impl; [exact Hth|]. intros [[id c] name] (Hid & Hc & Hn). cbn in *. unfold named_text. cbn [fst snd].
    rewrite is_ascii_append, counts_ascii by (done || by apply thread_label_ascii). destruct name as [name|]; [|done].
    change (is_ascii (String " " name)) with (is_ascii name). by destruct Hn as [_ ->].
  - apply Forall_concat, Forall_fmap. eapply Forall_impl; [exact Hs|]. intros s (Hc & Hts & _ & _ & Ha).
    constructor; [done|]. constructor; [by apply counts_ascii|]. apply Forall_fmap. eapply Forall_impl; [exact Hts|].
    intros t [? ?]. apply counts_ascii; [by apply thread_label_ascii|done].
  - constructor; [done|]. constructor; [done|]. eapply Forall_impl; [exact Hl|]. by intros l (_ & ? & _).
Qed.

(** The stack as it is shown. *)
Definition clipped (s : string) : string :=
  if slen s >? 40 then String.append (of_bytes (take 40 (as_bytes s))) "..." else s.

Lemma clip_ascii s : is_ascii s = true → clip [s] = Ok (clipped s).
Proof.
  intros Ha. unfold clip, clipped, str_to. rewrite Z.gtb_ltb. destruct (Z.ltb_spec 40 (slen s)); [|done].
  rewrite ascii_boundary by (done || lia). done.
Qed.

(** Names in ASCII are resolved without a panic. *)
Definition ascii_names (resolve : Z → list ResolvedSymbol) : Prop :=
  ∀ a, Forall (λ y, is_ascii (default EmptyString (sym_name y)) = true) (resolve a).

Lemma for_each_ok {A B} (f : B → A → outcome string B) l b :
  Forall (λ a, ∀ b, ∃ b', f b a = Ok b') l → ∃ b', for_each f l b = Ok b'.
Proof.
  intros H. revert b. induction H as [|a l Ha _ IH]; intros b; [by exists b|]. cbn. destruct (Ha b) as [b' ->]. apply IH.
Qed.

Lemma symbolicate_ok resolve addrs : ascii_names resolve → ∃ symbols, symbolicate_addresses resolve addrs = Ok symbols.
Proof.
  intros Hr. apply for_each_ok, Forall_forall. intros addr _ symbols. unfold symbolicate_address.
  destruct (strip_prefix "0x" addr ≫= parse_hex) as [a|]; [|by exists symbols].
  apply for_each_ok. eapply Forall_impl; [apply Hr|]. intros y Hy m. cbn in Hy. unfold add_symbol.
  destruct (sym_name y) as [name|]; [|by exists m]. destruct (_ || _); [by exists m|].
  rewrite shorten_ascii by (lia || done). by eexists.
Qed.

Lemma reported_ascii ss : Forall site_ok ss → ∀ r, r ∈ concat (reported <$> ss) → is_ascii r.1 = true.
Proof.
  induction 1 as [|s ss (_ & _ & _ & _ & Ha) _ IH]; intros r; cbn; [by intros ?%elem_of_nil|].
  intros [Hr|Hr]%elem_of_app; [|by apply IH]. apply list_elem_of_fmap in Hr as (c & -> & _). done.
Qed.

(** C40. The reports on the heap. When jemalloc's file is a dump in its format, the
    report of the server and the one written at shutdown show the same lines:
    for each allocation site its objects and bytes over all threads and, as a
    line of its own, again those of thread 0, if it has allocated there; lines
    without bytes are left out, those with more bytes come first, and at most
    thirty are shown. Beside a line the report at shutdown gives its share of the
    total that the dump begins with; the server's report gives a share of zero
    for every line, because its total is never read. *)
Theorem heap_reports h d :
  hp_epoch h = Ok tt → hp_dump h = 0 → hp_file h = Ok (as_bytes (heap_text d)) → dump_ok d →
  let shown := take 30 (sort_desc (λ r, bytes r.2) (concat (reported <$> sites d))) in
  (∀ allocated active, hp_allocated h = Ok allocated → hp_active h = Ok active →
    get_heap_top h = Ok (MkHeapTop allocated active
      ((λ r, MkSite (objects r.2) (format_bytes (bytes r.2)) None (clipped r.1)) <$> shown))) ∧
  (ascii_names (hp_resolve h) → ∃ frames : string → list FrameLine,
    site_section h = Ok (Sites ((λ r, MkSite (objects r.2) (format_bytes (bytes r.2)) (Some (bytes (total d))) (frames r.1)) <$> shown))).
Proof.
  intros He Hd Hf Hok. cbv zeta. destruct (scan_text d Hok) as (E1 & E2 & E3).
  assert (read_to_string (hp_file h) = Ok (heap_text d)) as Er.
  { rewrite Hf. unfold read_to_string. cbn [mbind outcome_bind]. by rewrite ascii_utf8 by by apply heap_text_ascii. }
  split.
  - intros allocated active Ha Hac. unfold get_heap_top, advance. rewrite He, Hd, Er, Ha, Hac. cbn [map_err read_stat].
    change (negb (0 =? 0)) with false. cbn iota. rewrite !bind_Ok. cbv zeta. rewrite heap_top_total, E1, sort_desc_fmap.
    rewrite <- fmap_take, (mapM_Ok _ (λ a, MkSite a.1.1 (format_bytes (alloc_bytes a)) None (clipped (default EmptyString (head a.2))))).
    + rewrite bind_Ok, <- list_fmap_compose. done.
    + apply Forall_fmap, Forall_take, Forall_forall. intros r Hin. cbn [compose as_allocation fst snd alloc_bytes].
      rewrite clip_ascii; [done|]. rewrite sort_desc_perm in Hin. apply (reported_ascii _ (do_sites d Hok) _ Hin).
  - intros Hn. unfold site_section. rewrite Hd, Er. change (0 =? 0) with true. cbn iota zeta. rewrite E2, E3, sort_desc_fmap.
    edestruct (symbolicate_ok (hp_resolve h)) as [symbols ->]; [done|]. rewrite bind_Ok.
    exists (λ s, stack_frames symbols [s]). rewrite <- fmap_take, <- list_fmap_compose. unfold share. rewrite Z.gtb_ltb.
    pose proof (do_total d Hok) as [_ ?]. destruct (Z.ltb_spec 0 (bytes (total d))); [|lia]. done.
Qed.

(** A name with a character of two bytes where the cut falls makes the report
    panic, and with it the task of the connection. *)
Definition long_name : string :=
  String.append "aaa" (String (Ascii.ascii_of_nat 195) (String (Ascii.ascii_of_nat 169)
    "aaaaaaaaaaaaaaaaaaaaaaaaaaaaaaaaaaaaaaaaaaaaaaaaaaaaaaaa")).

Example long_name_panics :
  from_utf8 (as_bytes long_name) = Some long_name ∧
  collect_top (MkProfiler (Ok tt) (Ok [([[long_name]], 1)]) (λ _, Ok []) (λ _, Ok [])) = Panic.
Proof. split; vm_compute; reflexivity. Qed.

(** At shutdown the heap profile is written even when the processor's is not. *)
Lemma heap_dumped_anyway dir h now cp fs stats sites :
  create_dir dir = Ok tt → write_file dir "heap_profile.txt" = Ok tt →
  get_heap_stats h = Ok stats → site_section h = Ok sites →
  (dump_profiles dir h now cp fs).2 !! "heap_profile.txt"%string = Some (HeapDocument stats sites).
Proof.
  intros Hc Hw Hs Hx. unfold dump_profiles. rewrite Hc. destruct (dump_cpu_profile _ _ _ _) as [r fs'].
  unfold dump_heap_profile_to_file. rewrite Hs, Hx, !bind_Ok. unfold write. rewrite Hw. cbn. by rewrite lookup_insert_eq.
Qed.

(** ** Witnesses *)
Definition sample_profiler : Profiler :=
  {| pf_build := Ok tt;
     pf_report := Ok [([["pprof::sample"]; ["vibemq::route"]; ["main"]], 3); ([["vibemq::decode"]], 4); ([["vibemq::route"]], 2)]%string;
     pf_pprof := λ r, Ok [x01; x02];
     pf_flamegraph := λ r, Ok [] |}.

Definition sample_dump : Dump :=
  {| rate := 524288; total := MkCounts 3 70 0 0;
     total_threads := [((0, MkCounts 1 30 0 0), Some "main"%string); ((12, MkCounts 2 40 0 0), None)];
     sites := [MkHeapSite "@ 0x1" (MkCounts 1 20 0 0) [(12, MkCounts 1 20 0 0)];
               MkHeapSite "@ 0x2" (MkCounts 2 50 0 0) [(0, MkCounts 1 30 0 0); (12, MkCounts 1 20 0 0)]];
     mapped_libraries := ["55d0c000-55d0e000 r-xp 00000000 00:00 0  /usr/bin/vibemq"%string] |}.

Definition sample_heap : Heap :=
  {| hp_epoch := Ok tt; hp_allocated := Ok 100; hp_active := Ok 200; hp_resident := Ok 1; hp_mapped := Ok 1; hp_retained := Ok 1;
     hp_dump := 0;
     hp_file := Ok (as_bytes (heap_text sample_dump));
     hp_resolve := λ _, [] |}.

Definition sample_env (id : string) : Env := MkEnv (λ _, sample_profiler) sample_heap id "" (λ _, []).

Lemma profile_fetched_once_witness :
  ∀ q, ∃ s3, handle_request (sample_env "b") (MkRequest GET (data_url "a") q)
    (serve [(sample_env "b", MkRequest GET "/debug/pprof/profile/ui" None)]
       (handle_request (sample_env "a") (MkRequest GET "/debug/pprof/profile/ui" (Some "seconds=5"%string)) ∅).2).2 =
    (Ok (MkResponse 200 [("Content-Type", "application/octet-stream"); ("Access-Control-Allow-Origin", "*")]%string
       (Data [x01; x02])), s3).
Proof.
  intros q.
  destruct (profile_fetched_once (sample_env "a") (MkRequest GET "/debug/pprof/profile/ui" (Some "seconds=5"%string))
    [(sample_env "b", MkRequest GET "/debug/pprof/profile/ui" None)] ∅ [x01; x02]) as [_ H].
  - reflexivity.
  - left.
  - reflexivity.
  - discriminate.
  - constructor; [|constructor]. split; [discriminate|]. intros [_ Hp]. discriminate Hp.
  - destruct (H (sample_env "b") q) as (s3 & E & _). exists s3. exact E.
Defined.

Lemma cpu_top_witness :
  ∃ fs, NoDup fs ∧ collect_top sample_profiler = Ok (MkTop 9 (Z.min (zlen fs) 30)
    ((λ f, (samples_of f [([["pprof::sample"]; ["vibemq::route"]; ["main"]], 3); ([["vibemq::decode"]], 4); ([["vibemq::route"]], 2)]%string,
            9, shown 60 57 f)) <$> take 30 fs)).
Proof.
  destruct (cpu_top sample_profiler
    [([["pprof::sample"]; ["vibemq::route"]; ["main"]], 3); ([["vibemq::decode"]], 4); ([["vibemq::route"]], 2)]%string)
    as (fs & Hd & _ & _ & _ & H); [reflexivity|reflexivity|done| |repeat constructor|].
  - split; [repeat constructor; discriminate|reflexivity].
  - exists fs. split; [exact Hd|exact H].
Defined.

Lemma sample_dump_ok : dump_ok sample_dump.
Proof.
  split; [by split|by split_and!| | |].
  - repeat constructor; cbn; try done; by split_and!.
  - repeat constructor; cbn; done.
  - constructor; [|constructor]. by split_and!.
Qed.

Lemma heap_reports_witness :
  get_heap_top sample_heap = Ok (MkHeapTop 100 200
    [MkSite 2 (InB 50) None "@ 0x2"%string; MkSite 1 (InB 30) None "@ 0x2"%string; MkSite 1 (InB 20) None "@ 0x1"%string]).
Proof.
  destruct (heap_reports sample_heap sample_dump) as [H _]; [reflexivity|reflexivity|reflexivity|apply sample_dump_ok|].
  exact (H 100 200 eq_refl eq_refl).
Defined.
