(* ===== verification/Tls.v ===== *)
(** * TLS configuration

    [broker/tls.rs]: certificates, key and certificate authorities are read from
    files and made into the settings of the TLS acceptor. The file system and the
    library rustls are the class [Rustls]: opening a file, parsing PEM, and the
    library's checks, each of which may refuse. *)

From S2P Require Import Prelude Proxy Config.
From S2P Require Import Protocol Codec.
#[local] Open Scope Z_scope.

Inductive TlsError : Type :=
  | TlsIo (e : string)
  | CertificateError (msg : string)
  | PrivateKeyError (msg : string)
  | TlsConfigError (msg : string).

Definition TlsError_display (e : TlsError) : string :=
  match e with
  | TlsIo e => String.append "IO error: " e
  | CertificateError msg => String.append "Certificate error: " msg
  | PrivateKeyError msg => String.append "Private key error: " msg
  | TlsConfigError msg => String.append "TLS config error: " msg
  end.

(** [read_certs] is the iterator over the PEM sections of a file: the
    certificates, or the first error; a verifier is built from the roots and
    from whether it lets clients without a certificate pass. *)
Class Rustls : Type := {
  Cert : Type;
  Key : Type;
  open_file : string → outcome string (list byte);
  read_certs : list byte → outcome string (list Cert);
  read_key : list byte → outcome string Key;
  add_root : Cert → outcome string unit;
  build_verifier : list Cert → bool → outcome string unit;
  with_single_cert : list Cert → Key → outcome string unit;
}.

Section tls.
Context `{Rustls}.

(** [Result::map_err], and [?] on an [io::Error]. *)
Definition tls_err {A} (f : string → TlsError) (r : outcome string A) : outcome TlsError A :=
  match r with Ok a => Ok a | Err e => Err (f e) | Panic => Panic | NoFuel => NoFuel end.

Definition load_certs (path : string) : outcome TlsError (list Cert) :=
  file ← tls_err TlsIo (open_file path);
  certs ← tls_err (λ e, CertificateError (String.append "Failed to parse certificates: " e)) (read_certs file);
  if is_nil certs then Err (CertificateError (String.append "No certificates found in " path)) else Ok certs.

Definition load_private_key (path : string) : outcome TlsError Key :=
  file ← tls_err TlsIo (open_file path);
  tls_err (λ e, PrivateKeyError (String.append "Failed to parse private key: " e)) (read_key file).

(** The root store is the list of the certificates added to it. *)
Fixpoint add_roots (roots certs : list Cert) : outcome TlsError (list Cert) :=
  match certs with
  | [] => Ok roots
  | cert :: certs =>
      _ ← tls_err (λ e, CertificateError (String.append "Failed to add CA certificate: " e)) (add_root cert);
      add_roots (roots ++ [cert]) certs
  end.

Definition load_ca_certs (path : string) : outcome TlsError (list Cert) := certs ← load_certs path; add_roots [] certs.

(** Who may connect: anyone, clients whose certificate, if they show one, leads
    to a root, or only clients with such a certificate. *)
Inductive ClientAuth : Type :=
  | NoClientAuth
  | OptionalClientAuth (roots : list Cert)
  | RequiredClientAuth (roots : list Cert).

Record TlsAcceptor : Type := MkAcceptor { ta_certs : list Cert; ta_key : Key; ta_client_auth : ClientAuth }.

Definition server_config (auth : ClientAuth) (certs : list Cert) (key : Key) : outcome TlsError TlsAcceptor :=
  _ ← tls_err (λ e, TlsConfigError (String.append "Failed to build TLS config: " e)) (with_single_cert certs key);
  Ok (MkAcceptor certs key auth).

Definition client_verifier (roots : list Cert) (allow_unauthenticated : bool) : outcome TlsError unit :=
  tls_err (λ e, TlsConfigError (String.append "Failed to build client verifier: " e))
    (build_verifier roots allow_unauthenticated).

Definition load_tls_config (config : ServerTlsConfig) : outcome TlsError TlsAcceptor :=
  certs ← load_certs (tls_cert config);
  key ← load_private_key (tls_key config);
  if tls_require_client_cert config then
    ca_path ← ok_or (tls_ca_cert config)
                (TlsConfigError "ca_cert_path is required when require_client_cert is true");
    root_store ← load_ca_certs ca_path;
    _ ← client_verifier root_store false;
    server_config (RequiredClientAuth root_store) certs key
  else
    match tls_ca_cert config with
    | Some ca_path =>
        root_store ← load_ca_certs ca_path;
        _ ← client_verifier root_store true;
        server_config (OptionalClientAuth root_store) certs key
    | None => server_config NoClientAuth certs key
    end.

(** ** What the files hold *)
Definition certs_in (path : string) (certs : list Cert) : Prop :=
  ∃ file, open_file path = Ok file ∧ read_certs file = Ok certs ∧ certs ≠ [].
Definition key_in (path : string) (key : Key) : Prop := ∃ file, open_file path = Ok file ∧ read_key file = Ok key.

(** The client authentication a configuration asks for, with the roots it names. *)
Inductive auth_for (config : ServerTlsConfig) : ClientAuth → Prop :=
  | auth_required ca roots :
      tls_require_client_cert config = true → tls_ca_cert config = Some ca → certs_in ca roots →
      Forall (λ c, add_root c = Ok tt) roots → build_verifier roots false = Ok tt →
      auth_for config (RequiredClientAuth roots)
  | auth_optional ca roots :
      tls_require_client_cert config = false → tls_ca_cert config = Some ca → certs_in ca roots →
      Forall (λ c, add_root c = Ok tt) roots → build_verifier roots true = Ok tt →
      auth_for config (OptionalClientAuth roots)
  | auth_none :
      tls_require_client_cert config = false → tls_ca_cert config = None → auth_for config NoClientAuth.

(** ** Lemmas *)
Lemma tls_bind_ok {A B} (m : outcome TlsError A) (k : A → outcome TlsError B) b :
  m ≫= k = Ok b ↔ ∃ a, m = Ok a ∧ k a = Ok b.
Proof. split; [destruct m; cbn; naive_solver|]. by intros (a & -> & ?). Qed.

Lemma tls_err_ok {A} f (r : outcome string A) a : tls_err f r = Ok a ↔ r = Ok a.
Proof. destruct r; cbn; naive_solver. Qed.

Lemma load_certs_ok path certs : load_certs path = Ok certs ↔ certs_in path certs.
Proof.
  unfold load_certs, certs_in. rewrite tls_bind_ok. setoid_rewrite tls_err_ok. setoid_rewrite tls_bind_ok.
  setoid_rewrite tls_err_ok. split.
  - intros (file & Hf & certs' & Hc & E). exists file. destruct certs'; [done|]. cbn in E. naive_solver.
  - intros (file & Hf & Hc & Hn). exists file. split; [done|]. exists certs. by destruct certs.
Qed.

Lemma load_private_key_ok path key : load_private_key path = Ok key ↔ key_in path key.
Proof. unfold load_private_key, key_in. rewrite tls_bind_ok. setoid_rewrite tls_err_ok. done. Qed.

Lemma add_roots_ok certs roots out :
  add_roots roots certs = Ok out ↔ out = roots ++ certs ∧ Forall (λ c, add_root c = Ok tt) certs.
Proof.
  revert roots. induction certs as [|c certs IH]; intros roots; cbn [add_roots].
  - rewrite app_nil_r. split; [intros [= ->]; by split|]. by intros [-> _].
  - rewrite tls_bind_ok. setoid_rewrite tls_err_ok. rewrite Forall_cons. setoid_rewrite IH.
    setoid_rewrite <- app_assoc. cbn. split; [intros ([] & ? & ? & ?)|intros (? & ? & ?); exists tt]; done.
Qed.

Lemma load_ca_certs_ok path roots :
  load_ca_certs path = Ok roots ↔ certs_in path roots ∧ Forall (λ c, add_root c = Ok tt) roots.
Proof.
  unfold load_ca_certs. rewrite tls_bind_ok. setoid_rewrite load_certs_ok. setoid_rewrite add_roots_ok. cbn. naive_solver.
Qed.

Lemma server_config_ok auth certs key acc :
  server_config auth certs key = Ok acc ↔ with_single_cert certs key = Ok tt ∧ acc = MkAcceptor certs key auth.
Proof.
  unfold server_config. rewrite tls_bind_ok. setoid_rewrite tls_err_ok. split; [intros ([] & ? & ?)|intros [? ->]; exists tt]; naive_solver.
Qed.

Lemma client_verifier_ok roots allow u : client_verifier roots allow = Ok u ↔ build_verifier roots allow = Ok tt.
Proof. destruct u. apply tls_err_ok. Qed.

(** The part of the loading that chooses the client authentication. *)
Definition choose_auth (config : ServerTlsConfig) : outcome TlsError ClientAuth :=
  if tls_require_client_cert config then
    ca ← ok_or (tls_ca_cert config) (TlsConfigError "ca_cert_path is required when require_client_cert is true");
    roots ← load_ca_certs ca;
    _ ← client_verifier roots false; Ok (RequiredClientAuth roots)
  else match tls_ca_cert config with
       | Some ca => roots ← load_ca_certs ca; _ ← client_verifier roots true; Ok (OptionalClientAuth roots)
       | None => Ok NoClientAuth
       end.

Lemma load_tls_config_steps config :
  load_tls_config config =
  certs ← load_certs (tls_cert config);
  key ← load_private_key (tls_key config);
  auth ← choose_auth config;
  server_config auth certs key.
Proof.
  unfold load_tls_config, choose_auth. destruct (load_certs _) as [certs| | |]; [|done..]. cbn.
  destruct (load_private_key _) as [key| | |]; [|done..]. cbn.
  destruct (tls_require_client_cert config), (tls_ca_cert config) as [ca|]; cbn; try done;
    destruct (load_ca_certs ca) as [roots| | |]; cbn; try done; by destruct (client_verifier _ _).
Qed.

Lemma choose_auth_ok config auth : choose_auth config = Ok auth ↔ auth_for config auth.
Proof.
  unfold choose_auth. split.
  - destruct (tls_require_client_cert config) eqn:Er; [|destruct (tls_ca_cert config) as [ca|] eqn:Ec].
    + intros (ca & Hca & (roots & [Hr Ha]%load_ca_certs_ok & ([] & Hv%client_verifier_ok & [= <-])%tls_bind_ok)%tls_bind_ok)%tls_bind_ok.
      destruct (tls_ca_cert config) as [ca'|] eqn:Ec; [|done]. injection Hca as ->. by apply (auth_required _ ca).
    + intros (roots & [Hr Ha]%load_ca_certs_ok & ([] & Hv%client_verifier_ok & [= <-])%tls_bind_ok)%tls_bind_ok.
      by apply (auth_optional _ ca).
    + intros [= <-]. by apply auth_none.
  - intros [ca roots -> -> Hr Ha Hv|ca roots -> -> Hr Ha Hv| -> ->]; [| |done].
    all: cbn; rewrite (proj2 (load_ca_certs_ok ca roots)) by done; cbn; by rewrite (proj2 (client_verifier_ok _ _ tt) Hv).
Qed.

(** ** Client authentication *)

(** C33. TLS is set up exactly as configured or not at all. Loading succeeds with an
    acceptor just when the certificate file holds at least one certificate, the
    key file a key that fits, and the client authentication is the one asked
    for: with [require_client_cert] only clients with a certificate that leads
    to the configured authorities, of which there is at least one; with
    authorities alone, the same check for those who show a certificate; without,
    none. A configuration that requires certificates and names no authorities
    never gives an acceptor, whatever the files hold. *)
Theorem tls_client_auth config :
  (∀ acc, load_tls_config config = Ok acc ↔
    certs_in (tls_cert config) (ta_certs acc) ∧ key_in (tls_key config) (ta_key acc) ∧
    with_single_cert (ta_certs acc) (ta_key acc) = Ok tt ∧ auth_for config (ta_client_auth acc)) ∧
  (∀ acc, load_tls_config config = Ok acc → tls_require_client_cert config = true →
    ∃ roots, ta_client_auth acc = RequiredClientAuth roots ∧ roots ≠ []).
Proof.
  assert (∀ acc, load_tls_config config = Ok acc ↔
    certs_in (tls_cert config) (ta_certs acc) ∧ key_in (tls_key config) (ta_key acc) ∧
    with_single_cert (ta_certs acc) (ta_key acc) = Ok tt ∧ auth_for config (ta_client_auth acc)) as Hiff.
  { intros acc. rewrite load_tls_config_steps, tls_bind_ok. setoid_rewrite load_certs_ok. setoid_rewrite tls_bind_ok.
    setoid_rewrite load_private_key_ok. setoid_rewrite tls_bind_ok. setoid_rewrite choose_auth_ok.
    setoid_rewrite server_config_ok. destruct acc as [certs key auth]. cbn. naive_solver. }
  split; [exact Hiff|]. intros acc (_ & _ & _ & Ha)%Hiff Hq. destruct Ha as [ca roots _ _ (? & _ & _ & Hn)| |]; [|congruence..].
  by exists roots.
Qed.

End tls.

(** Files given by a table, and a library that accepts what is in them: a byte is
    a certificate, or the key. *)
Definition sample_files (path : string) : option (list byte) :=
  if String.eqb path "cert.pem" then Some [x01; x02]
  else if String.eqb path "key.pem" then Some [x05]
  else if String.eqb path "ca.pem" then Some [x07] else None.

Definition sample_rustls : Rustls :=
  {| Cert := byte; Key := byte;
     open_file := λ p, ok_or (sample_files p) "not found"%string;
     read_certs := λ f, Ok f;
     read_key := λ f, ok_or (head f) "no key"%string;
     add_root := λ _, Ok tt;
     build_verifier := λ roots _, if is_nil roots then Err "no root anchors"%string else Ok tt;
     with_single_cert := λ _ _, Ok tt |}.

Lemma tls_client_auth_witness :
  let config := MkServerTls "cert.pem" "key.pem" (Some "ca.pem"%string) true in
  ∃ acc, @load_tls_config sample_rustls config = Ok acc ∧
    ∃ roots, ta_client_auth acc = RequiredClientAuth roots ∧ roots ≠ [].
Proof.
  cbv zeta. exists (@MkAcceptor sample_rustls [x01; x02] x05 (@RequiredClientAuth sample_rustls [x07])). split; [reflexivity|].
  apply (proj2 (@tls_client_auth sample_rustls (MkServerTls "cert.pem" "key.pem" (Some "ca.pem"%string) true))); reflexivity.
Defined.
