(* ===== verification/Lifecycle.v ===== *)
(** * Start and shutdown

    [Broker::run] ([broker/mod.rs]): the listeners it binds, the tasks it starts,
    the errors that end it early, and what the shutdown signal ends; the start of
    a cluster node ([cluster/manager.rs]); opening and closing the storage
    ([persistence/fjall.rs], [persistence/mod.rs]); the settings of a socket
    ([transport/mod.rs]); and the order in which [main.rs] does all this. What a
    task does once it runs is modelled in the other files. System calls, the
    gossip library, the storage library and the signal for Ctrl+C answer what the
    environment says. *)

From S2P Require Import Prelude Protocol Codec Properties Packet Decode Encode TopicMapper Remote Flapping Proxy Auth Hooks.
From S2P Require Import TopicValidation TopicTrie SubscriptionStore Session Persistence Broker Cluster Config Tls.
#[local] Open Scope Z_scope.

(** ** Sockets *)
Record TransportConfig : Type := MkTransport {
  tcp_nodelay : bool;
  tcp_keepalive : option Z;
  recv_buffer_size : option Z;
  send_buffer_size : option Z;
}.

Definition TransportConfig_default : TransportConfig := MkTransport true (Some (from_secs 60)) None None.

Definition configure_stream (set_nodelay : bool → outcome string unit) (config : TransportConfig) : outcome string unit :=
  _ ← set_nodelay (tcp_nodelay config); Ok tt.

(** The calls that make a listener; [TCP_BACKLOG] connections may wait. *)
Inductive SocketCall : Type :=
  | NewSocket (ipv4 : bool)
  | SetReuseAddress (v : bool)
  | SetNonblocking (v : bool)
  | BindTo (addr : SocketAddr)
  | ListenWith (backlog : Z)
  | FromStd.

Definition TCP_BACKLOG : Z := 4096.

Fixpoint all_calls {A} (f : A → outcome string unit) (l : list A) : outcome string unit :=
  match l with [] => Ok tt | x :: l => _ ← f x; all_calls f l end.

(** ** The tasks of a broker *)
Section lifecycle.
Context `{Rustls} {IpNet : Type}.

Inductive Service : Type :=
  | TcpAccept (addr : SocketAddr)
  | WsAccept (addr : SocketAddr) (path : string)
  | TlsAccept (addr : SocketAddr) (acceptor : TlsAcceptor)
  | SessionExpiry (interval : Z)
  | FlappingCleanup (interval : Z)
  | BridgeForwarding
  | PeerListener (addr : SocketAddr)
  | GossipWatcher
  | ClusterForwarding
  | MetricsCollection
  | SysTopics (interval_secs : Z).

(** What [main] has attached to the broker before it runs. *)
Record BrokerParts : Type := MkParts {
  bp_flapping_detector : option (FlappingDetector (IpNet := IpNet));
  bp_bridge_manager : bool;
  bp_cluster_manager : option ClusterConfig;
  bp_metrics : bool;
}.

Record Host : Type := MkHost {
  os : SocketAddr → SocketCall → outcome string unit;
  peer_bind : SocketAddr → outcome string unit;
  ctrl_c : bool;
}.

(** What a start has done, in order: calls for the socket of a listener that
    succeeded, and tasks. *)
Inductive Step : Type :=
  | Called (addr : SocketAddr) (call : SocketCall)
  | Spawned (s : Service).

Definition services (trace : list Step) : list Service :=
  omap (λ e, match e with Spawned s => Some s | Called _ _ => None end) trace.

Abbreviation starting A := (task string (list Step) A).

Definition spawn (s : Service) : starting unit := Remote.update (λ l, l ++ [Spawned s]).
Definition when_some {A} (o : option A) (f : A → starting unit) : starting unit :=
  match o with Some a => f a | None => mret tt end.
Definition when (b : bool) (m : starting unit) : starting unit := if b then m else mret tt.

Definition socket_call (host : Host) (addr : SocketAddr) (c : SocketCall) : starting unit :=
  _ ← Remote.lift (os host addr c);
  Remote.update (λ l, l ++ [Called addr c]).

Definition create_tcp_listener (host : Host) (addr : SocketAddr) : starting unit :=
  _ ← socket_call host addr (NewSocket (is_ipv4 addr));
  _ ← socket_call host addr (SetReuseAddress true);
  _ ← socket_call host addr (SetNonblocking true);
  _ ← socket_call host addr (BindTo addr);
  _ ← socket_call host addr (ListenWith TCP_BACKLOG);
  socket_call host addr FromStd.

(** [ClusterManager::start] *)
Definition cluster_start (host : Host) (config : ClusterConfig) : starting unit :=
  _ ← Remote.lift (peer_bind host (cl_peer_addr config));
  _ ← spawn (PeerListener (cl_peer_addr config));
  spawn GossipWatcher.

Definition tls_acceptor (config : ServerTlsConfig) : outcome string TlsAcceptor :=
  match load_tls_config config with
  | Ok acceptor => Ok acceptor
  | Err e => Err (String.append "TLS configuration error: " (TlsError_display e))
  | Panic => Panic
  | NoFuel => NoFuel
  end.

Definition start_tls (host : Host) (st : Startup) : starting unit :=
  match st_tls_bind_addr st, st_tls_config st with
  | Some tls_addr, Some tls_config =>
      acceptor ← Remote.lift (tls_acceptor tls_config);
      _ ← create_tcp_listener host tls_addr;
      spawn (TlsAccept tls_addr acceptor)
  | _, _ => mret tt
  end.

(** The listeners, in the order in which they are bound; each loop runs as soon
    as its own listener is bound. *)
Definition start_listeners (host : Host) (st : Startup) : starting unit :=
  _ ← create_tcp_listener host (st_bind_addr st);
  _ ← spawn (TcpAccept (st_bind_addr st));
  _ ← when_some (st_ws_bind_addr st) (λ ws_addr,
        _ ← create_tcp_listener host ws_addr;
        spawn (WsAccept ws_addr (st_ws_path st)));
  start_tls host st.

(** The other tasks: the periodic ones, those that forward events to bridges and
    to the cluster, and those that observe; a cluster that cannot start is only
    reported. *)
Definition start_cleanup (st : Startup) (parts : BrokerParts) : starting unit :=
  _ ← spawn (SessionExpiry (st_session_expiry_check_interval st));
  when_some (bp_flapping_detector parts) (λ d, spawn (FlappingCleanup (lc_cleanup_interval (limit_config d)))).

Definition start_forwarding (host : Host) (parts : BrokerParts) : starting unit :=
  _ ← when (bp_bridge_manager parts) (spawn BridgeForwarding);
  when_some (bp_cluster_manager parts) (λ config,
    _ ← attempt_result (cluster_start host config);
    spawn ClusterForwarding).

Definition start_observers (st : Startup) (parts : BrokerParts) : starting unit :=
  _ ← when (bp_metrics parts) (spawn MetricsCollection);
  when (st_sys_topics_enabled st) (spawn (SysTopics (as_secs (st_sys_topics_interval st)))).

Definition start_tasks (host : Host) (st : Startup) (parts : BrokerParts) : starting unit :=
  _ ← start_cleanup st parts;
  _ ← start_forwarding host parts;
  start_observers st parts.

(** [Broker::run] up to the shutdown signal, which it sends when Ctrl+C is
    pressed; not being able to listen for Ctrl+C is a panic. *)
Definition run (host : Host) (st : Startup) (parts : BrokerParts) : starting unit :=
  _ ← start_listeners host st;
  _ ← start_tasks host st parts;
  if ctrl_c host then mret tt else Remote.lift Panic.

(** A task that makes a ticker panics at once when the period is zero. *)
Definition keeps_running (s : Service) : bool :=
  match s with
  | SessionExpiry interval | FlappingCleanup interval => 0 <? interval
  | SysTopics secs => 0 <? secs
  | _ => true
  end.

(** ** Shutdown

    Tasks with a receiver of the shutdown channel end at the signal, the others do
    not. A connection gets its receiver when it is accepted, and a receiver
    does not see what was sent before it was made. *)
Definition has_receiver (s : Service) : bool :=
  match s with
  | TcpAccept _ | WsAccept _ _ | TlsAccept _ _ | PeerListener _ | GossipWatcher => false
  | _ => true
  end.

Definition accepts_clients (s : Service) : bool :=
  match s with TcpAccept _ | WsAccept _ _ | TlsAccept _ _ => true | _ => false end.

Record Running : Type := MkRunning { rn_services : list Service; rn_connections : list nat }.

Inductive RunEvent : Type :=
  | Accept (listener : nat) (id : nat)
  | ConnectionEnds (id : nat)
  | Shutdown.

Definition run_event (r : Running) (e : RunEvent) : Running :=
  match e with
  | Accept listener id =>
      match rn_services r !! listener with
      | Some l => if accepts_clients l then MkRunning (rn_services r) (rn_connections r ++ [id]) else r
      | None => r
      end
  | ConnectionEnds id => MkRunning (rn_services r) (List.filter (λ i, negb (Nat.eqb i id)) (rn_connections r))
  | Shutdown => MkRunning (List.filter (λ s, negb (has_receiver s)) (rn_services r)) []
  end.

Definition run_events (r : Running) (es : list RunEvent) : Running := foldl run_event r es.

(** ** Lemmas: what is started *)
Ltac start_steps :=
  cbv [mbind task_bind mret task_ret spawn Remote.update Remote.lift attempt_result when_some when]; cbn.

(** The calls that make a socket listen at an address. *)
Definition listening (a : SocketAddr) : list Step :=
  [Called a (NewSocket (is_ipv4 a)); Called a (SetReuseAddress true); Called a (SetNonblocking true);
   Called a (BindTo a); Called a (ListenWith 4096); Called a FromStd].

Definition address (s : Service) : option SocketAddr :=
  match s with TcpAccept a | WsAccept a _ | TlsAccept a _ => Some a | _ => None end.

(** No loop takes clients at an address before a socket listens there. *)
Definition bound_first (trace : list Step) : Prop :=
  ∀ l1 s l2 a, trace = l1 ++ Spawned s :: l2 → address s = Some a → ∃ l0, l1 = l0 ++ listening a.

Definition is_call (e : Step) : Prop := ∃ a c, e = Called a c.

Lemma services_app l1 l2 : services (l1 ++ l2) = services l1 ++ services l2.
Proof. apply omap_app. Qed.

Lemma services_calls l : Forall is_call l → services l = [].
Proof. by induction 1 as [|? ? (? & ? & ->) _ IH]. Qed.

Lemma listening_calls a : Forall is_call (listening a).
Proof. repeat constructor; by do 2 eexists. Qed.

Lemma bound_first_calls l l' : bound_first l → Forall is_call l' → bound_first (l ++ l').
Proof.
  intros Hl Hc l1 s l2 a E Ha. apply app_eq_inv in E as [(k & -> & E)|(k & -> & E)].
  - destruct k as [|e k]; [|injection E as <- ->; by eapply Hl]. cbn in E. subst l'. apply Forall_cons_1 in Hc as [(? & ? & ?) _]. done.
  - subst l'. apply Forall_app in Hc as [_ [(? & ? & ?) _]%Forall_cons_1]. done.
Qed.

Lemma bound_first_spawn l s :
  bound_first l → (∀ a, address s = Some a → ∃ l0, l = l0 ++ listening a) → bound_first (l ++ [Spawned s]).
Proof.
  intros Hl Hs l1 s' l2 a E Ha. destruct l2 as [|e l2] using rev_ind.
  - apply app_inj_tail in E as [-> [= ->]]. by apply Hs.
  - rewrite app_comm_cons, app_assoc in E. apply app_inj_tail in E as [-> _]. by eapply Hl.
Qed.

Lemma bound_first_background l b :
  bound_first l → Forall (λ s, address s = None) b → bound_first (l ++ (Spawned <$> b)).
Proof.
  intros Hl Hb. revert l Hl. induction Hb as [|s b Hs _ IH]; intros l Hl; [by rewrite app_nil_r|].
  rewrite fmap_cons, cons_middle, app_assoc. apply IH, bound_first_spawn; [done|]. intros a Ha. congruence.
Qed.

Lemma socket_call_cases host a c l :
  (os host a c = Ok tt ∧ socket_call host a c l = (Ok tt, l ++ [Called a c])) ∨
  ((∀ u, os host a c ≠ Ok u) ∧ socket_call host a c l = (os host a c, l)).
Proof.
  unfold socket_call. start_steps. destruct (os host a c) as [[]| | |]; [by left|right; by split..].
Qed.

(** Making a listener either makes every call, or ends at one that fails. *)
Lemma create_listener_cases host a l :
  create_tcp_listener host a l = (Ok tt, l ++ listening a) ∨
  ∃ c calls, (∀ u, os host a c ≠ Ok u) ∧ Forall is_call calls ∧ create_tcp_listener host a l = (os host a c, l ++ calls).
Proof.
  assert (Hfail : ∀ c calls r, (∀ u, os host a c ≠ Ok u) → r = (os host a c, l ++ (Called a <$> calls)) →
    ∃ c calls, (∀ u, os host a c ≠ Ok u) ∧ Forall is_call calls ∧ r = (os host a c, l ++ calls)).
  { intros c calls r Hc ->. exists c, (Called a <$> calls). split; [done|]. split; [|done].
    apply Forall_fmap, Forall_true. intros x. by do 2 eexists. }
  unfold create_tcp_listener. cbv [mbind task_bind].
  destruct (socket_call_cases host a (NewSocket (is_ipv4 a)) l) as [[_ ->]|[Hc ->]];
    [|right; apply (Hfail _ [] _ Hc); rewrite app_nil_r; destruct (os host a _) as [u| | |]; [by destruct (Hc u)|done..]].
  repeat match goal with
  | |- context [socket_call host a ?c (l ++ ?k)] =>
      destruct (socket_call_cases host a c (l ++ k)) as [[_ ->]|[Hc ->]];
        [rewrite <-(app_assoc l); cbn [app]
        |right; refine (Hfail _ (omap (λ e, match e with Called _ x => Some x | _ => None end) k) _ Hc _); cbn;
         destruct (os host a c) as [u| | |]; [by destruct (Hc u)|done..]]
  end.
  by left.
Qed.

Definition background (parts : BrokerParts) (st : Startup) (node : list Service) : list Service :=
  SessionExpiry (st_session_expiry_check_interval st) ::
  (match bp_flapping_detector parts with Some d => [FlappingCleanup (lc_cleanup_interval (limit_config d))] | None => [] end) ++
  (if bp_bridge_manager parts then [BridgeForwarding] else []) ++
  (match bp_cluster_manager parts with Some _ => node ++ [ClusterForwarding] | None => [] end) ++
  (if bp_metrics parts then [MetricsCollection] else []) ++
  (if st_sys_topics_enabled st then [SysTopics (as_secs (st_sys_topics_interval st))] else []).

(** The services of a cluster node, which are missing when its address is taken. *)
Definition node_services (host : Host) (parts : BrokerParts) : list Service :=
  match bp_cluster_manager parts with
  | Some config =>
      match peer_bind host (cl_peer_addr config) with Ok _ => [PeerListener (cl_peer_addr config); GossipWatcher] | _ => [] end
  | None => []
  end.

Lemma start_tasks_ok host st parts l :
  start_tasks host st parts l = (Ok tt, l ++ (Spawned <$> background parts st (node_services host parts))).
Proof.
  unfold start_tasks, start_cleanup, start_forwarding, start_observers, background, node_services, cluster_start.
  destruct (bp_flapping_detector parts), (bp_bridge_manager parts), (bp_cluster_manager parts) as [c|],
    (bp_metrics parts), (st_sys_topics_enabled st); start_steps;
    try destruct (peer_bind host (cl_peer_addr c)); cbn; by rewrite <- ?app_assoc.
Qed.

Lemma background_no_listener parts st node :
  Forall (λ s, accepts_clients s = false) node → Forall (λ s, accepts_clients s = false) (background parts st node).
Proof.
  intros Hn. unfold background. constructor; [done|].
  repeat (apply Forall_app; split); repeat case_match; try (by repeat constructor). apply Forall_app. split; [done|by repeat constructor].
Qed.

Lemma node_no_listener host parts : Forall (λ s, accepts_clients s = false) (node_services host parts).
Proof. unfold node_services. repeat case_match; by repeat constructor. Qed.

Lemma start_bind_assoc {A B C} (m : starting A) (f : A → starting B) (g : B → starting C) l :
  (m ≫= λ x, f x ≫= g) l = ((m ≫= f) ≫= g) l.
Proof. cbv [mbind task_bind]. by destruct (m l) as [[]]. Qed.

(** What starting one listener may do. *)
Definition listens (host : Host) (a : SocketAddr) (s : Service) (l : list Step) (r : outcome string unit) (l' : list Step) : Prop :=
  bound_first l' ∧
  match r with
  | Ok _ => services l' = services l ++ [s]
  | Err e => services l' = services l ∧ ∃ c, os host a c = Err e
  | _ => True
  end.

Lemma listen_spec host a s l r l' :
  bound_first l → address s = Some a → (create_tcp_listener host a ≫= λ _, spawn s) l = (r, l') → listens host a s l r l'.
Proof.
  intros Hl Ha. cbv [mbind task_bind].
  destruct (create_listener_cases host a l) as [->|(c & calls & Hc & Hcalls & ->)].
  - cbv [spawn Remote.update]. intros [= <- <-]. split.
    + apply bound_first_spawn; [apply bound_first_calls; [done|apply listening_calls]|]. intros a' Ha'.
      assert (a' = a) as -> by congruence. by exists l.
    + rewrite !services_app, (services_calls (listening a)) by apply listening_calls. by rewrite app_nil_r.
  - assert (Hs : services (l ++ calls) = services l) by (rewrite services_app, (services_calls calls) by done; apply app_nil_r).
    destruct (os host a c) as [u|e| |] eqn:E; [by destruct (Hc u)|intros [= <- <-]..].
    all: split; [by apply bound_first_calls|]. 2,3: done. split; [done|by exists c].
Qed.

(** The listeners of a broker that started: the WebSocket listener and the TLS
    listener are there just when they are configured. *)
Definition ws_services (st : Startup) : list Service :=
  match st_ws_bind_addr st with Some a => [WsAccept a (st_ws_path st)] | None => [] end.

Definition tls_services (st : Startup) (tls : list Service) : Prop :=
  match st_tls_bind_addr st, st_tls_config st with
  | Some a, Some config => ∃ acc, load_tls_config config = Ok acc ∧ tls = [TlsAccept a acc]
  | _, _ => tls = []
  end.

Lemma start_ws_spec host st l r l' :
  bound_first l →
  when_some (st_ws_bind_addr st) (λ ws_addr, _ ← create_tcp_listener host ws_addr; spawn (WsAccept ws_addr (st_ws_path st))) l = (r, l') →
  bound_first l' ∧
  match r with
  | Ok _ => services l' = services l ++ ws_services st
  | Err _ => services l' = services l
  | _ => True
  end.
Proof.
  intros Hl. unfold ws_services, when_some. destruct (st_ws_bind_addr st) as [a|].
  - intros E. destruct (listen_spec host a (WsAccept a (st_ws_path st)) l r l' Hl eq_refl E) as [? Hr].
    split; [done|]. destruct r; naive_solver.
  - cbv [mret task_ret]. intros [= <- <-]. by rewrite app_nil_r.
Qed.

Lemma start_tls_spec host st l r l' :
  bound_first l → start_tls host st l = (r, l') →
  bound_first l' ∧
  match r with
  | Ok _ => ∃ tls, tls_services st tls ∧ services l' = services l ++ tls
  | Err _ => services l' = services l
  | _ => True
  end.
Proof.
  intros Hl. unfold start_tls, tls_services, tls_acceptor.
  destruct (st_tls_bind_addr st) as [a|]; [destruct (st_tls_config st) as [config|]|].
  2,3: cbv [mret task_ret]; intros [= <- <-]; split; [done|]; exists []; by rewrite app_nil_r.
  destruct (load_tls_config config) as [acc| | |] eqn:El; cbn; [|by intros [= <- <-]..].
  intros E. destruct (listen_spec host a (TlsAccept a acc) l r l' Hl eq_refl E) as [? Hr].
  split; [done|]. destruct r; naive_solver.
Qed.

Lemma start_listeners_spec host st r l :
  start_listeners host st [] = (r, l) →
  bound_first l ∧
  match r with
  | Ok _ => ∃ tls, tls_services st tls ∧ services l = TcpAccept (st_bind_addr st) :: ws_services st ++ tls
  | Err e =>
      (services l = [] ∧ ∃ c, os host (st_bind_addr st) c = Err e) ∨
      services l = [TcpAccept (st_bind_addr st)] ∨ services l = TcpAccept (st_bind_addr st) :: ws_services st
  | _ => True
  end.
Proof.
  assert (H0 : bound_first []) by (intros l1 s l2 a E; by destruct l1).
  unfold start_listeners. rewrite start_bind_assoc. cbv [mbind task_bind].
  match goal with |- context [(create_tcp_listener host ?a ?l0)] =>
    destruct ((create_tcp_listener host a ≫= λ _, spawn (TcpAccept a)) l0) as [r1 l1] eqn:E1 end.
  pose proof (listen_spec host _ (TcpAccept (st_bind_addr st)) _ _ _ H0 eq_refl E1) as [Hb1 Hr1]. cbv [mbind task_bind] in E1. rewrite E1.
  destruct r1 as [[]|e| |]; [|intros [= <- <-]; split; [done|by left]|by intros [= <- <-]..]. cbn in Hr1.
  destruct (when_some _ _ l1) as [r2 l2] eqn:E2. pose proof (start_ws_spec host st _ _ _ Hb1 E2) as [Hb2 Hr2].
  destruct r2 as [[]|e| |]; [|intros [= <- <-]; rewrite Hr2, Hr1; split; [done|by right; left]|by intros [= <- <-]..].
  intros E3. pose proof (start_tls_spec host st _ _ _ Hb2 E3) as [Hb3 Hr3]. split; [done|].
  destruct r as [[]|e| |]; [|right; right; by rewrite Hr3, Hr2, Hr1|done..].
  destruct Hr3 as (tls & Ht & ->). exists tls. split; [done|]. by rewrite Hr2, Hr1.
Qed.

Lemma services_spawned b : services (Spawned <$> b) = b.
Proof. induction b as [|s b IH]; [done|]. cbn. by f_equal. Qed.

Lemma broker_config_server parallelism args c st :
  broker_config parallelism args c = Some st →
  st_tls_bind_addr st = sv_tls_bind (cf_server c) ∧ st_tls_config st = sv_tls (cf_server c) ∧
  st_ws_path st = sv_ws_path (cf_server c).
Proof. unfold broker_config. cbv zeta. intros (q & _ & [= <-])%bind_Some. done. Qed.

Lemma filter_accepts_all l : Forall (λ s, accepts_clients s = true) l → List.filter accepts_clients l = l.
Proof. induction 1 as [|s l Hs _ IH]; [done|]. cbn. by rewrite Hs, IH. Qed.

Lemma filter_accepts_none l : Forall (λ s, accepts_clients s = false) l → List.filter accepts_clients l = [].
Proof. induction 1 as [|s l Hs _ IH]; [done|]. cbn. by rewrite Hs, IH. Qed.

Lemma ws_accepts st : Forall (λ s, accepts_clients s = true) (ws_services st).
Proof. unfold ws_services. case_match; by repeat constructor. Qed.

Lemma tls_accepts st tls : tls_services st tls → Forall (λ s, accepts_clients s = true) tls.
Proof. unfold tls_services. repeat case_match; naive_solver. Qed.

(** ** Configured listeners *)

(** C32. A broker that starts listens exactly where its configuration says. When
    the settings come from a valid configuration and [run] gets to wait for
    Ctrl+C, the loops that take clients are one at the configured TCP address,
    one for WebSockets just when it is configured, and one for TLS just when
    it is configured, with the certificates and the client authentication loaded
    for it: a configured TLS listener is never left out. A loop starts only
    after the calls that make a socket listen at its address have succeeded, the
    call that binds it among them. When [run] returns an error, only such loops
    are running: none when a call for the TCP address failed, else the TCP loop,
    which already takes clients. *)
Theorem configured_listeners parallelism args c st host parts :
  config_valid c → broker_config parallelism args c = Some st →
  match run host st parts [] with
  | (Ok _, trace) =>
      bound_first trace ∧
      ∃ tls, List.filter accepts_clients (services trace) =
        TcpAccept (st_bind_addr st) ::
        match st_ws_bind_addr st with Some a => [WsAccept a (sv_ws_path (cf_server c))] | None => [] end ++ tls ∧
      match sv_tls_bind (cf_server c) with
      | Some a => ∃ config acc,
          sv_tls (cf_server c) = Some config ∧ load_tls_config config = Ok acc ∧ tls = [TlsAccept a acc]
      | None => tls = []
      end
  | (Err e, trace) =>
      bound_first trace ∧ Forall (λ s, accepts_clients s = true) (services trace) ∧
      (TcpAccept (st_bind_addr st) ∈ services trace ∨
       services trace = [] ∧ ∃ call, os host (st_bind_addr st) call = Err e)
  | _ => True
  end.
Proof.
  intros Hv Hst. destruct (broker_config_server _ _ _ _ Hst) as (Eb & Ec & Ep). pose proof (ws_accepts st) as Hw.
  unfold run. cbv [mbind task_bind]. destruct (start_listeners host st []) as [r l] eqn:E.
  apply start_listeners_spec in E as [Hb Hr]. destruct r as [[]|e| |]; [| |done..].
  - destruct Hr as (tls & Ht & Hs). rewrite start_tasks_ok. destruct (ctrl_c host); [|done]. cbv [mret task_ret].
    pose proof (background_no_listener parts st _ (node_no_listener host parts)) as Hn. split.
    { apply bound_first_background; [done|]. eapply Forall_impl; [exact Hn|]. by intros []. }
    exists tls. rewrite services_app, services_spawned, Hs, List.filter_app, (filter_accepts_none _ Hn), app_nil_r, <-Ep. split.
    + apply filter_accepts_all. constructor; [done|]. apply Forall_app. split; [done|by eapply tls_accepts].
    + unfold tls_services in Ht. rewrite Eb, Ec in Ht. destruct (sv_tls_bind (cf_server c)) as [a|] eqn:Ea; [|done].
      destruct (cv_tls c Hv) as (config & Hc & _); [by rewrite Ea|]. rewrite Hc in Ht. destruct Ht as (acc & ? & ->). by exists config, acc.
  - split; [done|]. destruct Hr as [[Hs Hc]|[Hs|Hs]]; rewrite Hs.
    + split; [constructor|by right].
    + split; [by repeat constructor|left; left].
    + split; [by constructor|left; left].
Qed.

(** ** What the signal ends *)
Lemma run_events_snoc r es e : run_events r (es ++ [e]) = run_event (run_events r es) e.
Proof. unfold run_events. by rewrite foldl_app. Qed.

Definition is_shutdown (e : RunEvent) : bool := match e with Shutdown => true | _ => false end.

(** Without a signal the tasks go on, and only connections accepted meanwhile are
    new. *)
Lemma run_events_quiet r es :
  Forall (λ e, is_shutdown e = false) es →
  rn_services (run_events r es) = rn_services r ∧
  ∀ id, id ∈ rn_connections (run_events r es) → id ∈ rn_connections r ∨ ∃ n, Accept n id ∈ es.
Proof.
  induction es as [|e es IH] using rev_ind; [by intros _; split; [|left]|]. rewrite Forall_app, Forall_singleton, run_events_snoc.
  intros [Hes He]. destruct (IH Hes) as [Hs Hc]. destruct e as [n id| id |]; [| |done]; cbn.
  - rewrite Hs. destruct (rn_services r !! n) as [l|]; [destruct (accepts_clients l)|]; cbn; rewrite ?Hs; split; try done.
    all: intros id' Hid; rewrite ?elem_of_app, ?list_elem_of_singleton in Hid.
    1: destruct Hid as [Hid| ->]; [|right; exists n; set_solver].
    all: destruct (Hc _ Hid) as [?|[m ?]]; [by left|right; exists m; set_solver].
  - split; [done|]. intros id'. rewrite list_elem_of_In, filter_In, <- list_elem_of_In. intros [Hid _].
    destruct (Hc _ Hid) as [?|[m ?]]; [by left|right; exists m; set_solver].
Qed.

(** What the shutdown signal ends. Whatever was accepted before it, every
    connection of that moment ends and so does every task but the listeners and
    the two tasks of a cluster node; the listeners still take clients, and a
    client that they take then is not told: it stays connected until it leaves or
    the process ends. *)
Theorem shutdown_ends services before after :
  Forall (λ e, is_shutdown e = false) before → Forall (λ e, is_shutdown e = false) after →
  let r := run_events (MkRunning services []) (before ++ Shutdown :: after) in
  rn_services r = List.filter (λ s, negb (has_receiver s)) services ∧
  (∀ id, id ∈ rn_connections r → ∃ n, Accept n id ∈ after) ∧
  (∀ n l id, rn_services r !! n = Some l → accepts_clients l = true → id ∈ rn_connections (run_event r (Accept n id))) ∧
  (∀ s, s ∈ services → accepts_clients s = true → s ∈ rn_services r).
Proof.
  intros Hb Ha. cbv zeta. destruct (run_events_quiet (MkRunning services []) before Hb) as [Es _]. cbn [rn_services] in Es.
  set (r1 := run_event (run_events (MkRunning services []) before) Shutdown).
  assert (run_events (MkRunning services []) (before ++ Shutdown :: after) = run_events r1 after) as ->.
  { unfold run_events. by rewrite foldl_app. }
  destruct (run_events_quiet r1 after Ha) as [Er Hc]. unfold r1 in Er at 2. cbn [run_event rn_services] in Er. rewrite Es in Er.
  split; [exact Er|]. split_and!.
  - intros id Hid. destruct (Hc id Hid) as [Hn|]; [|done]. by apply elem_of_nil in Hn.
  - intros n l id Hl Hacc. unfold run_event. rewrite Hl, Hacc. cbn [rn_connections]. rewrite elem_of_app, list_elem_of_singleton. by right.
  - intros s Hs Hacc. rewrite Er, list_elem_of_In, filter_In, <- list_elem_of_In. split; [done|]. by destruct s.
Qed.

(** ** The storage

    [FjallBackend::open], [flush] and [close]: calls of the library fjall. *)
Inductive StoreCall : Type :=
  | OpenKeyspace (path : string)
  | OpenPartition (name : string)
  | PersistSyncAll.

Definition open_calls (path : string) : list StoreCall :=
  [OpenKeyspace path; OpenPartition "retained"; OpenPartition "sessions"; OpenPartition "users"; OpenPartition "roles"].

Definition FjallBackend_open (store : StoreCall → outcome string unit) (path : string) : outcome string unit :=
  all_calls store (open_calls path).
Definition backend_flush (store : StoreCall → outcome string unit) : outcome string unit := store PersistSyncAll.
Definition backend_close (store : StoreCall → outcome string unit) : outcome string unit := backend_flush store.

(** ** The gossip of a cluster node

    [ClusterManager::new]: what the library chitchat is started with. *)
Record ChitchatConfig : Type := MkChitchat {
  cc_node_id : string;
  cc_gossip_advertise_addr : SocketAddr;
  cc_cluster_id : string;
  cc_gossip_interval : Z;
  cc_listen_addr : SocketAddr;
  cc_seed_nodes : list string;
  cc_marked_for_deletion_grace_period : Z;
  cc_peer_addr : SocketAddr;
  cc_subscriptions : string;
}.

Definition chitchat_config (hostname : option string) (nanos : Z) (local_ip : option IpAddr) (config : ClusterConfig) :
    ChitchatConfig :=
  {| cc_node_id := get_node_id hostname nanos config;
     cc_gossip_advertise_addr := get_gossip_advertise_addr local_ip config;
     cc_cluster_id := "vibemq";
     cc_gossip_interval := cl_gossip_interval config;
     cc_listen_addr := cl_gossip_addr config;
     cc_seed_nodes := cl_seeds config;
     cc_marked_for_deletion_grace_period := cl_dead_node_grace_period config;
     cc_peer_addr := get_peer_advertise_addr local_ip config;
     cc_subscriptions := "[]" |}.

(** ** [main]

    From the configuration to the end of the program. [me_load] is what loading
    the stored data gives, the number of retained messages; [me_flush] what the
    shutdown of the persistence manager gives; [me_profile], with the feature
    [pprof] and an output directory, what writing the profiles gives. *)
Record MainEnv : Type := MkMainEnv {
  me_host : Host;
  me_parallelism : option Z;
  me_parse_net : string → option IpNet;
  me_now : Z;
  me_store : StoreCall → outcome string unit;
  me_load : outcome string Z;
  me_hostname : option string;
  me_local_ip : option IpAddr;
  me_chitchat : ChitchatConfig → outcome string unit;
  me_flush : outcome string unit;
  me_profile : option (outcome string unit);
}.

Inductive MainEvent : Type :=
  | RetainedRestored (messages : Z)
  | GossipStarted (config : ChitchatConfig)
  | MetricsServing (addr : SocketAddr)
  | BrokerRan (trace : list Step) (result : outcome string unit)
  | PersistenceShutDown (result : outcome string unit)
  | ProfilesWritten (result : outcome string unit).

(** [exit(1)], a panic, or the return of [main]. *)
Inductive Exit : Type :=
  | ExitOne
  | Crash
  | Return (result : outcome string unit).

(** The setup that can end the program: storage, then cluster. *)
Definition restore (env : MainEnv) (c : Config) : option (list MainEvent) :=
  if pc_enabled (cf_persistence c) then
    match (_ ← FjallBackend_open (me_store env) (pc_path (cf_persistence c)); me_load env) with
    | Ok n => Some [RetainedRestored n]
    | _ => None
    end
  else Some [].

Definition start_cluster (env : MainEnv) (c : Config) : option (list MainEvent) :=
  match cluster_choice c with
  | Some config =>
      let cc := chitchat_config (me_hostname env) (me_now env) (me_local_ip env) config in
      match me_chitchat env cc with Ok _ => Some [GossipStarted cc] | _ => None end
  | None => Some []
  end.

Definition broker_parts (env : MainEnv) (c : Config) : BrokerParts :=
  {| bp_flapping_detector := dos_protection (me_parse_net env) (me_now env) c;
     bp_bridge_manager := negb (is_nil (cf_bridge c));
     bp_cluster_manager := cluster_choice c;
     bp_metrics := mc_enabled (cf_metrics c) |}.

(** After [run], whatever its result: the writes of the persistence manager are
    flushed, then the profiles are written; errors of both are only reported. *)
Definition finish (env : MainEnv) (c : Config) : list MainEvent :=
  (if pc_enabled (cf_persistence c) then [PersistenceShutDown (me_flush env)] else []) ++
  match me_profile env with Some r => [ProfilesWritten r] | None => [] end.

Definition main (env : MainEnv) (args : Args) (c : Config) : list MainEvent * Exit :=
  match broker_config (me_parallelism env) args c with
  | None => ([], ExitOne)
  | Some st =>
      match restore env c with
      | None => ([], ExitOne)
      | Some restored =>
          match start_cluster env c with
          | None => (restored, ExitOne)
          | Some gossip =>
              let before := restored ++ gossip ++ (if mc_enabled (cf_metrics c) then [MetricsServing (mc_bind (cf_metrics c))] else []) in
              let '(result, trace) := run (me_host env) st (broker_parts env c) [] in
              match result with
              | Panic | NoFuel => (before ++ [BrokerRan trace result], Crash)
              | _ => (before ++ BrokerRan trace result :: finish env c, Return result)
              end
          end
      end
  end.

(** ** The order of the end *)

(** A program that got as far as running the broker flushes what it has to
    store. When [main] returns, with the broker's result, the broker ran after
    the stored messages were restored and exactly once; with persistence
    enabled the writes are flushed after it, also when it failed, and the
    profiles come last. The settings it ran with are those of the configuration,
    and its listeners are those of [run]. *)
Theorem main_flushes env args c events result :
  main env args c = (events, Return result) →
  ∃ st setup trace,
    broker_config (me_parallelism env) args c = Some st ∧
    run (me_host env) st (broker_parts env c) [] = (result, trace) ∧
    events = setup ++ BrokerRan trace result ::
      (if pc_enabled (cf_persistence c) then [PersistenceShutDown (me_flush env)] else []) ++
      (match me_profile env with Some r => [ProfilesWritten r] | None => [] end) ∧
    (pc_enabled (cf_persistence c) = true →
      FjallBackend_open (me_store env) (pc_path (cf_persistence c)) = Ok tt ∧ ∃ n, me_load env = Ok n ∧ RetainedRestored n ∈ setup) ∧
    (∀ s r, BrokerRan s r ∉ setup).
Proof.
  unfold main. destruct (broker_config _ args c) as [st|]; [|done].
  destruct (restore env c) as [restored|] eqn:Er; [|done]. destruct (start_cluster env c) as [gossip|] eqn:Eg; [|done].
  destruct (run (me_host env) st (broker_parts env c) []) as [res services] eqn:Hrun.
  set (setup := restored ++ gossip ++ _). intros Hm. exists st, setup, services.
  assert (res = result ∧ events = setup ++ BrokerRan services result :: finish env c) as [-> ->]
    by (destruct res; by simplify_eq).
  split; [done|]. split; [done|]. split; [done|]. unfold restore in Er. split.
  - intros Hp. rewrite Hp in Er. destruct (FjallBackend_open _ _) as [[]| | |]; cbn in Er; try done.
    split; [done|]. destruct (me_load env) as [n| | |]; try done. exists n. split; [done|]. injection Er as <-. set_solver.
  - intros s r. unfold setup. rewrite !elem_of_app. intros [Hin|[Hin|Hin]].
    + repeat case_match; simplify_eq; set_solver.
    + unfold start_cluster in Eg. repeat case_match; simplify_eq; set_solver.
    + destruct (mc_enabled _); set_solver.
Qed.

End lifecycle.

(** ** The end of the persistence manager

    [PersistenceManager::shutdown]: the writer is signalled, [grace] is what it
    and the broker do within the half second that follows, then the storage is
    flushed and closed, whether the writer has taken the signal or not. *)
Section persistence_shutdown.
Context {KS B : Type} `{!Keyspace KS B}.
Context `{!Bincode StoredRetainedMessage B, !Bincode StoredSession B, !Bincode StoredUser B, !Bincode StoredRole B}.

Definition manager_shutdown (store : StoreCall → outcome string unit) (max : Z) (grace : list manager_action)
    (m : Manager (KS := KS)) : outcome string unit * Manager (KS := KS) :=
  let m := send_signal m in
  let m := run_actions max grace m in
  ((_ ← backend_flush store; backend_close store), m).

Lemma run_actions_app max a b (m : Manager (KS := KS)) : run_actions max (a ++ b) m = run_actions max b (run_actions max a m).
Proof. revert m. induction a as [|x a IH]; intros m; [done|]. cbn. apply IH. Qed.

(** The signal waits until the writer takes it. *)
Lemma signal_stays max a (m : Manager (KS := KS)) :
  running m = true → signalled m = true → running (run_action max a m) = true → signalled (run_action max a m) = true.
Proof.
  intros Hr Hs. destruct a as [op|ev c|]; cbn.
  - unfold persistence_write. by destruct (write_accepts m).
  - unfold writer_step. rewrite Hr. cbn. destruct ev; [| | |by rewrite Hs].
    + destruct (rx m); [done|]. destruct (_ >=? max); done.
    + destruct (rx m); done.
    + intros _. unfold flush_nonempty. by destruct (is_nil (batch m)).
  - unfold send_signal. by rewrite Hr.
Qed.

Lemma signal_stops max acts (m : Manager (KS := KS)) c :
  running m = false ∨ signalled m = true →
  Writer ShutdownSignal c ∈ acts → running (run_actions max acts m) = false.
Proof.
  revert m. induction acts as [|a acts IH]; intros m Hm Hin; [by apply elem_of_nil in Hin|].
  destruct (running m) eqn:Hr; [|by rewrite run_stopped]. destruct Hm as [|Hs]; [done|]. cbn.
  apply elem_of_cons in Hin as [<-|Hin].
  - rewrite run_stopped; cbn; unfold writer_step; by rewrite Hr, Hs.
  - apply IH; [|done]. destruct (running (run_action max a m)) eqn:Hr'; [|by left]. right. by apply signal_stays.
Qed.

Lemma send_signal_sent (m : Manager (KS := KS)) : running (send_signal m) = false ∨ signalled (send_signal m) = true.
Proof. unfold send_signal. destruct (running m) eqn:Hr; [by right|by left]. Qed.

(** C23. What is on disk after a shutdown, if the storage accepts what it is
    given: the effect of the operations that were accepted, in their order, up
    to those still in the writer's batch or in the channel: these, and only
    these, are lost. When the writer has taken the signal within the half second
    that it is given (the signal is there for it to take), it has stopped and
    its batch is empty, so that only what was left in the channel is lost. *)
Theorem shutdown_stores store max acts grace (ks : KS) :
  1 ≤ max → Forall (λ a, committed a = true) (acts ++ grace) →
  Forall serializable (accepted max (acts ++ Signal :: grace) (Manager_new ks)) →
  let m := (manager_shutdown store max grace (run_actions max acts (Manager_new ks))).2 in
  (∃ stored, accepted max (acts ++ Signal :: grace) (Manager_new ks) = stored ++ batch m ++ rx m ∧
     ∀ p k, ks_get p k (storage m) = foldl (apply_op p k) (ks_get p k ks) stored) ∧
  (Writer ShutdownSignal true ∈ grace → running m = false ∧ batch m = []).
Proof.
  intros Hmax Hc Hs m. assert (Hm : m = run_actions max (acts ++ Signal :: grace) (Manager_new ks)) by by rewrite run_actions_app.
  assert (Hc' : Forall (λ a, committed a = true) (acts ++ Signal :: grace)).
  { apply Forall_app in Hc as [Ha Hg]. apply Forall_app. split; [done|]. by constructor. }
  split.
  - exists (mjoin (handed_over max (acts ++ Signal :: grace) (Manager_new ks)).*1). split.
    + rewrite Hm. apply (run_queue max _ (Manager_new ks)).
    + intros p k. rewrite Hm, run_get by done. cbn [storage Manager_new].
      by rewrite all_committed_stored by by apply handed_committed.
  - intros Hin. assert (Hr : running m = false) by (apply (signal_stops _ _ _ true); [apply send_signal_sent|done]).
    split; [done|]. destruct (run_bounds max (acts ++ Signal :: grace) (Manager_new ks)) as (_ & _ & Hb);
      [done|by cbn; rewrite zlen_nil; lia|done|done|]. rewrite <-Hm in Hb. by apply Hb.
Qed.
End persistence_shutdown.

(** An operation that the writer has not taken yet is lost with the signal. *)
Example queued_write_lost :
  let op := retained_op (MkRetainedUpdate (example_clock 0) "a" (Some example_retained)) in
  let m := (manager_shutdown (B := any) (λ _, Ok tt) 100 [Writer ShutdownSignal true]
              (run_actions 100 [Write op] (Manager_new memory_empty))).2 in
  rx m = [op] ∧ list_retained None (storage m) = Ok [].
Proof. vm_compute. done. Qed.

(** ** Witnesses *)
Definition sample_host : Host := MkHost (λ _ _, Ok tt) (λ _, Ok tt) true.

Definition sample_server : ServerConfig :=
  MkServer default_bind (Some (MkSocketAddr (V4 0) 8883)) None default_ws_path 0
    (Some (MkServerTls "cert.pem" "key.pem" (Some "ca.pem"%string) true))
    ProxyProtocolConfig_default ProxyProtocolConfig_default ProxyProtocolConfig_default.
Definition sample_config : Config := Config_default <| cf_server := sample_server |>.

Lemma sample_config_valid : config_valid sample_config.
Proof. by apply validate_ok. Qed.

Definition sample_acceptor : @TlsAcceptor sample_rustls :=
  @MkAcceptor sample_rustls [x01; x02] x05 (@RequiredClientAuth sample_rustls [x07]).

Definition sample_env : MainEnv (IpNet := string) :=
  {| me_host := sample_host; me_parallelism := None; me_parse_net := λ _, None; me_now := 0; me_store := λ _, Ok tt;
     me_load := Ok 0; me_hostname := None; me_local_ip := None; me_chitchat := λ _, Ok tt; me_flush := Ok tt; me_profile := None |}.

Lemma configured_listeners_witness :
  ∃ st trace, broker_config None no_args sample_config = Some st ∧
    run (H := sample_rustls) (IpNet := string) sample_host st (MkParts None false None false) [] = (Ok tt, trace) ∧
    bound_first (H := sample_rustls) trace ∧
    List.filter accepts_clients (services trace) =
      [TcpAccept default_bind; TlsAccept (MkSocketAddr (V4 0) 8883) sample_acceptor].
Proof.
  destruct (broker_config None no_args sample_config) as [st|] eqn:Est; [|vm_compute in Est; discriminate].
  pose proof (configured_listeners (H := sample_rustls) (IpNet := string) None no_args sample_config st sample_host
    (MkParts None false None false) sample_config_valid Est) as Hl.
  exists st. destruct (run sample_host st (MkParts None false None false) []) as [r trace] eqn:Er. exists trace.
  assert (r = Ok tt) as -> by (injection Est as <-; vm_compute in Er; injection Er; intros; congruence).
  destruct Hl as (Hb & tls & Ht & config & acc & Hc & Ha & ->). split; [reflexivity|]. split; [reflexivity|].
  split; [exact Hb|]. rewrite Ht. injection Hc as <-. injection Est as <-. vm_compute in Ha. injection Ha as <-. reflexivity.
Defined.

Lemma shutdown_ends_witness :
  rn_services (run_events (H := sample_rustls) (MkRunning [TcpAccept default_bind; SessionExpiry 1; MetricsCollection] [])
    ([Accept 0 1] ++ Shutdown :: [Accept 0 2])) = [TcpAccept default_bind].
Proof.
  apply (shutdown_ends (H := sample_rustls) [TcpAccept default_bind; SessionExpiry 1; MetricsCollection] [Accept 0 1] [Accept 0 2]);
    repeat constructor.
Defined.

Lemma main_flushes_witness :
  ∃ st setup services, broker_config None no_args sample_config = Some st ∧
    (main (H := sample_rustls) sample_env no_args sample_config).1 =
      setup ++ BrokerRan services (Ok tt) :: [PersistenceShutDown (Ok tt)].
Proof.
  destruct (main_flushes (H := sample_rustls) sample_env no_args sample_config
    (main (H := sample_rustls) sample_env no_args sample_config).1 (Ok tt)) as (st & setup & services & Hst & _ & He & _).
  - vm_compute. reflexivity.
  - exists st, setup, services. split; [exact Hst|exact He].
Defined.

Lemma shutdown_stores_witness :
  let op := retained_op (MkRetainedUpdate (example_clock 0) "a" (Some example_retained)) in
  running (manager_shutdown (B := any) (λ _, Ok tt) 100 [Writer Received true; Writer ShutdownSignal true]
    (run_actions 100 [Write op] (Manager_new memory_empty))).2 = false.
Proof.
  cbv zeta.
  destruct (shutdown_stores (B := any) (λ _, Ok tt) 100
    [Write (retained_op (MkRetainedUpdate (example_clock 0) "a" (Some example_retained)))]
    [Writer Received true; Writer ShutdownSignal true] memory_empty) as [_ H].
  - lia.
  - repeat constructor.
  - repeat constructor. eexists. reflexivity.
  - apply H. right. left.
Defined.
